(** * dicescript: the value model of [types.go]

    A shallow embedding of the tagged runtime values of the dice-script
    virtual machine, of their operators, and of the sub-evaluation protocol
    for computed values and user functions.

    Go pointers are modelled by locations in an explicit heap, so that the
    sharing between a value and its clones is visible.  64-bit integers are
    [Z] with the wrap-around written out; 64-bit floats are the binary64
    instance of the IEEE-754 specification [SpecFloat]. *)

From Stdlib Require Import ZArith String Lia Bool.
From Stdlib Require Import Floats.SpecFloat.
From Stdlib Require DecimalString DecimalZ DecimalPos.
From stdpp Require Import gmap strings list.

Local Open Scope Z_scope.

(** ** Machine integers: Go's [int64] *)

Module Int64.

Definition min_int : Z := - 2 ^ 63.
Definition max_int : Z := 2 ^ 63 - 1.

Definition in_range (z : Z) : Prop := min_int <= z <= max_int.

Definition in_rangeb (z : Z) : bool := (min_int <=? z) && (z <=? max_int).

(** Two's-complement wrap-around of an unbounded result. *)
Definition wrap (z : Z) : Z := (z + 2 ^ 63) mod 2 ^ 64 - 2 ^ 63.

Definition add (a b : Z) : Z := wrap (a + b).
Definition sub (a b : Z) : Z := wrap (a - b).
Definition mul (a b : Z) : Z := wrap (a * b).
Definition neg (a : Z) : Z := wrap (- a).

(** Go's [/] and [%] truncate towards zero; [min_int / -1] wraps. *)
Definition quot (a b : Z) : Z := wrap (Z.quot a b).
Definition rem (a b : Z) : Z := Z.rem a b.

End Int64.

(** ** Floating point: Go's [float64] *)

Module Float64.

Definition prec : Z := 53.
Definition emax : Z := 1024.

Definition zero : spec_float := S754_zero false.

Definition add : spec_float -> spec_float -> spec_float := SFadd prec emax.
Definition sub : spec_float -> spec_float -> spec_float := SFsub prec emax.
Definition mul : spec_float -> spec_float -> spec_float := SFmul prec emax.
Definition div : spec_float -> spec_float -> spec_float := SFdiv prec emax.
Definition neg : spec_float -> spec_float := SFopp.

(** The comparisons [==], [<], [>], [<=], [>=] of Go on floats. *)
Definition eqb : spec_float -> spec_float -> bool := SFeqb.
Definition ltb : spec_float -> spec_float -> bool := SFltb.
Definition leb : spec_float -> spec_float -> bool := SFleb.
Definition gtb (a b : spec_float) : bool := SFltb b a.
Definition geb (a b : spec_float) : bool := SFleb b a.

(** The conversion [float64(i)] of an [int64]: round to nearest, ties to
    even. *)
Definition of_int64 (i : Z) : spec_float :=
  binary_normalize prec emax i 0 false.

(** The conversion [int64(f)]: the fraction is discarded.  Go leaves the
    result open when the value does not fit; the model takes what the
    amd64 conversion instruction yields there, the most negative
    integer. *)
Definition to_int64 (f : spec_float) : Z :=
  match f with
  | S754_zero _ => 0
  | S754_finite s m e =>
      let mag := if 0 <=? e then Z.pos m * 2 ^ e
                 else Z.pos m / 2 ^ (- e) in
      let r := if s then - mag else mag in
      if Int64.in_rangeb r then r else Int64.min_int
  | S754_infinity _ | S754_nan => Int64.min_int
  end.

End Float64.

(** ** The data model *)

Inductive VMValueType : Set :=
  | VMTypeInt
  | VMTypeFloat
  | VMTypeString
  | VMTypeUndefined
  | VMTypeNull
  | VMTypeComputedValue
  | VMTypeArray
  | VMTypeFunction
  | VMTypeNativeFunction.

#[global] Instance VMValueType_eq_dec : EqDecision VMValueType.
Proof. solve_decision. Defined.

(** The numbers the constants stand for. *)
Definition VMValueType_code (t : VMValueType) : Z :=
  match t with
  | VMTypeInt => 0
  | VMTypeFloat => 1
  | VMTypeString => 2
  | VMTypeUndefined => 3
  | VMTypeNull => 4
  | VMTypeComputedValue => 5
  | VMTypeArray => 6
  | VMTypeFunction => 8
  | VMTypeNativeFunction => 9
  end.

(** Heap locations, and Go pointers: [nil] is [None]. *)
Definition loc : Set := positive.
Definition ptr : Set := option loc.

(** What a [Value interface{}] field can hold: nothing, a scalar by value,
    or a pointer to the data of a container. *)
Inductive iface : Set :=
  | INil
  | IInt64 (i : Z)
  | IFloat64 (f : spec_float)
  | IString (s : string)
  | IArrayData (p : loc)
  | IComputedData (p : loc)
  | IFunctionData (p : loc)
  | INativeFunctionData (p : loc).

Record VMValue : Set := mkVMValue { TypeId : VMValueType; Value : iface }.

(** Modelled from the spec: ByteCode is declared outside types.go; the
    encoding of an instruction is left open, so it is kept as an opcode
    number with one operand. *)
Record ByteCode : Set := mkByteCode { T : Z; Operand : iface }.

(** Modelled from the spec: ValueMap is declared outside types.go; it is the
    insertion-ordered map from strings to values, with [Put] and [Get]. *)
Definition ValueMap : Set := list (string * ptr).

Fixpoint ValueMap_Put (m : ValueMap) (k : string) (v : ptr) : ValueMap :=
  match m with
  | [] => [(k, v)]
  | (k', v') :: m' =>
      if String.eqb k' k then (k, v) :: m' else (k', v') :: ValueMap_Put m' k v
  end.

Fixpoint ValueMap_Get (m : ValueMap) (k : string) : ptr * bool :=
  match m with
  | [] => (None, false)
  | (k', v') :: m' => if String.eqb k' k then (v', true) else ValueMap_Get m' k
  end.

Record RollExtraFlags : Set := mkFlags {
  DiceMinMode : bool;
  DiceMaxMode : bool;
  DisableLoadVarname : bool;
  IgnoreDiv0 : bool;
  DefaultDiceSideNum : Z;
  DefaultDiceSideExpr : string;
  PrintBytecode : bool
}.

Module ComputedData.
Record t : Set := mk {
  Expr : string;
  Attrs : option ValueMap;
  code : option (list ByteCode);
  codeIndex : Z
}.

Definition set_Attrs (a : option ValueMap) (d : t) : t :=
  mk (Expr d) a (code d) (codeIndex d).

Definition set_code (b : option (list ByteCode)) (i : Z) (d : t) : t :=
  mk (Expr d) (Attrs d) b i.
End ComputedData.

Module FunctionData.
Record t : Set := mk {
  Expr : string;
  Name : string;
  Params : list string;
  code : option (list ByteCode);
  codeIndex : Z;
  ctx : option positive
}.

Definition set_code (b : option (list ByteCode)) (i : Z) (d : t) : t :=
  mk (Expr d) (Name d) (Params d) b i (ctx d).
End FunctionData.

(** An evaluation frame.  The two host callbacks are closures of the host:
    this file only copies them, so they are kept as opaque handles.  The
    field [parser] leads to the parser that owns the frame; its entries are
    the parameters of the sub-evaluator below. *)
Module Context.
Record t : Set := mk {
  currentThis : ptr;
  subThreadDepth : Z;
  attrs : option ValueMap;
  code : option (list ByteCode);
  codeIndex : Z;
  stack : list VMValue;
  top : Z;
  NumOpCount : Z;
  Flags : RollExtraFlags;
  Error : option string;
  Ret : ptr;
  RestInput : string;
  Matched : string;
  ValueStoreNameFunc : option positive;
  ValueLoadNameFunc : option positive
}.

Definition set_Error (e : option string) (c : t) : t :=
  mk (currentThis c) (subThreadDepth c) (attrs c) (code c) (codeIndex c)
     (stack c) (top c) (NumOpCount c) (Flags c) e (Ret c) (RestInput c)
     (Matched c) (ValueStoreNameFunc c) (ValueLoadNameFunc c).

Definition set_NumOpCount (n : Z) (c : t) : t :=
  mk (currentThis c) (subThreadDepth c) (attrs c) (code c) (codeIndex c)
     (stack c) (top c) n (Flags c) (Error c) (Ret c) (RestInput c)
     (Matched c) (ValueStoreNameFunc c) (ValueLoadNameFunc c).

Definition set_attrs (a : option ValueMap) (c : t) : t :=
  mk (currentThis c) (subThreadDepth c) a (code c) (codeIndex c)
     (stack c) (top c) (NumOpCount c) (Flags c) (Error c) (Ret c)
     (RestInput c) (Matched c) (ValueStoreNameFunc c) (ValueLoadNameFunc c).

Definition set_code (b : option (list ByteCode)) (i : Z) (c : t) : t :=
  mk (currentThis c) (subThreadDepth c) (attrs c) b i
     (stack c) (top c) (NumOpCount c) (Flags c) (Error c) (Ret c)
     (RestInput c) (Matched c) (ValueStoreNameFunc c) (ValueLoadNameFunc c).

Definition set_Flags (f : RollExtraFlags) (c : t) : t :=
  mk (currentThis c) (subThreadDepth c) (attrs c) (code c) (codeIndex c)
     (stack c) (top c) (NumOpCount c) f (Error c) (Ret c)
     (RestInput c) (Matched c) (ValueStoreNameFunc c) (ValueLoadNameFunc c).

Definition set_ValueStoreNameFunc (f : option positive) (c : t) : t :=
  mk (currentThis c) (subThreadDepth c) (attrs c) (code c) (codeIndex c)
     (stack c) (top c) (NumOpCount c) (Flags c) (Error c) (Ret c)
     (RestInput c) (Matched c) f (ValueLoadNameFunc c).

Definition set_ValueLoadNameFunc (f : option positive) (c : t) : t :=
  mk (currentThis c) (subThreadDepth c) (attrs c) (code c) (codeIndex c)
     (stack c) (top c) (NumOpCount c) (Flags c) (Error c) (Ret c)
     (RestInput c) (Matched c) (ValueStoreNameFunc c) f.

Definition set_subThreadDepth (d : Z) (c : t) : t :=
  mk (currentThis c) d (attrs c) (code c) (codeIndex c)
     (stack c) (top c) (NumOpCount c) (Flags c) (Error c) (Ret c)
     (RestInput c) (Matched c) (ValueStoreNameFunc c) (ValueLoadNameFunc c).

Definition set_currentThis (v : ptr) (c : t) : t :=
  mk v (subThreadDepth c) (attrs c) (code c) (codeIndex c)
     (stack c) (top c) (NumOpCount c) (Flags c) (Error c) (Ret c)
     (RestInput c) (Matched c) (ValueStoreNameFunc c) (ValueLoadNameFunc c).
End Context.

(** ** The heap and the state of a run *)

Record Heap : Type := mkHeap {
  values : gmap loc VMValue;            (* the cells behind [*VMValue] *)
  arrays : gmap loc (list ptr);         (* [ArrayData.List] behind [*ArrayData] *)
  computeds : gmap loc ComputedData.t;  (* the cells behind [*ComputedData] *)
  functions : gmap loc FunctionData.t   (* the cells behind [*FunctionData] *)
}.

Definition set_values (f : gmap loc VMValue -> gmap loc VMValue) (h : Heap) : Heap :=
  mkHeap (f (values h)) (arrays h) (computeds h) (functions h).

Definition set_arrays (f : gmap loc (list ptr) -> gmap loc (list ptr)) (h : Heap) : Heap :=
  mkHeap (values h) (f (arrays h)) (computeds h) (functions h).

Definition set_computeds
    (f : gmap loc ComputedData.t -> gmap loc ComputedData.t) (h : Heap) : Heap :=
  mkHeap (values h) (arrays h) (f (computeds h)) (functions h).

Definition set_functions
    (f : gmap loc FunctionData.t -> gmap loc FunctionData.t) (h : Heap) : Heap :=
  mkHeap (values h) (arrays h) (computeds h) (f (functions h)).

(** The entries of the external parser that the sub-evaluator calls: the
    compile-and-run entry with its source text, and the run entry with the
    bytecode it is handed.  The state records each call, in order. *)
Inductive ParserCall : Set :=
  | CallRun (expr : string)
  | CallEvaluate (code : option (list ByteCode)).

Record State : Type := mkState {
  ctx : Context.t;
  heap : Heap;
  calls : list ParserCall
}.

Definition with_ctx (f : Context.t -> Context.t) (s : State) : State :=
  mkState (f (ctx s)) (heap s) (calls s).

Definition with_heap (f : Heap -> Heap) (s : State) : State :=
  mkState (ctx s) (f (heap s)) (calls s).

Definition with_call (c : ParserCall) (s : State) : State :=
  mkState (ctx s) (heap s) (calls s ++ [c]).

(** ** The monad of Go code: state, and run-time panics *)

Inductive panic : Set :=
  | NilDereference
  | IndexPanic
  | IntegerDivideByZero
  | TypeAssertion
  | MakeNegativeLen.

Inductive outcome (A : Type) : Type :=
  | Returned (a : A) (s : State)
  | Panicked (p : panic).

Arguments Returned {A} a s.
Arguments Panicked {A} p.

Definition Go (A : Type) : Type := State -> outcome A.

#[global] Instance Go_ret : MRet Go := fun A a s => Returned a s.

#[global] Instance Go_bind : MBind Go := fun A B f m s =>
  match m s with
  | Returned a s' => f a s'
  | Panicked p => Panicked p
  end.

Definition throw {A : Type} (p : panic) : Go A := fun _ => Panicked p.

Definition get_state : Go State := fun s => Returned s s.

Definition modify (f : State -> State) : Go unit := fun s => Returned tt (f s).

(** [*p] for a [*VMValue]. *)
Definition deref (p : ptr) : Go VMValue := fun s =>
  match p with
  | None => Panicked NilDereference
  | Some l =>
      match values (heap s) !! l with
      | Some c => Returned c s
      | None => Panicked NilDereference
      end
  end.

(** [&VMValue{...}]: a new cell. *)
Definition new_value (c : VMValue) : Go ptr := fun s =>
  let l := fresh (dom (values (heap s))) in
  Returned (Some l) (with_heap (set_values (insert l c)) s).

(** [&ArrayData{data}]. *)
Definition new_array (data : list ptr) : Go loc := fun s =>
  let l := fresh (dom (arrays (heap s))) in
  Returned l (with_heap (set_arrays (insert l data)) s).

(** [arr.List], and [arr.List = data]. *)
Definition get_List (arr : option loc) : Go (list ptr) := fun s =>
  match arr with
  | None => Panicked NilDereference
  | Some l =>
      match arrays (heap s) !! l with
      | Some data => Returned data s
      | None => Panicked NilDereference
      end
  end.

Definition set_List (arr : option loc) (data : list ptr) : Go unit := fun s =>
  match arr with
  | None => Panicked NilDereference
  | Some l =>
      match arrays (heap s) !! l with
      | Some _ => Returned tt (with_heap (set_arrays (insert l data)) s)
      | None => Panicked NilDereference
      end
  end.

(** The fields of a [*ComputedData] and of a [*FunctionData]. *)
Definition get_computed (cd : option loc) : Go ComputedData.t := fun s =>
  match cd with
  | None => Panicked NilDereference
  | Some l =>
      match computeds (heap s) !! l with
      | Some d => Returned d s
      | None => Panicked NilDereference
      end
  end.

Definition update_computed (cd : option loc)
    (f : ComputedData.t -> ComputedData.t) : Go unit := fun s =>
  match cd with
  | None => Panicked NilDereference
  | Some l =>
      match computeds (heap s) !! l with
      | Some d => Returned tt (with_heap (set_computeds (insert l (f d))) s)
      | None => Panicked NilDereference
      end
  end.

Definition get_function (cd : option loc) : Go FunctionData.t := fun s =>
  match cd with
  | None => Panicked NilDereference
  | Some l =>
      match functions (heap s) !! l with
      | Some d => Returned d s
      | None => Panicked NilDereference
      end
  end.

Definition update_function (cd : option loc)
    (f : FunctionData.t -> FunctionData.t) : Go unit := fun s =>
  match cd with
  | None => Panicked NilDereference
  | Some l =>
      match functions (heap s) !! l with
      | Some d => Returned tt (with_heap (set_functions (insert l (f d))) s)
      | None => Panicked NilDereference
      end
  end.

(** [ctx.Error = errors.New(msg)], and reading [ctx.Error]. *)
Definition set_Error (msg : string) : Go unit :=
  modify (with_ctx (Context.set_Error (Some msg))).

Definition get_Error : Go (option string) := fun s =>
  Returned (Context.Error (ctx s)) s.

(** The type assertions [x.(int64)], [x.(float64)], ...: a panic when the
    dynamic type is another one. *)
Definition as_int64 (x : iface) : Go Z :=
  match x with IInt64 i => mret i | _ => throw TypeAssertion end.

Definition as_float64 (x : iface) : Go spec_float :=
  match x with IFloat64 f => mret f | _ => throw TypeAssertion end.

Definition as_string (x : iface) : Go string :=
  match x with IString s => mret s | _ => throw TypeAssertion end.

Definition as_ArrayData (x : iface) : Go loc :=
  match x with IArrayData p => mret p | _ => throw TypeAssertion end.

Definition as_ComputedData (x : iface) : Go loc :=
  match x with IComputedData p => mret p | _ => throw TypeAssertion end.

Definition as_FunctionData (x : iface) : Go loc :=
  match x with IFunctionData p => mret p | _ => throw TypeAssertion end.

Definition new_computed (d : ComputedData.t) : Go loc := fun s =>
  let l := fresh (dom (computeds (heap s))) in
  Returned l (with_heap (set_computeds (insert l d)) s).

Definition new_function (d : FunctionData.t) : Go loc := fun s =>
  let l := fresh (dom (functions (heap s))) in
  Returned l (with_heap (set_functions (insert l d)) s).

(** ** Constructors *)

Definition VMValueNewInt (i : Z) : Go ptr :=
  new_value (mkVMValue VMTypeInt (IInt64 i)).

Definition VMValueNewFloat (i : spec_float) : Go ptr :=
  new_value (mkVMValue VMTypeFloat (IFloat64 i)).

Definition VMValueNewStr (s : string) : Go ptr :=
  new_value (mkVMValue VMTypeString (IString s)).

Definition VMValueNewUndefined : Go ptr :=
  new_value (mkVMValue VMTypeUndefined INil).

Definition VMValueNewNull : Go ptr :=
  new_value (mkVMValue VMTypeNull INil).

Definition VMValueNewArrayRaw (data : list ptr) : Go ptr :=
  d ← new_array data;
  new_value (mkVMValue VMTypeArray (IArrayData d)).

(** The loop [for _, i := range values { data = append(data, i) }]. *)
Definition append_all (values : list ptr) : list ptr :=
  fold_left (fun data i => data ++ [i]) values [].

Definition VMValueNewArray (values : list ptr) : Go ptr :=
  d ← new_array (append_all values);
  new_value (mkVMValue VMTypeArray (IArrayData d)).

Definition VMValueNewComputedRaw (computed : loc) : Go ptr :=
  new_value (mkVMValue VMTypeComputedValue (IComputedData computed)).

Definition VMValueNewComputed (expr : string) : Go ptr :=
  d ← new_computed (ComputedData.mk expr None None 0);
  new_value (mkVMValue VMTypeComputedValue (IComputedData d)).

Definition VMValueNewFunctionRaw (computed : loc) : Go ptr :=
  new_value (mkVMValue VMTypeFunction (IFunctionData computed)).

(** ** Copies and readers *)

Definition Clone (v : ptr) : Go ptr :=
  c ← deref v;
  new_value (mkVMValue (TypeId c) (Value c)).

(** Go's [==] on two interface values: the dynamic types must agree; scalars
    are compared by value (floats by the IEEE rule), pointers by address. *)
Definition iface_eqb (x y : iface) : bool :=
  match x, y with
  | INil, INil => true
  | IInt64 a, IInt64 b => a =? b
  | IFloat64 a, IFloat64 b => Float64.eqb a b
  | IString a, IString b => String.eqb a b
  | IArrayData p, IArrayData q => bool_decide (p = q)
  | IComputedData p, IComputedData q => bool_decide (p = q)
  | IFunctionData p, IFunctionData q => bool_decide (p = q)
  | INativeFunctionData p, INativeFunctionData q => bool_decide (p = q)
  | _, _ => false
  end.

Definition AsBool (v : ptr) : Go bool :=
  c ← deref v;
  match TypeId c with
  | VMTypeInt => mret (negb (iface_eqb (Value c) (IInt64 0)))
  | VMTypeString => mret (negb (iface_eqb (Value c) (IString "")))
  | VMTypeNull | VMTypeUndefined => mret false
  | _ => mret false
  end.

Definition ReadInt (v : ptr) : Go (Z * bool) :=
  c ← deref v;
  if decide (TypeId c = VMTypeInt)
  then i ← as_int64 (Value c); mret (i, true)
  else mret (0, false).

Definition ReadFloat (v : ptr) : Go (spec_float * bool) :=
  c ← deref v;
  if decide (TypeId c = VMTypeFloat)
  then f ← as_float64 (Value c); mret (f, true)
  else mret (Float64.zero, false).

Definition ReadString (v : ptr) : Go (string * bool) :=
  c ← deref v;
  if decide (TypeId c = VMTypeString)
  then s ← as_string (Value c); mret (s, true)
  else mret (EmptyString, false).

Definition ReadArray (v : ptr) : Go (option loc * bool) :=
  c ← deref v;
  if decide (TypeId c = VMTypeArray)
  then p ← as_ArrayData (Value c); mret (Some p, true)
  else mret (None, false).

Definition ReadComputed (v : ptr) : Go (option loc * bool) :=
  c ← deref v;
  if decide (TypeId c = VMTypeComputedValue)
  then p ← as_ComputedData (Value c); mret (Some p, true)
  else mret (None, false).

Definition ReadFunctionData (v : ptr) : Go (option loc * bool) :=
  c ← deref v;
  if decide (TypeId c = VMTypeFunction)
  then p ← as_FunctionData (Value c); mret (Some p, true)
  else mret (None, false).

(** ** The error messages, under the names the specification gives them *)

Definition ArrayTooLarge : string := "不能一次性创建过长的数组".
Definition DivideByZero : string := "被除数被0".
Definition IndexOutOfRange : string := "无法获取此下标".
Definition NotIndexable : string := "此类型无法取下标".
Definition NotSliceable : string := "这个类型无法取得分片".
Definition NotSliceAssignable : string := "这个类型无法赋值分片".
Definition ValueNotArray : string := "val 的类型必须是一个列表".
Definition FirstIndexNotInt : string := "第一个值类型错误".
Definition SecondIndexNotInt : string := "第二个值类型错误".
Definition ArityMismatch : string := "调用参数个数与函数定义不符".

(** ** Arithmetic operators

    Each operator is a method on [*VMValue] taking the context and the right
    operand; the context is the one of the state.  A [nil] result without an
    error tells the interpreter that the operands are not supported. *)

(** [for i := lo; i < hi; i++ { body }], with [n] the number of turns; what
    the body updates is threaded through the turns. *)
Fixpoint for_loop {S : Type} (n : nat) (i : Z) (body : Z -> S -> Go S) (acc : S)
    : Go S :=
  match n with
  | O => mret acc
  | S n' => acc' ← body i acc; for_loop n' (i + 1) body acc'
  end.

Definition for_range {S : Type} (lo hi : Z) (body : Z -> S -> Go S) (acc : S)
    : Go S :=
  for_loop (Z.to_nat (hi - lo)) lo body acc.

(** [make([]*VMValue, n)]: [n] nil pointers, a panic for a negative [n]. *)
Definition make (n : Z) : Go (list ptr) :=
  if n <? 0 then throw MakeNegativeLen
  else mret (replicate (Z.to_nat n) None).

(** [l[i]] and [l[i] = x] on a slice: a panic outside [0 <= i < len(l)]. *)
Definition elem_at {A : Type} (l : list A) (i : Z) : Go A :=
  if (i <? 0) || (Z.of_nat (length l) <=? i) then throw IndexPanic
  else match l !! Z.to_nat i with
       | Some x => mret x
       | None => throw IndexPanic
       end.

Definition store_at {A : Type} (l : list A) (i : Z) (x : A) : Go (list A) :=
  if (i <? 0) || (Z.of_nat (length l) <=? i) then throw IndexPanic
  else mret (<[Z.to_nat i := x]> l).

(** The builtin [copy(dst, src)]: as many elements as both slices hold. *)
Definition copy (dst src : list ptr) : list ptr :=
  take (length dst) src ++ drop (length src) dst.

Definition OpAdd (v v2 : ptr) : Go ptr :=
  c ← deref v;
  match TypeId c with
  | VMTypeInt =>
      c2 ← deref v2;
      match TypeId c2 with
      | VMTypeInt =>
          a ← as_int64 (Value c); b ← as_int64 (Value c2);
          VMValueNewInt (Int64.add a b)
      | VMTypeFloat =>
          a ← as_int64 (Value c); b ← as_float64 (Value c2);
          VMValueNewFloat (Float64.add (Float64.of_int64 a) b)
      | _ => mret None
      end
  | VMTypeFloat =>
      c2 ← deref v2;
      match TypeId c2 with
      | VMTypeInt =>
          a ← as_float64 (Value c); b ← as_int64 (Value c2);
          VMValueNewFloat (Float64.add a (Float64.of_int64 b))
      | VMTypeFloat =>
          a ← as_float64 (Value c); b ← as_float64 (Value c2);
          VMValueNewFloat (Float64.add a b)
      | _ => mret None
      end
  | VMTypeString =>
      c2 ← deref v2;
      match TypeId c2 with
      | VMTypeString =>
          a ← as_string (Value c); b ← as_string (Value c2);
          VMValueNewStr (a ++ b)%string
      | _ => mret None
      end
  | VMTypeArray =>
      c2 ← deref v2;
      match TypeId c2 with
      | VMTypeArray =>
          '(arr, _) ← ReadArray v;
          '(arr2, _) ← ReadArray v2;
          l ← get_List arr;
          l2 ← get_List arr2;
          let length := Z.of_nat (List.length l) + Z.of_nat (List.length l2) in
          if 512 <? length
          then set_Error ArrayTooLarge;; mret None
          else
            arrFinal ← make (Z.of_nat (List.length l) + Z.of_nat (List.length l2));
            let arrFinal := copy arrFinal l in
            arrFinal ← for_range 0 (Z.of_nat (List.length l2))
                         (fun index arrFinal =>
                            i ← elem_at l2 index;
                            store_at arrFinal (Z.of_nat (List.length l) + index) i)
                         arrFinal;
            VMValueNewArray arrFinal
      | _ => mret None
      end
  | _ => mret None
  end.

Definition OpSub (v v2 : ptr) : Go ptr :=
  c ← deref v;
  match TypeId c with
  | VMTypeInt =>
      c2 ← deref v2;
      match TypeId c2 with
      | VMTypeInt =>
          a ← as_int64 (Value c); b ← as_int64 (Value c2);
          VMValueNewInt (Int64.sub a b)
      | VMTypeFloat =>
          a ← as_int64 (Value c); b ← as_float64 (Value c2);
          VMValueNewFloat (Float64.sub (Float64.of_int64 a) b)
      | _ => mret None
      end
  | VMTypeFloat =>
      c2 ← deref v2;
      match TypeId c2 with
      | VMTypeInt =>
          a ← as_float64 (Value c); b ← as_int64 (Value c2);
          VMValueNewFloat (Float64.sub a (Float64.of_int64 b))
      | VMTypeFloat =>
          a ← as_float64 (Value c); b ← as_float64 (Value c2);
          VMValueNewFloat (Float64.sub a b)
      | _ => mret None
      end
  | _ => mret None
  end.

(** [x % y] on Go's [int]: a panic for [y = 0]. *)
Definition int_rem (x y : Z) : Go Z :=
  if y =? 0 then throw IntegerDivideByZero else mret (Z.rem x y).

Definition ArrayRepeatTimesEx (v times : ptr) : Go ptr :=
  ct ← deref times;
  match TypeId ct with
  | VMTypeInt =>
      '(times, _) ← ReadInt times;
      '(ad, _) ← ReadArray v;
      l ← get_List ad;
      let length := Int64.mul (Z.of_nat (length l)) times in
      if 512 <? length
      then set_Error ArrayTooLarge;; mret None
      else
        arr ← make length;
        arr ← for_range 0 length (fun i arr =>
                 j ← int_rem i (Z.of_nat (List.length l));
                 x ← elem_at l j;
                 x' ← Clone x;
                 store_at arr i x') arr;
        VMValueNewArray arr
  | _ => mret None
  end.

Definition OpMultiply (v v2 : ptr) : Go ptr :=
  c ← deref v;
  match TypeId c with
  | VMTypeInt =>
      c2 ← deref v2;
      match TypeId c2 with
      | VMTypeInt =>
          a ← as_int64 (Value c); b ← as_int64 (Value c2);
          VMValueNewInt (Int64.mul a b)
      | VMTypeFloat =>
          a ← as_int64 (Value c); b ← as_float64 (Value c2);
          VMValueNewFloat (Float64.mul (Float64.of_int64 a) b)
      | VMTypeArray => ArrayRepeatTimesEx v2 v
      | _ => mret None
      end
  | VMTypeFloat =>
      c2 ← deref v2;
      match TypeId c2 with
      | VMTypeInt =>
          a ← as_float64 (Value c); b ← as_int64 (Value c2);
          VMValueNewFloat (Float64.mul a (Float64.of_int64 b))
      | VMTypeFloat =>
          a ← as_float64 (Value c); b ← as_float64 (Value c2);
          VMValueNewFloat (Float64.mul a b)
      | _ => mret None
      end
  | VMTypeArray => ArrayRepeatTimesEx v v2
  | _ => mret None
  end.

(** The closure [setDivideZero] of [OpDivide]. *)
Definition setDivideZero : Go unit := set_Error DivideByZero.

Definition OpDivide (v v2 : ptr) : Go ptr :=
  c ← deref v;
  match TypeId c with
  | VMTypeInt =>
      c2 ← deref v2;
      match TypeId c2 with
      | VMTypeInt =>
          b ← as_int64 (Value c2);
          if b =? 0 then setDivideZero;; mret None
          else a ← as_int64 (Value c); VMValueNewInt (Int64.quot a b)
      | VMTypeFloat =>
          b ← as_float64 (Value c2);
          if Float64.eqb b Float64.zero then setDivideZero;; mret None
          else
            a ← as_int64 (Value c);
            VMValueNewFloat (Float64.div (Float64.of_int64 a) b)
      | _ => mret None
      end
  | VMTypeFloat =>
      c2 ← deref v2;
      match TypeId c2 with
      | VMTypeInt =>
          b ← as_int64 (Value c2);
          if b =? 0 then setDivideZero;; mret None
          else
            a ← as_float64 (Value c);
            VMValueNewFloat (Float64.div a (Float64.of_int64 b))
      | VMTypeFloat =>
          b ← as_float64 (Value c2);
          if Float64.eqb b Float64.zero then setDivideZero;; mret None
          else a ← as_float64 (Value c); VMValueNewFloat (Float64.div a b)
      | _ => mret None
      end
  | _ => mret None
  end.

(** Go's [%] on integers panics on a zero divisor. *)
Definition OpModulus (v v2 : ptr) : Go ptr :=
  c ← deref v;
  match TypeId c with
  | VMTypeInt =>
      c2 ← deref v2;
      match TypeId c2 with
      | VMTypeInt =>
          a ← as_int64 (Value c); b ← as_int64 (Value c2);
          if b =? 0 then throw IntegerDivideByZero
          else VMValueNewInt (Int64.rem a b)
      | _ => mret None
      end
  | _ => mret None
  end.

(** ** Comparisons *)

Definition boolToVMValue (v : bool) : Go ptr :=
  let val := if v then 1 else 0 in
  VMValueNewInt val.

(** The four ordering operators have one shape: the comparison on integers
    for two Ints, the comparison on floats once an integer operand is
    widened, and [nil] for any other pair. *)
Definition compare_numbers (cmp_int : Z -> Z -> bool)
    (cmp_float : spec_float -> spec_float -> bool) (v v2 : ptr) : Go ptr :=
  c ← deref v;
  match TypeId c with
  | VMTypeInt =>
      c2 ← deref v2;
      match TypeId c2 with
      | VMTypeInt =>
          a ← as_int64 (Value c); b ← as_int64 (Value c2);
          boolToVMValue (cmp_int a b)
      | VMTypeFloat =>
          a ← as_int64 (Value c); b ← as_float64 (Value c2);
          boolToVMValue (cmp_float (Float64.of_int64 a) b)
      | _ => mret None
      end
  | VMTypeFloat =>
      c2 ← deref v2;
      match TypeId c2 with
      | VMTypeInt =>
          a ← as_float64 (Value c); b ← as_int64 (Value c2);
          boolToVMValue (cmp_float a (Float64.of_int64 b))
      | VMTypeFloat =>
          a ← as_float64 (Value c); b ← as_float64 (Value c2);
          boolToVMValue (cmp_float a b)
      | _ => mret None
      end
  | _ => mret None
  end.

Definition OpCompLT : ptr -> ptr -> Go ptr := compare_numbers Z.ltb Float64.ltb.
Definition OpCompLE : ptr -> ptr -> Go ptr := compare_numbers Z.leb Float64.leb.
Definition OpCompGE : ptr -> ptr -> Go ptr := compare_numbers Z.geb Float64.geb.
Definition OpCompGT : ptr -> ptr -> Go ptr := compare_numbers Z.gtb Float64.gtb.

Definition OpCompEQ (v v2 : ptr) : Go ptr :=
  if decide (v = v2) then VMValueNewInt 1
  else
    c ← deref v;
    c2 ← deref v2;
    if decide (TypeId c = TypeId c2)
    then boolToVMValue (iface_eqb (Value c) (Value c2))
    else
      match TypeId c, TypeId c2 with
      | VMTypeInt, VMTypeFloat =>
          a ← as_int64 (Value c); b ← as_float64 (Value c2);
          boolToVMValue (Float64.eqb (Float64.of_int64 a) b)
      | VMTypeFloat, VMTypeInt =>
          a ← as_float64 (Value c); b ← as_int64 (Value c2);
          boolToVMValue (Float64.eqb a (Float64.of_int64 b))
      | _, _ => VMValueNewInt 0
      end.

Definition OpCompNE (v v2 : ptr) : Go ptr :=
  ret ← OpCompEQ v v2;
  b ← AsBool ret;
  boolToVMValue (negb b).

(** ** Power, and the table of the binary operators

    [math.Pow] belongs to Go's library: the development is parametric in
    it. *)

Section Power.

Variable math_Pow : spec_float -> spec_float -> spec_float.

Definition OpPower (v v2 : ptr) : Go ptr :=
  c ← deref v;
  match TypeId c with
  | VMTypeInt =>
      c2 ← deref v2;
      match TypeId c2 with
      | VMTypeInt =>
          a ← as_int64 (Value c); b ← as_int64 (Value c2);
          VMValueNewInt
            (Float64.to_int64
               (math_Pow (Float64.of_int64 a) (Float64.of_int64 b)))
      | VMTypeFloat =>
          a ← as_int64 (Value c); b ← as_float64 (Value c2);
          VMValueNewFloat (math_Pow (Float64.of_int64 a) b)
      | _ => mret None
      end
  | VMTypeFloat =>
      c2 ← deref v2;
      match TypeId c2 with
      | VMTypeInt =>
          a ← as_float64 (Value c); b ← as_int64 (Value c2);
          VMValueNewFloat (math_Pow a (Float64.of_int64 b))
      | VMTypeFloat =>
          a ← as_float64 (Value c); b ← as_float64 (Value c2);
          VMValueNewFloat (math_Pow a b)
      | _ => mret None
      end
  | _ => mret None
  end.

Definition binOperator : list (ptr -> ptr -> Go ptr) :=
  [ OpAdd; OpSub; OpMultiply; OpDivide; OpModulus; OpPower;
    OpCompLT; OpCompLE; OpCompEQ; OpCompNE; OpCompGE; OpCompGT ].

End Power.

(** ** Unary operators *)

Definition OpPositive (v : ptr) : Go ptr :=
  c ← deref v;
  match TypeId c with
  | VMTypeInt => a ← as_int64 (Value c); VMValueNewInt a
  | VMTypeFloat => a ← as_float64 (Value c); VMValueNewFloat a
  | _ => mret None
  end.

Definition OpNegation (v : ptr) : Go ptr :=
  c ← deref v;
  match TypeId c with
  | VMTypeInt => a ← as_int64 (Value c); VMValueNewInt (Int64.neg a)
  | VMTypeFloat => a ← as_float64 (Value c); VMValueNewFloat (Float64.neg a)
  | _ => mret None
  end.

(** ** Attributes *)

Definition SetAttr (v : ptr) (name : string) (val : ptr) : Go ptr :=
  c ← deref v;
  match TypeId c with
  | VMTypeComputedValue =>
      '(cd, _) ← ReadComputed v;
      d ← get_computed cd;
      (if ComputedData.Attrs d is None
       then update_computed cd (ComputedData.set_Attrs (Some []))
       else mret tt);;
      x ← Clone val;
      update_computed cd (fun d =>
        ComputedData.set_Attrs
          (Some (ValueMap_Put (default [] (ComputedData.Attrs d)) name x)) d);;
      mret val
  | _ => mret None
  end.

Definition GetAttr (v : ptr) (name : string) : Go ptr :=
  c ← deref v;
  match TypeId c with
  | VMTypeComputedValue =>
      '(cd, _) ← ReadComputed v;
      d ← get_computed cd;
      let ret := match ComputedData.Attrs d with
                 | Some m => fst (ValueMap_Get m name)
                 | None => None
                 end in
      if ret is None then VMValueNewUndefined else mret ret
  | VMTypeFunction =>
      s ← get_state;
      let ret := match Context.attrs (ctx s) with
                 | Some m => fst (ValueMap_Get m name)
                 | None => None
                 end in
      if ret is None then VMValueNewUndefined else mret ret
  | _ => mret None
  end.

(** ** Methods of arrays: keep the highest, keep the lowest *)

Record keep : Set := mkKeep {
  maxFloat : spec_float;
  isFloat : bool;
  isFirst : bool
}.

(** One turn of the loop over the elements; [better val maxFloat] is
    [val > maxFloat] for the highest and [val < maxFloat] for the lowest. *)
Definition keep_turn (better : spec_float -> spec_float -> bool)
    (k : keep) (i : ptr) : Go keep :=
  c ← deref i;
  match TypeId c with
  | VMTypeInt =>
      x ← as_int64 (Value c);
      if isFirst k then mret (mkKeep (Float64.of_int64 x) (isFloat k) false)
      else
        let val := Float64.of_int64 x in
        if better val (maxFloat k) then mret (mkKeep val (isFloat k) (isFirst k))
        else mret k
  | VMTypeFloat =>
      x ← as_float64 (Value c);
      if isFirst k then mret (mkKeep x true false)
      else
        let val := x in
        if better val (maxFloat k) then mret (mkKeep val true (isFirst k))
        else mret (mkKeep (maxFloat k) true (isFirst k))
  | _ => mret k
  end.

(** [for _, i := range l { body }]. *)
Fixpoint range_loop {A S : Type} (body : S -> A -> Go S) (l : list A) (acc : S)
    : Go S :=
  match l with
  | [] => mret acc
  | i :: l' => acc' ← body acc i; range_loop body l' acc'
  end.

Definition keep_result (k : keep) : Go ptr :=
  if isFloat k then VMValueNewFloat (maxFloat k)
  else VMValueNewInt (Float64.to_int64 (maxFloat k)).

Definition ArrayFuncKeepHigh (v : ptr) : Go ptr :=
  '(arr, _) ← ReadArray v;
  l ← get_List arr;
  k ← range_loop (keep_turn Float64.gtb) l (mkKeep Float64.zero false true);
  keep_result k.

Definition ArrayFuncKeepLow (v : ptr) : Go ptr :=
  '(arr, _) ← ReadArray v;
  l ← get_List arr;
  k ← range_loop (keep_turn Float64.ltb) l (mkKeep Float64.zero false true);
  keep_result k.

Definition CallFunc (v : ptr) (name : string) (values : list ptr) : Go ptr :=
  c ← deref v;
  match TypeId c with
  | VMTypeArray =>
      if String.eqb name "kh" then ArrayFuncKeepHigh v
      else if String.eqb name "kl" then ArrayFuncKeepLow v
      else VMValueNewUndefined
  | _ => VMValueNewUndefined
  end.

(** ** Indexing and slicing *)

Definition getClampRealIndex (index length : Z) : Z :=
  let index := if index <? 0 then Int64.add length index else index in
  let index := if index <? 0 then 0 else index in
  let index := if length <? index then length else index in
  index.

Definition getRealIndex (index length : Z) : Go Z :=
  let index := if index <? 0 then Int64.add length index else index in
  (if (length <=? index) || (index <? 0)
   then set_Error IndexOutOfRange
   else mret tt);;
  mret index.

Definition ArrayGetItem (v : ptr) (index : Z) : Go ptr :=
  c ← deref v;
  if decide (TypeId c = VMTypeArray) then
    '(arr, _) ← ReadArray v;
    l ← get_List arr;
    index ← getRealIndex index (Z.of_nat (length l));
    err ← get_Error;
    if err is Some _ then mret None
    else
      l ← get_List arr;
      elem_at l index
  else set_Error NotIndexable;; mret None.

Definition ArraySetItem (v : ptr) (index : Z) (val : ptr) : Go bool :=
  c ← deref v;
  if decide (TypeId c = VMTypeArray) then
    '(arr, _) ← ReadArray v;
    l ← get_List arr;
    index ← getRealIndex index (Z.of_nat (length l));
    err ← get_Error;
    if err is Some _ then mret false
    else
      x ← Clone val;
      l ← get_List arr;
      l' ← store_at l index x;
      set_List arr l';;
      mret true
  else set_Error NotIndexable;; mret false.

Definition Length (v : ptr) : Go Z :=
  c ← deref v;
  match TypeId c with
  | VMTypeArray =>
      '(arr, _) ← ReadArray v;
      l ← get_List arr;
      mret (Z.of_nat (length l))
  | VMTypeString =>
      '(str, _) ← ReadString v;
      mret (Z.of_nat (String.length str))
  | _ => set_Error NotSliceable;; mret 0
  end.

(** The slice expressions [l[a:b]] and [str[a:b]]: a panic unless
    [0 <= a <= b <= len]. *)
Definition slice {A : Type} (l : list A) (a b : Z) : Go (list A) :=
  if (a <? 0) || (b <? a) || (Z.of_nat (length l) <? b) then throw IndexPanic
  else mret (take (Z.to_nat (b - a)) (drop (Z.to_nat a) l)).

Definition slice_string (str : string) (a b : Z) : Go string :=
  if (a <? 0) || (b <? a) || (Z.of_nat (String.length str) <? b)
  then throw IndexPanic
  else mret (substring (Z.to_nat a) (Z.to_nat (b - a)) str).

Definition GetSlice (v : ptr) (a b step : Z) : Go ptr :=
  length ← Length v;
  err ← get_Error;
  if err is Some _ then mret None
  else
    let _a := getClampRealIndex a length in
    let _b := getClampRealIndex b length in
    let _a := if _b <? _a then _b else _a in
    c ← deref v;
    match TypeId c with
    | VMTypeString =>
        '(str, _) ← ReadString v;
        newArr ← slice_string str _a _b;
        VMValueNewStr newArr
    | VMTypeArray =>
        '(arr, _) ← ReadArray v;
        l ← get_List arr;
        newArr ← slice l _a _b;
        VMValueNewArray newArr
    | _ => set_Error NotSliceable;; mret None
    end.

Definition GetSliceEx (v a b : ptr) : Go ptr :=
  ca ← deref a;
  a ← (if decide (TypeId ca = VMTypeUndefined) then VMValueNewInt 0 else mret a);
  length ← Length v;
  err ← get_Error;
  if err is Some _ then mret None
  else
    cb ← deref b;
    b ← (if decide (TypeId cb = VMTypeUndefined) then VMValueNewInt length
         else mret b);
    '(valA, ok) ← ReadInt a;
    if negb ok then set_Error FirstIndexNotInt;; mret None
    else
      '(valB, ok) ← ReadInt b;
      if negb ok then set_Error SecondIndexNotInt;; mret None
      else GetSlice v valA valB 1.

Definition SetSlice (v : ptr) (a b step : Z) (val : ptr) : Go bool :=
  '(arr, ok) ← ReadArray v;
  if negb ok then set_Error NotSliceAssignable;; mret false
  else
    '(arr2, ok) ← ReadArray val;
    if negb ok then set_Error ValueNotArray;; mret false
    else
      l ← get_List arr;
      l2 ← get_List arr2;
      let length := Z.of_nat (List.length l) in
      let _a := getClampRealIndex a length in
      let _b := getClampRealIndex b length in
      let _a := if _b <? _a then _b else _a in
      let offset := Z.of_nat (List.length l2) - (_b - _a) in
      newArr ← make (Z.of_nat (List.length l) + offset);
      newArr ← for_range 0 _a (fun i newArr =>
                  x ← elem_at l i; store_at newArr i x) newArr;
      newArr ← for_range 0 (Z.of_nat (List.length l2)) (fun i newArr =>
                  x ← elem_at l2 i; store_at newArr (_a + i) x) newArr;
      newArr ← for_range (_b + offset) (Z.of_nat (List.length newArr))
                 (fun i newArr =>
                  x ← elem_at l (i - offset); store_at newArr i x) newArr;
      set_List arr newArr;;
      mret true.

Definition SetSliceEx (v a b val : ptr) : Go bool :=
  ca ← deref a;
  a ← (if decide (TypeId ca = VMTypeUndefined) then VMValueNewInt 0 else mret a);
  '(arr, ok) ← ReadArray v;
  if negb ok then set_Error NotSliceAssignable;; mret false
  else
    cb ← deref b;
    b ← (if decide (TypeId cb = VMTypeUndefined)
         then l ← get_List arr; VMValueNewInt (Z.of_nat (List.length l))
         else mret b);
    '(valA, ok) ← ReadInt a;
    if negb ok then set_Error FirstIndexNotInt;; mret false
    else
      '(valB, ok) ← ReadInt b;
      if negb ok then set_Error SecondIndexNotInt;; mret false
      else SetSlice v valA valB 1 val.

(** ** Sub-evaluation of computed values and of user functions

    [NewVM], [Run] and [Evaluate] belong to the parser and the interpreter,
    which are outside [types.go]: the sub-evaluator is parametric in them.
    An entry of the parser transforms the child context it is called on,
    and the heap. *)

Section SubEvaluation.

Variable NewVM : Context.t.
Variable Run : string -> Context.t -> Heap -> Context.t * Heap.
Variable Evaluate : Context.t -> Heap -> Context.t * Heap.

(** [vm.Run(expr)] and [vm.parser.Evaluate()], each recorded in the state. *)
Definition call_Run (expr : string) (vm : Context.t) : Go Context.t := fun s =>
  let '(vm', h') := Run expr vm (heap s) in
  Returned vm' (with_call (CallRun expr) (with_heap (fun _ => h') s)).

Definition call_Evaluate (vm : Context.t) : Go Context.t := fun s =>
  let '(vm', h') := Evaluate vm (heap s) in
  Returned vm' (with_call (CallEvaluate (Context.code vm)) (with_heap (fun _ => h') s)).

(** What both sub-evaluators do once the child has stopped. *)
Definition finish (vm : Context.t) : Go ptr :=
  match Context.Error vm with
  | Some e => modify (with_ctx (Context.set_Error (Some e)));; mret None
  | None =>
      ret ← (if negb (Context.top vm =? 0)
             then
               c ← elem_at (Context.stack vm) (Context.top vm - 1);
               new_value (mkVMValue (TypeId c) (Value c))
             else VMValueNewUndefined);
      modify (with_ctx (Context.set_NumOpCount (Context.NumOpCount vm)));;
      mret ret
  end.

Definition ComputedExecute (v : ptr) : Go ptr :=
  '(cd, _) ← ReadComputed v;
  s ← get_state;
  let ctx := ctx s in
  let vm := NewVM in
  let vm := Context.set_Flags (Context.Flags ctx) vm in
  let vm := Context.set_ValueStoreNameFunc (Context.ValueStoreNameFunc ctx) vm in
  let vm := Context.set_ValueLoadNameFunc (Context.ValueLoadNameFunc ctx) vm in
  let vm := Context.set_subThreadDepth
              (Int64.add (Context.subThreadDepth ctx) 1) vm in
  let vm := Context.set_currentThis v vm in
  let vm := Context.set_NumOpCount
              (Int64.add (Context.NumOpCount ctx) 200) vm in
  d ← get_computed cd;
  vm ← (if ComputedData.code d is None
        then
          vm ← call_Run (ComputedData.Expr d) vm;
          update_computed cd
            (ComputedData.set_code (Context.code vm) (Context.codeIndex vm));;
          mret vm
        else
          let vm := Context.set_code
                      (ComputedData.code d) (ComputedData.codeIndex d) vm in
          call_Evaluate vm);
  finish vm.

Definition FuncInvoke (v : ptr) (params : list ptr) : Go ptr :=
  let vm := NewVM in
  '(cd, _) ← ReadFunctionData v;
  let vm := Context.set_attrs (Some []) vm in
  d ← get_function cd;
  if negb (Z.of_nat (length (FunctionData.Params d)) =? Z.of_nat (length params))
  then set_Error ArityMismatch;; mret None
  else
    attrs ← for_range 0 (Z.of_nat (length (FunctionData.Params d)))
              (fun index m =>
                 i ← elem_at (FunctionData.Params d) index;
                 p ← elem_at params index;
                 mret (ValueMap_Put m i p)) [];
    let vm := Context.set_attrs (Some attrs) vm in
    s ← get_state;
    let ctx := ctx s in
    let vm := Context.set_Flags (Context.Flags ctx) vm in
    let vm := Context.set_ValueStoreNameFunc (Context.ValueStoreNameFunc ctx) vm in
    let vm := Context.set_ValueLoadNameFunc (Context.ValueLoadNameFunc ctx) vm in
    let vm := Context.set_subThreadDepth
                (Int64.add (Context.subThreadDepth ctx) 1) vm in
    let vm := Context.set_currentThis v vm in
    let vm := Context.set_NumOpCount
                (Int64.add (Context.NumOpCount ctx) 100) vm in
    d ← get_function cd;
    vm ← (if FunctionData.code d is None
          then
            vm ← call_Run (FunctionData.Expr d) vm;
            update_function cd
              (FunctionData.set_code (Context.code vm) (Context.codeIndex vm));;
            mret vm
          else
            let vm := Context.set_code
                        (FunctionData.code d) (FunctionData.codeIndex d) vm in
            call_Evaluate vm);
    finish vm.

End SubEvaluation.

(** ** Initial states, and stand-ins for the parser

    The zero values of Go, the state of a host that has created nothing
    yet, and a few parsers small enough to run the sub-evaluator on. *)

Definition zero_Flags : RollExtraFlags :=
  mkFlags false false false false 0 "" false.

Definition zero_Context : Context.t :=
  Context.mk None 0 None None 0 [] 0 0 zero_Flags None None "" "" None None.

Definition empty_Heap : Heap := mkHeap ∅ ∅ ∅ ∅.

Definition initial_State : State := mkState zero_Context empty_Heap [].

(** Modelled from the spec: NewVM is declared outside types.go; it yields a
    new context whose bytecode buffer [Init] has allocated. *)
Definition fresh_vm : Context.t := Context.set_code (Some []) 0 zero_Context.

(** A parser that rejects its input: it reports a parse error. *)
Definition Run_rejecting (expr : string) (vm : Context.t) (h : Heap)
    : Context.t * Heap :=
  (Context.set_Error (Some "parse error") vm, h).

(** A parser and an interpreter for the sources that are one integer
    literal, here 5: one push, and no counted operation. *)
Definition push_five (vm : Context.t) : Context.t :=
  Context.mk (Context.currentThis vm) (Context.subThreadDepth vm)
    (Context.attrs vm) (Some [mkByteCode 0 (IInt64 5)]) 1
    [mkVMValue VMTypeInt (IInt64 5)] 1 (Context.NumOpCount vm)
    (Context.Flags vm) (Context.Error vm) (Context.Ret vm)
    (Context.RestInput vm) (Context.Matched vm)
    (Context.ValueStoreNameFunc vm) (Context.ValueLoadNameFunc vm).

Definition Run_literal (expr : string) (vm : Context.t) (h : Heap)
    : Context.t * Heap := (push_five vm, h).

Definition Evaluate_literal (vm : Context.t) (h : Heap) : Context.t * Heap :=
  (push_five vm, h).

(** ** Reading outcomes *)

(** [m] returns a pointer to a new cell that holds [c], and changes nothing
    else: no other cell, and neither the context nor its error slot. *)
Definition returns_new (m : Go ptr) (s : State) (c : VMValue) : Prop :=
  ∃ r : loc,
    values (heap s) !! r = None ∧
    m s = Returned (Some r) (with_heap (set_values (insert r c)) s).

(** [m] fails: it stores the error [msg] in the context, returns [nil], and
    changes nothing else. *)
Definition fails_with (m : Go ptr) (s : State) (msg : string) : Prop :=
  m s = Returned None (with_ctx (Context.set_Error (Some msg)) s).

(** The cell behind a pointer. *)
Definition cell (s : State) (v : ptr) : option VMValue :=
  match v with
  | Some l => values (heap s) !! l
  | None => None
  end.

(** The elements of the array behind a pointer to an Array value. *)
Definition elements (s : State) (v : ptr) : option (list ptr) :=
  match cell s v with
  | Some (mkVMValue VMTypeArray (IArrayData p)) => arrays (heap s) !! p
  | _ => None
  end.

(** The numeric values: an Int with its 64-bit payload, or a Float. *)
Definition is_Int (c : VMValue) (i : Z) : Prop :=
  c = mkVMValue VMTypeInt (IInt64 i) ∧ Int64.in_range i.

Definition is_Float (c : VMValue) (f : spec_float) : Prop :=
  c = mkVMValue VMTypeFloat (IFloat64 f).

Definition numeric (c : VMValue) : Prop :=
  (∃ i, is_Int c i) ∨ (∃ f, is_Float c f).

(** The operators the widening rule is about are the first six of the
    table: [+], [-], [*], [/], [%] and the power. *)
Definition arithmetic_operators
    (math_Pow : spec_float -> spec_float -> spec_float)
    : list (ptr -> ptr -> Go ptr) :=
  take 6 (binOperator math_Pow).

(** A divisor that is exactly zero: the integer 0, or a float zero of
    either sign. *)
Definition zero_valued (c : VMValue) : Prop :=
  c = mkVMValue VMTypeInt (IInt64 0) ∨
  ∃ sign : bool, c = mkVMValue VMTypeFloat (IFloat64 (S754_zero sign)).

(** A divisor that is not zero: an integer other than 0, or a float that
    compares different from zero. *)
Definition nonzero_valued (c : VMValue) : Prop :=
  match Value c with
  | IInt64 i => i ≠ 0
  | IFloat64 f => Float64.eqb f Float64.zero = false
  | _ => True
  end.

(** Where the operator of index [i] is defined on two numbers, in the
    words of the specification: the division for a divisor that is not
    zero, the modulus for two Ints with a divisor that is not zero, the
    other operators everywhere. *)
Definition defined_on (i : nat) (c1 c2 : VMValue) : Prop :=
  match i with
  | 3%nat => nonzero_valued c2
  | 4%nat => TypeId c1 = VMTypeInt ∧ TypeId c2 = VMTypeInt ∧ nonzero_valued c2
  | _ => True
  end.

(** A state with two Int cells, 7 at location 1 and 2 at location 2. *)
Definition two_Ints : State :=
  mkState zero_Context
    (mkHeap {[ 1%positive := mkVMValue VMTypeInt (IInt64 7);
               2%positive := mkVMValue VMTypeInt (IInt64 2) ]} ∅ ∅ ∅) [].

(** A state whose context has the flag [IgnoreDiv0] set, with the Int cells
    1 at location 1 and 0 at location 2. *)
Definition ignoring_div0 : State :=
  mkState
    (Context.set_Flags (mkFlags false false false true 0 "" false) zero_Context)
    (mkHeap {[ 1%positive := mkVMValue VMTypeInt (IInt64 1);
               2%positive := mkVMValue VMTypeInt (IInt64 0) ]} ∅ ∅ ∅) [].

(** The result kind under the widening rule. *)
Definition widened (c1 c2 : VMValue) : VMValueType :=
  if decide (TypeId c1 = VMTypeFloat ∨ TypeId c2 = VMTypeFloat)
  then VMTypeFloat else VMTypeInt.

(** Code that leaves the context alone, whatever it returns. *)
Definition keeps_ctx {A : Type} (m : Go A) : Prop :=
  ∀ s a s', m s = Returned a s' -> ctx s' = ctx s.

(** The script [a = [0] * n; a[0:0] = [0]], followed by a look at the
    outcome: what [SetSlice] returned, the length of [a], and the error
    slot. *)
Definition grow_by_slice (n : Z) : Go (bool * Z * option string) :=
  x ← VMValueNewInt 0;
  one ← VMValueNewArray [x];
  times ← VMValueNewInt n;
  a ← OpMultiply one times;
  ok ← SetSlice a 0 0 1 one;
  len ← Length a;
  err ← get_Error;
  mret (ok, len, err).

(** The scripts [[0] * n + [0]] and [[0] * n * 2], with the pointer the last
    operator returns and the error slot. *)
Definition grow_by_concat (n : Z) : Go (ptr * option string) :=
  x ← VMValueNewInt 0;
  one ← VMValueNewArray [x];
  times ← VMValueNewInt n;
  a ← OpMultiply one times;
  r ← OpAdd a one;
  err ← get_Error;
  mret (r, err).

Definition grow_by_repeat (n : Z) : Go (ptr * option string) :=
  x ← VMValueNewInt 0;
  one ← VMValueNewArray [x];
  times ← VMValueNewInt n;
  a ← OpMultiply one times;
  two ← VMValueNewInt 2;
  r ← OpMultiply a two;
  err ← get_Error;
  mret (r, err).

(** What a run returned, the final state set aside. *)
Definition result {A : Type} (o : outcome A) : option A :=
  match o with
  | Returned a _ => Some a
  | Panicked _ => None
  end.

(** [m] returns a pointer to a new Array value whose new array holds [l],
    and changes nothing else. *)
Definition returns_new_array (m : Go ptr) (s : State) (l : list ptr) : Prop :=
  ∃ d r : loc,
    arrays (heap s) !! d = None ∧
    values (heap s) !! r = None ∧
    m s = Returned (Some r)
            (with_heap
               (set_values (insert r (mkVMValue VMTypeArray (IArrayData d))))
               (with_heap (set_arrays (insert d l)) s)).

(** The slicing rule in the words of the specification: a negative bound
    is first increased by the length, then the bound is clamped into
    [[0, len]]; a lower bound above the upper one is reset to it. *)
Definition spec_bound (len i : Z) : Z :=
  let i := if i <? 0 then i + len else i in
  Z.max 0 (Z.min i len).

Definition spec_lower (len i j : Z) : Z :=
  if spec_bound len j <? spec_bound len i then spec_bound len j
  else spec_bound len i.

Definition spec_upper (len j : Z) : Z := spec_bound len j.

(** The elements, or the bytes, of the half-open range [[a, b)]. *)
Definition elements_between {A : Type} (l : list A) (a b : Z) : list A :=
  take (Z.to_nat (b - a)) (drop (Z.to_nat a) l).

Definition bytes_between (str : string) (a b : Z) : string :=
  substring (Z.to_nat a) (Z.to_nat (b - a)) str.

(** A state with the array [[10, 20, 30]] behind location 4 and the string
    [dice] behind location 5. *)
Definition sample_values : State :=
  mkState zero_Context
    (mkHeap {[ 1%positive := mkVMValue VMTypeInt (IInt64 10);
               2%positive := mkVMValue VMTypeInt (IInt64 20);
               3%positive := mkVMValue VMTypeInt (IInt64 30);
               4%positive := mkVMValue VMTypeArray (IArrayData 1%positive);
               5%positive := mkVMValue VMTypeString (IString "dice") ]}
            {[ 1%positive := [Some 1%positive; Some 2%positive; Some 3%positive] ]}
            ∅ ∅) [].

(** The script [[1] == [1]]: two arrays built one after the other from the
    same element, compared; the cell of the result is returned. *)
Definition compare_equal_arrays : Go (VMValue * bool) :=
  x ← VMValueNewInt 1;
  a ← VMValueNewArray [x];
  b ← VMValueNewArray [x];
  la ← (ReadArray a ≫= λ '(arr, _), get_List arr);
  lb ← (ReadArray b ≫= λ '(arr, _), get_List arr);
  r ← OpCompEQ a b;
  c ← deref r;
  mret (c, bool_decide (la = lb)).

(** A truth value as [boolToVMValue] stores it. *)
Definition Int_of_bool (b : bool) : VMValue :=
  mkVMValue VMTypeInt (IInt64 (if b then 1 else 0)).

(** A pair of kinds that is one Int and one Float. *)
Definition Int_Float_mix (t t2 : VMValueType) : Prop :=
  (t = VMTypeInt ∧ t2 = VMTypeFloat) ∨ (t = VMTypeFloat ∧ t2 = VMTypeInt).

(** A state with the array [[10, 20, 30]] twice, behind locations 4 and 5:
    two Array values, each with an array of its own. *)
Definition twin_arrays : State :=
  mkState zero_Context
    (mkHeap {[ 1%positive := mkVMValue VMTypeInt (IInt64 10);
               2%positive := mkVMValue VMTypeInt (IInt64 20);
               3%positive := mkVMValue VMTypeInt (IInt64 30);
               4%positive := mkVMValue VMTypeArray (IArrayData 1%positive);
               5%positive := mkVMValue VMTypeArray (IArrayData 2%positive) ]}
            {[ 1%positive := [Some 1%positive; Some 2%positive; Some 3%positive];
               2%positive := [Some 1%positive; Some 2%positive; Some 3%positive] ]}
            ∅ ∅) [].

(** The script that clones an array, assigns to an element of the clone,
    and reads that element through the original. *)
Definition set_item_through_clone (v : ptr) (i : Z) (x : ptr) : Go ptr :=
  w ← Clone v;
  ArraySetItem w i x;;
  ArrayGetItem v i.

(** The script that clones a computed value, sets an attribute of the
    clone, and reads that attribute through the original. *)
Definition set_attr_through_clone (v : ptr) (name : string) (x : ptr) : Go ptr :=
  w ← Clone v;
  SetAttr w name x;;
  GetAttr v name.

(** A state with the array [[10, 20, 30]] behind location 4, the Int 99
    behind location 5, and the computed value [&(x+1)] behind location 6. *)
Definition containers : State :=
  mkState zero_Context
    (mkHeap {[ 1%positive := mkVMValue VMTypeInt (IInt64 10);
               2%positive := mkVMValue VMTypeInt (IInt64 20);
               3%positive := mkVMValue VMTypeInt (IInt64 30);
               4%positive := mkVMValue VMTypeArray (IArrayData 1%positive);
               5%positive := mkVMValue VMTypeInt (IInt64 99);
               6%positive := mkVMValue VMTypeComputedValue (IComputedData 1%positive) ]}
            {[ 1%positive := [Some 1%positive; Some 2%positive; Some 3%positive] ]}
            {[ 1%positive := ComputedData.mk "x+1" None None 0 ]}
            ∅) [].

(** The location of the next cell that [new_value] creates. *)
Definition next_value (s : State) : loc := fresh (dom (values (heap s))).

(** The state once a cell holding [c] is created at the next location. *)
Definition with_value (c : VMValue) (s : State) : State :=
  with_heap (set_values (insert (next_value s) c)) s.

(** What holds of every result of [m] from [s]: partial correctness. *)
Definition post {A : Type} (m : Go A) (s : State) (Q : A -> State -> Prop)
    : Prop :=
  ∀ a s', m s = Returned a s' -> Q a s'.

(** The two ways a sub-evaluation with entry tax [tax] ends, seen from the
    parent: a failure leaves the operation count alone and reports an
    error; a success leaves the error slot alone and brings the count to
    the child's, at least the count the child was entered with. *)
Definition writes_back (tax : Z) (s : State) (r : ptr) (s' : State) : Prop :=
  (r = None
   ∧ Context.Error (ctx s') ≠ None
   ∧ Context.NumOpCount (ctx s') = Context.NumOpCount (ctx s))
  ∨ (r ≠ None
     ∧ Context.Error (ctx s') = Context.Error (ctx s)
     ∧ Int64.add (Context.NumOpCount (ctx s)) tax
       <= Context.NumOpCount (ctx s')).


(** Code that only reads: the state it returns in is the one it started
    from. *)
Definition pure_read {A : Type} (m : Go A) : Prop :=
  ∀ s a s', m s = Returned a s' -> s' = s.


(** What the sub-evaluator relies on from the parser and the interpreter:
    they leave the existing cells of values as they are, they leave a
    bytecode cache that is populated as it is, the bytecode and its length,
    and they stop with the top of the stack inside the stack. *)
Definition keeps_values (h h' : Heap) : Prop :=
  ∀ (l : loc) (c : VMValue), values h !! l = Some c -> values h' !! l = Some c.

Definition keeps_caches (h h' : Heap) : Prop :=
  ∀ (p : loc) (d : ComputedData.t),
    computeds h !! p = Some d ->
    ∃ d' : ComputedData.t,
      computeds h' !! p = Some d'
      ∧ (ComputedData.code d ≠ None ->
         ComputedData.code d' = ComputedData.code d
         ∧ ComputedData.codeIndex d' = ComputedData.codeIndex d).

Definition stack_in_bounds (vm : Context.t) : Prop :=
  Context.Error vm = None -> Context.top vm ≠ 0 ->
  0 < Context.top vm <= Z.of_nat (length (Context.stack vm)).

(** [n] executions of one computed value in a row, whatever each of them
    returns. *)
Fixpoint execute_times
    (execute : ptr -> Go ptr) (n : nat) (v : ptr) : Go unit :=
  match n with
  | O => mret tt
  | S n' => execute v;; execute_times execute n' v
  end.

(** The integers that [float64] holds exactly whatever their low bits: the
    magnitudes up to 2^53. *)
Definition exact_in_float64 (x : Z) : Prop := Z.abs x <= 2 ^ 53.

(** The mantissa and the exponent of the float of a positive integer below
    2^53: the integer shifted to 53 bits. *)
Definition exponent53 (p : positive) : Z := Z.pos (digits2_pos p) - 53.

Definition mantissa53 (p : positive) : positive :=
  match exponent53 p with
  | Z.neg k => Pos.iter xO p k
  | _ => p
  end.

(** The floats that integers of magnitude up to 2^53 convert to: the
    positive zero, and the finite floats with a mantissa of 53 bits and an
    exponent from -52 to 1.  Such a float is an integer; [scaled] is its
    value multiplied by 2^52. *)
Definition canonical53 (f : spec_float) : Prop :=
  match f with
  | S754_zero _ => True
  | S754_finite _ m e => Z.pos (digits2_pos m) = 53 ∧ -52 <= e <= 1
  | _ => False
  end.

Definition scaled (f : spec_float) : Z :=
  match f with
  | S754_finite s m e => (if s then -1 else 1) * (Z.pos m * 2 ^ (e + 52))
  | _ => 0
  end.

(** A cell whose payload is the one its tag announces, for the two numeric
    tags: the type assertions of the code succeed on it. *)
Definition well_typed (c : VMValue) : Prop :=
  match TypeId c, Value c with
  | VMTypeInt, IInt64 _ => True
  | VMTypeInt, _ => False
  | VMTypeFloat, IFloat64 _ => True
  | VMTypeFloat, _ => False
  | _, _ => True
  end.

(** The cells behind the elements of an array. *)
Definition cells_of (s : State) (l : list ptr) (cs : list VMValue) : Prop :=
  Forall2 (fun x c => cell s x = Some c ∧ well_typed c) l cs.

(** One turn of the loop of [kh] and [kl] on the cell of the element. *)
Definition keep_cell (better : spec_float -> spec_float -> bool)
    (k : keep) (c : VMValue) : keep :=
  match TypeId c, Value c with
  | VMTypeInt, IInt64 x =>
      if isFirst k then mkKeep (Float64.of_int64 x) (isFloat k) false
      else if better (Float64.of_int64 x) (maxFloat k)
           then mkKeep (Float64.of_int64 x) (isFloat k) (isFirst k)
           else k
  | VMTypeFloat, IFloat64 x =>
      if isFirst k then mkKeep x true false
      else if better x (maxFloat k) then mkKeep x true (isFirst k)
           else mkKeep (maxFloat k) true (isFirst k)
  | _, _ => k
  end.

Definition is_Float_cell (c : VMValue) : bool :=
  bool_decide (TypeId c = VMTypeFloat).

(** The kind of the result of [kh] and [kl] that the specification
    announces: Float when an element at least is a Float, else Int. *)
Definition kind_of_extremum (cs : list VMValue) : VMValueType :=
  if existsb is_Float_cell cs then VMTypeFloat else VMTypeInt.

Definition Int_cell (x : Z) : VMValue := mkVMValue VMTypeInt (IInt64 x).

(** The script that builds the array [[x]] and calls the method [name] on
    it; the cell of the result is returned. *)
Definition call_on_singleton (name : string) (x : Z) : Go VMValue :=
  e ← VMValueNewInt x;
  a ← VMValueNewArray [e];
  r ← CallFunc a name [];
  deref r.

(** The float an element is compared as: an Int is widened, a Float is
    taken as it is, and any other element is passed over. *)
Definition widen (c : VMValue) : option spec_float :=
  match TypeId c, Value c with
  | VMTypeInt, IInt64 x => Some (Float64.of_int64 x)
  | VMTypeFloat, IFloat64 f => Some f
  | _, _ => None
  end.

Definition numbers (cs : list VMValue) : list spec_float := omap widen cs.

(** What the loop of [kh] and [kl] maintains, with [seen] the numbers met so
    far: the running extremum is one of them, and none of them is better. *)
Definition extremum_so_far (better : spec_float -> spec_float -> bool)
    (k : keep) (seen : list spec_float) : Prop :=
  if isFirst k then seen = []
  else maxFloat k ∈ seen ∧ ∀ w, w ∈ seen -> better w (maxFloat k) = false.

(** The cell that [kh] and [kl] build from the extremum [r]. *)
Definition extremum_cell (cs : list VMValue) (r : spec_float) : VMValue :=
  if existsb is_Float_cell cs then mkVMValue VMTypeFloat (IFloat64 r)
  else Int_cell (Float64.to_int64 r).

(** The state a run ends in. *)
Definition state_after {A : Type} (m : Go A) (s : State) : State :=
  match m s with
  | Returned _ s' => s'
  | Panicked _ => s
  end.

(** The state after the script [one = [0]; a = one * 512]: the value [one]
    is behind location 2 and the value [a], an array of 512 elements,
    behind location 516. *)
Definition full_array : State :=
  state_after
    (x ← VMValueNewInt 0;
     one ← VMValueNewArray [x];
     times ← VMValueNewInt 512;
     OpMultiply one times)
    initial_State.

(** The 512 elements of [a]: the clones of the element of [one], in the
    order of their creation. *)
Definition full_elements : list ptr :=
  map (fun n => Some (Pos.of_nat n)) (seq 4 512).

(** ** The other methods of [types.go]

    The name of a kind, native functions, and the rendering of a value as
    text. *)

Definition GetTypeName (v : ptr) : Go string :=
  c ← deref v;
  match TypeId c with
  | VMTypeInt => mret "int64"
  | VMTypeFloat => mret "float64"
  | VMTypeString => mret "str"
  | VMTypeUndefined => mret "undefined"
  | VMTypeNull => mret "none"
  | VMTypeComputedValue => mret "computed"
  | VMTypeArray => mret "array"
  | VMTypeFunction => mret "unknown"
  | VMTypeNativeFunction => mret "unknown"
  end.

(** The data of a native function.  [NativeFunc] is a Go function value: a
    function of the context (here the one of the state) and of the
    arguments, or [nil]. *)
Module NativeFunctionData.
Record t : Type := mk {
  Name : string;
  Params : list string;
  NativeFunc : option (list ptr -> Go ptr)
}.
End NativeFunctionData.

Definition as_NativeFunctionData (x : iface) : Go loc :=
  match x with INativeFunctionData p => mret p | _ => throw TypeAssertion end.

Definition ReadNativeFunctionData (v : ptr) : Go (option loc * bool) :=
  c ← deref v;
  if decide (TypeId c = VMTypeNativeFunction)
  then p ← as_NativeFunctionData (Value c); mret (Some p, true)
  else mret (None, false).

Definition VMValueNewNativeFunction (data : loc) : Go ptr :=
  new_value (mkVMValue VMTypeNativeFunction (INativeFunctionData data)).

(** [strconv.FormatInt(i, 10)]: the decimal digits, after a minus sign for a
    negative number. *)
Definition strconv_FormatInt (i : Z) : string :=
  DecimalString.NilZero.string_of_int (Z.to_int i).

(** The running text and the index of the loop of [ToString] over the
    elements of an array. *)
Record rendering : Set := mkRendering { text : string; position : Z }.

(** Nothing in this file writes to the data of a native function: the cells
    behind [*NativeFunctionData] are a table the host has filled.
    [strconv.FormatFloat] belongs to Go's library: the development is
    parametric in the text it gives for the format ['f'] with the shortest
    precision. *)

Section Natives.

Variable natives : gmap loc NativeFunctionData.t.
Variable strconv_FormatFloat : spec_float -> string.

Definition get_native (cd : option loc) : Go NativeFunctionData.t := fun s =>
  match cd with
  | None => Panicked NilDereference
  | Some l =>
      match natives !! l with
      | Some d => Returned d s
      | None => Panicked NilDereference
      end
  end.

(** Calling a function value: a panic when it is [nil]. *)
Definition call_native (f : option (list ptr -> Go ptr)) (params : list ptr)
    : Go ptr :=
  match f with
  | Some g => g params
  | None => throw NilDereference
  end.

Definition FuncInvokeNative (v : ptr) (params : list ptr) : Go ptr :=
  '(cd, _) ← ReadNativeFunctionData v;
  d ← get_native cd;
  if negb (Z.of_nat (length (NativeFunctionData.Params d))
           =? Z.of_nat (length params))
  then set_Error ArityMismatch;; mret None
  else
    ret ← call_native (NativeFunctionData.NativeFunc d) params;
    err ← get_Error;
    if err is Some _
    then modify (with_ctx (fun c => Context.set_Error (Context.Error c) c));;
         mret None
    else if ret is None then VMValueNewUndefined else mret ret.

(** [ToString] calls itself on the elements of an array that are not arrays
    themselves; [fuel] bounds the depth of the calls.  The tags of the model
    are the nine constants, so the [default] branch of the source has no
    counterpart. *)
Fixpoint ToString_fuel (fuel : nat) (v : ptr) : Go string :=
  match fuel with
  | O => mret ""
  | S fuel' =>
      if v is None then mret "NIL"
      else
        c ← deref v;
        match TypeId c with
        | VMTypeInt => i ← as_int64 (Value c); mret (strconv_FormatInt i)
        | VMTypeFloat => f ← as_float64 (Value c); mret (strconv_FormatFloat f)
        | VMTypeString => as_string (Value c)
        | VMTypeUndefined => mret "undefined"
        | VMTypeNull => mret "null"
        | VMTypeArray =>
            '(arr, _) ← ReadArray v;
            l ← get_List arr;
            r ← range_loop
                  (fun r i =>
                     ci ← deref i;
                     s ← (if decide (TypeId ci = VMTypeArray)
                          then mret (text r ++ "[...]")%string
                          else
                            e ← ToString_fuel fuel' i;
                            mret (text r ++ e)%string);
                     l' ← get_List arr;
                     let s := if negb (position r =? Z.of_nat (length l') - 1)
                              then (s ++ ", ")%string else s in
                     mret (mkRendering s (position r + 1)))
                  l (mkRendering "[" 0);
            mret (text r ++ "]")%string
        | VMTypeComputedValue =>
            '(cd, _) ← ReadComputed v;
            d ← get_computed cd;
            mret ("&(" ++ ComputedData.Expr d ++ ")")%string
        | VMTypeFunction =>
            '(cd, _) ← ReadFunctionData v;
            d ← get_function cd;
            mret ("function " ++ FunctionData.Name d)%string
        | VMTypeNativeFunction =>
            '(cd, _) ← ReadNativeFunctionData v;
            d ← get_native cd;
            mret ("nfunction " ++ NativeFunctionData.Name d)%string
        end
  end.

(** Two levels are all the calls there are: one for the value, one for an
    element. *)
Definition ToString (v : ptr) : Go string := ToString_fuel 2 v.

End Natives.

(** ** Reading further outcomes *)

(** The four ordering operators of the table, [<], [<=], [>=] and [>]. *)
Definition ordering_operators : list (ptr -> ptr -> Go ptr) :=
  [OpCompLT; OpCompLE; OpCompGE; OpCompGT].

(** The Float that is not a number. *)
Definition NaN_cell : VMValue := mkVMValue VMTypeFloat (IFloat64 S754_nan).

(** A state with the Float NaN behind location 1 and the Float 1 behind
    location 2. *)
Definition with_NaN : State :=
  mkState zero_Context
    (mkHeap {[ 1%positive := NaN_cell;
               2%positive := mkVMValue VMTypeFloat
                               (IFloat64 (S754_finite false 4503599627370496 (-52))) ]}
            ∅ ∅ ∅) [].

(** A state with the Int 3 behind location 1 and the Float 2 behind
    location 2. *)
Definition Int_and_Float : State :=
  mkState zero_Context
    (mkHeap {[ 1%positive := Int_cell 3;
               2%positive := mkVMValue VMTypeFloat (IFloat64 (Float64.of_int64 2)) ]}
            ∅ ∅ ∅) [].

(** The location of the next array that [new_array] creates, and the state
    once an Array value with the elements [l] is created: a new array, and a
    new cell that points to it. *)
Definition next_array (s : State) : loc := fresh (dom (arrays (heap s))).

Definition with_array (l : list ptr) (s : State) : State :=
  with_value (mkVMValue VMTypeArray (IArrayData (next_array s)))
    (with_heap (set_arrays (insert (next_array s) l)) s).

Definition String_cell (str : string) : VMValue :=
  mkVMValue VMTypeString (IString str).

Definition Array_cell (p : loc) : VMValue :=
  mkVMValue VMTypeArray (IArrayData p).

(** A state with the strings [dice] and [script] behind the locations 1 and
    2. *)
Definition two_Strings : State :=
  mkState zero_Context
    (mkHeap {[ 1%positive := String_cell "dice";
               2%positive := String_cell "script" ]} ∅ ∅ ∅) [].

(** What the loop of [ArrayRepeatTimesEx] reads: [k] elements of [l] from
    the index [i] on, the index taken modulo the length. *)
Fixpoint cycle (l : list ptr) (i k : nat) : list ptr :=
  match k with
  | O => []
  | S k' => default None (l !! (i mod length l)%nat) :: cycle l (S i) k'
  end.

(** Cloning the values behind [xs] one after the other: the pointers to the
    clones, and the state in the end. *)
Fixpoint clones (xs : list ptr) (s : State) : list ptr * State :=
  match xs with
  | [] => ([], s)
  | x :: xs' =>
      match cell s x with
      | Some c =>
          let '(rs, s') := clones xs' (with_value c s) in
          (Some (next_value s) :: rs, s')
      | None => ([], s)
      end
  end.

(** Every pointer of [l] leads to a cell. *)
Definition all_live (s : State) (l : list ptr) : Prop :=
  ∀ x : ptr, x ∈ l -> ∃ c : VMValue, cell s x = Some c.

(** A state with the array [[10, 20, 30]] behind location 4, and the Ints
    2, -1 and 2^62 behind the locations 5, 6 and 7. *)
Definition array_and_factors : State :=
  mkState zero_Context
    (mkHeap {[ 1%positive := Int_cell 10;
               2%positive := Int_cell 20;
               3%positive := Int_cell 30;
               4%positive := Array_cell 1%positive;
               5%positive := Int_cell 2;
               6%positive := Int_cell (-1);
               7%positive := Int_cell (2 ^ 62) ]}
            {[ 1%positive := [Some 1%positive; Some 2%positive; Some 3%positive] ]}
            ∅ ∅) [].

(** The bound that [GetSliceEx] and [SetSliceEx] take from a value: the
    default [d] for Undefined, the payload for an Int, nothing for any other
    kind. *)
Definition bound_of (c : VMValue) (d : Z) : option Z :=
  match TypeId c, Value c with
  | VMTypeUndefined, _ => Some d
  | VMTypeInt, IInt64 i => Some i
  | _, _ => None
  end.

(** [s'] is [s] with more cells and more arrays: the context, the cells and
    the arrays of [s] are in [s'] as they are in [s]. *)
Definition grows (s s' : State) : Prop :=
  ctx s' = ctx s
  ∧ (∀ (w : ptr) (c : VMValue), cell s w = Some c -> cell s' w = Some c)
  ∧ (∀ (p : loc) (l : list ptr),
       arrays (heap s) !! p = Some l -> arrays (heap s') !! p = Some l).

(** The values that have a length: an Array with its elements, a String
    with its bytes. *)
Definition sliceable (s : State) (v : ptr) (len : Z) : Prop :=
  (∃ l : list ptr, elements s v = Some l ∧ len = Z.of_nat (length l))
  ∨ (∃ str : string,
       cell s v = Some (String_cell str) ∧ len = Z.of_nat (String.length str)).

Definition Undefined_cell : VMValue := mkVMValue VMTypeUndefined INil.

(** A state with the array [[10, 20, 30]] behind location 4, an Undefined
    value behind location 5, the Int 1 behind location 6, the String [x]
    behind location 7 and the one-element array [[1]] behind location 8. *)
Definition array_and_bounds : State :=
  mkState zero_Context
    (mkHeap {[ 1%positive := Int_cell 10;
               2%positive := Int_cell 20;
               3%positive := Int_cell 30;
               4%positive := Array_cell 1%positive;
               5%positive := Undefined_cell;
               6%positive := Int_cell 1;
               7%positive := String_cell "x";
               8%positive := Array_cell 2%positive ]}
            {[ 1%positive := [Some 1%positive; Some 2%positive; Some 3%positive];
               2%positive := [Some 6%positive] ]}
            ∅ ∅) [].

(** The name [name] has no value in the optional map [m]. *)
Definition unset (m : option ValueMap) (name : string) : Prop :=
  match m with
  | None => True
  | Some m => fst (ValueMap_Get m name) = None
  end.

(** The frame a sub-evaluation enters the child with: the context [vm],
    given the flags and the callbacks of the parent, one level deeper, with
    the value as [this], and the count of the parent plus the entry tax. *)
Definition callee_frame (vm parent : Context.t) (v : ptr) (tax : Z)
    : Context.t :=
  Context.set_NumOpCount (Int64.add (Context.NumOpCount parent) tax)
    (Context.set_currentThis v
       (Context.set_subThreadDepth
          (Int64.add (Context.subThreadDepth parent) 1)
          (Context.set_ValueLoadNameFunc (Context.ValueLoadNameFunc parent)
             (Context.set_ValueStoreNameFunc (Context.ValueStoreNameFunc parent)
                (Context.set_Flags (Context.Flags parent) vm))))).

(** The map the loop over the parameters of a function builds: each name
    is put with the argument of the same position, in order. *)
Definition bind_params (names : list string) (params : list ptr) : ValueMap :=
  fold_left (fun m kp => ValueMap_Put m kp.1 kp.2) (zip names params) [].

(** How the child ends: through [Run] on the source when no bytecode is
    cached, through [Evaluate] on the cached bytecode otherwise. *)
Definition child_outcome
    (Run : string -> Context.t -> Heap -> Context.t * Heap)
    (Evaluate : Context.t -> Heap -> Context.t * Heap)
    (expr : string) (code : option (list ByteCode)) (codeIndex : Z)
    (vm : Context.t) (h : Heap) : Context.t * Heap :=
  match code with
  | None => Run expr vm h
  | Some _ => Evaluate (Context.set_code code codeIndex vm) h
  end.

(** The call of the parser that a sub-evaluation makes. *)
Definition child_call (expr : string) (code : option (list ByteCode))
    : ParserCall :=
  match code with
  | None => CallRun expr
  | Some _ => CallEvaluate code
  end.

(** What a sub-evaluation returns when the child has stopped as [vm] over
    the heap [h]: on an error [nil], with the error copied to the parent;
    else a new cell, a copy of the top of the stack of the child, or an
    Undefined value when that stack is empty, with the count of the child
    copied to the parent. *)
Definition hands_back (vm : Context.t) (h : Heap) (parent : Context.t)
    (r : ptr) (s' : State) : Prop :=
  match Context.Error vm with
  | Some e => r = None ∧ ctx s' = Context.set_Error (Some e) parent
  | None =>
      ctx s' = Context.set_NumOpCount (Context.NumOpCount vm) parent
      ∧ ∃ (l : loc) (c : VMValue),
          r = Some l ∧ values h !! l = None ∧ cell s' r = Some c
          ∧ (if Context.top vm =? 0 then c = Undefined_cell
             else Context.stack vm !! Z.to_nat (Context.top vm - 1) = Some c)
  end.

(** A state with the Int 5 behind location 1 and, behind location 2, the
    function [f] of one parameter [x] whose body is the source [x]. *)
Definition with_function : State :=
  mkState zero_Context
    (mkHeap {[ 1%positive := Int_cell 5;
               2%positive := mkVMValue VMTypeFunction (IFunctionData 1%positive) ]}
            ∅ ∅
            {[ 1%positive := FunctionData.mk "x" "f" ["x"] None 0 None ]}) [].

(** A table with one native function, [first], which returns its one
    argument, and a state with the Int 5 behind location 1 and the native
    function behind location 2. *)
Definition sample_natives : gmap loc NativeFunctionData.t :=
  {[ 1%positive :=
       NativeFunctionData.mk "first" ["a"]
         (Some (fun params : list ptr => mret (default None (params !! 0%nat)))) ]}.

Definition with_native : State :=
  mkState zero_Context
    (mkHeap {[ 1%positive := Int_cell 5;
               2%positive := mkVMValue VMTypeNativeFunction
                               (INativeFunctionData 1%positive) ]}
            ∅ ∅ ∅) [].

(** The kinds of numbers. *)
Definition number_kind (t : VMValueType) : bool :=
  match t with
  | VMTypeInt | VMTypeFloat => true
  | _ => false
  end.

(** The pairs of operand kinds that the operator of index [i] of the table
    has a case for: pairs of numbers for all but the modulus, which takes
    two Ints; besides, two Strings or two Arrays for the addition, an Array
    with an Int on either side for the multiplication; every pair for [==]
    and [!=]. *)
Definition has_case (i : nat) (t t2 : VMValueType) : bool :=
  match i with
  | 0%nat =>
      number_kind t && number_kind t2
      || bool_decide (t = VMTypeString ∧ t2 = VMTypeString)
      || bool_decide (t = VMTypeArray ∧ t2 = VMTypeArray)
  | 2%nat =>
      number_kind t && number_kind t2
      || bool_decide (t = VMTypeInt ∧ t2 = VMTypeArray)
      || bool_decide (t = VMTypeArray ∧ t2 = VMTypeInt)
  | 4%nat => bool_decide (t = VMTypeInt ∧ t2 = VMTypeInt)
  | 8%nat | 9%nat => true
  | _ => number_kind t && number_kind t2
  end.

(** The text of an element inside an array, for the kinds that need nothing
    but the cell: a number, a string, Undefined, Null, and an array, which
    is not descended into. *)
Definition render_element (strconv_FormatFloat : spec_float -> string)
    (c : VMValue) : option string :=
  match TypeId c, Value c with
  | VMTypeInt, IInt64 i => Some (strconv_FormatInt i)
  | VMTypeFloat, IFloat64 f => Some (strconv_FormatFloat f)
  | VMTypeString, IString str => Some str
  | VMTypeUndefined, _ => Some "undefined"
  | VMTypeNull, _ => Some "null"
  | VMTypeArray, _ => Some "[...]"
  | _, _ => None
  end.

(** The texts of a list, separated by a comma and a space. *)
Fixpoint join_comma (l : list string) : string :=
  match l with
  | [] => ""
  | [x] => x
  | x :: l' => (x ++ ", " ++ join_comma l')%string
  end.

(** A state with an array that holds the Int 7, the String [ab], the array
    itself once more, and a Null value: the array is behind location 3. *)
Definition nested_array : State :=
  mkState zero_Context
    (mkHeap {[ 1%positive := Int_cell 7;
               2%positive := String_cell "ab";
               3%positive := Array_cell 1%positive;
               4%positive := Array_cell 1%positive;
               5%positive := mkVMValue VMTypeNull INil ]}
            {[ 1%positive := [Some 1%positive; Some 2%positive;
                              Some 4%positive; Some 5%positive] ]}
            ∅ ∅) [].

(** The two kinds of functions. *)
Definition function_kind (t : VMValueType) : bool :=
  match t with
  | VMTypeFunction | VMTypeNativeFunction => true
  | _ => false
  end.

(** * Properties *)

(** ** Stepping through Go code *)

Lemma bind_unfold {A B : Type} (m : Go A) (f : A -> Go B) (s : State) :
  (m ≫= f) s =
  match m s with Returned a s' => f a s' | Panicked p => Panicked p end.
Proof. reflexivity. Qed.

Lemma ret_unfold {A : Type} (a : A) (s : State) :
  (mret a : Go A) s = Returned a s.
Proof. reflexivity. Qed.

Lemma deref_cell (s : State) (v : ptr) (c : VMValue) :
  cell s v = Some c -> deref v s = Returned c s.
Proof.
  destruct v as [l|]; simpl; [|discriminate].
  unfold deref. intros ->. reflexivity.
Qed.

Lemma deref_inv (s s' : State) (v : ptr) (c : VMValue) :
  deref v s = Returned c s' -> s' = s ∧ cell s v = Some c.
Proof.
  unfold deref, cell. destruct v as [l|]; [|discriminate].
  destruct (values (heap s) !! l); [|discriminate].
  intros [= -> ->]. split; reflexivity.
Qed.

Lemma new_value_returns (c : VMValue) (s : State) :
  returns_new (new_value c) s c.
Proof.
  exists (fresh (dom (values (heap s)))). split; [|reflexivity].
  apply not_elem_of_dom, is_fresh.
Qed.

Lemma returns_new_eq (m m' : Go ptr) (s : State) (c : VMValue) :
  m s = m' s -> returns_new m' s c -> returns_new m s c.
Proof.
  intros E (r & H1 & H2). exists r. split; [exact H1|]. rewrite E. exact H2.
Qed.

(** One step: a bind whose first action is known. *)
Ltac go :=
  repeat (first [ rewrite bind_unfold
                | rewrite ret_unfold
                | erewrite deref_cell by eassumption ];
          cbn beta iota delta [TypeId Value]).

Lemma keeps_ctx_bind {A B : Type} (m : Go A) (f : A -> Go B) :
  keeps_ctx m -> (∀ a, keeps_ctx (f a)) -> keeps_ctx (m ≫= f).
Proof.
  intros Hm Hf s b s'. rewrite bind_unfold.
  destruct (m s) as [a s1|] eqn:E; [|discriminate].
  intros H. rewrite (Hf _ _ _ _ H). eapply Hm, E.
Qed.

Lemma keeps_ctx_ret {A : Type} (a : A) : keeps_ctx (mret a : Go A).
Proof. intros s a' s' [= _ ->]. reflexivity. Qed.

Lemma keeps_ctx_throw {A : Type} (p : panic) : keeps_ctx (throw p : Go A).
Proof. intros s a s'. discriminate. Qed.

Lemma keeps_ctx_deref (v : ptr) : keeps_ctx (deref v).
Proof. intros s c s' H. apply deref_inv in H as [-> _]. reflexivity. Qed.

Lemma keeps_ctx_new_value (c : VMValue) : keeps_ctx (new_value c).
Proof. intros s r s' [= _ <-]. reflexivity. Qed.

Lemma keeps_ctx_as_int64 (x : iface) : keeps_ctx (as_int64 x).
Proof. destruct x; first [apply keeps_ctx_ret | apply keeps_ctx_throw]. Qed.

(** ** C10: the modulus has no guard on its right operand *)

(** C10. On two Ints with a divisor that is not zero, [OpModulus] returns a
    new Int holding Go's remainder and sets no error.  Nothing guards the
    divisor: on the divisor zero the remainder panics at run time, where
    [OpDivide] reports the error DivideByZero; and on no operands at all
    does [OpModulus] touch the context, so it never reports that error. *)
Theorem OpModulus_unguarded (s : State) (v v2 : ptr) (a b : Z) :
  cell s v = Some (mkVMValue VMTypeInt (IInt64 a)) ->
  cell s v2 = Some (mkVMValue VMTypeInt (IInt64 b)) ->
  (b ≠ 0 ->
   returns_new (OpModulus v v2) s (mkVMValue VMTypeInt (IInt64 (Z.rem a b))))
  ∧ (b = 0 ->
     OpModulus v v2 s = Panicked IntegerDivideByZero
     ∧ fails_with (OpDivide v v2) s DivideByZero)
  ∧ (∀ (w w2 : ptr) (t t' : State) (r : ptr),
       OpModulus w w2 t = Returned r t' -> ctx t' = ctx t).
Proof.
  intros Hv Hv2. split; [|split].
  - intros Hb. eapply returns_new_eq; [|apply new_value_returns].
    unfold OpModulus, as_int64. go.
    destruct (Z.eqb_spec b 0); [lia|]. reflexivity.
  - intros ->. split.
    + unfold OpModulus, as_int64. go. reflexivity.
    + unfold fails_with, OpDivide, as_int64. go. reflexivity.
  - intros w w2 t t' r. revert t r t'. change (keeps_ctx (OpModulus w w2)).
    unfold OpModulus.
    apply keeps_ctx_bind; [apply keeps_ctx_deref|]. intros c.
    destruct (TypeId c); try apply keeps_ctx_ret.
    apply keeps_ctx_bind; [apply keeps_ctx_deref|]. intros c2.
    destruct (TypeId c2); try apply keeps_ctx_ret.
    apply keeps_ctx_bind; [apply keeps_ctx_as_int64|]. intros x.
    apply keeps_ctx_bind; [apply keeps_ctx_as_int64|]. intros y.
    destruct (y =? 0); [apply keeps_ctx_throw|apply keeps_ctx_new_value].
Qed.

Lemma OpModulus_unguarded_witness :
  returns_new (OpModulus (Some 1%positive) (Some 2%positive)) two_Ints
    (mkVMValue VMTypeInt (IInt64 1)).
Proof.
  apply (OpModulus_unguarded two_Ints (Some 1%positive) (Some 2%positive) 7 2).
  - reflexivity.
  - reflexivity.
  - lia.
Defined.

(** ** C2: division by zero and the flag [IgnoreDiv0] *)

(** C2. Whatever the flags of the context, [IgnoreDiv0] included, dividing
    a number by a divisor that is exactly zero stores the error
    DivideByZero and returns [nil]: the flag is never read, and no
    Undefined value is produced. *)
Theorem OpDivide_by_zero_reports (s : State) (v v2 : ptr) (c c2 : VMValue) :
  cell s v = Some c -> cell s v2 = Some c2 ->
  numeric c -> zero_valued c2 ->
  fails_with (OpDivide v v2) s DivideByZero.
Proof.
  intros Hv Hv2 Hc Hz. unfold fails_with, OpDivide.
  destruct Hc as [[i [-> _]]|[f ->]], Hz as [->|[sg ->]];
    unfold as_int64, as_float64; go; reflexivity.
Qed.

Lemma OpDivide_by_zero_reports_witness :
  IgnoreDiv0 (Context.Flags (ctx ignoring_div0)) = true
  ∧ OpDivide (Some 1%positive) (Some 2%positive) ignoring_div0
    = Returned None
        (with_ctx (Context.set_Error (Some DivideByZero)) ignoring_div0).
Proof.
  split; [reflexivity|].
  apply (OpDivide_by_zero_reports ignoring_div0 (Some 1%positive)
           (Some 2%positive) (mkVMValue VMTypeInt (IInt64 1))
           (mkVMValue VMTypeInt (IInt64 0))).
  - reflexivity.
  - reflexivity.
  - left. exists 1. split; [reflexivity|]. unfold Int64.in_range, Int64.min_int, Int64.max_int; lia.
  - left. reflexivity.
Defined.

(** ** C7: the widening rule of the arithmetic operators *)

(** C7. For each of the six arithmetic operators of the table and each pair
    of numbers on which it is defined, the operator returns a new value whose
    kind is Float exactly when one operand at least is a Float, and Int
    exactly when both are Ints.  In particular the division of two Ints
    gives the Int that holds the quotient, truncated towards zero, and the
    power of two Ints gives the Int that the conversion [int64] makes of
    the float [math.Pow] returns on the two operands widened: the fraction
    of the floating result is discarded. *)
Theorem binary_numeric_kind
    (math_Pow : spec_float -> spec_float -> spec_float)
    (i : nat) (op : ptr -> ptr -> Go ptr)
    (s : State) (v v2 : ptr) (c1 c2 : VMValue) :
  arithmetic_operators math_Pow !! i = Some op ->
  cell s v = Some c1 -> cell s v2 = Some c2 ->
  numeric c1 -> numeric c2 ->
  defined_on i c1 c2 ->
  ∃ c : VMValue,
    returns_new (op v v2) s c
    ∧ (TypeId c = VMTypeFloat ↔
       TypeId c1 = VMTypeFloat ∨ TypeId c2 = VMTypeFloat)
    ∧ (TypeId c = VMTypeInt ↔
       TypeId c1 = VMTypeInt ∧ TypeId c2 = VMTypeInt)
    ∧ (∀ a b : Z,
         i = 3%nat -> is_Int c1 a -> is_Int c2 b ->
         c = Int_cell (Int64.quot a b))
    ∧ (∀ a b : Z,
         i = 5%nat -> is_Int c1 a -> is_Int c2 b ->
         c = Int_cell
               (Float64.to_int64
                  (math_Pow (Float64.of_int64 a) (Float64.of_int64 b)))).
Proof.
  intros Hop Hv Hv2 H1 H2 Hdef.
  assert (Hkind : ∀ t : VMValueType,
             t = widened c1 c2 ->
             (t = VMTypeFloat ↔ TypeId c1 = VMTypeFloat ∨ TypeId c2 = VMTypeFloat)
             ∧ (t = VMTypeInt ↔ TypeId c1 = VMTypeInt ∧ TypeId c2 = VMTypeInt)).
  { intros t ->. unfold widened, numeric, is_Int, is_Float in *.
    destruct H1 as [[a [-> _]]|[a ->]], H2 as [[b [-> _]]|[b ->]]; simpl;
      try case_decide; intuition congruence. }
  destruct i as [|[|[|[|[|[|i]]]]]]; [..|discriminate Hop]; injection Hop as <-.
  all: unfold numeric, is_Int, is_Float in H1, H2.
  all: destruct H1 as [[a [-> _]]|[a ->]], H2 as [[b [-> _]]|[b ->]].
  all: unfold OpAdd, OpSub, OpMultiply, OpDivide, OpModulus, OpPower.
  all: simpl in Hdef.
  all: try (destruct Hdef as (? & ? & _); discriminate).
  all: eexists; split;
    [ eapply returns_new_eq; [|apply new_value_returns];
      unfold as_int64, as_float64; go;
      try rewrite Hdef;
      try match goal with
          | |- context [?x =? 0] =>
              destruct (Z.eqb_spec x 0) as [->|]; [exfalso; intuition|]
          end;
      reflexivity
    | split; [apply Hkind; reflexivity|];
      split; [apply Hkind; reflexivity|];
      split; intros a' b' Hi [E1 _] [E2 _];
        try discriminate Hi; try discriminate E1; try discriminate E2;
        injection E1 as <-; injection E2 as <-; reflexivity ].
Qed.

Lemma binary_numeric_kind_witness :
  ∃ c : VMValue,
    returns_new (OpDivide (Some 1%positive) (Some 2%positive)) two_Ints c
    ∧ (TypeId c = VMTypeFloat ↔
       VMTypeInt = VMTypeFloat ∨ VMTypeInt = VMTypeFloat)
    ∧ (TypeId c = VMTypeInt ↔ VMTypeInt = VMTypeInt ∧ VMTypeInt = VMTypeInt)
    ∧ (∀ a b : Z,
         3%nat = 3%nat ->
         is_Int (Int_cell 7) a -> is_Int (Int_cell 2) b ->
         c = Int_cell (Int64.quot a b))
    ∧ (∀ a b : Z,
         3%nat = 5%nat ->
         is_Int (Int_cell 7) a -> is_Int (Int_cell 2) b ->
         c = Int_cell
               (Float64.to_int64
                  ((fun x _ => x) (Float64.of_int64 a) (Float64.of_int64 b)))).
Proof.
  apply (binary_numeric_kind (fun x _ => x) 3 OpDivide two_Ints
           (Some 1%positive) (Some 2%positive)
           (mkVMValue VMTypeInt (IInt64 7)) (mkVMValue VMTypeInt (IInt64 2))).
  - reflexivity.
  - reflexivity.
  - reflexivity.
  - left. exists 7. split; [reflexivity|].
    unfold Int64.in_range, Int64.min_int, Int64.max_int; lia.
  - left. exists 2. split; [reflexivity|].
    unfold Int64.in_range, Int64.min_int, Int64.max_int; lia.
  - unfold defined_on, nonzero_valued; simpl; lia.
Defined.

(** Outside the domain of [defined_on] an arithmetic operator gives no
    value: it returns [nil], or the run panics. *)
Lemma binary_numeric_undefined
    (math_Pow : spec_float -> spec_float -> spec_float)
    (i : nat) (op : ptr -> ptr -> Go ptr)
    (s s' : State) (v v2 r : ptr) (c1 c2 : VMValue) :
  arithmetic_operators math_Pow !! i = Some op ->
  cell s v = Some c1 -> cell s v2 = Some c2 ->
  numeric c1 -> numeric c2 ->
  ¬ defined_on i c1 c2 ->
  op v v2 s = Returned r s' -> r = None.
Proof.
  intros Hop Hv Hv2 H1 H2 Hdef.
  destruct i as [|[|[|[|[|[|i]]]]]]; [..|discriminate Hop]; injection Hop as <-;
    try (exfalso; apply Hdef; exact I).
  all: unfold numeric, is_Int, is_Float in H1, H2.
  all: destruct H1 as [[a [-> _]]|[a ->]], H2 as [[b [-> _]]|[b ->]].
  all: unfold OpDivide, OpModulus, as_int64, as_float64; go.
  all: unfold defined_on, nonzero_valued in Hdef; simpl in Hdef.
  all: try (intros [= <- _]; reflexivity).
  - destruct (Z.eqb_spec b 0); [|contradiction]. go.
    intros [= <- _]. reflexivity.
  - destruct (Float64.eqb b Float64.zero); [|exfalso; apply Hdef; reflexivity].
    go. intros [= <- _]. reflexivity.
  - destruct (Z.eqb_spec b 0); [|contradiction]. go.
    intros [= <- _]. reflexivity.
  - destruct (Float64.eqb b Float64.zero); [|exfalso; apply Hdef; reflexivity].
    go. intros [= <- _]. reflexivity.
  - destruct (Z.eqb_spec b 0); [discriminate|]. exfalso. apply Hdef.
    repeat split; assumption.
Qed.

(** ** C6: slicing *)

Lemma wrap_in_range (z : Z) : Int64.in_range z -> Int64.wrap z = z.
Proof.
  unfold Int64.in_range, Int64.wrap, Int64.min_int, Int64.max_int. intros H.
  rewrite Z.mod_small; lia.
Qed.

Lemma getClampRealIndex_spec (i len : Z) :
  Int64.in_range i -> 0 <= len <= Int64.max_int ->
  getClampRealIndex i len = spec_bound len i.
Proof.
  intros Hi Hlen. unfold getClampRealIndex, spec_bound, Int64.add.
  destruct (Z.ltb_spec i 0).
  - rewrite wrap_in_range
      by (unfold Int64.in_range, Int64.min_int, Int64.max_int in *; lia).
    destruct (Z.ltb_spec (len + i) 0).
    + destruct (Z.ltb_spec len 0); lia.
    + destruct (Z.ltb_spec len (len + i)); lia.
  - destruct (Z.ltb_spec i 0); [lia|].
    destruct (Z.ltb_spec len i); lia.
Qed.

Lemma spec_bound_range (len i : Z) : 0 <= len -> 0 <= spec_bound len i <= len.
Proof. unfold spec_bound. lia. Qed.

Lemma ReadArray_cell (s : State) (v : ptr) (p : loc) :
  cell s v = Some (mkVMValue VMTypeArray (IArrayData p)) ->
  ReadArray v s = Returned (Some p, true) s.
Proof. intros H. unfold ReadArray. go. reflexivity. Qed.

Lemma ReadString_cell (s : State) (v : ptr) (str : string) :
  cell s v = Some (mkVMValue VMTypeString (IString str)) ->
  ReadString v s = Returned (str, true) s.
Proof. intros H. unfold ReadString. go. reflexivity. Qed.

Lemma get_List_array (s : State) (p : loc) (l : list ptr) :
  arrays (heap s) !! p = Some l -> get_List (Some p) s = Returned l s.
Proof. intros H. unfold get_List. rewrite H. reflexivity. Qed.

Lemma append_all_from (l acc : list ptr) :
  fold_left (fun data i => data ++ [i]) l acc = acc ++ l.
Proof.
  revert acc. induction l as [|x l IH]; intros acc; simpl.
  - rewrite app_nil_r. reflexivity.
  - rewrite IH, <- app_assoc. reflexivity.
Qed.

Lemma append_all_id (l : list ptr) : append_all l = l.
Proof. apply append_all_from. Qed.

Lemma VMValueNewArray_returns (l : list ptr) (s : State) :
  returns_new_array (VMValueNewArray l) s l.
Proof.
  exists (fresh (dom (arrays (heap s)))), (fresh (dom (values (heap s)))).
  split; [apply not_elem_of_dom, is_fresh|].
  split; [apply not_elem_of_dom, is_fresh|].
  unfold VMValueNewArray. rewrite append_all_id. reflexivity.
Qed.

Lemma returns_new_array_eq (m m' : Go ptr) (s : State) (l : list ptr) :
  m s = m' s -> returns_new_array m' s l -> returns_new_array m s l.
Proof.
  intros E (d & r & H1 & H2 & H3). exists d, r.
  split; [exact H1|]. split; [exact H2|]. rewrite E. exact H3.
Qed.

Lemma spec_bounds_ordered (len i j : Z) :
  0 <= len -> 0 <= spec_lower len i j <= spec_upper len j ∧ spec_upper len j <= len.
Proof.
  intros H. unfold spec_lower, spec_upper.
  pose proof (spec_bound_range len i H). pose proof (spec_bound_range len j H).
  destruct (Z.ltb_spec (spec_bound len j) (spec_bound len i)); lia.
Qed.

Lemma slice_in_range {A : Type} (l : list A) (a b : Z) (s : State) :
  0 <= a <= b -> b <= Z.of_nat (length l) ->
  slice l a b s = Returned (elements_between l a b) s.
Proof.
  intros H1 H2. unfold slice.
  destruct (Z.ltb_spec a 0); [lia|].
  destruct (Z.ltb_spec b a); [lia|].
  destruct (Z.ltb_spec (Z.of_nat (length l)) b); [lia|]. reflexivity.
Qed.

Lemma slice_string_in_range (str : string) (a b : Z) (s : State) :
  0 <= a <= b -> b <= Z.of_nat (String.length str) ->
  slice_string str a b s = Returned (bytes_between str a b) s.
Proof.
  intros H1 H2. unfold slice_string.
  destruct (Z.ltb_spec a 0); [lia|].
  destruct (Z.ltb_spec b a); [lia|].
  destruct (Z.ltb_spec (Z.of_nat (String.length str)) b); [lia|]. reflexivity.
Qed.

(** C6. With no error pending in the context, slicing an Array or a String
    of length [len] by the Int bounds [i] and [j] returns a new value that
    holds the elements, or the bytes, of the half-open range whose ends are
    the bounds treated as the specification says: increased by [len] when
    negative, clamped into [[0, len]], the lower one reset to the upper one
    when it exceeds it. *)
Theorem GetSlice_clamps (s : State) (v : ptr) (i j step : Z) :
  Int64.in_range i -> Int64.in_range j ->
  Context.Error (ctx s) = None ->
  (∀ (p : loc) (l : list ptr),
     cell s v = Some (mkVMValue VMTypeArray (IArrayData p)) ->
     arrays (heap s) !! p = Some l ->
     Z.of_nat (length l) <= Int64.max_int ->
     let len := Z.of_nat (length l) in
     returns_new_array (GetSlice v i j step) s
       (elements_between l (spec_lower len i j) (spec_upper len j)))
  ∧ (∀ str : string,
       cell s v = Some (mkVMValue VMTypeString (IString str)) ->
       Z.of_nat (String.length str) <= Int64.max_int ->
       let len := Z.of_nat (String.length str) in
       returns_new (GetSlice v i j step) s
         (mkVMValue VMTypeString
            (IString (bytes_between str (spec_lower len i j) (spec_upper len j))))).
Proof.
  intros Hi Hj Herr. split.
  - intros p l Hv Hp Hmax len.
    eapply returns_new_array_eq; [|apply VMValueNewArray_returns].
    unfold GetSlice, Length. go.
    rewrite (ReadArray_cell _ _ _ Hv). go.
    rewrite (get_List_array _ _ _ Hp). go.
    unfold get_Error at 1. rewrite Herr.
    go. rewrite (ReadArray_cell _ _ _ Hv). go.
    rewrite (get_List_array _ _ _ Hp). go.
    rewrite !getClampRealIndex_spec by (try assumption; lia).
    fold len. fold (spec_lower len i j). fold (spec_upper len j).
    destruct (spec_bounds_ordered len i j) as [Hlo Hhi]; [lia|].
    rewrite slice_in_range by (try assumption; lia). reflexivity.
  - intros str Hv Hmax len.
    eapply returns_new_eq; [|apply new_value_returns].
    unfold GetSlice, Length. go.
    rewrite (ReadString_cell _ _ _ Hv). go.
    unfold get_Error at 1. rewrite Herr.
    go. rewrite (ReadString_cell _ _ _ Hv). go.
    rewrite !getClampRealIndex_spec by (try assumption; lia).
    fold len. fold (spec_lower len i j). fold (spec_upper len j).
    destruct (spec_bounds_ordered len i j) as [Hlo Hhi]; [lia|].
    rewrite slice_string_in_range by (try assumption; lia). reflexivity.
Qed.

Lemma GetSlice_clamps_witness :
  returns_new_array (GetSlice (Some 4%positive) (-2) 7 1) sample_values
    [Some 2%positive; Some 3%positive]
  ∧ returns_new (GetSlice (Some 5%positive) (-4) 2 1) sample_values
      (mkVMValue VMTypeString (IString "di")).
Proof.
  split.
  - apply (GetSlice_clamps sample_values (Some 4%positive) (-2) 7 1)
      with (p := 1%positive)
           (l := [Some 1%positive; Some 2%positive; Some 3%positive]).
    + unfold Int64.in_range, Int64.min_int, Int64.max_int; lia.
    + unfold Int64.in_range, Int64.min_int, Int64.max_int; lia.
    + reflexivity.
    + reflexivity.
    + reflexivity.
    + unfold Int64.max_int; simpl; lia.
  - apply (GetSlice_clamps sample_values (Some 5%positive) (-4) 2 1)
      with (str := "dice"%string).
    + unfold Int64.in_range, Int64.min_int, Int64.max_int; lia.
    + unfold Int64.in_range, Int64.min_int, Int64.max_int; lia.
    + reflexivity.
    + reflexivity.
    + unfold Int64.max_int; simpl; lia.
Defined.


(** ** C3: equality compares payloads as Go does *)

Lemma boolToVMValue_returns (b : bool) (s : State) :
  returns_new (boolToVMValue b) s (Int_of_bool b).
Proof. apply new_value_returns. Qed.

(** C3, counterexample. The two arrays of [[1] == [1]] hold the same
    elements, and the comparison yields the Int 0: two Array values that are
    not one handle compare equal only when they share one array. *)
Lemma OpCompEQ_distinct_arrays :
  result (compare_equal_arrays initial_State)
  = Some (mkVMValue VMTypeInt (IInt64 0), true).
Proof. vm_compute. reflexivity. Qed.

(** C3, amended. [OpCompEQ] returns the Int 1 on one and the same handle.
    On two handles with equal tags it returns Go's comparison of the two
    payloads: by value for scalars, by address for containers, so that two
    Arrays compare equal exactly when they share one array, whatever the
    elements.  An Int and a Float are compared as Floats once the Int is
    widened, and any other pair of different kinds yields the Int 0. *)
Theorem OpCompEQ_by_handle (s : State) (v v2 : ptr) (c c2 : VMValue) :
  cell s v = Some c -> cell s v2 = Some c2 ->
  (v = v2 -> returns_new (OpCompEQ v v2) s (Int_of_bool true))
  ∧ (v ≠ v2 -> TypeId c = TypeId c2 ->
     returns_new (OpCompEQ v v2) s (Int_of_bool (iface_eqb (Value c) (Value c2))))
  ∧ (∀ p q : loc,
       v ≠ v2 ->
       c = mkVMValue VMTypeArray (IArrayData p) ->
       c2 = mkVMValue VMTypeArray (IArrayData q) ->
       returns_new (OpCompEQ v v2) s (Int_of_bool (bool_decide (p = q))))
  ∧ (∀ (a : Z) (b : spec_float),
       c = mkVMValue VMTypeInt (IInt64 a) ->
       c2 = mkVMValue VMTypeFloat (IFloat64 b) ->
       returns_new (OpCompEQ v v2) s
         (Int_of_bool (Float64.eqb (Float64.of_int64 a) b)))
  ∧ (∀ (a : spec_float) (b : Z),
       c = mkVMValue VMTypeFloat (IFloat64 a) ->
       c2 = mkVMValue VMTypeInt (IInt64 b) ->
       returns_new (OpCompEQ v v2) s
         (Int_of_bool (Float64.eqb a (Float64.of_int64 b))))
  ∧ (TypeId c ≠ TypeId c2 -> ¬ Int_Float_mix (TypeId c) (TypeId c2) ->
     returns_new (OpCompEQ v v2) s (Int_of_bool false)).
Proof.
  intros Hv Hv2.
  assert (Hne : TypeId c ≠ TypeId c2 -> v ≠ v2).
  { intros Ht ->. rewrite Hv in Hv2. injection Hv2 as ->. apply Ht. reflexivity. }
  assert (Hsame : v ≠ v2 -> TypeId c = TypeId c2 ->
     returns_new (OpCompEQ v v2) s (Int_of_bool (iface_eqb (Value c) (Value c2)))).
  { intros Hd Ht. eapply returns_new_eq; [|apply boolToVMValue_returns].
    unfold OpCompEQ. destruct (decide (v = v2)) as [|_]; [contradiction|].
    go. destruct (decide (TypeId c = TypeId c2)); [reflexivity|contradiction]. }
  split; [|split; [exact Hsame|split; [|split; [|split]]]].
  - intros <-. unfold OpCompEQ.
    destruct (decide (v = v)); [|contradiction]. apply new_value_returns.
  - intros p q Hd -> ->. apply (Hsame Hd eq_refl).
  - intros a b -> ->.
    eapply returns_new_eq; [|apply boolToVMValue_returns].
    unfold OpCompEQ. destruct (decide (v = v2)) as [E|_].
    { exfalso. revert E. apply Hne. discriminate. }
    go. destruct (decide _) as [E|_]; [discriminate E|]. reflexivity.
  - intros a b -> ->.
    eapply returns_new_eq; [|apply boolToVMValue_returns].
    unfold OpCompEQ. destruct (decide (v = v2)) as [E|_].
    { exfalso. revert E. apply Hne. discriminate. }
    go. destruct (decide _) as [E|_]; [discriminate E|]. reflexivity.
  - intros Ht Hmix.
    eapply returns_new_eq; [|apply (new_value_returns (Int_of_bool false))].
    unfold OpCompEQ. destruct (decide (v = v2)) as [E|_].
    { exfalso. revert E. apply Hne, Ht. }
    go. destruct (decide _) as [E|_]; [contradiction|].
    unfold Int_Float_mix in Hmix.
    destruct (TypeId c), (TypeId c2); try reflexivity; exfalso; tauto.
Qed.

Lemma OpCompEQ_by_handle_witness :
  arrays (heap twin_arrays) !! 1%positive = arrays (heap twin_arrays) !! 2%positive
  ∧ returns_new (OpCompEQ (Some 4%positive) (Some 5%positive)) twin_arrays
      (Int_of_bool false).
Proof.
  split; [reflexivity|].
  apply (OpCompEQ_by_handle twin_arrays (Some 4%positive) (Some 5%positive)
           (mkVMValue VMTypeArray (IArrayData 1%positive))
           (mkVMValue VMTypeArray (IArrayData 2%positive)))
    with (p := 1%positive) (q := 2%positive).
  - reflexivity.
  - reflexivity.
  - discriminate.
  - reflexivity.
  - reflexivity.
Defined.

(** ** C9: a clone shares the payload of the original *)

Lemma next_value_fresh (s : State) : values (heap s) !! next_value s = None.
Proof. unfold next_value. apply not_elem_of_dom, is_fresh. Qed.

Lemma new_value_eq (c : VMValue) (s : State) :
  new_value c s = Returned (Some (next_value s)) (with_value c s).
Proof. reflexivity. Qed.

Lemma cell_with_value_old (s : State) (v : ptr) (c c' : VMValue) :
  cell s v = Some c -> cell (with_value c' s) v = Some c.
Proof.
  intros Hv. destruct v as [l|]; [|discriminate Hv]. simpl in *.
  rewrite lookup_insert_ne; [exact Hv|].
  intros E. rewrite <- E, next_value_fresh in Hv. discriminate.
Qed.

Lemma cell_with_value_new (s : State) (c' : VMValue) :
  cell (with_value c' s) (Some (next_value s)) = Some c'.
Proof. simpl. apply lookup_insert_eq. Qed.

Lemma Clone_eq (s : State) (v : ptr) (c : VMValue) :
  cell s v = Some c ->
  Clone v s = Returned (Some (next_value s)) (with_value c s).
Proof. intros Hv. unfold Clone. go. destruct c; reflexivity. Qed.

Lemma getRealIndex_in_range (i len : Z) (s : State) :
  0 <= i < len -> getRealIndex i len s = Returned i s.
Proof.
  intros H. unfold getRealIndex.
  assert (E1 : (i <? 0) = false) by lia.
  assert (E2 : (len <=? i) = false) by lia.
  rewrite E1. cbn beta zeta. rewrite E1, E2. reflexivity.
Qed.

Lemma elem_at_lookup {A : Type} (l : list A) (i : Z) (x : A) (s : State) :
  0 <= i -> l !! Z.to_nat i = Some x -> elem_at l i s = Returned x s.
Proof.
  intros Hi Hx. unfold elem_at.
  pose proof (lookup_lt_Some _ _ _ Hx).
  destruct (Z.ltb_spec i 0); [lia|].
  destruct (Z.leb_spec (Z.of_nat (length l)) i); [lia|].
  simpl. rewrite Hx. reflexivity.
Qed.

Lemma store_at_in_range {A : Type} (l : list A) (i : Z) (x : A) (s : State) :
  0 <= i < Z.of_nat (length l) ->
  store_at l i x s = Returned (<[Z.to_nat i := x]> l) s.
Proof.
  intros Hi. unfold store_at.
  destruct (Z.ltb_spec i 0); [lia|].
  destruct (Z.leb_spec (Z.of_nat (length l)) i); [lia|]. reflexivity.
Qed.

Lemma set_List_array (s : State) (p : loc) (l l' : list ptr) :
  arrays (heap s) !! p = Some l ->
  set_List (Some p) l' s
  = Returned tt (with_heap (set_arrays (insert p l')) s).
Proof. intros H. unfold set_List. rewrite H. reflexivity. Qed.

Lemma get_Error_eq (s : State) :
  get_Error s = Returned (Context.Error (ctx s)) s.
Proof. reflexivity. Qed.

(** Assigning to an element of an array: the new element is a clone of the
    right-hand side, stored in the array itself. *)
Lemma ArraySetItem_array (s : State) (v x : ptr) (p : loc) (l : list ptr)
    (i : Z) (cx : VMValue) :
  cell s v = Some (mkVMValue VMTypeArray (IArrayData p)) ->
  arrays (heap s) !! p = Some l ->
  0 <= i < Z.of_nat (length l) ->
  cell s x = Some cx ->
  Context.Error (ctx s) = None ->
  ArraySetItem v i x s
  = Returned true
      (with_heap (set_arrays (insert p (<[Z.to_nat i := Some (next_value s)]> l)))
         (with_value cx s)).
Proof.
  intros Hv Hp Hi Hx Herr. unfold ArraySetItem. go.
  destruct (decide _) as [_|E]; [|exfalso; apply E; reflexivity].
  go. rewrite (ReadArray_cell _ _ _ Hv). go.
  rewrite (get_List_array _ _ _ Hp). go.
  rewrite getRealIndex_in_range by lia. go.
  rewrite get_Error_eq, Herr. go.
  rewrite (Clone_eq _ _ _ Hx). go.
  rewrite (get_List_array _ _ l) by exact Hp. go.
  rewrite store_at_in_range by lia. go.
  rewrite (set_List_array _ _ l) by exact Hp. reflexivity.
Qed.

Lemma ArrayGetItem_array (s : State) (v e : ptr) (p : loc) (l : list ptr)
    (i : Z) :
  cell s v = Some (mkVMValue VMTypeArray (IArrayData p)) ->
  arrays (heap s) !! p = Some l ->
  0 <= i -> l !! Z.to_nat i = Some e ->
  Context.Error (ctx s) = None ->
  ArrayGetItem v i s = Returned e s.
Proof.
  intros Hv Hp Hi He Herr. pose proof (lookup_lt_Some _ _ _ He).
  unfold ArrayGetItem. go.
  destruct (decide _) as [_|E]; [|exfalso; apply E; reflexivity].
  go. rewrite (ReadArray_cell _ _ _ Hv). go.
  rewrite (get_List_array _ _ _ Hp). go.
  rewrite getRealIndex_in_range by lia. go.
  rewrite get_Error_eq, Herr. go.
  rewrite (get_List_array _ _ _ Hp). go.
  apply elem_at_lookup; assumption.
Qed.

Lemma ValueMap_Get_Put (m : ValueMap) (k : string) (v : ptr) :
  fst (ValueMap_Get (ValueMap_Put m k v) k) = v.
Proof.
  induction m as [|[k' v'] m IH]; simpl.
  - rewrite String.eqb_refl. reflexivity.
  - destruct (String.eqb k' k) eqn:E; simpl.
    + rewrite String.eqb_refl. reflexivity.
    + rewrite E. exact IH.
Qed.

Lemma ReadComputed_cell (s : State) (v : ptr) (p : loc) :
  cell s v = Some (mkVMValue VMTypeComputedValue (IComputedData p)) ->
  ReadComputed v s = Returned (Some p, true) s.
Proof. intros H. unfold ReadComputed. go. reflexivity. Qed.

Lemma get_computed_eq (s : State) (p : loc) (d : ComputedData.t) :
  computeds (heap s) !! p = Some d -> get_computed (Some p) s = Returned d s.
Proof. intros H. unfold get_computed. rewrite H. reflexivity. Qed.

Lemma update_computed_eq (s : State) (p : loc) (d : ComputedData.t)
    (f : ComputedData.t -> ComputedData.t) :
  computeds (heap s) !! p = Some d ->
  update_computed (Some p) f s
  = Returned tt (with_heap (set_computeds (insert p (f d))) s).
Proof. intros H. unfold update_computed. rewrite H. reflexivity. Qed.

(** Setting an attribute of a computed value: a clone of the right-hand
    side is put into the map of the computed data itself. *)
Lemma SetAttr_computed (s : State) (v x : ptr) (p : loc) (d : ComputedData.t)
    (name : string) (cx : VMValue) :
  cell s v = Some (mkVMValue VMTypeComputedValue (IComputedData p)) ->
  computeds (heap s) !! p = Some d ->
  cell s x = Some cx ->
  SetAttr v name x s
  = Returned x
      (with_heap
         (set_computeds
            (insert p
               (ComputedData.set_Attrs
                  (Some (ValueMap_Put (default [] (ComputedData.Attrs d)) name
                           (Some (next_value s)))) d)))
         (with_value cx s)).
Proof.
  intros Hv Hp Hx. unfold SetAttr. go.
  rewrite (ReadComputed_cell _ _ _ Hv). go.
  rewrite (get_computed_eq _ _ _ Hp). go.
  destruct (ComputedData.Attrs d) as [m|] eqn:Em.
  - go. rewrite (Clone_eq _ _ _ Hx). go.
    rewrite (update_computed_eq _ _ d) by exact Hp. go.
    rewrite Em. reflexivity.
  - rewrite (update_computed_eq _ _ d) by exact Hp. go.
    erewrite Clone_eq by (exact Hx). go.
    erewrite update_computed_eq by (simpl; apply lookup_insert_eq). go.
    simpl. unfold with_heap, set_computeds; simpl.
    rewrite insert_insert_eq. reflexivity.
Qed.

Lemma GetAttr_computed (s : State) (v e : ptr) (p : loc) (d : ComputedData.t)
    (m : ValueMap) (name : string) :
  cell s v = Some (mkVMValue VMTypeComputedValue (IComputedData p)) ->
  computeds (heap s) !! p = Some d ->
  ComputedData.Attrs d = Some m ->
  fst (ValueMap_Get m name) = e -> e ≠ None ->
  GetAttr v name s = Returned e s.
Proof.
  intros Hv Hp Hm He Hne. unfold GetAttr. go.
  rewrite (ReadComputed_cell _ _ _ Hv). go.
  rewrite (get_computed_eq _ _ _ Hp). go.
  rewrite Hm, He. destruct e; [reflexivity|contradiction].
Qed.

(** C9. [Clone] returns a pointer to a new cell with the tag and the very
    payload of the original: a scalar is copied, the pointer to the data of
    a container is shared.  So an element assigned through a clone of an
    Array is read back through the original, whose array now holds it, and
    an attribute set through a clone of a Computed is read back through the
    original; in both cases what is read is a new clone of the assigned
    value. *)
Theorem Clone_shares_payload (s : State) (v : ptr) (c : VMValue) :
  cell s v = Some c ->
  returns_new (Clone v) s c
  ∧ (∀ (p : loc) (l : list ptr) (i : Z) (x : ptr) (cx : VMValue),
       c = mkVMValue VMTypeArray (IArrayData p) ->
       arrays (heap s) !! p = Some l ->
       0 <= i < Z.of_nat (length l) ->
       cell s x = Some cx ->
       Context.Error (ctx s) = None ->
       ∃ (e : ptr) (s' : State),
         set_item_through_clone v i x s = Returned e s'
         ∧ cell s' e = Some cx
         ∧ cell s e = None
         ∧ elements s' v = Some (<[Z.to_nat i := e]> l))
  ∧ (∀ (p : loc) (d : ComputedData.t) (name : string) (x : ptr) (cx : VMValue),
       c = mkVMValue VMTypeComputedValue (IComputedData p) ->
       computeds (heap s) !! p = Some d ->
       cell s x = Some cx ->
       ∃ (e : ptr) (s' : State),
         set_attr_through_clone v name x s = Returned e s'
         ∧ cell s' e = Some cx
         ∧ cell s e = None).
Proof.
  intros Hv. split; [|split].
  - exists (next_value s). split; [apply next_value_fresh|].
    apply Clone_eq, Hv.
  - intros p l i x cx -> Hp Hi Hx Herr.
    set (s1 := with_value (mkVMValue VMTypeArray (IArrayData p)) s).
    assert (Hv1 : cell s1 v = Some (mkVMValue VMTypeArray (IArrayData p)))
      by (apply cell_with_value_old; assumption).
    assert (Hw1 : cell s1 (Some (next_value s))
                  = Some (mkVMValue VMTypeArray (IArrayData p)))
      by apply cell_with_value_new.
    assert (Hx1 : cell s1 x = Some cx) by (apply cell_with_value_old; assumption).
    set (l' := <[Z.to_nat i := Some (next_value s1)]> l).
    set (s2 := with_heap (set_arrays (insert p l')) (with_value cx s1)).
    assert (Hl' : l' !! Z.to_nat i = Some (Some (next_value s1))).
    { apply list_lookup_insert_eq. clear -Hi. unfold ptr, loc in *. lia. }
    exists (Some (next_value s1)), s2. split; [|split; [|split]].
    + unfold set_item_through_clone. go.
      rewrite (Clone_eq _ _ _ Hv). fold s1. go.
      rewrite (ArraySetItem_array s1 _ _ p l i cx Hw1 Hp Hi Hx1 Herr).
      fold l' s2.
      apply (ArrayGetItem_array s2 v _ p l' i).
      * apply (cell_with_value_old _ _ _ cx) in Hv1. exact Hv1.
      * simpl. apply lookup_insert_eq.
      * lia.
      * exact Hl'.
      * exact Herr.
    + apply cell_with_value_new.
    + simpl. destruct (values (heap s) !! next_value s1) eqn:E; [|reflexivity].
      pose proof (cell_with_value_old s (Some (next_value s1)) v0
                    (mkVMValue VMTypeArray (IArrayData p)) E) as E1.
      fold s1 in E1. simpl in E1. rewrite next_value_fresh in E1. discriminate.
    + unfold elements.
      apply (cell_with_value_old _ _ _ cx) in Hv1.
      change (cell s2 v) with (cell (with_value cx s1) v). rewrite Hv1.
      simpl. apply lookup_insert_eq.
  - intros p d name x cx -> Hp Hx.
    set (s1 := with_value (mkVMValue VMTypeComputedValue (IComputedData p)) s).
    assert (Hv1 : cell s1 v
                  = Some (mkVMValue VMTypeComputedValue (IComputedData p)))
      by (apply cell_with_value_old; assumption).
    assert (Hw1 : cell s1 (Some (next_value s))
                  = Some (mkVMValue VMTypeComputedValue (IComputedData p)))
      by apply cell_with_value_new.
    assert (Hx1 : cell s1 x = Some cx) by (apply cell_with_value_old; assumption).
    exists (Some (next_value s1)). eexists. split; [|split].
    + unfold set_attr_through_clone. go.
      rewrite (Clone_eq _ _ _ Hv). fold s1. go.
      rewrite (SetAttr_computed s1 _ _ p d name cx Hw1 Hp Hx1).
      eapply GetAttr_computed.
      * apply (cell_with_value_old _ _ _ cx) in Hv1. exact Hv1.
      * simpl. apply lookup_insert_eq.
      * reflexivity.
      * apply ValueMap_Get_Put.
      * discriminate.
    + apply cell_with_value_new.
    + simpl. destruct (values (heap s) !! next_value s1) eqn:E; [|reflexivity].
      pose proof (cell_with_value_old s (Some (next_value s1)) v0
                    (mkVMValue VMTypeComputedValue (IComputedData p)) E) as E1.
      fold s1 in E1. simpl in E1. rewrite next_value_fresh in E1. discriminate.
Qed.

Lemma Clone_shares_payload_witness :
  (∃ (e : ptr) (s' : State),
     set_item_through_clone (Some 4%positive) 1 (Some 5%positive) containers
     = Returned e s'
     ∧ cell s' e = Some (mkVMValue VMTypeInt (IInt64 99))
     ∧ cell containers e = None
     ∧ elements s' (Some 4%positive)
       = Some (<[Z.to_nat 1 := e]>
                 [Some 1%positive; Some 2%positive; Some 3%positive]))
  ∧ (∃ (e : ptr) (s' : State),
       set_attr_through_clone (Some 6%positive) "x" (Some 5%positive) containers
       = Returned e s'
       ∧ cell s' e = Some (mkVMValue VMTypeInt (IInt64 99))
       ∧ cell containers e = None).
Proof.
  split.
  - apply (Clone_shares_payload containers (Some 4%positive)
             (mkVMValue VMTypeArray (IArrayData 1%positive)))
      with (p := 1%positive).
    + reflexivity.
    + reflexivity.
    + reflexivity.
    + simpl. lia.
    + reflexivity.
    + reflexivity.
  - apply (Clone_shares_payload containers (Some 6%positive)
             (mkVMValue VMTypeComputedValue (IComputedData 1%positive)))
      with (p := 1%positive) (d := ComputedData.mk "x+1" None None 0).
    + reflexivity.
    + reflexivity.
    + reflexivity.
    + reflexivity.
Defined.

(** ** Partial correctness of Go code *)

Lemma post_bind {A B : Type} (m : Go A) (f : A -> Go B) (s : State)
    (Q : B -> State -> Prop) :
  post m s (fun a s1 => post (f a) s1 Q) -> post (m ≫= f) s Q.
Proof.
  intros H b s'. rewrite bind_unfold.
  destruct (m s) as [a s1|] eqn:E; [|discriminate].
  apply (H a s1 E).
Qed.

Lemma post_ret {A : Type} (a : A) (s : State) (Q : A -> State -> Prop) :
  Q a s -> post (mret a) s Q.
Proof. intros H a' s' [= <- <-]. exact H. Qed.

Lemma post_throw {A : Type} (p : panic) (s : State) (Q : A -> State -> Prop) :
  post (throw p) s Q.
Proof. intros a s'. discriminate. Qed.

Lemma post_conseq {A : Type} (m : Go A) (s : State) (Q Q' : A -> State -> Prop) :
  post m s Q -> (∀ a s', Q a s' -> Q' a s') -> post m s Q'.
Proof. intros H HQ a s' E. apply HQ, H, E. Qed.

Lemma post_read {A : Type} (m : Go A) (s : State) (Q : A -> State -> Prop) :
  pure_read m -> (∀ a, Q a s) -> post m s Q.
Proof. intros Hm HQ a s' E. rewrite (Hm _ _ _ E). apply HQ. Qed.

Lemma pure_read_bind {A B : Type} (m : Go A) (f : A -> Go B) :
  pure_read m -> (∀ a, pure_read (f a)) -> pure_read (m ≫= f).
Proof.
  intros Hm Hf s b s'. rewrite bind_unfold.
  destruct (m s) as [a s1|] eqn:E; [|discriminate].
  intros H. rewrite (Hf _ _ _ _ H). eapply Hm, E.
Qed.

Lemma pure_read_ret {A : Type} (a : A) : pure_read (mret a : Go A).
Proof. intros s a' s' [= _ ->]. reflexivity. Qed.

Lemma pure_read_throw {A : Type} (p : panic) : pure_read (throw p : Go A).
Proof. intros s a s'. discriminate. Qed.

Lemma pure_read_deref (v : ptr) : pure_read (deref v).
Proof. intros s c s' H. apply deref_inv in H as [-> _]. reflexivity. Qed.

Lemma pure_read_get_state : pure_read get_state.
Proof. intros s a s' [= _ ->]. reflexivity. Qed.

Lemma pure_read_get_computed (cd : option loc) : pure_read (get_computed cd).
Proof.
  intros s a s'. unfold get_computed. destruct cd as [l|]; [|discriminate].
  destruct (computeds (heap s) !! l); [|discriminate].
  intros [= _ ->]. reflexivity.
Qed.

Lemma pure_read_get_function (cd : option loc) : pure_read (get_function cd).
Proof.
  intros s a s'. unfold get_function. destruct cd as [l|]; [|discriminate].
  destruct (functions (heap s) !! l); [|discriminate].
  intros [= _ ->]. reflexivity.
Qed.

Lemma pure_read_ReadComputed (v : ptr) : pure_read (ReadComputed v).
Proof.
  unfold ReadComputed. apply pure_read_bind; [apply pure_read_deref|].
  intros c. destruct (decide _); [|apply pure_read_ret].
  apply pure_read_bind; [|intros; apply pure_read_ret].
  destruct (Value c); first [apply pure_read_ret | apply pure_read_throw].
Qed.

Lemma pure_read_ReadFunctionData (v : ptr) : pure_read (ReadFunctionData v).
Proof.
  unfold ReadFunctionData. apply pure_read_bind; [apply pure_read_deref|].
  intros c. destruct (decide _); [|apply pure_read_ret].
  apply pure_read_bind; [|intros; apply pure_read_ret].
  destruct (Value c); first [apply pure_read_ret | apply pure_read_throw].
Qed.

Lemma pure_read_elem_at {A : Type} (l : list A) (i : Z) : pure_read (elem_at l i).
Proof.
  unfold elem_at. destruct (_ || _); [apply pure_read_throw|].
  destruct (l !! _); [apply pure_read_ret|apply pure_read_throw].
Qed.

Lemma pure_read_for_loop {S : Type} (body : Z -> S -> Go S) (n : nat) (i : Z)
    (acc : S) :
  (∀ j a, pure_read (body j a)) -> pure_read (for_loop n i body acc).
Proof.
  intros Hb. revert i acc. induction n as [|n IH]; intros i acc; simpl.
  - apply pure_read_ret.
  - apply pure_read_bind; [apply Hb|]. intros a. apply IH.
Qed.

Lemma post_get_state (s : State) (Q : State -> State -> Prop) :
  Q s s -> post get_state s Q.
Proof. intros H a s' [= <- <-]. exact H. Qed.

(** ** C4: what a sub-evaluation leaves in the parent's operation count *)

Lemma post_finish (vm : Context.t) (tax : Z) (s0 s : State) :
  ctx s = ctx s0 ->
  Int64.add (Context.NumOpCount (ctx s0)) tax <= Context.NumOpCount vm ->
  post (finish vm) s (writes_back tax s0).
Proof.
  intros Hctx Hcount. unfold finish.
  destruct (Context.Error vm) as [e|] eqn:Ee.
  - apply post_bind. intros [] s1 [= <-]. apply post_ret.
    left. simpl. rewrite Hctx. split; [reflexivity|]. split; [discriminate|reflexivity].
  - apply post_bind.
    assert (Hnew : ∀ c, post (new_value c) s
              (fun a s1 => a ≠ None ∧ ctx s1 = ctx s)).
    { intros c a s1 [= <- <-]. split; [discriminate|reflexivity]. }
    eapply post_conseq.
    + instantiate (1 := fun a s1 => a ≠ None ∧ ctx s1 = ctx s).
      destruct (negb _).
      * apply post_bind. apply post_read; [apply pure_read_elem_at|].
        intros c. apply Hnew.
      * apply Hnew.
    + intros a s1 [Ha Hs1]. apply post_bind. intros [] s2 [= <-].
      apply post_ret. right. simpl. rewrite Hs1, Hctx.
      split; [exact Ha|]. split; [reflexivity|exact Hcount].
Qed.

Section OpBudget.

Variable NewVM : Context.t.
Variable Run : string -> Context.t -> Heap -> Context.t * Heap.
Variable Evaluate : Context.t -> Heap -> Context.t * Heap.

Hypothesis Run_counts : ∀ expr vm h,
  Context.NumOpCount vm <= Context.NumOpCount (Run expr vm h).1.
Hypothesis Evaluate_counts : ∀ vm h,
  Context.NumOpCount vm <= Context.NumOpCount (Evaluate vm h).1.

Lemma post_call_Run (expr : string) (vm : Context.t) (s : State) :
  post (call_Run Run expr vm) s
    (fun vm' s' => ctx s' = ctx s
                   ∧ Context.NumOpCount vm <= Context.NumOpCount vm').
Proof.
  intros vm' s'. unfold call_Run.
  pose proof (Run_counts expr vm (heap s)) as H.
  destruct (Run expr vm (heap s)) as [vm1 h1]. intros [= <- <-].
  split; [reflexivity|exact H].
Qed.

Lemma post_call_Evaluate (vm : Context.t) (s : State) :
  post (call_Evaluate Evaluate vm) s
    (fun vm' s' => ctx s' = ctx s
                   ∧ Context.NumOpCount vm <= Context.NumOpCount vm').
Proof.
  intros vm' s'. unfold call_Evaluate.
  pose proof (Evaluate_counts vm (heap s)) as H.
  destruct (Evaluate vm (heap s)) as [vm1 h1]. intros [= <- <-].
  split; [reflexivity|exact H].
Qed.

Lemma post_update_computed (cd : option loc)
    (f : ComputedData.t -> ComputedData.t) (s : State) :
  post (update_computed cd f) s (fun _ s' => ctx s' = ctx s).
Proof.
  intros a s'. unfold update_computed. destruct cd as [l|]; [|discriminate].
  destruct (computeds (heap s) !! l); [|discriminate].
  intros [= _ <-]. reflexivity.
Qed.

Lemma post_update_function (cd : option loc)
    (f : FunctionData.t -> FunctionData.t) (s : State) :
  post (update_function cd f) s (fun _ s' => ctx s' = ctx s).
Proof.
  intros a s'. unfold update_function. destruct cd as [l|]; [|discriminate].
  destruct (functions (heap s) !! l); [|discriminate].
  intros [= _ <-]. reflexivity.
Qed.

(** C4, amended. Let the interpreter never lower the operation count of the
    context it runs.  When a sub-evaluation of a Computed value or of a user
    Function fails, it returns [nil], reports an error, and leaves the
    parent's count as it was.  When it succeeds, it leaves the parent's
    error slot alone and sets the parent's count to the child's, which is at
    least the count on entry: the parent's count plus the tax of 200 or
    100. *)
Theorem sub_evaluation_writes_back (v : ptr) (params : list ptr)
    (s s' : State) (r : ptr) :
  (ComputedExecute NewVM Run Evaluate v s = Returned r s' ->
   writes_back 200 s r s')
  ∧ (FuncInvoke NewVM Run Evaluate v params s = Returned r s' ->
     writes_back 100 s r s').
Proof.
  split.
  - revert r s'.
    change (post (ComputedExecute NewVM Run Evaluate v) s (writes_back 200 s)).
    unfold ComputedExecute.
    apply post_bind, post_read; [apply pure_read_ReadComputed|]. intros [cd ok].
    apply post_bind, post_get_state.
    apply post_bind, post_read; [apply pure_read_get_computed|]. intros d.
    apply post_bind.
    eapply post_conseq.
    + instantiate (1 := fun vm s1 =>
        ctx s1 = ctx s
        ∧ Int64.add (Context.NumOpCount (ctx s)) 200 <= Context.NumOpCount vm).
      destruct (ComputedData.code d).
      * apply post_call_Evaluate.
      * apply post_bind. eapply post_conseq; [apply post_call_Run|].
        intros vm s1 [Hs1 Hvm]. apply post_bind.
        eapply post_conseq; [apply post_update_computed|].
        intros [] s2 Hs2. apply post_ret. split; [congruence|exact Hvm].
    + intros vm s1 [Hs1 Hvm]. apply post_finish; assumption.
  - revert r s'.
    change (post (FuncInvoke NewVM Run Evaluate v params) s (writes_back 100 s)).
    unfold FuncInvoke.
    apply post_bind, post_read; [apply pure_read_ReadFunctionData|].
    intros [cd ok].
    apply post_bind, post_read; [apply pure_read_get_function|]. intros d.
    destruct (negb _).
    + apply post_bind. intros [] s1 [= <-]. apply post_ret.
      left. simpl. split; [reflexivity|]. split; [discriminate|reflexivity].
    + apply post_bind, post_read.
      { apply pure_read_for_loop. intros j a.
        apply pure_read_bind; [apply pure_read_elem_at|]. intros x.
        apply pure_read_bind; [apply pure_read_elem_at|]. intros y.
        apply pure_read_ret. }
      intros attrs.
      apply post_bind, post_get_state.
      apply post_bind, post_read; [apply pure_read_get_function|]. intros d'.
      apply post_bind.
      eapply post_conseq.
      * instantiate (1 := fun vm s1 =>
          ctx s1 = ctx s
          ∧ Int64.add (Context.NumOpCount (ctx s)) 100 <= Context.NumOpCount vm).
        destruct (FunctionData.code d').
        -- apply post_call_Evaluate.
        -- apply post_bind. eapply post_conseq; [apply post_call_Run|].
           intros vm s1 [Hs1 Hvm]. apply post_bind.
           eapply post_conseq; [apply post_update_function|].
           intros [] s2 Hs2. apply post_ret. split; [congruence|exact Hvm].
      * intros vm s1 [Hs1 Hvm]. apply post_finish; assumption.
Qed.

End OpBudget.

Lemma sub_evaluation_writes_back_witness :
  match ComputedExecute fresh_vm Run_literal Evaluate_literal
          (Some 6%positive) containers with
  | Returned r s' => writes_back 200 containers r s'
  | Panicked _ => False
  end
  ∧ match ComputedExecute fresh_vm Run_rejecting Evaluate_literal
            (Some 6%positive) containers with
    | Returned r s' => writes_back 200 containers r s'
    | Panicked _ => False
    end.
Proof.
  split.
  - destruct (ComputedExecute fresh_vm Run_literal Evaluate_literal
                (Some 6%positive) containers) as [r s'|p] eqn:E.
    + refine (proj1 (sub_evaluation_writes_back fresh_vm Run_literal
                       Evaluate_literal _ _ (Some 6%positive) []
                       containers s' r) E).
      * intros expr vm h. simpl. lia.
      * intros vm h. simpl. lia.
    + vm_compute in E. discriminate E.
  - destruct (ComputedExecute fresh_vm Run_rejecting Evaluate_literal
                (Some 6%positive) containers) as [r s'|p] eqn:E.
    + refine (proj1 (sub_evaluation_writes_back fresh_vm Run_rejecting
                       Evaluate_literal _ _ (Some 6%positive) []
                       containers s' r) E).
      * intros expr vm h. simpl. lia.
      * intros vm h. simpl. lia.
    + vm_compute in E. discriminate E.
Defined.

(** C4, counterexample. The parent enters the child with the count 200.
    When the parser rejects the source, the sub-evaluation fails and the
    parent's count is still 0; when the source is a literal, the
    sub-evaluation succeeds and the parent's count is 200: in neither case
    has it reached 201. *)
Lemma sub_evaluation_count_not_raised :
  Int64.add (Context.NumOpCount (ctx containers)) 200 = 200
  ∧ (∃ s' : State,
       ComputedExecute fresh_vm Run_rejecting Evaluate_literal
         (Some 6%positive) containers = Returned None s'
       ∧ Context.NumOpCount (ctx s') = 0)
  ∧ (∃ (r : loc) (s' : State),
       ComputedExecute fresh_vm Run_literal Evaluate_literal
         (Some 6%positive) containers = Returned (Some r) s'
       ∧ Context.NumOpCount (ctx s') = 200).
Proof.
  split; [reflexivity|]. split.
  - eexists. split; [vm_compute; reflexivity|reflexivity].
  - eexists. eexists. split; [vm_compute; reflexivity|reflexivity].
Qed.

(** ** C5: the bytecode cache of a computed value *)

Lemma finish_returns (vm : Context.t) (s : State) :
  stack_in_bounds vm ->
  ∃ (r : ptr) (s' : State),
    finish vm s = Returned r s'
    ∧ calls s' = calls s
    ∧ computeds (heap s') = computeds (heap s)
    ∧ (∀ v c, cell s v = Some c -> cell s' v = Some c).
Proof.
  intros Hb. unfold finish. destruct (Context.Error vm) as [e|] eqn:Ee.
  - eexists. eexists. split; [reflexivity|]. repeat split. intros v c H. exact H.
  - destruct (Z.eqb_spec (Context.top vm) 0) as [E0|E0]; simpl.
    + eexists. eexists. split; [reflexivity|]. repeat split.
      intros v c H. apply (cell_with_value_old _ _ _ _ H).
    + destruct (Hb Ee E0) as [Hlo Hhi].
      destruct (lookup_lt_is_Some_2 (Context.stack vm)
                  (Z.to_nat (Context.top vm - 1))) as [c Hc]; [lia|].
      go. rewrite (elem_at_lookup _ _ c) by (try assumption; lia). go.
      rewrite new_value_eq. go.
      eexists. eexists. split; [reflexivity|]. repeat split.
      intros v c' H. apply (cell_with_value_old _ _ _ _ H).
Qed.

(** What a sub-evaluation hands back once the child has stopped. *)
Lemma finish_hands_back (vm : Context.t) (s : State) :
  stack_in_bounds vm ->
  ∃ (r : ptr) (s' : State),
    finish vm s = Returned r s'
    ∧ hands_back vm (heap s) (ctx s) r s'
    ∧ calls s' = calls s
    ∧ computeds (heap s') = computeds (heap s)
    ∧ functions (heap s') = functions (heap s).
Proof.
  intros Hb. unfold finish, hands_back.
  destruct (Context.Error vm) as [e|] eqn:Ee.
  - eexists. eexists. split; [reflexivity|]. repeat split.
  - destruct (Z.eqb_spec (Context.top vm) 0) as [E0|E0]; simpl.
    + eexists. eexists. split; [reflexivity|]. split; [|repeat split].
      split; [reflexivity|]. exists (next_value s), Undefined_cell.
      split; [reflexivity|]. split; [apply next_value_fresh|].
      split; [|reflexivity]. simpl. apply lookup_insert_eq.
    + destruct (Hb Ee E0) as [Hlo Hhi].
      destruct (lookup_lt_is_Some_2 (Context.stack vm)
                  (Z.to_nat (Context.top vm - 1))) as [c Hc]; [lia|].
      go. rewrite (elem_at_lookup _ _ c) by (try assumption; lia). go.
      rewrite new_value_eq. go.
      eexists. eexists. split; [reflexivity|]. split; [|repeat split].
      split; [reflexivity|]. exists (next_value s), c.
      split; [reflexivity|]. split; [apply next_value_fresh|].
      split; [|exact Hc]. simpl. rewrite lookup_insert_eq.
      destruct c; reflexivity.
Qed.

Section BytecodeCache.

Variable NewVM : Context.t.
Variable Run : string -> Context.t -> Heap -> Context.t * Heap.
Variable Evaluate : Context.t -> Heap -> Context.t * Heap.

Hypothesis Run_allocates_code : ∀ expr vm h,
  Context.code (Run expr vm h).1 ≠ None.
Hypothesis Run_frame : ∀ expr vm h,
  stack_in_bounds (Run expr vm h).1
  ∧ keeps_values h (Run expr vm h).2
  ∧ keeps_caches h (Run expr vm h).2.
Hypothesis Evaluate_frame : ∀ vm h,
  stack_in_bounds (Evaluate vm h).1
  ∧ keeps_values h (Evaluate vm h).2
  ∧ keeps_caches h (Evaluate vm h).2.

(** The first execution: the source goes through [Run], called on the
    frame of the child, and the bytecode that [Run] leaves in the child,
    with its length, is what the computed data holds afterwards. *)
Lemma ComputedExecute_first (s : State) (v : ptr) (p : loc)
    (d : ComputedData.t) :
  cell s v = Some (mkVMValue VMTypeComputedValue (IComputedData p)) ->
  computeds (heap s) !! p = Some d ->
  ComputedData.code d = None ->
  let out := Run (ComputedData.Expr d)
               (callee_frame NewVM (ctx s) v 200) (heap s) in
  ∃ (r : ptr) (s' : State) (d' : ComputedData.t),
    ComputedExecute NewVM Run Evaluate v s = Returned r s'
    ∧ hands_back out.1 out.2 (ctx s) r s'
    ∧ calls s' = calls s ++ [CallRun (ComputedData.Expr d)]
    ∧ cell s' v = Some (mkVMValue VMTypeComputedValue (IComputedData p))
    ∧ computeds (heap s') !! p = Some d'
    ∧ ComputedData.code d' = Context.code out.1
    ∧ ComputedData.codeIndex d' = Context.codeIndex out.1.
Proof.
  intros Hv Hp Hcode out. unfold ComputedExecute. go.
  rewrite (ReadComputed_cell _ _ _ Hv). go.
  unfold get_state at 1. go.
  rewrite (get_computed_eq _ _ _ Hp). go. rewrite Hcode. go.
  unfold call_Run at 1.
  match goal with |- context [Run ?e ?vm ?h] => change (Run e vm h) with out end.
  destruct (Run_frame (ComputedData.Expr d)
              (callee_frame NewVM (ctx s) v 200) (heap s))
    as (Hb & Hvals & Hcaches).
  fold out in Hb, Hvals, Hcaches.
  destruct out as [vm1 h1] eqn:ERun.
  simpl in Hb, Hvals, Hcaches |- *.
  destruct (Hcaches p d Hp) as (d1 & Hd1 & _).
  go. erewrite update_computed_eq by exact Hd1. go.
  match goal with |- context [finish vm1 ?s1] =>
    destruct (finish_returns vm1 s1 Hb) as (r & s' & E & Hcalls & Hcomp & Hcells);
    destruct (finish_hands_back vm1 s1 Hb) as (r0 & s0 & E0 & Hback & _)
  end.
  rewrite E in E0. injection E0 as <- <-.
  rewrite E. exists r, s'. eexists. split; [reflexivity|].
  split; [exact Hback|].
  split; [rewrite Hcalls; reflexivity|].
  split; [apply Hcells; destruct v as [l|]; [apply Hvals, Hv|discriminate]|].
  split; [rewrite Hcomp; simpl; apply lookup_insert_eq|].
  split; reflexivity.
Qed.

(** A later execution, through any handle on the computed data: the cached
    bytecode and its length are put in the frame of the child, which is
    handed to [Evaluate], and the cache stays as it is. *)
Lemma ComputedExecute_cached (s : State) (v : ptr) (p : loc)
    (d : ComputedData.t) :
  cell s v = Some (mkVMValue VMTypeComputedValue (IComputedData p)) ->
  computeds (heap s) !! p = Some d ->
  ComputedData.code d ≠ None ->
  let out := Evaluate
               (Context.set_code (ComputedData.code d) (ComputedData.codeIndex d)
                  (callee_frame NewVM (ctx s) v 200))
               (heap s) in
  ∃ (r : ptr) (s' : State) (d' : ComputedData.t),
    ComputedExecute NewVM Run Evaluate v s = Returned r s'
    ∧ hands_back out.1 out.2 (ctx s) r s'
    ∧ calls s' = calls s ++ [CallEvaluate (ComputedData.code d)]
    ∧ cell s' v = Some (mkVMValue VMTypeComputedValue (IComputedData p))
    ∧ computeds (heap s') !! p = Some d'
    ∧ ComputedData.code d' = ComputedData.code d
    ∧ ComputedData.codeIndex d' = ComputedData.codeIndex d.
Proof.
  intros Hv Hp Hcode out. unfold ComputedExecute. go.
  rewrite (ReadComputed_cell _ _ _ Hv). go.
  unfold get_state at 1. go.
  rewrite (get_computed_eq _ _ _ Hp). go.
  destruct (Evaluate_frame
              (Context.set_code (ComputedData.code d) (ComputedData.codeIndex d)
                 (callee_frame NewVM (ctx s) v 200)) (heap s))
    as (Hb & Hvals & Hcaches).
  fold out in Hb, Hvals, Hcaches.
  destruct (Hcaches p d Hp) as (d1 & Hd1 & Hsame).
  destruct (Hsame Hcode) as [Hsame1 Hsame2].
  destruct (ComputedData.code d) as [bc|] eqn:Ebc; [|contradiction].
  cbn beta iota. go.
  unfold call_Evaluate at 1.
  match goal with |- context [Evaluate ?vm ?h] =>
    change (Evaluate vm h) with out
  end.
  destruct out as [vm1 h1]. simpl in Hb, Hvals, Hd1 |- *. go.
  match goal with |- context [finish vm1 ?s1] =>
    destruct (finish_returns vm1 s1 Hb) as (r & s' & E & Hcalls & Hcomp & Hcells);
    destruct (finish_hands_back vm1 s1 Hb) as (r0 & s0 & E0 & Hback & _)
  end.
  rewrite E in E0. injection E0 as <- <-.
  rewrite E. exists r, s', d1. split; [reflexivity|].
  split; [exact Hback|].
  split; [rewrite Hcalls; reflexivity|].
  split; [apply Hcells; destruct v as [l|]; [apply Hvals, Hv|discriminate]|].
  split; [rewrite Hcomp; exact Hd1|].
  split; assumption.
Qed.

Lemma execute_times_cached (n : nat) (s : State) (v : ptr) (p : loc)
    (d : ComputedData.t) :
  cell s v = Some (mkVMValue VMTypeComputedValue (IComputedData p)) ->
  computeds (heap s) !! p = Some d ->
  ComputedData.code d ≠ None ->
  ∃ (s' : State) (d' : ComputedData.t),
    execute_times (ComputedExecute NewVM Run Evaluate) n v s = Returned tt s'
    ∧ computeds (heap s') !! p = Some d'
    ∧ ComputedData.code d' = ComputedData.code d
    ∧ ComputedData.codeIndex d' = ComputedData.codeIndex d
    ∧ calls s' = calls s ++ replicate n (CallEvaluate (ComputedData.code d)).
Proof.
  revert s d. induction n as [|n IH]; intros s d Hv Hp Hcode; simpl.
  - exists s, d. split; [reflexivity|]. split; [exact Hp|].
    split; [reflexivity|]. split; [reflexivity|].
    rewrite app_nil_r. reflexivity.
  - destruct (ComputedExecute_cached s v p d Hv Hp Hcode)
      as (r & s1 & d1 & E & _ & Hcalls & Hv1 & Hp1 & Hcode1 & Hidx1).
    destruct (IH s1 d1 Hv1 Hp1)
      as (s' & d' & E' & Hp' & Hcode' & Hidx' & Hcalls').
    { rewrite Hcode1. exact Hcode. }
    exists s', d'. go. rewrite E. split; [exact E'|]. split; [exact Hp'|].
    split; [congruence|]. split; [congruence|].
    rewrite Hcalls', Hcalls, Hcode1, <- app_assoc. reflexivity.
Qed.

(** C5. Let the parser leave a bytecode buffer in the context it compiles
    in, and let the parser and the interpreter leave the existing values and
    the populated caches as they are.  Then of [n + 1] executions in a row
    of a Computed value whose cache is empty, the first one calls the
    compile entry, once, on the frame of the child, and populates the cache
    with what that call has compiled: the bytecode the child holds when the
    parser returns, and its length.  Each later execution hands this very
    bytecode to the run entry and calls the compile entry no more, and the
    cache still holds the same bytecode and length after all of them.  More
    generally an execution through any handle on computed data whose cache
    is populated, in any state, calls the run entry only, on the frame of
    the child with the cached bytecode and the cached length put in it;
    what it returns is what that run hands back, and the cache is left as
    it is. *)
Theorem ComputedExecute_compiles_once (s : State) (v : ptr) (p : loc)
    (d : ComputedData.t) (n : nat) :
  cell s v = Some (mkVMValue VMTypeComputedValue (IComputedData p)) ->
  computeds (heap s) !! p = Some d ->
  (ComputedData.code d = None ->
   let compiled := Run (ComputedData.Expr d)
                     (callee_frame NewVM (ctx s) v 200) (heap s) in
   ∃ (s' : State) (d' : ComputedData.t),
     execute_times (ComputedExecute NewVM Run Evaluate) (S n) v s
     = Returned tt s'
     ∧ computeds (heap s') !! p = Some d'
     ∧ ComputedData.code d' = Context.code compiled.1
     ∧ ComputedData.codeIndex d' = Context.codeIndex compiled.1
     ∧ ComputedData.code d' ≠ None
     ∧ calls s'
       = calls s ++ CallRun (ComputedData.Expr d)
                 :: replicate n (CallEvaluate (Context.code compiled.1)))
  ∧ (ComputedData.code d ≠ None ->
     let out := Evaluate
                  (Context.set_code
                     (ComputedData.code d) (ComputedData.codeIndex d)
                     (callee_frame NewVM (ctx s) v 200))
                  (heap s) in
     ∃ (r : ptr) (s' : State) (d' : ComputedData.t),
       ComputedExecute NewVM Run Evaluate v s = Returned r s'
       ∧ hands_back out.1 out.2 (ctx s) r s'
       ∧ calls s' = calls s ++ [CallEvaluate (ComputedData.code d)]
       ∧ computeds (heap s') !! p = Some d'
       ∧ ComputedData.code d' = ComputedData.code d
       ∧ ComputedData.codeIndex d' = ComputedData.codeIndex d).
Proof.
  intros Hv Hp. split; intros Hcode.
  - intros compiled.
    destruct (ComputedExecute_first s v p d Hv Hp Hcode)
      as (r & s1 & d1 & E & _ & Hcalls & Hv1 & Hp1 & Hcode1 & Hidx1).
    fold compiled in Hcode1, Hidx1.
    assert (Hfull : ComputedData.code d1 ≠ None).
    { rewrite Hcode1. apply Run_allocates_code. }
    destruct (execute_times_cached n s1 v p d1 Hv1 Hp1 Hfull)
      as (s' & d' & E' & Hp' & Hcode' & Hidx' & Hcalls').
    exists s', d'. simpl. go. rewrite E. split; [exact E'|].
    split; [exact Hp'|]. split; [congruence|]. split; [congruence|].
    split; [congruence|].
    rewrite Hcalls', Hcalls, Hcode1, <- app_assoc. reflexivity.
  - intros out.
    destruct (ComputedExecute_cached s v p d Hv Hp Hcode)
      as (r & s' & d' & E & Hback & Hcalls & _ & Hp' & Hcode' & Hidx').
    exists r, s', d'. repeat split; assumption.
Qed.

End BytecodeCache.

Lemma ComputedExecute_compiles_once_witness :
  ∃ (s' : State) (d' : ComputedData.t),
    execute_times (ComputedExecute fresh_vm Run_literal Evaluate_literal) 3
      (Some 6%positive) containers = Returned tt s'
    ∧ computeds (heap s') !! 1%positive = Some d'
    ∧ ComputedData.code d' = Some [mkByteCode 0 (IInt64 5)]
    ∧ ComputedData.codeIndex d' = 1
    ∧ ComputedData.code d' ≠ None
    ∧ calls s'
      = calls containers
        ++ CallRun "x+1"
           :: replicate 2 (CallEvaluate (Some [mkByteCode 0 (IInt64 5)])).
Proof.
  refine (proj1 (ComputedExecute_compiles_once fresh_vm Run_literal
                   Evaluate_literal _ _ _ containers (Some 6%positive)
                   1%positive (ComputedData.mk "x+1" None None 0) 2%nat
                   _ _) _).
  - intros expr vm h. simpl. discriminate.
  - intros expr vm h. simpl. split; [|split].
    + intros _ _. simpl. lia.
    + intros l c H. exact H.
    + intros p d H. exists d. split; [exact H|]. intros _. split; reflexivity.
  - intros vm h. simpl. split; [|split].
    + intros _ _. simpl. lia.
    + intros l c H. exact H.
    + intros p d H. exists d. split; [exact H|]. intros _. split; reflexivity.
  - reflexivity.
  - reflexivity.
  - reflexivity.
Defined.

(** ** Integers as floats: the conversions on magnitudes up to 2^53 *)

Lemma digits2_pos_bounds (p : positive) :
  2 ^ (Z.pos (digits2_pos p) - 1) <= Z.pos p < 2 ^ Z.pos (digits2_pos p).
Proof.
  induction p as [p IH|p IH|]; simpl digits2_pos.
  - rewrite Pos2Z.inj_succ, Pos2Z.inj_xI.
    replace (Z.succ (Z.pos (digits2_pos p)) - 1) with (Z.succ (Z.pos (digits2_pos p) - 1)) by lia.
    rewrite !Z.pow_succ_r by lia.
    revert IH. generalize (2 ^ (Z.pos (digits2_pos p) - 1)) (2 ^ Z.pos (digits2_pos p)).
    intros A B IH. lia.
  - rewrite Pos2Z.inj_succ, (Pos2Z.inj_xO p).
    replace (Z.succ (Z.pos (digits2_pos p)) - 1) with (Z.succ (Z.pos (digits2_pos p) - 1)) by lia.
    rewrite !Z.pow_succ_r by lia.
    revert IH. generalize (2 ^ (Z.pos (digits2_pos p) - 1)) (2 ^ Z.pos (digits2_pos p)).
    intros A B IH. lia.
  - simpl. lia.
Qed.

Lemma digits2_pos_le (p : positive) (n : Z) :
  Z.pos p < 2 ^ n -> Z.pos (digits2_pos p) <= n.
Proof.
  intros H. destruct (digits2_pos_bounds p) as [Hlo _].
  destruct (Z.le_gt_cases (Z.pos (digits2_pos p)) n) as [|Hgt]; [assumption|].
  exfalso.
  assert (0 <= n).
  { destruct (Z.le_gt_cases 0 n); [assumption|].
    rewrite Z.pow_neg_r in H by lia. lia. }
  assert (2 ^ n <= 2 ^ (Z.pos (digits2_pos p) - 1)) by (apply Z.pow_le_mono_r; lia).
  lia.
Qed.

Lemma iter_xO_value (p k : positive) :
  Z.pos (Pos.iter xO p k) = Z.pos p * 2 ^ Z.pos k.
Proof.
  induction k as [|k IH] using Pos.peano_ind.
  - simpl. lia.
  - rewrite Pos.iter_succ, (Pos2Z.inj_xO (Pos.iter xO p k)), IH, Pos2Z.inj_succ,
      Z.pow_succ_r by lia.
    lia.
Qed.

Lemma iter_xO_digits (p k : positive) :
  Z.pos (digits2_pos (Pos.iter xO p k)) = Z.pos (digits2_pos p) + Z.pos k.
Proof.
  induction k as [|k IH] using Pos.peano_ind.
  - simpl. lia.
  - rewrite Pos.iter_succ. simpl digits2_pos.
    rewrite Pos2Z.inj_succ, IH, Pos2Z.inj_succ. lia.
Qed.

Lemma binary_round_aux_exact (sx : bool) (m : positive) (e : Z) :
  Z.pos (digits2_pos m) = 53 -> -1074 <= e <= 971 ->
  binary_round_aux 53 1024 sx (Z.pos m) e loc_Exact = S754_finite sx m e.
Proof.
  intros Hd He.
  assert (Hshr : shr_fexp 53 1024 (Z.pos m) e loc_Exact
                 = (Build_shr_record (Z.pos m) false false, e)).
  { unfold shr_fexp, fexp, emin. simpl Zdigits2. rewrite Hd.
    replace (Z.max (53 + e - 53) (3 - 1024 - 53) - e) with 0 by lia.
    reflexivity. }
  unfold binary_round_aux. rewrite Hshr. simpl. rewrite Hshr. simpl.
  destruct (Z.leb_spec e (1024 - 53)); [reflexivity|lia].
Qed.

Lemma exponent53_range (p : positive) :
  Z.pos p < 2 ^ 53 -> -52 <= exponent53 p <= 0.
Proof.
  intros H. unfold exponent53.
  pose proof (digits2_pos_le p 53 H). lia.
Qed.

Lemma mantissa53_spec (p : positive) :
  Z.pos p < 2 ^ 53 ->
  Z.pos (digits2_pos (mantissa53 p)) = 53
  ∧ Z.pos (mantissa53 p) = Z.pos p * 2 ^ (- exponent53 p).
Proof.
  intros H. pose proof (exponent53_range p H) as He.
  unfold mantissa53. destruct (exponent53 p) as [|k|k] eqn:E.
  - unfold exponent53 in E. split; [lia|]. simpl. lia.
  - lia.
  - rewrite iter_xO_digits, iter_xO_value. unfold exponent53 in E.
    split; [lia|reflexivity].
Qed.

Lemma binary_round_below_53 (sx : bool) (p : positive) :
  Z.pos p < 2 ^ 53 ->
  binary_round 53 1024 sx p 0 = S754_finite sx (mantissa53 p) (exponent53 p).
Proof.
  intros H. pose proof (exponent53_range p H) as He.
  destruct (mantissa53_spec p H) as [Hd _].
  unfold binary_round.
  assert (Hal : shl_align p 0 (fexp 53 1024 (Z.pos (digits2_pos p) + 0))
                = (mantissa53 p, exponent53 p)).
  { unfold fexp, emin.
    replace (Z.max (Z.pos (digits2_pos p) + 0 - 53) (3 - 1024 - 53))
      with (exponent53 p) by (unfold exponent53 in *; lia).
    unfold shl_align, mantissa53. rewrite Z.sub_0_r.
    destruct (exponent53 p) as [|k|k] eqn:E; try reflexivity. lia. }
  rewrite Hal. apply binary_round_aux_exact; [exact Hd|lia].
Qed.

Lemma binary_round_two_53 (sx : bool) :
  binary_round 53 1024 sx (2 ^ 53) 0 = S754_finite sx (2 ^ 52) 1.
Proof. destruct sx; vm_compute; reflexivity. Qed.

Lemma of_int64_canonical (x : Z) :
  exact_in_float64 x ->
  canonical53 (Float64.of_int64 x) ∧ scaled (Float64.of_int64 x) = x * 2 ^ 52.
Proof.
  unfold exact_in_float64, Float64.of_int64, binary_normalize,
    Float64.prec, Float64.emax.
  intros Hx.
  assert (Hpos : ∀ (sx : bool) (p : positive),
            Z.pos p <= 2 ^ 53 ->
            canonical53 (binary_round 53 1024 sx p 0)
            ∧ scaled (binary_round 53 1024 sx p 0)
              = (if sx then -1 else 1) * (Z.pos p * 2 ^ 52)).
  { intros sx p Hp. destruct (Z.eq_dec (Z.pos p) (2 ^ 53)) as [E|E].
    - assert (p = (2 ^ 53)%positive) as -> by (apply Pos2Z.inj; exact E).
      rewrite binary_round_two_53. split; [simpl; lia|].
      destruct sx; reflexivity.
    - assert (Hlt : Z.pos p < 2 ^ 53) by lia.
      rewrite (binary_round_below_53 sx p Hlt).
      destruct (mantissa53_spec p Hlt) as [Hd Hm].
      pose proof (exponent53_range p Hlt) as He.
      split; [simpl; lia|]. simpl scaled. rewrite Hm.
      rewrite <- Z.mul_assoc, <- Z.pow_add_r by lia.
      replace (- exponent53 p + (exponent53 p + 52)) with 52 by lia.
      reflexivity. }
  destruct x as [|p|p].
  - split; [exact I|reflexivity].
  - destruct (Hpos false p) as [Hc Hs]; [lia|]. split; [exact Hc|].
    rewrite Hs. lia.
  - destruct (Hpos true p) as [Hc Hs]; [lia|]. split; [exact Hc|].
    rewrite Hs. lia.
Qed.

Lemma scaled_order (m1 m2 : positive) (e1 e2 : Z) :
  Z.pos (digits2_pos m1) = 53 -> Z.pos (digits2_pos m2) = 53 ->
  -52 <= e1 -> e1 < e2 ->
  Z.pos m1 * 2 ^ (e1 + 52) < Z.pos m2 * 2 ^ (e2 + 52).
Proof.
  intros H1 H2 Hlo Hlt.
  destruct (digits2_pos_bounds m1) as [_ Hm1].
  destruct (digits2_pos_bounds m2) as [Hm2 _].
  rewrite H1 in Hm1. rewrite H2 in Hm2.
  replace (e2 + 52) with ((e1 + 52) + (e2 - e1)) by lia.
  rewrite (Z.pow_add_r 2 (e1 + 52) (e2 - e1)) by lia.
  assert (HX : 0 < 2 ^ (e1 + 52)) by (apply Z.pow_pos_nonneg; lia).
  assert (HY : 2 ^ 1 <= 2 ^ (e2 - e1)) by (apply Z.pow_le_mono_r; lia).
  revert HX HY Hm1 Hm2.
  generalize (2 ^ (e1 + 52)) (2 ^ (e2 - e1)). intros X Y HX HY Hm1 Hm2.
  change (2 ^ 1) with 2 in HY. change (2 ^ 53) with (2 * 2 ^ 52) in Hm1.
  change (53 - 1) with 52 in Hm2.
  revert Hm1 Hm2. generalize (2 ^ 52). intros K Hm1 Hm2.
  clear H1 H2 Hlo Hlt.
  assert (A1 : Z.pos m1 * X < 2 * K * X)
    by (apply Z.mul_lt_mono_pos_r; assumption).
  assert (A2 : 2 * K <= Z.pos m2 * Y).
  { transitivity (Z.pos m2 * 2); [lia|]. apply Z.mul_le_mono_nonneg_l; lia. }
  assert (A3 : 2 * K * X <= Z.pos m2 * Y * X)
    by (apply Z.mul_le_mono_nonneg_r; lia).
  rewrite (Z.mul_comm X Y), Z.mul_assoc. lia.
Qed.

Lemma scaled_positive_canonical (m : positive) (e : Z) :
  -52 <= e -> 0 < Z.pos m * 2 ^ (e + 52).
Proof.
  intros H. apply Z.mul_pos_pos; [lia|]. apply Z.pow_pos_nonneg; lia.
Qed.

Lemma Z_mul_compare_r (a b p : Z) : 0 < p -> (a * p ?= b * p) = (a ?= b).
Proof.
  intros Hp. destruct (Z.compare_spec a b) as [->|H|H].
  - apply Z.compare_refl.
  - apply Z.compare_lt_iff, Z.mul_lt_mono_pos_r; assumption.
  - apply Z.compare_gt_iff, Z.mul_lt_mono_pos_r; assumption.
Qed.

Lemma magnitude_compare (m1 m2 : positive) (e1 e2 : Z) :
  Z.pos (digits2_pos m1) = 53 -> Z.pos (digits2_pos m2) = 53 ->
  -52 <= e1 -> -52 <= e2 ->
  match e1 ?= e2 with
  | Lt => Lt
  | Gt => Gt
  | Eq => Pos.compare_cont Eq m1 m2
  end = (Z.pos m1 * 2 ^ (e1 + 52) ?= Z.pos m2 * 2 ^ (e2 + 52)).
Proof.
  intros H1 H2 He1 He2. destruct (Z.compare_spec e1 e2) as [->|Hlt|Hgt].
  - rewrite Z_mul_compare_r by (apply Z.pow_pos_nonneg; lia).
    reflexivity.
  - symmetry. apply Z.compare_lt_iff. apply scaled_order; assumption.
  - symmetry. apply Z.compare_gt_iff. apply scaled_order; assumption.
Qed.

Lemma canonical_compare (f g : spec_float) :
  canonical53 f -> canonical53 g ->
  SFcompare f g = Some (scaled f ?= scaled g).
Proof.
  destruct f as [s1| | |s1 m1 e1], g as [s2| | |s2 m2 e2]; simpl canonical53;
    try contradiction; intros Hf Hg.
  - reflexivity.
  - pose proof (scaled_positive_canonical m2 e2 ltac:(lia)) as Hp.
    unfold scaled, SFcompare. destruct s2; f_equal; symmetry.
    + apply Z.compare_gt_iff. lia.
    + apply Z.compare_lt_iff. lia.
  - pose proof (scaled_positive_canonical m1 e1 ltac:(lia)) as Hp.
    unfold scaled, SFcompare. destruct s1; f_equal; symmetry.
    + apply Z.compare_lt_iff. lia.
    + apply Z.compare_gt_iff. lia.
  - destruct Hf as [Hd1 He1], Hg as [Hd2 He2].
    pose proof (scaled_positive_canonical m1 e1 ltac:(lia)) as Hp1.
    pose proof (scaled_positive_canonical m2 e2 ltac:(lia)) as Hp2.
    pose proof (magnitude_compare m1 m2 e1 e2 Hd1 Hd2 ltac:(lia) ltac:(lia))
      as Hmag.
    unfold scaled, SFcompare. destruct s1, s2; f_equal.
    + assert (Hopp : ∀ a : Z, -1 * a = - a) by (intros a; lia).
      rewrite !Hopp, Z.compare_opp,
        (Z.compare_antisym (Z.pos m1 * 2 ^ (e1 + 52))
           (Z.pos m2 * 2 ^ (e2 + 52))), <- Hmag.
      destruct (e1 ?= e2); reflexivity.
    + symmetry. apply Z.compare_lt_iff. lia.
    + symmetry. apply Z.compare_gt_iff. lia.
    + rewrite !Z.mul_1_l. exact Hmag.
Qed.

Lemma canonical_to_int64 (f : spec_float) (x : Z) :
  canonical53 f -> scaled f = x * 2 ^ 52 -> exact_in_float64 x ->
  Float64.to_int64 f = x.
Proof.
  unfold exact_in_float64.
  destruct f as [s| | |s m e]; simpl canonical53; try contradiction.
  - intros _ Hs _. simpl in *. lia.
  - intros [Hd He] Hs Hx. unfold Float64.to_int64.
    assert (Hmag : (if 0 <=? e then Z.pos m * 2 ^ e else Z.pos m / 2 ^ (- e))
                   = Z.abs x).
    { assert (Habs : Z.pos m * 2 ^ (e + 52) = Z.abs x * 2 ^ 52).
      { pose proof (scaled_positive_canonical m e ltac:(lia)).
        unfold scaled in Hs. destruct s; lia. }
      destruct (Z.leb_spec 0 e).
      - rewrite Z.pow_add_r, Z.mul_assoc in Habs by lia.
        apply Z.mul_cancel_r in Habs; [exact Habs|lia].
      - assert (E : Z.pos m = Z.abs x * 2 ^ (- e)).
        { replace 52 with ((e + 52) + - e) in Habs at 2 by lia.
          rewrite (Z.pow_add_r 2 (e + 52) (- e)), (Z.mul_comm (2 ^ (e + 52))),
            Z.mul_assoc in Habs by lia.
          apply Z.mul_cancel_r in Habs; [exact Habs|].
          apply Z.pow_nonzero; lia. }
        rewrite E. apply Z.div_mul. apply Z.pow_nonzero; lia. }
    rewrite Hmag.
    assert (Hsign : (if s then - Z.abs x else Z.abs x) = x).
    { pose proof (scaled_positive_canonical m e ltac:(lia)).
      unfold scaled in Hs. destruct s; lia. }
    rewrite Hsign.
    unfold Int64.in_rangeb, Int64.min_int, Int64.max_int.
    destruct (Z.leb_spec (- 2 ^ 63) x); [|lia].
    destruct (Z.leb_spec x (2 ^ 63 - 1)); [reflexivity|lia].
Qed.

Lemma to_of_int64 (x : Z) :
  exact_in_float64 x -> Float64.to_int64 (Float64.of_int64 x) = x.
Proof.
  intros Hx. destruct (of_int64_canonical x Hx) as [Hc Hs].
  apply canonical_to_int64; assumption.
Qed.

Lemma of_int64_gtb (x y : Z) :
  exact_in_float64 x -> exact_in_float64 y ->
  Float64.gtb (Float64.of_int64 x) (Float64.of_int64 y) = (y <? x).
Proof.
  intros Hx Hy.
  destruct (of_int64_canonical x Hx) as [Hcx Hsx].
  destruct (of_int64_canonical y Hy) as [Hcy Hsy].
  unfold Float64.gtb, SFltb.
  rewrite (canonical_compare _ _ Hcy Hcx), Hsx, Hsy.
  rewrite Z_mul_compare_r by lia.
  unfold Z.ltb. destruct (y ?= x); reflexivity.
Qed.

Lemma of_int64_ltb (x y : Z) :
  exact_in_float64 x -> exact_in_float64 y ->
  Float64.ltb (Float64.of_int64 x) (Float64.of_int64 y) = (x <? y).
Proof.
  intros Hx Hy.
  destruct (of_int64_canonical x Hx) as [Hcx Hsx].
  destruct (of_int64_canonical y Hy) as [Hcy Hsy].
  unfold Float64.ltb, SFltb.
  rewrite (canonical_compare _ _ Hcx Hcy), Hsx, Hsy.
  rewrite Z_mul_compare_r by lia.
  unfold Z.ltb. destruct (x ?= y); reflexivity.
Qed.


(** ** C8: the highest and the lowest element of an array *)

Lemma keep_turn_cell (better : spec_float -> spec_float -> bool) (k : keep)
    (i : ptr) (c : VMValue) (s : State) :
  cell s i = Some c -> well_typed c ->
  keep_turn better k i s = Returned (keep_cell better k c) s.
Proof.
  intros Hc Hw. unfold keep_turn, keep_cell. go.
  destruct c as [t x]. unfold well_typed in Hw. simpl in *.
  destruct t, x; try contradiction; try reflexivity; simpl; go;
    repeat match goal with |- context [if ?b then _ else _] => destruct b end;
    reflexivity.
Qed.

Lemma range_loop_keep (better : spec_float -> spec_float -> bool)
    (s : State) (l : list ptr) (cs : list VMValue) (k : keep) :
  cells_of s l cs ->
  range_loop (keep_turn better) l k s
  = Returned (fold_left (keep_cell better) cs k) s.
Proof.
  intros H. revert k. induction H as [|x c l cs [Hc Hw] _ IH]; intros k; simpl.
  - reflexivity.
  - go. rewrite (keep_turn_cell _ _ _ _ _ Hc Hw). apply IH.
Qed.

Lemma keep_cells_isFloat (better : spec_float -> spec_float -> bool)
    (cs : list VMValue) (k : keep) :
  Forall well_typed cs ->
  isFloat (fold_left (keep_cell better) cs k)
  = isFloat k || existsb is_Float_cell cs.
Proof.
  intros H. revert k. induction H as [|c cs Hw _ IH]; intros k; simpl.
  - rewrite orb_false_r. reflexivity.
  - rewrite IH. unfold keep_cell, is_Float_cell.
    destruct c as [t x]. unfold well_typed in Hw. simpl in *.
    destruct t, x; try contradiction; simpl;
      repeat match goal with |- context [if ?b then _ else _] => destruct b end;
      simpl; rewrite ?orb_true_r, ?orb_false_r; reflexivity.
Qed.

Lemma exact_max (a b : Z) :
  exact_in_float64 a -> exact_in_float64 b -> exact_in_float64 (Z.max a b).
Proof. unfold exact_in_float64. lia. Qed.

Lemma exact_min (a b : Z) :
  exact_in_float64 a -> exact_in_float64 b -> exact_in_float64 (Z.min a b).
Proof. unfold exact_in_float64. lia. Qed.

Lemma keep_cells_Ints_high (xs : list Z) (m : Z) :
  exact_in_float64 m -> Forall exact_in_float64 xs ->
  fold_left (keep_cell Float64.gtb) (map Int_cell xs)
    (mkKeep (Float64.of_int64 m) false false)
  = mkKeep (Float64.of_int64 (fold_left Z.max xs m)) false false.
Proof.
  intros Hm H. revert m Hm. induction H as [|x xs Hx _ IH]; intros m Hm; simpl.
  - reflexivity.
  - unfold keep_cell at 2. simpl. rewrite (of_int64_gtb x m Hx Hm).
    destruct (Z.ltb_spec m x).
    + replace (Z.max m x) with x by lia. apply IH, Hx.
    + replace (Z.max m x) with m by lia. apply IH, Hm.
Qed.

Lemma keep_cells_Ints_low (xs : list Z) (m : Z) :
  exact_in_float64 m -> Forall exact_in_float64 xs ->
  fold_left (keep_cell Float64.ltb) (map Int_cell xs)
    (mkKeep (Float64.of_int64 m) false false)
  = mkKeep (Float64.of_int64 (fold_left Z.min xs m)) false false.
Proof.
  intros Hm H. revert m Hm. induction H as [|x xs Hx _ IH]; intros m Hm; simpl.
  - reflexivity.
  - unfold keep_cell at 2. simpl. rewrite (of_int64_ltb x m Hx Hm).
    destruct (Z.ltb_spec x m).
    + replace (Z.min m x) with x by lia. apply IH, Hx.
    + replace (Z.min m x) with m by lia. apply IH, Hm.
Qed.

Lemma fold_max_spec (xs : list Z) (m : Z) :
  (fold_left Z.max xs m = m ∨ fold_left Z.max xs m ∈ xs)
  ∧ m <= fold_left Z.max xs m
  ∧ ∀ y, y ∈ xs -> y <= fold_left Z.max xs m.
Proof.
  revert m. induction xs as [|x xs IH]; intros m; simpl.
  - split; [left; reflexivity|]. split; [lia|]. intros y Hy. inversion Hy.
  - destruct (IH (Z.max m x)) as (Hin & Hle & Hub). split; [|split].
    + destruct Hin as [E|Hin].
      * rewrite E. destruct (Z.max_spec m x) as [[_ ->]|[_ ->]];
          [right; left|left; reflexivity].
      * right. right. exact Hin.
    + lia.
    + intros y Hy. inversion Hy; subst; [lia|]. apply Hub. assumption.
Qed.

Lemma fold_min_spec (xs : list Z) (m : Z) :
  (fold_left Z.min xs m = m ∨ fold_left Z.min xs m ∈ xs)
  ∧ fold_left Z.min xs m <= m
  ∧ ∀ y, y ∈ xs -> fold_left Z.min xs m <= y.
Proof.
  revert m. induction xs as [|x xs IH]; intros m; simpl.
  - split; [left; reflexivity|]. split; [lia|]. intros y Hy. inversion Hy.
  - destruct (IH (Z.min m x)) as (Hin & Hle & Hlb). split; [|split].
    + destruct Hin as [E|Hin].
      * rewrite E. destruct (Z.min_spec m x) as [[_ ->]|[_ ->]];
          [left; reflexivity|right; left].
      * right. right. exact Hin.
    + lia.
    + intros y Hy. inversion Hy; subst; [lia|]. apply Hlb. assumption.
Qed.

Lemma cells_of_well_typed (s : State) (l : list ptr) (cs : list VMValue) :
  cells_of s l cs -> Forall well_typed cs.
Proof.
  intros H. induction H as [|x c l cs [_ Hw] _ IH]; constructor; assumption.
Qed.

(** What the two methods compute, in one equation each. *)
Lemma CallFunc_keep (s : State) (v : ptr) (p : loc) (l : list ptr)
    (cs : list VMValue) (values : list ptr) :
  cell s v = Some (mkVMValue VMTypeArray (IArrayData p)) ->
  arrays (heap s) !! p = Some l ->
  cells_of s l cs ->
  CallFunc v "kh" values s
  = keep_result (fold_left (keep_cell Float64.gtb) cs
                   (mkKeep Float64.zero false true)) s
  ∧ CallFunc v "kl" values s
    = keep_result (fold_left (keep_cell Float64.ltb) cs
                     (mkKeep Float64.zero false true)) s.
Proof.
  intros Hv Hp Hcs. split.
  - unfold CallFunc. go. simpl. unfold ArrayFuncKeepHigh. go.
    rewrite (ReadArray_cell _ _ _ Hv). go.
    rewrite (get_List_array _ _ _ Hp). go.
    rewrite (range_loop_keep _ _ _ _ _ Hcs). reflexivity.
  - unfold CallFunc. go. simpl. unfold ArrayFuncKeepLow. go.
    rewrite (ReadArray_cell _ _ _ Hv). go.
    rewrite (get_List_array _ _ _ Hp). go.
    rewrite (range_loop_keep _ _ _ _ _ Hcs). reflexivity.
Qed.

Lemma keep_result_returns (k : keep) (s : State) :
  returns_new (keep_result k) s
    (if isFloat k then mkVMValue VMTypeFloat (IFloat64 (maxFloat k))
     else Int_cell (Float64.to_int64 (maxFloat k))).
Proof. unfold keep_result. destruct (isFloat k); apply new_value_returns. Qed.

Lemma kind_of_extremum_Float (cs : list VMValue) :
  kind_of_extremum cs = VMTypeFloat ↔ ∃ c, c ∈ cs ∧ TypeId c = VMTypeFloat.
Proof.
  unfold kind_of_extremum. destruct (existsb is_Float_cell cs) eqn:E.
  - split; [intros _|reflexivity].
    apply existsb_exists in E as (c & Hin & Hc).
    exists c. split; [apply list_elem_of_In, Hin|].
    unfold is_Float_cell in Hc. apply bool_decide_eq_true in Hc. exact Hc.
  - split; [discriminate|]. intros (c & Hin & Hc). exfalso.
    assert (existsb is_Float_cell cs = true); [|congruence].
    apply existsb_exists. exists c. split; [apply list_elem_of_In, Hin|].
    unfold is_Float_cell. apply bool_decide_eq_true. exact Hc.
Qed.

Lemma SFltb_irrefl (a : spec_float) : SFltb a a = false.
Proof.
  unfold SFltb, SFcompare. destruct a as [[]|[]| |[] m e]; try reflexivity.
  - rewrite Z.compare_refl, Pos.compare_cont_refl. reflexivity.
  - rewrite Z.compare_refl, Pos.compare_cont_refl. reflexivity.
Qed.

Lemma SFltb_trans (a b c : spec_float) :
  SFltb a b = true -> SFltb b c = true -> SFltb a c = true.
Proof.
  unfold SFltb, SFcompare.
  destruct a as [[]|[]| |[] m1 e1], b as [[]|[]| |[] m2 e2],
           c as [[]|[]| |[] m3 e3]; try discriminate; try reflexivity.
  all: change (PosDef.Pos.compare_cont Eq m1 m2) with (Pos.compare m1 m2);
       change (PosDef.Pos.compare_cont Eq m2 m3) with (Pos.compare m2 m3);
       change (PosDef.Pos.compare_cont Eq m1 m3) with (Pos.compare m1 m3).
  all: destruct (Z.compare_spec e1 e2), (Z.compare_spec e2 e3),
         (Z.compare_spec e1 e3);
       try discriminate; try lia; try reflexivity.
  all: destruct (Pos.compare_spec m1 m2), (Pos.compare_spec m2 m3),
         (Pos.compare_spec m1 m3);
       simpl; try discriminate; try lia; try reflexivity.
Qed.


Lemma keep_cell_extremum (better : spec_float -> spec_float -> bool)
    (k : keep) (c : VMValue) (seen : list spec_float) :
  (∀ a, better a a = false) ->
  (∀ a b c, better a b = true -> better b c = true -> better a c = true) ->
  well_typed c ->
  extremum_so_far better k seen ->
  extremum_so_far better (keep_cell better k c)
    (seen ++ match widen c with Some w => [w] | None => [] end).
Proof.
  intros Hirr Htrans Hw Hinv.
  assert (Hnum : ∀ val fl,
    extremum_so_far better
      (if isFirst k then mkKeep val fl false
       else if better val (maxFloat k) then mkKeep val fl (isFirst k)
            else mkKeep (maxFloat k) fl (isFirst k))
      (seen ++ [val])).
  { intros val fl. unfold extremum_so_far in *.
    destruct (isFirst k) eqn:Ef; simpl.
    - subst seen. simpl. split; [left|].
      intros w Hin. apply list_elem_of_singleton in Hin. subst w. apply Hirr.
    - destruct Hinv as [Hmax Hnone].
      destruct (better val (maxFloat k)) eqn:Eb; simpl; rewrite ?Ef.
      + split; [apply elem_of_app; right; left|].
        intros w Hin. apply elem_of_app in Hin as [Hin|Hin].
        * destruct (better w val) eqn:E; [|reflexivity].
          rewrite <- (Hnone w Hin). symmetry. eapply Htrans; eassumption.
        * apply list_elem_of_singleton in Hin. subst w. apply Hirr.
      + split; [apply elem_of_app; left; exact Hmax|].
        intros w Hin. apply elem_of_app in Hin as [Hin|Hin].
        * apply Hnone, Hin.
        * apply list_elem_of_singleton in Hin. subst w. exact Eb. }
  unfold keep_cell, widen. destruct c as [t x]. unfold well_typed in Hw.
  simpl in *.
  destruct t, x; try contradiction; rewrite ?app_nil_r; try exact Hinv.
  - specialize (Hnum (Float64.of_int64 i) (isFloat k)).
    destruct (isFirst k) eqn:Ef; [exact Hnum|].
    destruct (better _ _); [exact Hnum|].
    destruct k as [mf fl fi]; simpl in *; subst fi; exact Hnum.
  - apply Hnum.
Qed.

Lemma keep_cells_extremum (better : spec_float -> spec_float -> bool)
    (cs : list VMValue) (k : keep) (seen : list spec_float) :
  (∀ a, better a a = false) ->
  (∀ a b c, better a b = true -> better b c = true -> better a c = true) ->
  Forall well_typed cs ->
  extremum_so_far better k seen ->
  extremum_so_far better (fold_left (keep_cell better) cs k)
    (seen ++ numbers cs).
Proof.
  intros Hirr Htrans H. revert k seen.
  induction H as [|c cs Hw _ IH]; intros k seen Hinv; simpl.
  - unfold numbers. simpl. rewrite app_nil_r. exact Hinv.
  - pose proof (keep_cell_extremum better k c seen Hirr Htrans Hw Hinv) as H1.
    apply IH in H1. unfold numbers in *. simpl.
    destruct (widen c); simpl in *; [rewrite <- app_assoc in H1|rewrite app_nil_r in H1];
      exact H1.
Qed.

Lemma keep_cell_isFirst (better : spec_float -> spec_float -> bool)
    (k : keep) (c : VMValue) :
  well_typed c ->
  isFirst (keep_cell better k c)
  = match widen c with Some _ => false | None => isFirst k end.
Proof.
  intros Hw. unfold keep_cell, widen. destruct c as [t x].
  unfold well_typed in Hw. simpl in *.
  destruct t, x; try contradiction; try reflexivity;
    destruct (isFirst k) eqn:Ef; try reflexivity;
    destruct (better _ _); simpl; first [reflexivity | exact Ef].
Qed.

Lemma keep_cells_isFirst (better : spec_float -> spec_float -> bool)
    (cs : list VMValue) (k : keep) :
  Forall well_typed cs ->
  isFirst (fold_left (keep_cell better) cs k) = true ->
  numbers cs = [] ∧ isFirst k = true.
Proof.
  intros H. revert k. induction H as [|c cs Hw _ IH]; intros k; simpl.
  - intros E. split; [reflexivity|exact E].
  - intros E. destruct (IH _ E) as [Hcs Hk].
    rewrite (keep_cell_isFirst better k c Hw) in Hk.
    unfold numbers in *. simpl. destruct (widen c); [discriminate|].
    split; assumption.
Qed.

Lemma extremum_cell_kind (cs : list VMValue) (r : spec_float) :
  TypeId (extremum_cell cs r) = kind_of_extremum cs.
Proof.
  unfold extremum_cell, kind_of_extremum.
  destruct (existsb is_Float_cell cs); reflexivity.
Qed.

Lemma gtb_irrefl (a : spec_float) : Float64.gtb a a = false.
Proof. apply SFltb_irrefl. Qed.

Lemma gtb_trans (a b c : spec_float) :
  Float64.gtb a b = true -> Float64.gtb b c = true -> Float64.gtb a c = true.
Proof. unfold Float64.gtb. intros H1 H2. exact (SFltb_trans c b a H2 H1). Qed.

(** The result of the loop, whatever the elements: the extremum is one of
    the numbers of the array, widened, and no number of the array is
    better. *)
Lemma keep_cells_result (better : spec_float -> spec_float -> bool)
    (cs : list VMValue) :
  (∀ a, better a a = false) ->
  (∀ a b c, better a b = true -> better b c = true -> better a c = true) ->
  Forall well_typed cs -> numbers cs ≠ [] ->
  let k := fold_left (keep_cell better) cs (mkKeep Float64.zero false true) in
  isFloat k = existsb is_Float_cell cs
  ∧ maxFloat k ∈ numbers cs
  ∧ ∀ w, w ∈ numbers cs -> better w (maxFloat k) = false.
Proof.
  intros Hirr Htrans Hw Hne k.
  split; [unfold k; rewrite keep_cells_isFloat by exact Hw; reflexivity|].
  pose proof (keep_cells_extremum better cs (mkKeep Float64.zero false true) []
                Hirr Htrans Hw eq_refl) as Hinv.
  fold k in Hinv. unfold extremum_so_far in Hinv. simpl in Hinv.
  destruct (isFirst k) eqn:Ef; [|exact Hinv].
  exfalso. apply Hne. apply (keep_cells_isFirst better cs _ Hw Ef).
Qed.

Lemma keep_cells_no_number (better : spec_float -> spec_float -> bool)
    (cs : list VMValue) (k : keep) :
  Forall well_typed cs -> numbers cs = [] ->
  fold_left (keep_cell better) cs k = k.
Proof.
  intros H. revert k. induction H as [|c cs Hw _ IH]; intros k; simpl.
  - reflexivity.
  - unfold numbers. simpl. destruct (widen c) eqn:E; [discriminate|].
    intros Hcs. rewrite <- (IH k Hcs) at 2. f_equal.
    unfold keep_cell, widen in *. destruct c as [t x].
    unfold well_typed in Hw. simpl in *.
    destruct t, x; try contradiction; try reflexivity; discriminate.
Qed.

(** A float that is not a number compares false on either side. *)
Lemma SFltb_nan_l (a : spec_float) : SFltb S754_nan a = false.
Proof. reflexivity. Qed.

Lemma SFltb_nan_r (a : spec_float) : SFltb a S754_nan = false.
Proof. destruct a; reflexivity. Qed.

(** The floats that are numbers are totally ordered: what is not less is
    greater or equal. *)
Lemma SFleb_of_not_ltb (a b : spec_float) :
  a ≠ S754_nan -> b ≠ S754_nan -> SFltb b a = false -> SFleb a b = true.
Proof.
  intros Ha Hb. unfold SFltb, SFleb, SFcompare.
  destruct a as [[]|[]| |[] m1 e1], b as [[]|[]| |[] m2 e2];
    try contradiction; try discriminate; try reflexivity.
  all: change (PosDef.Pos.compare_cont Eq m1 m2) with (Pos.compare m1 m2);
       change (PosDef.Pos.compare_cont Eq m2 m1) with (Pos.compare m2 m1).
  all: destruct (Z.compare_spec e1 e2), (Z.compare_spec e2 e1);
       try discriminate; try lia; try reflexivity.
  all: destruct (Pos.compare_spec m1 m2), (Pos.compare_spec m2 m1);
       simpl; try discriminate; try lia; try reflexivity.
Qed.

(** Once the loop holds a number, whether it holds a float that is not a
    number does not change any more: such a float is never replaced, and it
    never replaces another. *)
Lemma keep_cells_nan_kept (better : spec_float -> spec_float -> bool)
    (cs : list VMValue) (k : keep) :
  (∀ a, better S754_nan a = false) ->
  (∀ a, better a S754_nan = false) ->
  Forall well_typed cs ->
  isFirst k = false ->
  maxFloat (fold_left (keep_cell better) cs k) = S754_nan
  ↔ maxFloat k = S754_nan.
Proof.
  intros Hl Hr H. revert k. induction H as [|c cs Hw _ IH]; intros k Hk; simpl.
  - reflexivity.
  - rewrite IH.
    + unfold keep_cell. destruct c as [t x]. unfold well_typed in Hw.
      simpl in *. rewrite Hk.
      destruct t, x; try contradiction; try reflexivity.
      * destruct (better (Float64.of_int64 i) (maxFloat k)) eqn:Eb;
          [|reflexivity].
        simpl. split; intros E; exfalso.
        -- rewrite E, Hl in Eb. discriminate.
        -- rewrite E, Hr in Eb. discriminate.
      * destruct (better f (maxFloat k)) eqn:Eb; [|reflexivity].
        simpl. split; intros E; exfalso.
        -- rewrite E, Hl in Eb. discriminate.
        -- rewrite E, Hr in Eb. discriminate.
    + rewrite (keep_cell_isFirst better k c Hw), Hk.
      destruct (widen c); reflexivity.
Qed.

(** So the result of the loop is a float that is not a number exactly when
    the first number of the array is one. *)
Lemma keep_cells_nan_first (better : spec_float -> spec_float -> bool)
    (cs : list VMValue) (k : keep) (first : spec_float)
    (rest : list spec_float) :
  (∀ a, better S754_nan a = false) ->
  (∀ a, better a S754_nan = false) ->
  Forall well_typed cs ->
  isFirst k = true ->
  numbers cs = first :: rest ->
  maxFloat (fold_left (keep_cell better) cs k) = S754_nan ↔ first = S754_nan.
Proof.
  intros Hl Hr H. revert k. induction H as [|c cs Hw Hws IH]; intros k Hk; simpl.
  - discriminate.
  - unfold numbers. simpl. destruct (widen c) as [w|] eqn:E.
    + intros [= <- _].
      rewrite (keep_cells_nan_kept better cs _ Hl Hr Hws).
      * unfold keep_cell, widen in *. destruct c as [t x].
        unfold well_typed in Hw. simpl in *. rewrite Hk.
        destruct t, x; try contradiction; try discriminate;
          injection E as <-; reflexivity.
      * rewrite (keep_cell_isFirst better k c Hw), E. reflexivity.
    + intros Hcs. fold (numbers cs) in Hcs.
      replace (keep_cell better k c) with k; [apply IH; assumption|].
      unfold keep_cell, widen in *. destruct c as [t x].
      unfold well_typed in Hw. simpl in *.
      destruct t, x; try contradiction; try reflexivity; discriminate.
Qed.

(** C8, amended. On an Array whose elements are cells of well-formed values,
    [kh] and [kl] return a new value whose kind is Float exactly when an
    element at least is a Float, and Int otherwise.  When the array holds a
    number, the value is built from an extremum under the comparison of
    floats, Ints widened: one of the numbers of the array, such that no
    number of the array is greater (for [kh]) or less (for [kl]).  When
    the first number of the array is a float that is not a number, this
    extremum is that float; otherwise it is a number, the maximum (for
    [kh]) or the minimum (for [kl]) of the numbers of the array that are
    numbers, a float that is not a number being passed over.  A Float result
    is this extremum, an Int result is its conversion back to an integer.
    When all elements are Ints of magnitude at most 2^53, the result is the
    Int that is the greatest or the least element.  When the array holds no
    number at all, the result is the Int 0. *)
Theorem keep_extremum (s : State) (v : ptr) (p : loc) (l : list ptr)
    (cs : list VMValue) (values : list ptr) :
  cell s v = Some (mkVMValue VMTypeArray (IArrayData p)) ->
  arrays (heap s) !! p = Some l ->
  cells_of s l cs ->
  (∃ ch cl : VMValue,
     returns_new (CallFunc v "kh" values) s ch
     ∧ returns_new (CallFunc v "kl" values) s cl
     ∧ TypeId ch = kind_of_extremum cs
     ∧ TypeId cl = kind_of_extremum cs
     ∧ (kind_of_extremum cs = VMTypeFloat ↔
        ∃ c, c ∈ cs ∧ TypeId c = VMTypeFloat))
  ∧ (∀ (first : spec_float) (rest : list spec_float),
       numbers cs = first :: rest ->
       ∃ hi lo : spec_float,
         returns_new (CallFunc v "kh" values) s (extremum_cell cs hi)
         ∧ returns_new (CallFunc v "kl" values) s (extremum_cell cs lo)
         ∧ hi ∈ numbers cs ∧ lo ∈ numbers cs
         ∧ (∀ w, w ∈ numbers cs ->
              Float64.gtb w hi = false ∧ Float64.ltb w lo = false)
         ∧ (first = S754_nan -> hi = S754_nan ∧ lo = S754_nan)
         ∧ (first ≠ S754_nan ->
            hi ≠ S754_nan ∧ lo ≠ S754_nan
            ∧ ∀ w, w ∈ numbers cs -> w ≠ S754_nan ->
                Float64.leb w hi = true ∧ Float64.leb lo w = true))
  ∧ (∀ xs : list Z,
       cs = map Int_cell xs -> xs ≠ [] -> Forall exact_in_float64 xs ->
       ∃ hi lo : Z,
         returns_new (CallFunc v "kh" values) s (Int_cell hi)
         ∧ returns_new (CallFunc v "kl" values) s (Int_cell lo)
         ∧ hi ∈ xs ∧ lo ∈ xs
         ∧ ∀ y, y ∈ xs -> lo <= y <= hi)
  ∧ (numbers cs = [] ->
     returns_new (CallFunc v "kh" values) s (Int_cell 0)
     ∧ returns_new (CallFunc v "kl" values) s (Int_cell 0)).
Proof.
  intros Hv Hp Hcs.
  destruct (CallFunc_keep s v p l cs values Hv Hp Hcs) as [Eh El].
  pose proof (cells_of_well_typed _ _ _ Hcs) as Hw.
  split; [|split; [|split]]; cycle 3.
  { intros Hnone. split.
    - eapply returns_new_eq; [exact Eh|].
      rewrite (keep_cells_no_number _ _ _ Hw Hnone). apply new_value_returns.
    - eapply returns_new_eq; [exact El|].
      rewrite (keep_cells_no_number _ _ _ Hw Hnone). apply new_value_returns. }
  - eexists. eexists.
    split; [eapply returns_new_eq; [exact Eh|apply keep_result_returns]|].
    split; [eapply returns_new_eq; [exact El|apply keep_result_returns]|].
    rewrite !keep_cells_isFloat by exact Hw. simpl.
    unfold kind_of_extremum.
    split; [destruct (existsb _ _); reflexivity|].
    split; [destruct (existsb _ _); reflexivity|].
    apply kind_of_extremum_Float.
  - intros first rest Hfirst.
    assert (Hne : numbers cs ≠ []) by (rewrite Hfirst; discriminate).
    destruct (keep_cells_result Float64.gtb cs gtb_irrefl gtb_trans Hw Hne)
      as (Hfh & Hinh & Hbh).
    destruct (keep_cells_result Float64.ltb cs SFltb_irrefl SFltb_trans Hw Hne)
      as (Hfl & Hinl & Hbl).
    pose proof (keep_cells_nan_first Float64.gtb cs
                  (mkKeep Float64.zero false true) first rest
                  SFltb_nan_r SFltb_nan_l Hw eq_refl Hfirst) as Hnh.
    pose proof (keep_cells_nan_first Float64.ltb cs
                  (mkKeep Float64.zero false true) first rest
                  SFltb_nan_l SFltb_nan_r Hw eq_refl Hfirst) as Hnl.
    eexists. eexists.
    split; [eapply returns_new_eq; [exact Eh|]|
    split; [eapply returns_new_eq; [exact El|]|]].
    + unfold keep_result, extremum_cell. rewrite Hfh.
      destruct (existsb _ _); apply new_value_returns.
    + unfold keep_result, extremum_cell. rewrite Hfl.
      destruct (existsb _ _); apply new_value_returns.
    + split; [exact Hinh|]. split; [exact Hinl|].
      split; [intros w Hin; split; [apply Hbh|apply Hbl]; exact Hin|].
      split; [intros E; split; [apply Hnh|apply Hnl]; exact E|].
      intros E.
      assert (Hh : maxFloat (fold_left (keep_cell Float64.gtb) cs
                               (mkKeep Float64.zero false true)) ≠ S754_nan)
        by (intros C; apply E, Hnh, C).
      assert (Hl : maxFloat (fold_left (keep_cell Float64.ltb) cs
                               (mkKeep Float64.zero false true)) ≠ S754_nan)
        by (intros C; apply E, Hnl, C).
      split; [exact Hh|]. split; [exact Hl|].
      intros w Hin Hwn. split.
      * apply SFleb_of_not_ltb; [exact Hwn|exact Hh|]. apply (Hbh w Hin).
      * apply SFleb_of_not_ltb; [exact Hl|exact Hwn|]. apply (Hbl w Hin).
  - intros xs -> Hne Hex. destruct xs as [|x xs]; [contradiction|].
    apply Forall_cons_1 in Hex as [Hx Hxs].
    exists (fold_left Z.max xs x), (fold_left Z.min xs x).
    destruct (fold_max_spec xs x) as (Hin & Hle & Hub).
    destruct (fold_min_spec xs x) as (Hin' & Hle' & Hlb).
    assert (Hhi : exact_in_float64 (fold_left Z.max xs x)).
    { destruct Hin as [->|Hin]; [exact Hx|].
      rewrite Forall_forall in Hxs. apply Hxs, Hin. }
    assert (Hlo : exact_in_float64 (fold_left Z.min xs x)).
    { destruct Hin' as [->|Hin']; [exact Hx|].
      rewrite Forall_forall in Hxs. apply Hxs, Hin'. }
    split; [|split; [|split; [|split]]].
    + eapply returns_new_eq; [exact Eh|].
      simpl. unfold keep_cell at 2. simpl.
      rewrite (keep_cells_Ints_high xs x Hx Hxs).
      unfold keep_result. simpl. rewrite (to_of_int64 _ Hhi).
      apply new_value_returns.
    + eapply returns_new_eq; [exact El|].
      simpl. unfold keep_cell at 2. simpl.
      rewrite (keep_cells_Ints_low xs x Hx Hxs).
      unfold keep_result. simpl. rewrite (to_of_int64 _ Hlo).
      apply new_value_returns.
    + destruct Hin as [->|Hin]; [left|right; exact Hin].
    + destruct Hin' as [->|Hin']; [left|right; exact Hin'].
    + intros y Hy. inversion Hy; subst; [lia|].
      split; [apply Hlb|apply Hub]; assumption.
Qed.

Lemma keep_extremum_witness :
  ∃ hi lo : Z,
    returns_new (CallFunc (Some 4%positive) "kh" []) sample_values (Int_cell hi)
    ∧ returns_new (CallFunc (Some 4%positive) "kl" []) sample_values (Int_cell lo)
    ∧ hi ∈ [10; 20; 30] ∧ lo ∈ [10; 20; 30]
    ∧ ∀ y, y ∈ [10; 20; 30] -> lo <= y <= hi.
Proof.
  apply (keep_extremum sample_values (Some 4%positive) 1%positive
           [Some 1%positive; Some 2%positive; Some 3%positive]
           (map Int_cell [10; 20; 30]) []).
  - reflexivity.
  - reflexivity.
  - repeat constructor.
  - reflexivity.
  - discriminate.
  - unfold exact_in_float64. repeat constructor; simpl; lia.
Defined.

(** C8, counterexample. On the array that holds the one Int 2^53 + 1, [kh]
    and [kl] return the Int 2^53: the element went through a float, which
    has no room for its lowest bit. *)
Lemma keep_extremum_loses_bits :
  result (call_on_singleton "kh" 9007199254740993 initial_State)
  = Some (Int_cell 9007199254740992)
  ∧ result (call_on_singleton "kl" 9007199254740993 initial_State)
    = Some (Int_cell 9007199254740992).
Proof. split; vm_compute; reflexivity. Qed.

(** ** C1: the limit of 512 elements *)

(** A loop that copies [k] elements of [src], from the index [j] on, into
    the slots that follow [pre]. *)
Lemma for_loop_copy (src : list ptr) (fs fd : Z -> Z) (k : nat) (i0 : Z)
    (pre : list ptr) (j rest : nat) (s : State) :
  (∀ t : nat, (t < k)%nat ->
     fs (i0 + Z.of_nat t) = Z.of_nat (j + t)
     ∧ fd (i0 + Z.of_nat t) = Z.of_nat (length pre + t)) ->
  (j + k <= length src)%nat ->
  for_loop k i0 (fun i acc => x ← elem_at src (fs i); store_at acc (fd i) x)
    (pre ++ replicate (k + rest) None) s
  = Returned (pre ++ take k (drop j src) ++ replicate rest None) s.
Proof.
  revert i0 pre j. induction k as [|k IH]; intros i0 pre j Hidx Hlen.
  - simpl. reflexivity.
  - destruct (Hidx 0%nat ltac:(lia)) as [Hs Hd].
    rewrite Z.add_0_r, Nat.add_0_r in Hs, Hd.
    destruct (lookup_lt_is_Some_2 src j ltac:(lia)) as [x Hx].
    simpl for_loop. go.
    rewrite (elem_at_lookup src (fs i0) x)
      by (rewrite Hs; first [lia | rewrite Nat2Z.id; exact Hx]).
    go. rewrite store_at_in_range
      by (rewrite Hd, length_app; simpl; rewrite length_replicate; lia).
    go. rewrite Hd, Nat2Z.id.
    replace (<[length pre:=x]> (pre ++ replicate (S k + rest) None))
      with ((pre ++ [x]) ++ replicate (k + rest) None).
    2:{ rewrite insert_app_r_alt by lia. rewrite Nat.sub_diag. simpl.
        rewrite <- app_assoc. reflexivity. }
    rewrite (IH (i0 + 1) (pre ++ [x]) (S j)).
    + rewrite (drop_S src x j Hx). simpl. rewrite <- app_assoc. reflexivity.
    + intros t Ht. destruct (Hidx (S t) ltac:(lia)) as [Hs' Hd'].
      rewrite length_app. simpl.
      replace (i0 + 1 + Z.of_nat t) with (i0 + Z.of_nat (S t)) by lia.
      rewrite Hs', Hd'. split; f_equal; lia.
    + lia.
Qed.

Lemma OpAdd_arrays (s : State) (v v2 : ptr) (p p2 : loc) (l l2 : list ptr) :
  cell s v = Some (mkVMValue VMTypeArray (IArrayData p)) ->
  cell s v2 = Some (mkVMValue VMTypeArray (IArrayData p2)) ->
  arrays (heap s) !! p = Some l ->
  arrays (heap s) !! p2 = Some l2 ->
  if 512 <? Z.of_nat (length l) + Z.of_nat (length l2)
  then fails_with (OpAdd v v2) s ArrayTooLarge
  else returns_new_array (OpAdd v v2) s (l ++ l2).
Proof.
  intros Hv Hv2 Hp Hp2.
  assert (E : OpAdd v v2 s
              = (if 512 <? Z.of_nat (length l) + Z.of_nat (length l2)
                 then set_Error ArrayTooLarge;; mret None
                 else VMValueNewArray (l ++ l2)) s).
  { unfold OpAdd. go.
    rewrite (ReadArray_cell _ _ _ Hv). go.
    rewrite (ReadArray_cell _ _ _ Hv2). go.
    rewrite (get_List_array _ _ _ Hp). go.
    rewrite (get_List_array _ _ _ Hp2). go.
    destruct (512 <? _); [reflexivity|].
    unfold make. destruct (Z.ltb_spec (Z.of_nat (length l) + Z.of_nat (length l2)) 0);
      [lia|].
    go. unfold copy. rewrite length_replicate.
    replace (Z.to_nat (Z.of_nat (length l) + Z.of_nat (length l2)))
      with (length l + (length l2 + 0))%nat by lia.
    rewrite take_ge by lia. rewrite drop_replicate.
    replace (length l + (length l2 + 0) - length l)%nat
      with (length l2 + 0)%nat by lia.
    unfold for_range. rewrite Z.sub_0_r, Nat2Z.id.
    match goal with
    | |- context [for_loop ?n ?i0 ?body ?acc s] =>
        assert (EL : for_loop n i0 body acc s
                     = Returned (l ++ take (length l2) (drop 0 l2)
                                   ++ replicate 0 None) s)
          by (apply (for_loop_copy l2 (fun j => j)
                       (fun j => Z.of_nat (length l) + j) (length l2) 0 l 0 0 s);
              [intros t Ht; simpl; split; lia | lia])
    end.
    rewrite EL. rewrite drop_0, firstn_all. simpl. rewrite app_nil_r.
    reflexivity. }
  destruct (512 <? _).
  - unfold fails_with. rewrite E. reflexivity.
  - eapply returns_new_array_eq; [exact E|apply VMValueNewArray_returns].
Qed.

Lemma ReadInt_cell (s : State) (v : ptr) (i : Z) :
  cell s v = Some (mkVMValue VMTypeInt (IInt64 i)) ->
  ReadInt v s = Returned (i, true) s.
Proof. intros H. unfold ReadInt. go. reflexivity. Qed.

Lemma ArrayRepeatTimesEx_guard (s : State) (v times : ptr) (p : loc)
    (l : list ptr) (t : Z) :
  cell s v = Some (mkVMValue VMTypeArray (IArrayData p)) ->
  cell s times = Some (mkVMValue VMTypeInt (IInt64 t)) ->
  arrays (heap s) !! p = Some l ->
  512 < Int64.mul (Z.of_nat (length l)) t ->
  fails_with (ArrayRepeatTimesEx v times) s ArrayTooLarge.
Proof.
  intros Hv Ht Hp Hlen. unfold fails_with, ArrayRepeatTimesEx. go.
  rewrite (ReadInt_cell _ _ _ Ht). go.
  rewrite (ReadArray_cell _ _ _ Hv). go.
  rewrite (get_List_array _ _ _ Hp). go.
  destruct (Z.ltb_spec 512 (Int64.mul (Z.of_nat (length l)) t)); [|lia].
  reflexivity.
Qed.

(** Assigning to a slice: the elements of the right-hand side take the
    place of the clamped range, whatever the length that results. *)
Lemma SetSlice_spec (s : State) (v val : ptr) (p p2 : loc) (l l2 : list ptr)
    (a b step : Z) :
  cell s v = Some (mkVMValue VMTypeArray (IArrayData p)) ->
  cell s val = Some (mkVMValue VMTypeArray (IArrayData p2)) ->
  arrays (heap s) !! p = Some l ->
  arrays (heap s) !! p2 = Some l2 ->
  Int64.in_range a -> Int64.in_range b ->
  Z.of_nat (length l) <= Int64.max_int ->
  let len := Z.of_nat (length l) in
  SetSlice v a b step val s
  = Returned true
      (with_heap
         (set_arrays
            (insert p (take (Z.to_nat (spec_lower len a b)) l ++ l2
                       ++ drop (Z.to_nat (spec_upper len b)) l))) s).
Proof.
  intros Hv Hval Hp Hp2 Ha Hb Hmax len.
  destruct (spec_bounds_ordered len a b) as [Hlo Hhi]; [lia|].
  set (lo := spec_lower len a b) in *. set (hi := spec_upper len b) in *.
  unfold SetSlice. go.
  rewrite (ReadArray_cell _ _ _ Hv). go. cbn [negb].
  go. rewrite (ReadArray_cell _ _ _ Hval). go. cbn [negb].
  go. rewrite (get_List_array _ _ _ Hp). go.
  rewrite (get_List_array _ _ _ Hp2). go.
  rewrite !getClampRealIndex_spec by (try assumption; lia).
  fold len. fold (spec_lower len a b). fold (spec_upper len b). fold lo hi.
  unfold make.
  destruct (Z.ltb_spec (len + (Z.of_nat (length l2) - (hi - lo))) 0); [lia|].
  go.
  set (n1 := Z.to_nat lo). set (n2 := length l2). set (n3 := (length l - Z.to_nat hi)%nat).
  replace (Z.to_nat (len + (Z.of_nat n2 - (hi - lo))))
    with (n1 + (n2 + n3))%nat by (unfold n1, n2, n3, len in *; lia).
  unfold for_range at 1. rewrite Z.sub_0_r. fold n1.
  change (replicate (n1 + (n2 + n3)) None)
    with (@nil ptr ++ replicate (n1 + (n2 + n3)) None).
  rewrite (for_loop_copy l (fun i => i) (fun i => i) n1 0 [] 0 (n2 + n3) s).
  2:{ intros t Ht. simpl. split; lia. }
  2:{ unfold n1, len in *. lia. }
  go. rewrite drop_0. simpl app.
  unfold for_range at 1. rewrite Z.sub_0_r, Nat2Z.id. fold n2.
  rewrite (for_loop_copy l2 (fun i => i) (fun i => lo + i) n2 0 (take n1 l) 0 n3 s).
  2:{ intros t Ht. simpl. rewrite length_take. split; [lia|].
      unfold n1, len in *. lia. }
  2:{ unfold n2. lia. }
  go. rewrite drop_0.
  replace (take n2 l2) with l2 by (symmetry; apply firstn_all).
  unfold for_range at 1.
  assert (Hlen1 : length (take n1 l) = n1)
    by (rewrite length_take; unfold n1, len in *; lia).
  replace (Z.to_nat (Z.of_nat (length (take n1 l ++ l2 ++ replicate n3 None))
                     - (hi + (Z.of_nat n2 - (hi - lo))))) with n3
    by (rewrite !length_app, length_replicate, Hlen1; fold n2;
        unfold n1 in *; lia).
  replace (replicate n3 None) with (replicate (n3 + 0) (@None loc))
    by (rewrite Nat.add_0_r; reflexivity).
  rewrite app_assoc.
  rewrite (for_loop_copy l (fun i => i - (Z.of_nat n2 - (hi - lo)))
             (fun i => i) n3 _ (take n1 l ++ l2) (Z.to_nat hi) 0 s).
  2:{ intros t Ht. simpl. rewrite length_app, Hlen1. fold n2.
      unfold n1 in *. split; lia. }
  2:{ unfold n3, len in *. lia. }
  go. rewrite (set_List_array _ _ _ _ Hp).
  replace (take n3 (drop (Z.to_nat hi) l)) with (drop (Z.to_nat hi) l).
  2:{ symmetry. apply take_ge. rewrite length_drop. unfold n3. lia. }
  simpl replicate. rewrite app_nil_r, <- app_assoc. reflexivity.
Qed.


Lemma post_for_loop {S : Type} (I : S -> Prop) (body : Z -> S -> Go S)
    (n : nat) (i : Z) (acc : S) (s : State) :
  (∀ j a t, I a -> post (body j a) t (fun a' _ => I a')) ->
  I acc -> post (for_loop n i body acc) s (fun a _ => I a).
Proof.
  intros Hb. revert i acc s. induction n as [|n IH]; intros i acc s Hacc; simpl.
  - apply post_ret. exact Hacc.
  - apply post_bind. eapply post_conseq; [apply Hb, Hacc|].
    intros a s1 Ha. apply IH, Ha.
Qed.

Lemma post_store_at_length {A : Type} (l : list A) (i : Z) (x : A) (s : State) :
  post (store_at l i x) s (fun l' _ => length l' = length l).
Proof.
  intros l' s'. unfold store_at. destruct (_ || _); [discriminate|].
  intros [= <- _]. apply length_insert.
Qed.

Lemma elements_new_array (s : State) (d r : loc) (l : list ptr) :
  elements
    (with_heap (set_values (insert r (mkVMValue VMTypeArray (IArrayData d))))
       (with_heap (set_arrays (insert d l)) s)) (Some r) = Some l.
Proof.
  unfold elements. simpl. rewrite lookup_insert_eq. simpl.
  apply lookup_insert_eq.
Qed.

(** Repeating an array: a result, when there is one, has 512 elements at
    most. *)
Lemma ArrayRepeatTimesEx_bound (v times : ptr) (s : State) :
  post (ArrayRepeatTimesEx v times) s
    (fun r s' => ∀ l', elements s' r = Some l' -> Z.of_nat (length l') <= 512).
Proof.
  assert (Hnone : ∀ t : State, ∀ l', elements t None = Some l' ->
                    Z.of_nat (length l') <= 512) by (intros t l'; discriminate).
  unfold ArrayRepeatTimesEx.
  apply post_bind, post_read; [apply pure_read_deref|]. intros ct.
  destruct (TypeId ct); try (apply post_ret; apply Hnone).
  apply post_bind. intros [t ok] s1 _.
  apply post_bind. intros [ad ok'] s2 _.
  apply post_bind. intros l s3 _.
  destruct (Z.ltb_spec 512 (Int64.mul (Z.of_nat (length l)) t)) as [Hgt|Hle].
  - apply post_bind. intros [] s4 _. apply post_ret. apply Hnone.
  - apply post_bind. unfold make.
    destruct (Z.ltb_spec (Int64.mul (Z.of_nat (length l)) t) 0) as [Hneg|Hpos];
      [apply post_throw|].
    apply post_ret. apply post_bind. unfold for_range.
    eapply post_conseq.
    + apply (post_for_loop
               (fun arr : list ptr =>
                  Z.of_nat (length arr) = Int64.mul (Z.of_nat (length l)) t)).
      * intros j a t0 Ha. apply post_bind. intros j' s5 _.
        apply post_bind. intros x s6 _. apply post_bind. intros x' s7 _.
        eapply post_conseq; [apply post_store_at_length|].
        intros a' s8 Hlen. simpl in Hlen. rewrite Hlen. exact Ha.
      * rewrite length_replicate. lia.
    + intros arr s5 Harr r s'. unfold VMValueNewArray. rewrite append_all_id.
      intros [= <- <-] l'. rewrite elements_new_array. intros [= <-].
      rewrite Harr. exact Hle.
Qed.

(** Assigning to a slice goes through no guard: it reports no error, and
    the array then has the length of what was kept plus the length of what
    was assigned. *)
Lemma SetSlice_length (s : State) (v val : ptr) (p p2 : loc) (l l2 : list ptr)
    (a b step : Z) :
  cell s v = Some (mkVMValue VMTypeArray (IArrayData p)) ->
  cell s val = Some (mkVMValue VMTypeArray (IArrayData p2)) ->
  arrays (heap s) !! p = Some l ->
  arrays (heap s) !! p2 = Some l2 ->
  Int64.in_range a -> Int64.in_range b ->
  Z.of_nat (length l) <= Int64.max_int ->
  let len := Z.of_nat (length l) in
  ∃ (s' : State) (l' : list ptr),
    SetSlice v a b step val s = Returned true s'
    ∧ ctx s' = ctx s
    ∧ elements s' v = Some l'
    ∧ Z.of_nat (length l')
      = len + Z.of_nat (length l2) - (spec_upper len b - spec_lower len a b).
Proof.
  intros Hv Hval Hp Hp2 Ha Hb Hmax len.
  destruct (spec_bounds_ordered len a b) as [Hlo Hhi]; [lia|].
  eexists. eexists. split; [apply (SetSlice_spec s v val p p2 l l2); assumption|].
  split; [reflexivity|]. split.
  - unfold elements. change (cell (with_heap _ s) v) with (cell s v).
    rewrite Hv. simpl. apply lookup_insert_eq.
  - rewrite !length_app, length_take, length_drop. fold len.
    unfold len in *. lia.
Qed.

(** C1. Assigning to a slice goes through no guard.  Whatever the lengths,
    [SetSlice] on two arrays with Int bounds returns true, leaves the
    context and its error slot as they were, and leaves in the target the
    elements it kept and the elements it was assigned: [len + len2 - (hi -
    lo)] elements, with no bound at 512.  The two other growing operations
    are guarded: the concatenation fails with ArrayTooLarge when the joined
    length exceeds 512, and so does the repetition. *)
Theorem SetSlice_exceeds_limit (s : State) (v val : ptr) (p p2 : loc)
    (l l2 : list ptr) (a b step : Z) :
  cell s v = Some (mkVMValue VMTypeArray (IArrayData p)) ->
  cell s val = Some (mkVMValue VMTypeArray (IArrayData p2)) ->
  arrays (heap s) !! p = Some l ->
  arrays (heap s) !! p2 = Some l2 ->
  Int64.in_range a -> Int64.in_range b ->
  Z.of_nat (length l) <= Int64.max_int ->
  let len := Z.of_nat (length l) in
  (∃ (s' : State) (l' : list ptr),
     SetSlice v a b step val s = Returned true s'
     ∧ ctx s' = ctx s
     ∧ elements s' v = Some l'
     ∧ Z.of_nat (length l')
       = len + Z.of_nat (length l2) - (spec_upper len b - spec_lower len a b))
  ∧ (512 < len + Z.of_nat (length l2) ->
     fails_with (OpAdd v val) s ArrayTooLarge)
  ∧ (∀ (times : ptr) (t : Z),
       cell s times = Some (mkVMValue VMTypeInt (IInt64 t)) ->
       512 < Int64.mul len t ->
       fails_with (ArrayRepeatTimesEx v times) s ArrayTooLarge).
Proof.
  intros Hv Hval Hp Hp2 Ha Hb Hmax len. split; [|split].
  - apply (SetSlice_length s v val p p2 l l2); assumption.
  - intros Hlen. pose proof (OpAdd_arrays s v val p p2 l l2 Hv Hval Hp Hp2) as H.
    fold len in H.
    destruct (Z.ltb_spec 512 (len + Z.of_nat (length l2))); [exact H|lia].
  - intros times t Ht Hlen.
    apply (ArrayRepeatTimesEx_guard s v times p l t); assumption.
Qed.

Lemma SetSlice_exceeds_limit_witness :
  Z.of_nat (length full_elements) = 512
  ∧ ∃ (s' : State) (l' : list ptr),
      SetSlice (Some 516%positive) 0 0 1 (Some 2%positive) full_array
      = Returned true s'
      ∧ ctx s' = ctx full_array
      ∧ elements s' (Some 516%positive) = Some l'
      ∧ Z.of_nat (length l') = 513.
Proof.
  split; [reflexivity|].
  apply (SetSlice_exceeds_limit full_array (Some 516%positive)
           (Some 2%positive) 2%positive 1%positive full_elements
           [Some 1%positive] 0 0 1).
  - vm_compute. reflexivity.
  - vm_compute. reflexivity.
  - vm_compute. reflexivity.
  - vm_compute. reflexivity.
  - unfold Int64.in_range, Int64.min_int, Int64.max_int. lia.
  - unfold Int64.in_range, Int64.min_int, Int64.max_int. lia.
  - vm_compute. discriminate.
Defined.

(** The three growing operations as scripts: [a = [0] * 512; a[0:0] = [0]]
    runs without an error and leaves 513 elements in [a], whereas
    [[0] * 512 + [0]] and [[0] * 257 * 2] fail and return [nil]. *)
Lemma growth_scripts :
  result (grow_by_slice 512 initial_State) = Some (true, 513, None)
  ∧ result (grow_by_concat 512 initial_State) = Some (None, Some ArrayTooLarge)
  ∧ result (grow_by_repeat 257 initial_State) = Some (None, Some ArrayTooLarge).
Proof. repeat split; vm_compute; reflexivity. Qed.

(** * Further properties of the value model *)

(** ** Integer arithmetic *)

Lemma wrap_range (z : Z) : Int64.in_range (Int64.wrap z).
Proof.
  unfold Int64.in_range, Int64.wrap, Int64.min_int, Int64.max_int.
  pose proof (Z.mod_pos_bound (z + 2 ^ 63) (2 ^ 64)). lia.
Qed.

Lemma wrap_congr (y z : Z) :
  (y - z) mod 2 ^ 64 = 0 -> Int64.wrap y = Int64.wrap z.
Proof.
  intros H. unfold Int64.wrap. f_equal.
  apply Z.mod_divide in H; [|lia]. destruct H as [k Hk].
  replace (y + 2 ^ 63) with (z + 2 ^ 63 + k * 2 ^ 64) by lia.
  apply Z.mod_add. lia.
Qed.

Lemma wrap_mod (z : Z) : (Int64.wrap z - z) mod 2 ^ 64 = 0.
Proof.
  unfold Int64.wrap.
  pose proof (Z.div_mod (z + 2 ^ 63) (2 ^ 64)) as H.
  replace ((z + 2 ^ 63) mod 2 ^ 64 - 2 ^ 63 - z)
    with (- ((z + 2 ^ 63) / 2 ^ 64) * 2 ^ 64) by lia.
  apply Z.mod_mul. lia.
Qed.

Lemma wrap_wrap_sub (a b : Z) :
  Int64.in_range a -> Int64.sub (Int64.add a b) b = a.
Proof.
  intros Ha. unfold Int64.sub, Int64.add.
  rewrite <- (wrap_in_range a Ha) at 2. apply wrap_congr.
  replace (Int64.wrap (a + b) - b - a) with (Int64.wrap (a + b) - (a + b)) by lia.
  apply wrap_mod.
Qed.

Lemma Int_cell_eq (a : Z) : Int_cell a = mkVMValue VMTypeInt (IInt64 a).
Proof. reflexivity. Qed.

Lemma OpAdd_Ints (s : State) (v v2 : ptr) (a b : Z) :
  cell s v = Some (Int_cell a) -> cell s v2 = Some (Int_cell b) ->
  OpAdd v v2 s
  = Returned (Some (next_value s)) (with_value (Int_cell (Int64.add a b)) s).
Proof.
  unfold Int_cell. intros Hv Hv2. unfold OpAdd, as_int64. go. reflexivity.
Qed.

Lemma OpSub_Ints (s : State) (v v2 : ptr) (a b : Z) :
  cell s v = Some (Int_cell a) -> cell s v2 = Some (Int_cell b) ->
  OpSub v v2 s
  = Returned (Some (next_value s)) (with_value (Int_cell (Int64.sub a b)) s).
Proof.
  unfold Int_cell. intros Hv Hv2. unfold OpSub, as_int64. go. reflexivity.
Qed.

(** X1. On two Ints the addition returns a new Int holding the sum wrapped
    to 64 bits, and subtracting the right operand from that result gives
    back the left operand, also when the sum has overflowed.  Neither step
    touches the context. *)
Theorem OpSub_undoes_OpAdd (s : State) (v v2 : ptr) (a b : Z) :
  cell s v = Some (Int_cell a) -> cell s v2 = Some (Int_cell b) ->
  Int64.in_range a -> Int64.in_range b ->
  returns_new (OpAdd v v2) s (Int_cell (Int64.wrap (a + b)))
  ∧ Int64.in_range (Int64.wrap (a + b))
  ∧ ∃ (r : ptr) (s' : State),
      (x ← OpAdd v v2; OpSub x v2) s = Returned r s'
      ∧ cell s' r = Some (Int_cell a)
      ∧ ctx s' = ctx s.
Proof.
  intros Hv Hv2 Ha Hb. split; [|split].
  - eapply returns_new_eq; [|apply new_value_returns].
    rewrite (OpAdd_Ints s v v2 a b Hv Hv2). reflexivity.
  - apply wrap_range.
  - eexists. eexists. split; [|split].
    + rewrite bind_unfold, (OpAdd_Ints s v v2 a b Hv Hv2).
      apply OpSub_Ints.
      * apply cell_with_value_new.
      * apply cell_with_value_old. exact Hv2.
    + rewrite wrap_wrap_sub by exact Ha. apply cell_with_value_new.
    + reflexivity.
Qed.

Lemma OpSub_undoes_OpAdd_witness :
  returns_new (OpAdd (Some 1%positive) (Some 2%positive)) two_Ints
    (Int_cell (Int64.wrap (7 + 2)))
  ∧ Int64.in_range (Int64.wrap (7 + 2))
  ∧ ∃ (r : ptr) (s' : State),
      (x ← OpAdd (Some 1%positive) (Some 2%positive); OpSub x (Some 2%positive))
        two_Ints = Returned r s'
      ∧ cell s' r = Some (Int_cell 7)
      ∧ ctx s' = ctx two_Ints.
Proof.
  apply (OpSub_undoes_OpAdd two_Ints (Some 1%positive) (Some 2%positive) 7 2).
  - reflexivity.
  - reflexivity.
  - unfold Int64.in_range, Int64.min_int, Int64.max_int. lia.
  - unfold Int64.in_range, Int64.min_int, Int64.max_int. lia.
Defined.

Lemma wrap_product (x b m a : Z) :
  Int64.in_range a -> x * b + m = a ->
  Int64.add (Int64.mul (Int64.wrap x) b) m = a.
Proof.
  intros Ha E. unfold Int64.add, Int64.mul.
  rewrite <- (wrap_in_range a Ha). apply wrap_congr.
  pose proof (wrap_mod x) as H1.
  pose proof (wrap_mod (Int64.wrap x * b)) as H2.
  apply Z.mod_divide in H1; [|lia]. apply Z.mod_divide in H2; [|lia].
  destruct H1 as [k1 H1], H2 as [k2 H2].
  replace (Int64.wrap (Int64.wrap x * b) + m - a)
    with ((k2 + k1 * b) * 2 ^ 64) by lia.
  apply Z.mod_mul. lia.
Qed.

Lemma quot_in_range (a b : Z) :
  Int64.in_range a -> Int64.in_range b -> b ≠ 0 ->
  a ≠ Int64.min_int ∨ b ≠ -1 -> Int64.in_range (Z.quot a b).
Proof.
  unfold Int64.in_range, Int64.min_int, Int64.max_int. intros Ha Hb Hb0 Hne.
  destruct (Z.eq_dec b 1) as [->|H1]; [rewrite Z.quot_1_r; lia|].
  destruct (Z.eq_dec b (-1)) as [->|H2].
  { change (-1) with (- (1)). rewrite Z.quot_opp_r, Z.quot_1_r by lia. lia. }
  assert (Hq : Z.abs (Z.quot a b) <= 2 ^ 62).
  { rewrite <- Z.quot_abs by exact Hb0.
    rewrite Z.quot_div_nonneg by lia.
    apply Z.div_le_upper_bound; lia. }
  lia.
Qed.

Lemma OpDivide_Ints (s : State) (v v2 : ptr) (a b : Z) :
  cell s v = Some (Int_cell a) -> cell s v2 = Some (Int_cell b) -> b ≠ 0 ->
  OpDivide v v2 s
  = Returned (Some (next_value s)) (with_value (Int_cell (Int64.quot a b)) s).
Proof.
  unfold Int_cell. intros Hv Hv2 Hb. unfold OpDivide, as_int64. go.
  destruct (Z.eqb_spec b 0); [contradiction|]. reflexivity.
Qed.

Lemma OpModulus_Ints (s : State) (v v2 : ptr) (a b : Z) :
  cell s v = Some (Int_cell a) -> cell s v2 = Some (Int_cell b) -> b ≠ 0 ->
  OpModulus v v2 s
  = Returned (Some (next_value s)) (with_value (Int_cell (Int64.rem a b)) s).
Proof.
  unfold Int_cell. intros Hv Hv2 Hb. unfold OpModulus, as_int64. go.
  destruct (Z.eqb_spec b 0); [contradiction|]. reflexivity.
Qed.

(** X2. On two Ints with a divisor that is not zero, the quotient of
    [OpDivide] and the remainder of [OpModulus] fit together: the quotient
    times the divisor plus the remainder is the dividend, in 64-bit
    arithmetic.  The division truncates towards zero, so the remainder is
    smaller than the divisor in magnitude and has the sign of the dividend.
    The quotient is the exact one but for the most negative integer divided
    by -1, which wraps to itself with the remainder 0. *)
Theorem OpDivide_OpModulus_fit (s : State) (v v2 : ptr) (a b : Z) :
  cell s v = Some (Int_cell a) -> cell s v2 = Some (Int_cell b) ->
  Int64.in_range a -> Int64.in_range b -> b ≠ 0 ->
  ∃ q m : Z,
    returns_new (OpDivide v v2) s (Int_cell q)
    ∧ returns_new (OpModulus v v2) s (Int_cell m)
    ∧ Int64.in_range q ∧ Int64.in_range m
    ∧ Int64.add (Int64.mul q b) m = a
    ∧ Z.abs m < Z.abs b
    ∧ (0 <= a -> 0 <= m) ∧ (a <= 0 -> m <= 0)
    ∧ (a ≠ Int64.min_int ∨ b ≠ -1 -> q * b + m = a)
    ∧ (a = Int64.min_int -> b = -1 -> q = Int64.min_int ∧ m = 0).
Proof.
  intros Hv Hv2 Ha Hb Hb0.
  exists (Int64.quot a b), (Int64.rem a b).
  pose proof (Z.rem_bound_abs a b Hb0) as Hm.
  split; [|split; [|split; [|split; [|split; [|split; [|split; [|split; [|split]]]]]]]].
  - eapply returns_new_eq; [|apply new_value_returns].
    rewrite (OpDivide_Ints s v v2 a b Hv Hv2 Hb0). reflexivity.
  - eapply returns_new_eq; [|apply new_value_returns].
    rewrite (OpModulus_Ints s v v2 a b Hv Hv2 Hb0). reflexivity.
  - apply wrap_range.
  - unfold Int64.rem, Int64.in_range, Int64.min_int, Int64.max_int in *. lia.
  - apply wrap_product; [exact Ha|]. unfold Int64.rem.
    pose proof (Z.quot_rem a b Hb0). lia.
  - exact Hm.
  - apply Z.rem_nonneg. exact Hb0.
  - apply Z.rem_nonpos. exact Hb0.
  - intros Hne. unfold Int64.quot, Int64.rem.
    rewrite wrap_in_range by (apply quot_in_range; assumption).
    pose proof (Z.quot_rem a b Hb0). lia.
  - intros -> ->. split; vm_compute; reflexivity.
Qed.

Lemma OpDivide_OpModulus_fit_witness :
  ∃ q m : Z,
    returns_new (OpDivide (Some 1%positive) (Some 2%positive)) two_Ints (Int_cell q)
    ∧ returns_new (OpModulus (Some 1%positive) (Some 2%positive)) two_Ints
        (Int_cell m)
    ∧ Int64.in_range q ∧ Int64.in_range m
    ∧ Int64.add (Int64.mul q 2) m = 7
    ∧ Z.abs m < Z.abs 2
    ∧ (0 <= 7 -> 0 <= m) ∧ (7 <= 0 -> m <= 0)
    ∧ (7 ≠ Int64.min_int ∨ 2 ≠ -1 -> q * 2 + m = 7)
    ∧ (7 = Int64.min_int -> 2 = -1 -> q = Int64.min_int ∧ m = 0).
Proof.
  apply (OpDivide_OpModulus_fit two_Ints (Some 1%positive) (Some 2%positive) 7 2).
  - reflexivity.
  - reflexivity.
  - unfold Int64.in_range, Int64.min_int, Int64.max_int. lia.
  - unfold Int64.in_range, Int64.min_int, Int64.max_int. lia.
  - lia.
Defined.

(** ** The unary operators *)

Lemma neg_neg (a : Z) : Int64.in_range a -> Int64.neg (Int64.neg a) = a.
Proof.
  intros Ha. unfold Int64.neg.
  rewrite <- (wrap_in_range a Ha) at 2. apply wrap_congr.
  pose proof (wrap_mod (- a)) as H. apply Z.mod_divide in H; [|lia].
  destruct H as [k H].
  replace (- Int64.wrap (- a) - a) with (- k * 2 ^ 64) by lia.
  apply Z.mod_mul. lia.
Qed.

Lemma neg_fixed (a : Z) :
  Int64.in_range a -> Int64.neg a = a ↔ a = 0 ∨ a = Int64.min_int.
Proof.
  unfold Int64.in_range, Int64.min_int, Int64.max_int. intros Ha. split.
  - intros E. unfold Int64.neg in E.
    destruct (Z.eq_dec a (- 2 ^ 63)) as [|Hne]; [right; assumption|left].
    rewrite wrap_in_range in E
      by (unfold Int64.in_range, Int64.min_int, Int64.max_int; lia).
    lia.
  - intros [->| ->]; vm_compute; reflexivity.
Qed.

Lemma SFopp_SFopp (f : spec_float) : SFopp (SFopp f) = f.
Proof. destruct f as [[]|[]| |[] m e]; reflexivity. Qed.

Lemma OpNegation_Int (s : State) (v : ptr) (a : Z) :
  cell s v = Some (Int_cell a) ->
  OpNegation v s
  = Returned (Some (next_value s)) (with_value (Int_cell (Int64.neg a)) s).
Proof. unfold Int_cell. intros Hv. unfold OpNegation, as_int64. go. reflexivity. Qed.

Lemma OpNegation_Float (s : State) (v : ptr) (f : spec_float) :
  cell s v = Some (mkVMValue VMTypeFloat (IFloat64 f)) ->
  OpNegation v s
  = Returned (Some (next_value s))
      (with_value (mkVMValue VMTypeFloat (IFloat64 (Float64.neg f))) s).
Proof. intros Hv. unfold OpNegation, as_float64. go. reflexivity. Qed.

(** X3. The unary operators on a number: [OpPositive] returns a copy in a
    new cell, and negating twice gives back the value, for a Float as for an
    Int, whose negation wraps: the most negative integer and zero are the
    two Ints that are their own negation.  On a value that is not a number
    both operators return [nil] and change nothing. *)
Theorem unary_operators (s : State) (v : ptr) (c : VMValue) :
  cell s v = Some c ->
  (numeric c ->
   returns_new (OpPositive v) s c
   ∧ ∃ (r : ptr) (s' : State),
       (x ← OpNegation v; OpNegation x) s = Returned r s'
       ∧ cell s' r = Some c
       ∧ ctx s' = ctx s)
  ∧ (∀ a : Z,
       is_Int c a ->
       returns_new (OpNegation v) s (Int_cell (Int64.neg a))
       ∧ (Int64.neg a = a ↔ a = 0 ∨ a = Int64.min_int))
  ∧ (TypeId c ≠ VMTypeInt -> TypeId c ≠ VMTypeFloat ->
     OpPositive v s = Returned None s ∧ OpNegation v s = Returned None s).
Proof.
  intros Hv. split; [|split].
  - unfold numeric, is_Int, is_Float. intros [[a [-> Ha]]|[f ->]].
    + split.
      * eapply returns_new_eq; [|apply new_value_returns].
        unfold OpPositive, as_int64. go. reflexivity.
      * eexists. eexists. split; [|split].
        -- rewrite bind_unfold, (OpNegation_Int s v a Hv).
           apply OpNegation_Int, cell_with_value_new.
        -- rewrite neg_neg by exact Ha. apply cell_with_value_new.
        -- reflexivity.
    + split.
      * eapply returns_new_eq; [|apply new_value_returns].
        unfold OpPositive, as_float64. go. reflexivity.
      * eexists. eexists. split; [|split].
        -- rewrite bind_unfold, (OpNegation_Float s v f Hv).
           apply OpNegation_Float, cell_with_value_new.
        -- unfold Float64.neg. rewrite SFopp_SFopp. apply cell_with_value_new.
        -- reflexivity.
  - unfold is_Int. intros a [-> Ha]. split.
    + eapply returns_new_eq; [|apply new_value_returns].
      rewrite (OpNegation_Int s v a Hv). reflexivity.
    + apply neg_fixed, Ha.
  - intros H1 H2. unfold OpPositive, OpNegation. go.
    destruct (TypeId c); try contradiction; split; reflexivity.
Qed.

Lemma unary_operators_witness :
  returns_new (OpPositive (Some 1%positive)) two_Ints (Int_cell 7)
  ∧ ∃ (r : ptr) (s' : State),
      (x ← OpNegation (Some 1%positive); OpNegation x) two_Ints = Returned r s'
      ∧ cell s' r = Some (Int_cell 7)
      ∧ ctx s' = ctx two_Ints.
Proof.
  apply (unary_operators two_Ints (Some 1%positive) (Int_cell 7)).
  - reflexivity.
  - left. exists 7. split; [reflexivity|].
    unfold Int64.in_range, Int64.min_int, Int64.max_int. lia.
Defined.

(** ** Comparisons *)

Lemma compare_Ints (ci : Z -> Z -> bool) (cf : spec_float -> spec_float -> bool)
    (s : State) (v v2 : ptr) (a b : Z) :
  cell s v = Some (Int_cell a) -> cell s v2 = Some (Int_cell b) ->
  returns_new (compare_numbers ci cf v v2) s (Int_of_bool (ci a b)).
Proof.
  unfold Int_cell. intros Hv Hv2.
  eapply returns_new_eq; [|apply boolToVMValue_returns].
  unfold compare_numbers, as_int64. go. reflexivity.
Qed.

Lemma compare_Int_Float (ci : Z -> Z -> bool)
    (cf : spec_float -> spec_float -> bool)
    (s : State) (v v2 : ptr) (a : Z) (g : spec_float) :
  cell s v = Some (Int_cell a) ->
  cell s v2 = Some (mkVMValue VMTypeFloat (IFloat64 g)) ->
  returns_new (compare_numbers ci cf v v2) s
    (Int_of_bool (cf (Float64.of_int64 a) g)).
Proof.
  unfold Int_cell. intros Hv Hv2.
  eapply returns_new_eq; [|apply boolToVMValue_returns].
  unfold compare_numbers, as_int64, as_float64. go. reflexivity.
Qed.

Lemma compare_Float_Int (ci : Z -> Z -> bool)
    (cf : spec_float -> spec_float -> bool)
    (s : State) (v v2 : ptr) (f : spec_float) (b : Z) :
  cell s v = Some (mkVMValue VMTypeFloat (IFloat64 f)) ->
  cell s v2 = Some (Int_cell b) ->
  returns_new (compare_numbers ci cf v v2) s
    (Int_of_bool (cf f (Float64.of_int64 b))).
Proof.
  unfold Int_cell. intros Hv Hv2.
  eapply returns_new_eq; [|apply boolToVMValue_returns].
  unfold compare_numbers, as_int64, as_float64. go. reflexivity.
Qed.

Lemma compare_Floats (ci : Z -> Z -> bool)
    (cf : spec_float -> spec_float -> bool)
    (s : State) (v v2 : ptr) (f g : spec_float) :
  cell s v = Some (mkVMValue VMTypeFloat (IFloat64 f)) ->
  cell s v2 = Some (mkVMValue VMTypeFloat (IFloat64 g)) ->
  returns_new (compare_numbers ci cf v v2) s (Int_of_bool (cf f g)).
Proof.
  intros Hv Hv2.
  eapply returns_new_eq; [|apply boolToVMValue_returns].
  unfold compare_numbers, as_float64. go. reflexivity.
Qed.

Lemma OpCompEQ_same_kind (s : State) (v v2 : ptr) (c c2 : VMValue) :
  cell s v = Some c -> cell s v2 = Some c2 -> v ≠ v2 ->
  TypeId c = TypeId c2 ->
  returns_new (OpCompEQ v v2) s (Int_of_bool (iface_eqb (Value c) (Value c2))).
Proof.
  intros Hv Hv2 Hd Ht. eapply returns_new_eq; [|apply boolToVMValue_returns].
  unfold OpCompEQ. destruct (decide (v = v2)) as [|_]; [contradiction|].
  go. destruct (decide (TypeId c = TypeId c2)); [reflexivity|contradiction].
Qed.

Lemma OpCompEQ_same_handle (s : State) (v : ptr) :
  returns_new (OpCompEQ v v) s (Int_of_bool true).
Proof.
  unfold OpCompEQ. destruct (decide (v = v)); [|contradiction].
  apply new_value_returns.
Qed.

Lemma OpCompEQ_Ints (s : State) (v v2 : ptr) (a b : Z) :
  cell s v = Some (Int_cell a) -> cell s v2 = Some (Int_cell b) ->
  returns_new (OpCompEQ v v2) s (Int_of_bool (a =? b)).
Proof.
  intros Hv Hv2. destruct (decide (v = v2)) as [<-|Hd].
  - rewrite Hv in Hv2. injection Hv2 as <-. rewrite Z.eqb_refl.
    apply OpCompEQ_same_handle.
  - apply (OpCompEQ_same_kind s v v2 _ _ Hv Hv2 Hd). reflexivity.
Qed.

(** X4. On two Ints the five comparisons return a new Int, 1 or 0, that
    holds the comparison of the two integers, so that they agree with one
    another: exactly one of [<], [==], [>] holds, [<=] is the negation of
    [>], and [>=] the negation of [<]. *)
Theorem Int_comparisons_agree (s : State) (v v2 : ptr) (a b : Z) :
  cell s v = Some (Int_cell a) -> cell s v2 = Some (Int_cell b) ->
  ∃ lt le eq ge gt : bool,
    returns_new (OpCompLT v v2) s (Int_of_bool lt)
    ∧ returns_new (OpCompLE v v2) s (Int_of_bool le)
    ∧ returns_new (OpCompEQ v v2) s (Int_of_bool eq)
    ∧ returns_new (OpCompGE v v2) s (Int_of_bool ge)
    ∧ returns_new (OpCompGT v v2) s (Int_of_bool gt)
    ∧ (lt = true ↔ a < b) ∧ (eq = true ↔ a = b) ∧ (gt = true ↔ b < a)
    ∧ le = negb gt ∧ ge = negb lt.
Proof.
  intros Hv Hv2.
  exists (a <? b), (a <=? b), (a =? b), (a >=? b), (a >? b).
  split; [|split; [|split; [|split; [|split]]]].
  - apply compare_Ints; assumption.
  - apply compare_Ints; assumption.
  - apply OpCompEQ_Ints; assumption.
  - apply compare_Ints; assumption.
  - apply compare_Ints; assumption.
  - rewrite Z.ltb_lt, Z.eqb_eq, Z.gtb_ltb, Z.ltb_lt, Z.geb_leb.
    split; [reflexivity|]. split; [reflexivity|]. split; [reflexivity|].
    split.
    + destruct (Z.leb_spec a b), (Z.ltb_spec b a); try reflexivity; lia.
    + destruct (Z.leb_spec b a), (Z.ltb_spec a b); try reflexivity; lia.
Qed.

Lemma Int_comparisons_agree_witness :
  ∃ lt le eq ge gt : bool,
    returns_new (OpCompLT (Some 1%positive) (Some 2%positive)) two_Ints
      (Int_of_bool lt)
    ∧ returns_new (OpCompLE (Some 1%positive) (Some 2%positive)) two_Ints
        (Int_of_bool le)
    ∧ returns_new (OpCompEQ (Some 1%positive) (Some 2%positive)) two_Ints
        (Int_of_bool eq)
    ∧ returns_new (OpCompGE (Some 1%positive) (Some 2%positive)) two_Ints
        (Int_of_bool ge)
    ∧ returns_new (OpCompGT (Some 1%positive) (Some 2%positive)) two_Ints
        (Int_of_bool gt)
    ∧ (lt = true ↔ 7 < 2) ∧ (eq = true ↔ 7 = 2) ∧ (gt = true ↔ 2 < 7)
    ∧ le = negb gt ∧ ge = negb lt.
Proof.
  apply (Int_comparisons_agree two_Ints (Some 1%positive) (Some 2%positive) 7 2).
  - reflexivity.
  - reflexivity.
Defined.

Lemma SFcompare_nan_l (g : spec_float) : SFcompare S754_nan g = None.
Proof. reflexivity. Qed.

Lemma SFcompare_nan_r (f : spec_float) : SFcompare f S754_nan = None.
Proof. destruct f as [[]|[]| |[] m e]; reflexivity. Qed.

Lemma nan_unordered (f : spec_float) :
  Float64.ltb S754_nan f = false ∧ Float64.ltb f S754_nan = false
  ∧ Float64.leb S754_nan f = false ∧ Float64.leb f S754_nan = false
  ∧ Float64.gtb S754_nan f = false ∧ Float64.gtb f S754_nan = false
  ∧ Float64.geb S754_nan f = false ∧ Float64.geb f S754_nan = false
  ∧ Float64.eqb S754_nan f = false ∧ Float64.eqb f S754_nan = false.
Proof.
  unfold Float64.ltb, Float64.leb, Float64.gtb, Float64.geb, Float64.eqb,
    SFltb, SFleb, SFeqb.
  rewrite SFcompare_nan_l, SFcompare_nan_r. repeat split; reflexivity.
Qed.

Lemma elem_of_ordering (op : ptr -> ptr -> Go ptr) :
  op ∈ ordering_operators ->
  op = OpCompLT ∨ op = OpCompLE ∨ op = OpCompGE ∨ op = OpCompGT.
Proof.
  unfold ordering_operators. rewrite !elem_of_cons, elem_of_nil. tauto.
Qed.

Lemma compare_with_NaN (ci : Z -> Z -> bool)
    (cf : spec_float -> spec_float -> bool)
    (s : State) (v v2 : ptr) (c2 : VMValue) :
  (∀ g, cf S754_nan g = false) -> (∀ g, cf g S754_nan = false) ->
  cell s v = Some NaN_cell -> cell s v2 = Some c2 -> numeric c2 ->
  returns_new (compare_numbers ci cf v v2) s (Int_of_bool false)
  ∧ returns_new (compare_numbers ci cf v2 v) s (Int_of_bool false).
Proof.
  unfold NaN_cell. intros Hl Hr Hv Hv2 [[a [-> _]]|[g ->]]; split.
  - rewrite <- (Hl (Float64.of_int64 a)). apply compare_Float_Int; assumption.
  - rewrite <- (Hr (Float64.of_int64 a)). apply compare_Int_Float; assumption.
  - rewrite <- (Hl g). apply compare_Floats; assumption.
  - rewrite <- (Hr g). apply compare_Floats; assumption.
Qed.

Lemma OpCompEQ_Int_Float (s : State) (v v2 : ptr) (a : Z) (g : spec_float) :
  cell s v = Some (Int_cell a) ->
  cell s v2 = Some (mkVMValue VMTypeFloat (IFloat64 g)) ->
  returns_new (OpCompEQ v v2) s
    (Int_of_bool (Float64.eqb (Float64.of_int64 a) g)).
Proof.
  unfold Int_cell. intros Hv Hv2.
  eapply returns_new_eq; [|apply boolToVMValue_returns].
  unfold OpCompEQ. destruct (decide (v = v2)) as [E|_].
  { exfalso. rewrite E, Hv2 in Hv. discriminate. }
  go. destruct (decide _) as [E|_]; [discriminate E|]. reflexivity.
Qed.

Lemma OpCompEQ_Float_Int (s : State) (v v2 : ptr) (f : spec_float) (b : Z) :
  cell s v = Some (mkVMValue VMTypeFloat (IFloat64 f)) ->
  cell s v2 = Some (Int_cell b) ->
  returns_new (OpCompEQ v v2) s
    (Int_of_bool (Float64.eqb f (Float64.of_int64 b))).
Proof.
  unfold Int_cell. intros Hv Hv2.
  eapply returns_new_eq; [|apply boolToVMValue_returns].
  unfold OpCompEQ. destruct (decide (v = v2)) as [E|_].
  { exfalso. rewrite E, Hv2 in Hv. discriminate. }
  go. destruct (decide _) as [E|_]; [discriminate E|]. reflexivity.
Qed.

(** X5. A Float that is not a number is unordered and unequal: against any
    number, on either side, the four ordering operators return the Int 0,
    and so does [OpCompEQ] on two handles.  Only the short-cut on one and
    the same handle answers 1: such a value is equal to itself, and not to
    its own clone. *)
Theorem NaN_compares_false (s : State) (v v2 : ptr) (c2 : VMValue) :
  cell s v = Some NaN_cell -> cell s v2 = Some c2 -> numeric c2 ->
  (∀ op : ptr -> ptr -> Go ptr,
     op ∈ ordering_operators ->
     returns_new (op v v2) s (Int_of_bool false)
     ∧ returns_new (op v2 v) s (Int_of_bool false))
  ∧ (v ≠ v2 ->
     returns_new (OpCompEQ v v2) s (Int_of_bool false)
     ∧ returns_new (OpCompEQ v2 v) s (Int_of_bool false))
  ∧ returns_new (OpCompEQ v v) s (Int_of_bool true)
  ∧ ∃ (w : ptr) (s1 : State),
      Clone v s = Returned w s1
      ∧ returns_new (OpCompEQ v w) s1 (Int_of_bool false).
Proof.
  intros Hv Hv2 Hn.
  pose proof nan_unordered as Hnan.
  split; [|split; [|split]].
  - intros op Hop.
    destruct (elem_of_ordering op Hop) as [->|[->|[->| ->]]];
      apply (compare_with_NaN _ _ s v v2 c2); try assumption;
      intros g; apply (Hnan g).
  - intros Hd. unfold NaN_cell in Hv.
    destruct Hn as [[a [-> _]]|[g ->]].
    + destruct (Hnan (Float64.of_int64 a))
        as (_ & _ & _ & _ & _ & _ & _ & _ & E1 & E2).
      split.
      * rewrite <- E1. apply OpCompEQ_Float_Int; assumption.
      * rewrite <- E2. apply OpCompEQ_Int_Float; assumption.
    + destruct (Hnan g) as (_ & _ & _ & _ & _ & _ & _ & _ & E1 & E2).
      split.
      * rewrite <- E1.
        apply (OpCompEQ_same_kind s v v2 _ _ Hv Hv2 Hd). reflexivity.
      * rewrite <- E2.
        apply (OpCompEQ_same_kind s v2 v _ _ Hv2 Hv); [congruence|reflexivity].
  - apply OpCompEQ_same_handle.
  - exists (Some (next_value s)), (with_value NaN_cell s).
    split; [apply Clone_eq; exact Hv|].
    apply (OpCompEQ_same_kind _ v (Some (next_value s)) NaN_cell NaN_cell).
    + apply cell_with_value_old. exact Hv.
    + apply cell_with_value_new.
    + intros ->. simpl in Hv. rewrite next_value_fresh in Hv. discriminate.
    + reflexivity.
Qed.

Lemma NaN_compares_false_witness :
  returns_new (OpCompLE (Some 1%positive) (Some 2%positive)) with_NaN
    (Int_of_bool false)
  ∧ returns_new (OpCompLE (Some 2%positive) (Some 1%positive)) with_NaN
      (Int_of_bool false).
Proof.
  refine (proj1 (NaN_compares_false with_NaN (Some 1%positive) (Some 2%positive)
                   (mkVMValue VMTypeFloat
                      (IFloat64 (S754_finite false 4503599627370496 (-52))))
                   _ _ _) OpCompLE _).
  - reflexivity.
  - reflexivity.
  - right. eexists. reflexivity.
  - unfold ordering_operators. apply list_elem_of_further, list_elem_of_here.
Defined.

Lemma of_int64_compare (x y : Z) :
  exact_in_float64 x -> exact_in_float64 y ->
  SFcompare (Float64.of_int64 x) (Float64.of_int64 y) = Some (x ?= y).
Proof.
  intros Hx Hy.
  destruct (of_int64_canonical x Hx) as [Hcx Hsx].
  destruct (of_int64_canonical y Hy) as [Hcy Hsy].
  rewrite (canonical_compare _ _ Hcx Hcy), Hsx, Hsy.
  rewrite Z_mul_compare_r by lia. reflexivity.
Qed.

Lemma of_int64_leb (x y : Z) :
  exact_in_float64 x -> exact_in_float64 y ->
  Float64.leb (Float64.of_int64 x) (Float64.of_int64 y) = (x <=? y).
Proof.
  intros Hx Hy. unfold Float64.leb, SFleb.
  rewrite (of_int64_compare x y Hx Hy).
  unfold Z.leb. destruct (x ?= y); reflexivity.
Qed.

Lemma of_int64_geb (x y : Z) :
  exact_in_float64 x -> exact_in_float64 y ->
  Float64.geb (Float64.of_int64 x) (Float64.of_int64 y) = (y <=? x).
Proof. intros Hx Hy. unfold Float64.geb. apply (of_int64_leb y x Hy Hx). Qed.

Lemma of_int64_eqb (x y : Z) :
  exact_in_float64 x -> exact_in_float64 y ->
  Float64.eqb (Float64.of_int64 x) (Float64.of_int64 y) = (x =? y).
Proof.
  intros Hx Hy. unfold Float64.eqb, SFeqb.
  rewrite (of_int64_compare x y Hx Hy).
  destruct (Z.compare_spec x y), (Z.eqb_spec x y); try reflexivity; lia.
Qed.

(** X6. Comparing an Int with a Float widens the Int.  For integers of
    magnitude up to 2^53 nothing is lost: comparing the Int [x] with the
    Float that holds the integer [y], on either side, gives what the
    comparison of the integers [x] and [y] gives, for each of the five
    comparisons. *)
Theorem mixed_comparisons_exact (s : State) (v v2 : ptr) (x y : Z) :
  cell s v = Some (Int_cell x) ->
  cell s v2 = Some (mkVMValue VMTypeFloat (IFloat64 (Float64.of_int64 y))) ->
  exact_in_float64 x -> exact_in_float64 y ->
  (returns_new (OpCompLT v v2) s (Int_of_bool (x <? y))
   ∧ returns_new (OpCompLE v v2) s (Int_of_bool (x <=? y))
   ∧ returns_new (OpCompEQ v v2) s (Int_of_bool (x =? y))
   ∧ returns_new (OpCompGE v v2) s (Int_of_bool (y <=? x))
   ∧ returns_new (OpCompGT v v2) s (Int_of_bool (y <? x)))
  ∧ (returns_new (OpCompLT v2 v) s (Int_of_bool (y <? x))
     ∧ returns_new (OpCompLE v2 v) s (Int_of_bool (y <=? x))
     ∧ returns_new (OpCompEQ v2 v) s (Int_of_bool (y =? x))
     ∧ returns_new (OpCompGE v2 v) s (Int_of_bool (x <=? y))
     ∧ returns_new (OpCompGT v2 v) s (Int_of_bool (x <? y))).
Proof.
  intros Hv Hv2 Hx Hy. split.
  - split; [|split; [|split; [|split]]].
    + rewrite <- (of_int64_ltb x y Hx Hy). apply compare_Int_Float; assumption.
    + rewrite <- (of_int64_leb x y Hx Hy). apply compare_Int_Float; assumption.
    + rewrite <- (of_int64_eqb x y Hx Hy). apply OpCompEQ_Int_Float; assumption.
    + rewrite <- (of_int64_geb x y Hx Hy). apply compare_Int_Float; assumption.
    + rewrite <- (of_int64_gtb x y Hx Hy). apply compare_Int_Float; assumption.
  - split; [|split; [|split; [|split]]].
    + rewrite <- (of_int64_ltb y x Hy Hx). apply compare_Float_Int; assumption.
    + rewrite <- (of_int64_leb y x Hy Hx). apply compare_Float_Int; assumption.
    + rewrite <- (of_int64_eqb y x Hy Hx). apply OpCompEQ_Float_Int; assumption.
    + rewrite <- (of_int64_geb y x Hy Hx). apply compare_Float_Int; assumption.
    + rewrite <- (of_int64_gtb y x Hy Hx). apply compare_Float_Int; assumption.
Qed.

Lemma mixed_comparisons_exact_witness :
  returns_new (OpCompLT (Some 1%positive) (Some 2%positive)) Int_and_Float
    (Int_of_bool (3 <? 2))
  ∧ returns_new (OpCompLE (Some 1%positive) (Some 2%positive)) Int_and_Float
      (Int_of_bool (3 <=? 2))
  ∧ returns_new (OpCompEQ (Some 1%positive) (Some 2%positive)) Int_and_Float
      (Int_of_bool (3 =? 2))
  ∧ returns_new (OpCompGE (Some 1%positive) (Some 2%positive)) Int_and_Float
      (Int_of_bool (2 <=? 3))
  ∧ returns_new (OpCompGT (Some 1%positive) (Some 2%positive)) Int_and_Float
      (Int_of_bool (2 <? 3)).
Proof.
  refine (proj1 (mixed_comparisons_exact Int_and_Float (Some 1%positive)
                   (Some 2%positive) 3 2 _ _ _ _)).
  - reflexivity.
  - reflexivity.
  - unfold exact_in_float64. lia.
  - unfold exact_in_float64. lia.
Defined.

(** ** Truth values *)

Lemma OpCompEQ_answers (s : State) (v v2 : ptr) (c c2 : VMValue) :
  cell s v = Some c -> cell s v2 = Some c2 ->
  well_typed c -> well_typed c2 ->
  ∃ b : bool, OpCompEQ v v2 s = new_value (Int_of_bool b) s.
Proof.
  intros Hv Hv2 Hc Hc2. unfold OpCompEQ.
  destruct (decide (v = v2)) as [_|_]; [exists true; reflexivity|].
  go. destruct (decide (TypeId c = TypeId c2)) as [_|_];
    [eexists; reflexivity|].
  unfold well_typed in Hc, Hc2.
  destruct c as [t x], c2 as [t2 x2]; simpl in *.
  destruct t, t2; try (exists false; reflexivity);
    destruct x; try contradiction; destruct x2; try contradiction;
    unfold as_int64, as_float64; go; eexists; reflexivity.
Qed.

Lemma AsBool_Int_of_bool (s : State) (v : ptr) (b : bool) :
  cell s v = Some (Int_of_bool b) -> AsBool v s = Returned b s.
Proof.
  unfold Int_of_bool. intros Hv. unfold AsBool. go. destruct b; reflexivity.
Qed.

(** X7. [OpCompEQ] answers on every pair of values: it returns a new Int, 1
    or 0, never [nil], and sets no error.  [OpCompNE] returns the opposite
    answer in a new Int, and leaves the context and the existing cells as
    they are. *)
Theorem OpCompNE_negates (s : State) (v v2 : ptr) (c c2 : VMValue) :
  cell s v = Some c -> cell s v2 = Some c2 ->
  well_typed c -> well_typed c2 ->
  ∃ (b : bool) (r : ptr) (s' : State),
    returns_new (OpCompEQ v v2) s (Int_of_bool b)
    ∧ OpCompNE v v2 s = Returned r s'
    ∧ cell s' r = Some (Int_of_bool (negb b))
    ∧ cell s r = None
    ∧ ctx s' = ctx s
    ∧ ∀ (w : ptr) (cw : VMValue), cell s w = Some cw -> cell s' w = Some cw.
Proof.
  intros Hv Hv2 Hc Hc2.
  destruct (OpCompEQ_answers s v v2 c c2 Hv Hv2 Hc Hc2) as [b Hb].
  set (s1 := with_value (Int_of_bool b) s).
  exists b, (Some (next_value s1)), (with_value (Int_of_bool (negb b)) s1).
  split; [|split; [|split; [|split; [|split]]]].
  - eapply returns_new_eq; [exact Hb|apply new_value_returns].
  - unfold OpCompNE. rewrite bind_unfold, Hb, new_value_eq. fold s1.
    rewrite bind_unfold.
    rewrite (AsBool_Int_of_bool s1 (Some (next_value s)) b)
      by apply cell_with_value_new.
    reflexivity.
  - apply cell_with_value_new.
  - destruct (cell s (Some (next_value s1))) as [cw|] eqn:E; [|reflexivity].
    apply (cell_with_value_old s _ cw (Int_of_bool b)) in E. fold s1 in E.
    simpl in E. rewrite next_value_fresh in E. discriminate.
  - reflexivity.
  - intros w cw Hw. do 2 apply cell_with_value_old. exact Hw.
Qed.

Lemma OpCompNE_negates_witness :
  ∃ (b : bool) (r : ptr) (s' : State),
    returns_new (OpCompEQ (Some 1%positive) (Some 2%positive)) two_Ints
      (Int_of_bool b)
    ∧ OpCompNE (Some 1%positive) (Some 2%positive) two_Ints = Returned r s'
    ∧ cell s' r = Some (Int_of_bool (negb b))
    ∧ cell two_Ints r = None
    ∧ ctx s' = ctx two_Ints
    ∧ ∀ (w : ptr) (cw : VMValue),
        cell two_Ints w = Some cw -> cell s' w = Some cw.
Proof.
  apply (OpCompNE_negates two_Ints (Some 1%positive) (Some 2%positive)
           (Int_cell 7) (Int_cell 2)).
  - reflexivity.
  - reflexivity.
  - exact I.
  - exact I.
Defined.

Lemma iface_eqb_Int (x : iface) (i : Z) :
  iface_eqb x (IInt64 i) = false ↔ x ≠ IInt64 i.
Proof.
  destruct x; simpl; try (split; [discriminate|reflexivity]).
  rewrite Z.eqb_neq. split; [congruence|]. intros H E. apply H. f_equal. exact E.
Qed.

Lemma iface_eqb_String (x : iface) (str : string) :
  iface_eqb x (IString str) = false ↔ x ≠ IString str.
Proof.
  destruct x; simpl; try (split; [discriminate|reflexivity]).
  destruct (String.eqb_spec s str) as [->|Hne].
  - split; [discriminate|]. intros H. exfalso. apply H. reflexivity.
  - split; [congruence|reflexivity].
Qed.

(** X8. [AsBool] reads a value without changing anything, and holds for two
    kinds only: an Int whose payload is not the integer 0, and a String
    whose payload is not the empty string.  A Float, whatever its value, and
    a container are never true.  It gives back the truth value that
    [boolToVMValue] has stored. *)
Theorem AsBool_truth (s : State) (v : ptr) (c : VMValue) :
  cell s v = Some c ->
  (∃ b : bool,
     AsBool v s = Returned b s
     ∧ (b = true ↔
        (TypeId c = VMTypeInt ∧ Value c ≠ IInt64 0)
        ∨ (TypeId c = VMTypeString ∧ Value c ≠ IString "")))
  ∧ ∀ b : bool,
      ∃ s' : State, (x ← boolToVMValue b; AsBool x) s = Returned b s'
                    ∧ ctx s' = ctx s.
Proof.
  intros Hv. split.
  - unfold AsBool. go. destruct c as [t x]; simpl.
    destruct t; eexists; (split; [reflexivity|]);
      try (split; [discriminate|intros [[? _]|[? _]]; discriminate]).
    + rewrite negb_true_iff, iface_eqb_Int. split.
      * intros H. left. split; [reflexivity|exact H].
      * intros [[_ H]|[H _]]; [exact H|discriminate H].
    + rewrite negb_true_iff, iface_eqb_String. split.
      * intros H. right. split; [reflexivity|exact H].
      * intros [[H _]|[_ H]]; [discriminate H|exact H].
  - intros b. eexists. split.
    + rewrite bind_unfold. unfold boolToVMValue, VMValueNewInt.
      rewrite new_value_eq. apply AsBool_Int_of_bool, cell_with_value_new.
    + reflexivity.
Qed.

Lemma AsBool_truth_witness :
  ∃ b : bool,
    AsBool (Some 1%positive) two_Ints = Returned b two_Ints
    ∧ (b = true ↔
       (VMTypeInt = VMTypeInt ∧ IInt64 7 ≠ IInt64 0)
       ∨ (VMTypeInt = VMTypeString ∧ IInt64 7 ≠ IString "")).
Proof.
  refine (proj1 (AsBool_truth two_Ints (Some 1%positive) (Int_cell 7) _)).
  reflexivity.
Defined.

(** ** Arrays and strings: construction, length, slices *)

Lemma next_array_fresh (s : State) : arrays (heap s) !! next_array s = None.
Proof. unfold next_array. apply not_elem_of_dom, is_fresh. Qed.

Lemma VMValueNewArray_eq (l : list ptr) (s : State) :
  VMValueNewArray l s = Returned (Some (next_value s)) (with_array l s).
Proof. unfold VMValueNewArray. rewrite append_all_id. reflexivity. Qed.

Lemma cell_with_array_old (s : State) (w : ptr) (c : VMValue) (l : list ptr) :
  cell s w = Some c -> cell (with_array l s) w = Some c.
Proof.
  intros Hw. unfold with_array.
  apply (cell_with_value_old (with_heap (set_arrays (insert (next_array s) l)) s)).
  exact Hw.
Qed.

Lemma cell_with_array_new (s : State) (l : list ptr) :
  cell (with_array l s) (Some (next_value s))
  = Some (Array_cell (next_array s)).
Proof. simpl. apply lookup_insert_eq. Qed.

Lemma arrays_with_array_old (s : State) (p : loc) (l0 l : list ptr) :
  arrays (heap s) !! p = Some l0 -> arrays (heap (with_array l s)) !! p = Some l0.
Proof.
  intros Hp. simpl. rewrite lookup_insert_ne; [exact Hp|].
  intros E. rewrite <- E, next_array_fresh in Hp. discriminate.
Qed.

Lemma arrays_with_array_new (s : State) (l : list ptr) :
  arrays (heap (with_array l s)) !! next_array s = Some l.
Proof. simpl. apply lookup_insert_eq. Qed.

Lemma arrays_with_value (s : State) (c : VMValue) :
  arrays (heap (with_value c s)) = arrays (heap s).
Proof. reflexivity. Qed.

Lemma elements_eq (s : State) (v : ptr) (p : loc) (l : list ptr) :
  cell s v = Some (Array_cell p) -> arrays (heap s) !! p = Some l ->
  elements s v = Some l.
Proof. unfold elements, Array_cell. intros -> Hp. exact Hp. Qed.

Lemma elements_inv (s : State) (v : ptr) (l : list ptr) :
  elements s v = Some l ->
  ∃ p : loc, cell s v = Some (Array_cell p) ∧ arrays (heap s) !! p = Some l.
Proof.
  unfold elements, Array_cell. destruct (cell s v) as [[t x]|]; [|discriminate].
  destruct t; try discriminate. destruct x; try discriminate.
  intros H. eexists. split; [reflexivity|exact H].
Qed.

Lemma elements_with_array_old (s : State) (w : ptr) (l0 l : list ptr) :
  elements s w = Some l0 -> elements (with_array l s) w = Some l0.
Proof.
  intros H. apply elements_inv in H as (p & Hw & Hp).
  apply (elements_eq _ _ p).
  - apply cell_with_array_old. exact Hw.
  - apply arrays_with_array_old. exact Hp.
Qed.

Lemma elements_with_array_new (s : State) (l : list ptr) :
  elements (with_array l s) (Some (next_value s)) = Some l.
Proof.
  apply (elements_eq _ _ (next_array s)).
  - apply cell_with_array_new.
  - apply arrays_with_array_new.
Qed.

Lemma elements_with_value_old (s : State) (w : ptr) (l0 : list ptr) (c : VMValue) :
  elements s w = Some l0 -> elements (with_value c s) w = Some l0.
Proof.
  intros H. apply elements_inv in H as (p & Hw & Hp).
  apply (elements_eq _ _ p).
  - apply cell_with_value_old. exact Hw.
  - exact Hp.
Qed.

Lemma returns_new_array_with (m : Go ptr) (s : State) (l : list ptr) :
  m s = Returned (Some (next_value s)) (with_array l s) ->
  returns_new_array m s l.
Proof.
  intros E. exists (next_array s), (next_value s).
  split; [apply next_array_fresh|]. split; [apply next_value_fresh|].
  exact E.
Qed.

Lemma Length_array (s : State) (v : ptr) (p : loc) (l : list ptr) :
  cell s v = Some (Array_cell p) -> arrays (heap s) !! p = Some l ->
  Length v s = Returned (Z.of_nat (length l)) s.
Proof.
  unfold Array_cell. intros Hv Hp. unfold Length. go.
  rewrite (ReadArray_cell _ _ _ Hv). go.
  rewrite (get_List_array _ _ _ Hp). reflexivity.
Qed.

Lemma Length_string (s : State) (v : ptr) (str : string) :
  cell s v = Some (String_cell str) ->
  Length v s = Returned (Z.of_nat (String.length str)) s.
Proof.
  unfold String_cell. intros Hv. unfold Length. go.
  rewrite (ReadString_cell _ _ _ Hv). reflexivity.
Qed.

(** Slicing with bounds that are in range already: the clamping leaves them
    as they are. *)
Lemma getClampRealIndex_id (i len : Z) :
  0 <= i <= len -> getClampRealIndex i len = i.
Proof.
  intros H. unfold getClampRealIndex.
  destruct (Z.ltb_spec i 0); [lia|]. cbn zeta.
  destruct (Z.ltb_spec i 0); [lia|].
  destruct (Z.ltb_spec len i); [lia|]. reflexivity.
Qed.

Lemma GetSlice_array_eq (s : State) (v : ptr) (p : loc) (l : list ptr)
    (i j step : Z) :
  cell s v = Some (Array_cell p) -> arrays (heap s) !! p = Some l ->
  Context.Error (ctx s) = None ->
  0 <= i <= j -> j <= Z.of_nat (length l) ->
  GetSlice v i j step s
  = Returned (Some (next_value s)) (with_array (elements_between l i j) s).
Proof.
  unfold Array_cell. intros Hv Hp Herr Hi Hj.
  rewrite <- VMValueNewArray_eq.
  unfold GetSlice, Length. go.
  rewrite (ReadArray_cell _ _ _ Hv). go.
  rewrite (get_List_array _ _ _ Hp). go.
  unfold get_Error at 1. rewrite Herr.
  go. rewrite (ReadArray_cell _ _ _ Hv). go.
  rewrite (get_List_array _ _ _ Hp). go.
  rewrite !getClampRealIndex_id by lia.
  destruct (Z.ltb_spec j i); [lia|].
  rewrite slice_in_range by lia. reflexivity.
Qed.

Lemma GetSlice_string_eq (s : State) (v : ptr) (str : string) (i j step : Z) :
  cell s v = Some (String_cell str) ->
  Context.Error (ctx s) = None ->
  0 <= i <= j -> j <= Z.of_nat (String.length str) ->
  GetSlice v i j step s
  = Returned (Some (next_value s))
      (with_value (String_cell (bytes_between str i j)) s).
Proof.
  unfold String_cell. intros Hv Herr Hi Hj.
  unfold GetSlice, Length. go.
  rewrite (ReadString_cell _ _ _ Hv). go.
  unfold get_Error at 1. rewrite Herr.
  go. rewrite (ReadString_cell _ _ _ Hv). go.
  rewrite !getClampRealIndex_id by lia.
  destruct (Z.ltb_spec j i); [lia|].
  rewrite slice_string_in_range by lia. reflexivity.
Qed.

Lemma string_length_app (a b : string) :
  String.length (a ++ b) = (String.length a + String.length b)%nat.
Proof. induction a as [|x a IH]; simpl; [reflexivity|]. rewrite IH. reflexivity. Qed.

Lemma substring_prefix (a b : string) :
  substring 0 (String.length a) (a ++ b) = a.
Proof.
  induction a as [|x a IH]; simpl.
  - destruct b; reflexivity.
  - rewrite IH. reflexivity.
Qed.

Lemma substring_all (b : string) : substring 0 (String.length b) b = b.
Proof. induction b as [|y b IH]; simpl; [reflexivity|]. rewrite IH. reflexivity. Qed.

Lemma substring_suffix (a b : string) :
  substring (String.length a) (String.length b) (a ++ b) = b.
Proof.
  induction a as [|x a IH]; simpl; [apply substring_all|exact IH].
Qed.

Lemma OpAdd_Strings (s : State) (v v2 : ptr) (a b : string) :
  cell s v = Some (String_cell a) -> cell s v2 = Some (String_cell b) ->
  OpAdd v v2 s
  = Returned (Some (next_value s)) (with_value (String_cell (a ++ b)) s).
Proof.
  unfold String_cell. intros Hv Hv2. unfold OpAdd, as_string. go. reflexivity.
Qed.

(** X9. Adding two Strings returns a new String, the first followed by the
    second, and reports nothing.  Its length is the sum of the two lengths,
    and slicing it at the seam gives back the two operands. *)
Theorem OpAdd_Strings_seam (s : State) (v v2 : ptr) (a b : string) :
  cell s v = Some (String_cell a) -> cell s v2 = Some (String_cell b) ->
  Context.Error (ctx s) = None ->
  let n := Z.of_nat (String.length a) in
  let m := Z.of_nat (String.length b) in
  ∃ (r : ptr) (s1 : State),
    OpAdd v v2 s = Returned r s1
    ∧ cell s r = None
    ∧ cell s1 r = Some (String_cell (a ++ b))
    ∧ ctx s1 = ctx s
    ∧ Length r s1 = Returned (n + m) s1
    ∧ returns_new (GetSlice r 0 n 1) s1 (String_cell a)
    ∧ returns_new (GetSlice r n (n + m) 1) s1 (String_cell b).
Proof.
  intros Hv Hv2 Herr n m.
  exists (Some (next_value s)), (with_value (String_cell (a ++ b)) s).
  assert (Hr : cell (with_value (String_cell (a ++ b)) s) (Some (next_value s))
               = Some (String_cell (a ++ b))) by apply cell_with_value_new.
  assert (Hlen : Z.of_nat (String.length (a ++ b)) = n + m)
    by (rewrite string_length_app; unfold n, m; lia).
  split; [apply OpAdd_Strings; assumption|].
  split; [apply next_value_fresh|].
  split; [exact Hr|]. split; [reflexivity|].
  split; [rewrite (Length_string _ _ _ Hr), Hlen; reflexivity|].
  split.
  - eapply returns_new_eq; [|apply new_value_returns].
    rewrite (GetSlice_string_eq _ _ _ 0 n 1 Hr Herr) by (unfold n in *; lia).
    unfold bytes_between. rewrite Z.sub_0_r. unfold n. rewrite Nat2Z.id.
    change (Z.to_nat 0) with 0%nat. rewrite substring_prefix. reflexivity.
  - eapply returns_new_eq; [|apply new_value_returns].
    rewrite (GetSlice_string_eq _ _ _ n (n + m) 1 Hr Herr)
      by (unfold n, m in *; lia).
    unfold bytes_between. replace (n + m - n) with m by lia.
    unfold n, m. rewrite !Nat2Z.id, substring_suffix. reflexivity.
Qed.

Lemma OpAdd_Strings_seam_witness :
  ∃ (r : ptr) (s1 : State),
    OpAdd (Some 1%positive) (Some 2%positive) two_Strings = Returned r s1
    ∧ cell two_Strings r = None
    ∧ cell s1 r = Some (String_cell ("dice" ++ "script"))
    ∧ ctx s1 = ctx two_Strings
    ∧ Length r s1 = Returned (4 + 6) s1
    ∧ returns_new (GetSlice r 0 4 1) s1 (String_cell "dice")
    ∧ returns_new (GetSlice r 4 (4 + 6) 1) s1 (String_cell "script").
Proof.
  apply (OpAdd_Strings_seam two_Strings (Some 1%positive) (Some 2%positive)
           "dice" "script").
  - reflexivity.
  - reflexivity.
  - reflexivity.
Defined.

Lemma OpAdd_arrays_eq (s : State) (v v2 : ptr) (p p2 : loc) (l l2 : list ptr) :
  cell s v = Some (Array_cell p) -> cell s v2 = Some (Array_cell p2) ->
  arrays (heap s) !! p = Some l -> arrays (heap s) !! p2 = Some l2 ->
  Z.of_nat (length l) + Z.of_nat (length l2) <= 512 ->
  OpAdd v v2 s = Returned (Some (next_value s)) (with_array (l ++ l2) s).
Proof.
  unfold Array_cell. intros Hv Hv2 Hp Hp2 Hle.
  rewrite <- VMValueNewArray_eq.
  unfold OpAdd. go.
  rewrite (ReadArray_cell _ _ _ Hv). go.
  rewrite (ReadArray_cell _ _ _ Hv2). go.
  rewrite (get_List_array _ _ _ Hp). go.
  rewrite (get_List_array _ _ _ Hp2). go.
  destruct (Z.ltb_spec 512 (Z.of_nat (length l) + Z.of_nat (length l2))); [lia|].
  unfold make.
  destruct (Z.ltb_spec (Z.of_nat (length l) + Z.of_nat (length l2)) 0); [lia|].
  go. unfold copy. rewrite length_replicate.
  replace (Z.to_nat (Z.of_nat (length l) + Z.of_nat (length l2)))
    with (length l + (length l2 + 0))%nat by lia.
  rewrite take_ge by lia. rewrite drop_replicate.
  replace (length l + (length l2 + 0) - length l)%nat
    with (length l2 + 0)%nat by lia.
  unfold for_range. rewrite Z.sub_0_r, Nat2Z.id.
  match goal with
  | |- context [for_loop ?n ?i0 ?body ?acc s] =>
      assert (EL : for_loop n i0 body acc s
                   = Returned (l ++ take (length l2) (drop 0 l2)
                                 ++ replicate 0 None) s)
        by (apply (for_loop_copy l2 (fun j => j)
                     (fun j => Z.of_nat (length l) + j) (length l2) 0 l 0 0 s);
            [intros t Ht; simpl; split; lia | lia])
  end.
  rewrite EL. rewrite drop_0, firstn_all. simpl. rewrite app_nil_r.
  reflexivity.
Qed.

Lemma elements_between_prefix (l l2 : list ptr) :
  elements_between (l ++ l2) 0 (Z.of_nat (length l)) = l.
Proof.
  unfold elements_between. rewrite Z.sub_0_r, Nat2Z.id.
  change (Z.to_nat 0) with 0%nat. rewrite drop_0.
  rewrite take_app_length. reflexivity.
Qed.

Lemma elements_between_suffix (l l2 : list ptr) :
  elements_between (l ++ l2) (Z.of_nat (length l))
    (Z.of_nat (length l) + Z.of_nat (length l2)) = l2.
Proof.
  unfold elements_between.
  replace (Z.of_nat (length l) + Z.of_nat (length l2) - Z.of_nat (length l))
    with (Z.of_nat (length l2)) by lia.
  rewrite !Nat2Z.id, drop_app_length. apply firstn_all.
Qed.

(** X10. Adding two Arrays whose lengths sum to 512 at most returns a new
    Array value with an array of its own: the elements of the first
    followed by the elements of the second, the very same pointers, not
    copies.  The operands keep their elements, nothing is reported, the
    length of the result is the sum of the two lengths, and slicing it at
    the seam gives the elements of each operand. *)
Theorem OpAdd_Arrays_seam (s : State) (v v2 : ptr) (p p2 : loc)
    (l l2 : list ptr) :
  cell s v = Some (Array_cell p) -> cell s v2 = Some (Array_cell p2) ->
  arrays (heap s) !! p = Some l -> arrays (heap s) !! p2 = Some l2 ->
  Z.of_nat (length l) + Z.of_nat (length l2) <= 512 ->
  Context.Error (ctx s) = None ->
  let n := Z.of_nat (length l) in
  let m := Z.of_nat (length l2) in
  ∃ (r : ptr) (d : loc) (s1 : State),
    OpAdd v v2 s = Returned r s1
    ∧ cell s r = None ∧ arrays (heap s) !! d = None
    ∧ cell s1 r = Some (Array_cell d)
    ∧ elements s1 r = Some (l ++ l2)
    ∧ elements s1 v = Some l ∧ elements s1 v2 = Some l2
    ∧ ctx s1 = ctx s
    ∧ Length r s1 = Returned (n + m) s1
    ∧ returns_new_array (GetSlice r 0 n 1) s1 l
    ∧ returns_new_array (GetSlice r n (n + m) 1) s1 l2.
Proof.
  intros Hv Hv2 Hp Hp2 Hle Herr n m.
  exists (Some (next_value s)), (next_array s), (with_array (l ++ l2) s).
  pose proof (cell_with_array_new s (l ++ l2)) as Hr.
  pose proof (arrays_with_array_new s (l ++ l2)) as Hd.
  assert (Hlen : Z.of_nat (length (l ++ l2)) = n + m)
    by (rewrite length_app; unfold n, m; lia).
  split; [apply (OpAdd_arrays_eq s v v2 p p2); assumption|].
  split; [apply next_value_fresh|]. split; [apply next_array_fresh|].
  split; [exact Hr|]. split; [apply elements_with_array_new|].
  split; [apply elements_with_array_old, (elements_eq s v p); assumption|].
  split; [apply elements_with_array_old, (elements_eq s v2 p2); assumption|].
  split; [reflexivity|].
  split; [rewrite (Length_array _ _ _ _ Hr Hd), Hlen; reflexivity|].
  split.
  - apply returns_new_array_with.
    rewrite (GetSlice_array_eq _ _ _ _ 0 n 1 Hr Hd Herr) by (unfold n in *; lia).
    unfold n. rewrite elements_between_prefix. reflexivity.
  - apply returns_new_array_with.
    rewrite (GetSlice_array_eq _ _ _ _ n (n + m) 1 Hr Hd Herr)
      by (unfold n, m in *; lia).
    unfold n, m. rewrite elements_between_suffix. reflexivity.
Qed.

Lemma OpAdd_Arrays_seam_witness :
  ∃ (r : ptr) (d : loc) (s1 : State),
    OpAdd (Some 4%positive) (Some 5%positive) twin_arrays = Returned r s1
    ∧ cell twin_arrays r = None ∧ arrays (heap twin_arrays) !! d = None
    ∧ cell s1 r = Some (Array_cell d)
    ∧ elements s1 r
      = Some ([Some 1%positive; Some 2%positive; Some 3%positive]
              ++ [Some 1%positive; Some 2%positive; Some 3%positive])
    ∧ elements s1 (Some 4%positive)
      = Some [Some 1%positive; Some 2%positive; Some 3%positive]
    ∧ elements s1 (Some 5%positive)
      = Some [Some 1%positive; Some 2%positive; Some 3%positive]
    ∧ ctx s1 = ctx twin_arrays
    ∧ Length r s1 = Returned (3 + 3) s1
    ∧ returns_new_array (GetSlice r 0 3 1) s1
        [Some 1%positive; Some 2%positive; Some 3%positive]
    ∧ returns_new_array (GetSlice r 3 (3 + 3) 1) s1
        [Some 1%positive; Some 2%positive; Some 3%positive].
Proof.
  apply (OpAdd_Arrays_seam twin_arrays (Some 4%positive) (Some 5%positive)
           1%positive 2%positive
           [Some 1%positive; Some 2%positive; Some 3%positive]
           [Some 1%positive; Some 2%positive; Some 3%positive]).
  - reflexivity.
  - reflexivity.
  - reflexivity.
  - reflexivity.
  - simpl. lia.
  - reflexivity.
Defined.

(** ** Repeating an array *)

Lemma clones_spec (xs : list ptr) (s : State) :
  all_live s xs ->
  length (clones xs s).1 = length xs
  ∧ ctx (clones xs s).2 = ctx s
  ∧ arrays (heap (clones xs s).2) = arrays (heap s)
  ∧ (∀ w c, cell s w = Some c -> cell (clones xs s).2 w = Some c)
  ∧ (∀ (i : nat) (r : ptr),
       (clones xs s).1 !! i = Some r ->
       cell s r = None
       ∧ ∃ x, xs !! i = Some x ∧ cell (clones xs s).2 r = cell s x)
  ∧ NoDup (clones xs s).1.
Proof.
  revert s. induction xs as [|x xs IH]; intros s Hlive.
  - simpl. repeat split; try constructor; try discriminate.
    intros w c H. exact H.
  - destruct (Hlive x) as [c Hc]; [left|].
    assert (Hlive' : all_live (with_value c s) xs).
    { intros y Hy. destruct (Hlive y) as [cy Hcy]; [right; exact Hy|].
      exists cy. apply cell_with_value_old. exact Hcy. }
    destruct (IH (with_value c s) Hlive') as (H1 & H2 & H3 & H4 & H5 & H6).
    simpl clones. rewrite Hc.
    destruct (clones xs (with_value c s)) as [rs s'] eqn:E. simpl in *.
    split; [congruence|]. split; [exact H2|]. split; [exact H3|].
    split; [|split].
    + intros w cw Hw. apply H4, cell_with_value_old, Hw.
    + intros [|i] r Hr; simpl in Hr.
      * injection Hr as <-. split; [apply next_value_fresh|].
        exists x. split; [reflexivity|].
        rewrite Hc. apply H4. apply (cell_with_value_new s c).
      * destruct (H5 i r Hr) as (Hr1 & y & Hy & Hr2). split.
        -- destruct (cell s r) as [cr|] eqn:Er; [|reflexivity].
           rewrite (cell_with_value_old s r cr c Er) in Hr1. discriminate.
        -- exists y. split; [exact Hy|]. rewrite Hr2.
           destruct (Hlive y) as [cy Hcy].
           { right. apply list_elem_of_lookup. exists i. exact Hy. }
           rewrite Hcy. apply cell_with_value_old. exact Hcy.
    + constructor; [|exact H6].
      intros Hin. apply list_elem_of_lookup in Hin as [i Hi].
      destruct (H5 i _ Hi) as [Hn _].
      rewrite (cell_with_value_new s c) in Hn. discriminate.
Qed.

Lemma cycle_length (l : list ptr) (i k : nat) : length (cycle l i k) = k.
Proof. revert i. induction k as [|k IH]; intros i; simpl; [|rewrite IH]; reflexivity. Qed.

Lemma cycle_lookup (l : list ptr) (i k j : nat) (x : ptr) :
  l ≠ [] -> cycle l i k !! j = Some x ->
  l !! ((i + j) mod length l)%nat = Some x.
Proof.
  intros Hl. revert i j x.
  induction k as [|k IH]; intros i j x; simpl; [discriminate|].
  destruct j as [|j]; simpl.
  - intros [= <-]. rewrite Nat.add_0_r.
    destruct (lookup_lt_is_Some_2 l (i mod length l)) as [y Hy].
    { apply Nat.mod_upper_bound. destruct l; [contradiction|simpl; lia]. }
    unfold ptr in *. rewrite Hy. reflexivity.
  - intros H. apply IH in H. replace (i + S j)%nat with (S i + j)%nat by lia.
    exact H.
Qed.

Lemma cycle_live (s : State) (l : list ptr) (i k : nat) :
  l ≠ [] -> all_live s l -> all_live s (cycle l i k).
Proof.
  intros Hl Hlive x Hx. apply list_elem_of_lookup in Hx as [j Hj].
  apply (cycle_lookup l i k j x Hl) in Hj.
  apply Hlive, list_elem_of_lookup. eexists. exact Hj.
Qed.

Lemma int_rem_mod (i n : Z) (s : State) :
  0 <= i -> 0 < n -> int_rem i n s = Returned (i mod n) s.
Proof.
  intros Hi Hn. unfold int_rem. destruct (Z.eqb_spec n 0); [lia|].
  rewrite Z.rem_mod_nonneg by lia. reflexivity.
Qed.

(** The loop of the repetition: [k] turns from the index [i] on fill the
    slots after [pre] with clones. *)
Lemma for_loop_clones (l : list ptr) (k i : nat) (pre : list ptr) (rest : nat)
    (s : State) :
  l ≠ [] -> all_live s l -> length pre = i ->
  for_loop k (Z.of_nat i)
    (fun i arr =>
       j ← int_rem i (Z.of_nat (length l));
       x ← elem_at l j;
       x' ← Clone x;
       store_at arr i x')
    (pre ++ replicate (k + rest) None) s
  = Returned (pre ++ (clones (cycle l i k) s).1 ++ replicate rest None)
      (clones (cycle l i k) s).2.
Proof.
  intros Hl. revert i pre s. induction k as [|k IH]; intros i pre s Hlive Hpre.
  - simpl. reflexivity.
  - assert (Hn : (0 < length l)%nat) by (destruct l; [contradiction|simpl; lia]).
    destruct (lookup_lt_is_Some_2 l (i mod length l)) as [x Hx].
    { apply Nat.mod_upper_bound. lia. }
    destruct (Hlive x) as [c Hc].
    { apply list_elem_of_lookup. eexists. exact Hx. }
    simpl for_loop. go. rewrite int_rem_mod by lia. go.
    rewrite <- Nat2Z.inj_mod.
    rewrite (elem_at_lookup l _ x) by (first [lia | rewrite Nat2Z.id; exact Hx]).
    go. rewrite (Clone_eq s x c Hc). go.
    rewrite store_at_in_range
      by (rewrite length_app; simpl; rewrite length_replicate; lia).
    go. rewrite Nat2Z.id.
    replace (<[i:=Some (next_value s)]> (pre ++ replicate (S k + rest) None))
      with ((pre ++ [Some (next_value s)]) ++ replicate (k + rest) None).
    2:{ rewrite insert_app_r_alt by (unfold ptr, loc in *; lia).
        unfold ptr, loc in *. rewrite Hpre, Nat.sub_diag. simpl.
        rewrite <- app_assoc. reflexivity. }
    replace (Z.of_nat i + 1) with (Z.of_nat (S i)) by lia.
    etransitivity;
      [apply (IH (S i) (pre ++ [Some (next_value s)]) (with_value c s))|].
    + intros y Hy. destruct (Hlive y Hy) as [cy Hcy]. exists cy.
      apply cell_with_value_old. exact Hcy.
    + rewrite length_app. simpl. unfold ptr, loc in *. lia.
    + simpl cycle. unfold ptr, loc in *. rewrite Hx. simpl clones.
      change (cell s x) with (cell s x). rewrite Hc.
      destruct (clones (cycle l (S i) k) (with_value c s)) as [rs s'].
      simpl. rewrite <- app_assoc. reflexivity.
Qed.

Lemma mul_no_elements (t : Z) : Int64.mul (Z.of_nat (length (@nil ptr))) t = 0.
Proof. unfold Int64.mul. simpl length. rewrite Z.mul_0_l. reflexivity. Qed.

Lemma ArrayRepeatTimesEx_eq (s : State) (v times : ptr) (p : loc)
    (l : list ptr) (t : Z) :
  cell s v = Some (Array_cell p) -> cell s times = Some (Int_cell t) ->
  arrays (heap s) !! p = Some l -> all_live s l ->
  let N := Int64.mul (Z.of_nat (length l)) t in
  0 <= N <= 512 ->
  ArrayRepeatTimesEx v times s
  = VMValueNewArray (clones (cycle l 0 (Z.to_nat N)) s).1
      (clones (cycle l 0 (Z.to_nat N)) s).2.
Proof.
  intros Hv Ht Hp Hlive N HN. unfold Array_cell, Int_cell in Hv, Ht.
  unfold ArrayRepeatTimesEx. go.
  rewrite (ReadInt_cell _ _ _ Ht). go.
  rewrite (ReadArray_cell _ _ _ Hv). go.
  rewrite (get_List_array _ _ _ Hp). go. fold N.
  destruct (Z.ltb_spec 512 N); [lia|].
  unfold make. destruct (Z.ltb_spec N 0); [lia|]. go.
  unfold for_range. rewrite Z.sub_0_r.
  destruct (decide (l = [])) as [->|Hl].
  - assert (E : N = 0) by apply mul_no_elements.
    rewrite E. simpl. reflexivity.
  - replace (replicate (Z.to_nat N) None)
      with (@nil ptr ++ replicate (Z.to_nat N + 0) None)
      by (rewrite Nat.add_0_r; reflexivity).
    change 0 with (Z.of_nat 0).
    rewrite (for_loop_clones l (Z.to_nat N) 0 [] 0 s Hl Hlive eq_refl).
    go. simpl app. rewrite app_nil_r. reflexivity.
Qed.

(** X11. Repeating an array, with the Int on either side of [*]: when the
    product of the length and the factor, in 64-bit arithmetic, is from 0 to
    512, the result is a new Array value with that many elements.  Each
    element is a clone in a new cell, the element of index [i] holding what
    the element of index [i mod len] of the operand holds; no two elements
    of the result are one pointer, and none is an element of the operand.
    The operand, the other cells, and the context are as before. *)
Theorem ArrayRepeatTimesEx_clones (s : State) (v times : ptr) (p : loc)
    (l : list ptr) (t : Z) :
  cell s v = Some (Array_cell p) -> cell s times = Some (Int_cell t) ->
  arrays (heap s) !! p = Some l -> all_live s l ->
  let N := Int64.mul (Z.of_nat (length l)) t in
  0 <= N <= 512 ->
  ∃ (r : ptr) (s' : State) (l' : list ptr),
    ArrayRepeatTimesEx v times s = Returned r s'
    ∧ OpMultiply v times s = Returned r s'
    ∧ OpMultiply times v s = Returned r s'
    ∧ cell s r = None
    ∧ elements s' r = Some l'
    ∧ Z.of_nat (length l') = N
    ∧ NoDup l'
    ∧ (∀ (i : nat) (x' : ptr),
         l' !! i = Some x' ->
         cell s x' = None
         ∧ ∃ x, l !! (i mod length l)%nat = Some x ∧ cell s' x' = cell s x)
    ∧ elements s' v = Some l
    ∧ ctx s' = ctx s
    ∧ ∀ (w : ptr) (c : VMValue), cell s w = Some c -> cell s' w = Some c.
Proof.
  intros Hv Ht Hp Hlive N HN.
  pose proof (ArrayRepeatTimesEx_eq s v times p l t Hv Ht Hp Hlive HN) as E.
  fold N in E.
  assert (Hcyc : all_live s (cycle l 0 (Z.to_nat N))).
  { destruct (decide (l = [])) as [->|Hl]; [|apply cycle_live; assumption].
    intros x Hx. apply list_elem_of_lookup in Hx as [j Hj].
    assert (E0 : N = 0) by apply mul_no_elements.
    rewrite E0 in Hj. discriminate Hj. }
  destruct (clones_spec _ s Hcyc) as (H1 & H2 & H3 & H4 & H5 & H6).
  rewrite cycle_length in H1.
  destruct (clones (cycle l 0 (Z.to_nat N)) s) as [rs s2] eqn:Ec.
  simpl in E, H1, H2, H3, H4, H5, H6.
  rewrite VMValueNewArray_eq in E.
  exists (Some (next_value s2)), (with_array rs s2), rs.
  split; [exact E|].
  split; [unfold OpMultiply; unfold Array_cell in Hv; go; exact E|].
  split.
  { unfold OpMultiply. unfold Array_cell, Int_cell in Hv, Ht. go. exact E. }
  split.
  { destruct (cell s (Some (next_value s2))) as [c|] eqn:Er; [|reflexivity].
    apply H4 in Er. simpl in Er. rewrite next_value_fresh in Er. discriminate. }
  split; [apply elements_with_array_new|].
  split; [rewrite H1; lia|].
  split; [exact H6|].
  split.
  { intros i x' Hi. destruct (H5 i x' Hi) as (Hn & x & Hx & Hcx).
    split; [exact Hn|]. exists x. split.
    - destruct (decide (l = [])) as [->|Hl].
      + assert (E0 : N = 0) by apply mul_no_elements.
        rewrite E0 in Hx. discriminate Hx.
      + apply (cycle_lookup l 0 _ i x Hl) in Hx. exact Hx.
    - rewrite <- Hcx.
      destruct (cell s2 x') as [c'|] eqn:Ex'.
      + apply cell_with_array_old. exact Ex'.
      + exfalso. destruct (Hcyc x) as [cx Hcx'].
        { apply list_elem_of_lookup. eexists. exact Hx. }
        congruence. }
  split.
  { apply elements_with_array_old. apply (elements_eq _ _ p).
    - apply H4. exact Hv.
    - rewrite H3. exact Hp. }
  split; [exact H2|].
  intros w c Hw. apply cell_with_array_old, H4, Hw.
Qed.

Lemma ArrayRepeatTimesEx_clones_witness :
  ∃ (r : ptr) (s' : State) (l' : list ptr),
    ArrayRepeatTimesEx (Some 4%positive) (Some 5%positive) array_and_factors
    = Returned r s'
    ∧ OpMultiply (Some 4%positive) (Some 5%positive) array_and_factors
      = Returned r s'
    ∧ OpMultiply (Some 5%positive) (Some 4%positive) array_and_factors
      = Returned r s'
    ∧ cell array_and_factors r = None
    ∧ elements s' r = Some l'
    ∧ Z.of_nat (length l') = Int64.mul 3 2
    ∧ NoDup l'
    ∧ (∀ (i : nat) (x' : ptr),
         l' !! i = Some x' ->
         cell array_and_factors x' = None
         ∧ ∃ x, [Some 1%positive; Some 2%positive; Some 3%positive]
                  !! (i mod 3)%nat = Some x
                ∧ cell s' x' = cell array_and_factors x)
    ∧ elements s' (Some 4%positive)
      = Some [Some 1%positive; Some 2%positive; Some 3%positive]
    ∧ ctx s' = ctx array_and_factors
    ∧ ∀ (w : ptr) (c : VMValue),
        cell array_and_factors w = Some c -> cell s' w = Some c.
Proof.
  apply (ArrayRepeatTimesEx_clones array_and_factors (Some 4%positive)
           (Some 5%positive) 1%positive
           [Some 1%positive; Some 2%positive; Some 3%positive] 2).
  - reflexivity.
  - reflexivity.
  - reflexivity.
  - intros x Hx. rewrite !elem_of_cons, elem_of_nil in Hx.
    destruct Hx as [->|[->|[->|[]]]]; eexists; reflexivity.
  - vm_compute. split; discriminate.
Defined.

(** X12. Repeating an array outside the range the guard lets through: the
    guard is on the product in 64-bit arithmetic, so when that product is
    negative, for a negative factor or once it has wrapped, making the
    array panics at run time, with the Int on either side of [*].  A product
    of zero gives a new empty array, and a factor that is not an Int gives
    [nil] and changes nothing. *)
Theorem ArrayRepeatTimesEx_outside (s : State) (v times : ptr) (p : loc)
    (l : list ptr) (c : VMValue) :
  cell s v = Some (Array_cell p) -> arrays (heap s) !! p = Some l ->
  cell s times = Some c ->
  (∀ t : Z,
     c = Int_cell t -> Int64.mul (Z.of_nat (length l)) t < 0 ->
     ArrayRepeatTimesEx v times s = Panicked MakeNegativeLen
     ∧ OpMultiply v times s = Panicked MakeNegativeLen
     ∧ OpMultiply times v s = Panicked MakeNegativeLen)
  ∧ (∀ t : Z,
       c = Int_cell t -> Int64.mul (Z.of_nat (length l)) t = 0 ->
       returns_new_array (ArrayRepeatTimesEx v times) s [])
  ∧ (TypeId c ≠ VMTypeInt ->
     ArrayRepeatTimesEx v times s = Returned None s
     ∧ OpMultiply v times s = Returned None s).
Proof.
  unfold Array_cell, Int_cell. intros Hv Hp Ht. split; [|split].
  - intros t -> HN.
    assert (E : ArrayRepeatTimesEx v times s = Panicked MakeNegativeLen).
    { unfold ArrayRepeatTimesEx. go.
      rewrite (ReadInt_cell _ _ _ Ht). go.
      rewrite (ReadArray_cell _ _ _ Hv). go.
      rewrite (get_List_array _ _ _ Hp). go.
      destruct (Z.ltb_spec 512 (Int64.mul (Z.of_nat (length l)) t)); [lia|].
      unfold make.
      destruct (Z.ltb_spec (Int64.mul (Z.of_nat (length l)) t) 0); [|lia].
      reflexivity. }
    split; [exact E|]. split; unfold OpMultiply; go; exact E.
  - intros t -> HN. apply returns_new_array_with.
    rewrite <- VMValueNewArray_eq.
    unfold ArrayRepeatTimesEx. go.
    rewrite (ReadInt_cell _ _ _ Ht). go.
    rewrite (ReadArray_cell _ _ _ Hv). go.
    rewrite (get_List_array _ _ _ Hp). go.
    rewrite HN. reflexivity.
  - intros Hc.
    assert (E : ArrayRepeatTimesEx v times s = Returned None s).
    { unfold ArrayRepeatTimesEx. go.
      destruct (TypeId c); try reflexivity. contradiction. }
    split; [exact E|]. unfold OpMultiply. go. exact E.
Qed.

Lemma ArrayRepeatTimesEx_outside_witness :
  Int64.mul 3 (2 ^ 62) = - 2 ^ 62
  ∧ (ArrayRepeatTimesEx (Some 4%positive) (Some 7%positive) array_and_factors
     = Panicked MakeNegativeLen
     ∧ OpMultiply (Some 4%positive) (Some 7%positive) array_and_factors
       = Panicked MakeNegativeLen
     ∧ OpMultiply (Some 7%positive) (Some 4%positive) array_and_factors
       = Panicked MakeNegativeLen).
Proof.
  split; [reflexivity|].
  refine (proj1 (ArrayRepeatTimesEx_outside array_and_factors (Some 4%positive)
                   (Some 7%positive) 1%positive
                   [Some 1%positive; Some 2%positive; Some 3%positive]
                   (Int_cell (2 ^ 62)) _ _ _) (2 ^ 62) _ _).
  - reflexivity.
  - reflexivity.
  - reflexivity.
  - reflexivity.
  - vm_compute. reflexivity.
Defined.

(** ** Indexing *)

Lemma getRealIndex_valid (i len : Z) (s : State) :
  Int64.in_range i -> 0 <= len <= Int64.max_int -> - len <= i < len ->
  getRealIndex i len s = Returned (i mod len) s.
Proof.
  intros Hi Hlen Hv. unfold getRealIndex.
  destruct (Z.ltb_spec i 0) as [Hneg|Hpos]; cbn zeta.
  - unfold Int64.add. rewrite wrap_in_range
      by (unfold Int64.in_range, Int64.min_int, Int64.max_int in *; lia).
    destruct (Z.leb_spec len (len + i)); [lia|].
    destruct (Z.ltb_spec (len + i) 0); [lia|].
    rewrite <- (Z.mod_add i 1 len), Z.mul_1_l, Z.mod_small by lia.
    rewrite Z.add_comm. reflexivity.
  - destruct (Z.leb_spec len i); [lia|]. destruct (Z.ltb_spec i 0); [lia|].
    rewrite Z.mod_small by lia. reflexivity.
Qed.

Lemma getRealIndex_invalid (i len : Z) (s : State) :
  Int64.in_range i -> 0 <= len <= Int64.max_int -> i < - len ∨ len <= i ->
  ∃ k : Z,
    getRealIndex i len s
    = Returned k (with_ctx (Context.set_Error (Some IndexOutOfRange)) s).
Proof.
  intros Hi Hlen Hv. unfold getRealIndex.
  destruct (Z.ltb_spec i 0) as [Hneg|Hpos]; cbn zeta.
  - unfold Int64.add. rewrite wrap_in_range
      by (unfold Int64.in_range, Int64.min_int, Int64.max_int in *; lia).
    destruct (Z.leb_spec len (len + i)); [lia|].
    destruct (Z.ltb_spec (len + i) 0); [|lia].
    eexists. reflexivity.
  - destruct (Z.leb_spec len i); [|lia]. eexists. reflexivity.
Qed.

Lemma index_in_list {A : Type} (l : list A) (i : Z) :
  - Z.of_nat (length l) <= i < Z.of_nat (length l) ->
  0 <= i mod Z.of_nat (length l) < Z.of_nat (length l)
  ∧ ∃ e : A, l !! Z.to_nat (i mod Z.of_nat (length l)) = Some e.
Proof.
  intros H. pose proof (Z.mod_pos_bound i (Z.of_nat (length l)) ltac:(lia)) as B.
  split; [exact B|]. apply lookup_lt_is_Some_2. lia.
Qed.

Lemma ArrayGetItem_valid (s : State) (v e : ptr) (p : loc) (l : list ptr)
    (i : Z) :
  cell s v = Some (Array_cell p) -> arrays (heap s) !! p = Some l ->
  Z.of_nat (length l) <= Int64.max_int -> Int64.in_range i ->
  Context.Error (ctx s) = None ->
  - Z.of_nat (length l) <= i < Z.of_nat (length l) ->
  l !! Z.to_nat (i mod Z.of_nat (length l)) = Some e ->
  ArrayGetItem v i s = Returned e s.
Proof.
  unfold Array_cell. intros Hv Hp Hmax Hi Herr Hr He.
  destruct (index_in_list l i Hr) as [B _].
  unfold ArrayGetItem. go.
  destruct (decide _) as [_|E]; [|exfalso; apply E; reflexivity].
  go. rewrite (ReadArray_cell _ _ _ Hv). go.
  rewrite (get_List_array _ _ _ Hp). go.
  rewrite getRealIndex_valid by (try assumption; lia). go.
  rewrite get_Error_eq, Herr. go.
  rewrite (get_List_array _ _ _ Hp). go.
  apply elem_at_lookup; [lia|exact He].
Qed.

(** X13. Reading an element of an array of length [len] by an Int index
    [i], with no error pending: for [-len <= i < len] the result is the
    element of index [i mod len], the very pointer the array holds, so that
    [-1] is the last element, and nothing changes.  For any other index the
    result is [nil] with the error IndexOutOfRange, the array untouched.
    With an error pending the result is [nil] whatever the index, and on a
    value that is not an Array the error is NotIndexable. *)
Theorem ArrayGetItem_bounds (s : State) (v : ptr) (p : loc) (l : list ptr)
    (i : Z) :
  cell s v = Some (Array_cell p) -> arrays (heap s) !! p = Some l ->
  Z.of_nat (length l) <= Int64.max_int -> Int64.in_range i ->
  let len := Z.of_nat (length l) in
  (Context.Error (ctx s) = None -> - len <= i < len ->
   ∃ e : ptr,
     l !! Z.to_nat (i mod len) = Some e ∧ ArrayGetItem v i s = Returned e s)
  ∧ (i < - len ∨ len <= i -> fails_with (ArrayGetItem v i) s IndexOutOfRange)
  ∧ (Context.Error (ctx s) ≠ None ->
     ∃ s' : State,
       ArrayGetItem v i s = Returned None s'
       ∧ heap s' = heap s ∧ Context.Error (ctx s') ≠ None)
  ∧ (∀ (w : ptr) (c : VMValue),
       cell s w = Some c -> TypeId c ≠ VMTypeArray ->
       fails_with (ArrayGetItem w i) s NotIndexable).
Proof.
  intros Hv Hp Hmax Hi len. split; [|split; [|split]].
  - intros Herr Hr. destruct (index_in_list l i Hr) as [_ [e He]].
    exists e. split; [exact He|].
    apply (ArrayGetItem_valid s v e p l i); assumption.
  - intros Hr. unfold fails_with, ArrayGetItem. unfold Array_cell in Hv. go.
    destruct (decide _) as [_|E]; [|exfalso; apply E; reflexivity].
    go. rewrite (ReadArray_cell _ _ _ Hv). go.
    rewrite (get_List_array _ _ _ Hp). go.
    destruct (getRealIndex_invalid i len s Hi ltac:(unfold len; lia) Hr)
      as [k Hk].
    fold len. rewrite Hk. go. reflexivity.
  - intros Herr. unfold ArrayGetItem. unfold Array_cell in Hv. go.
    destruct (decide _) as [_|E]; [|exfalso; apply E; reflexivity].
    go. rewrite (ReadArray_cell _ _ _ Hv). go.
    rewrite (get_List_array _ _ _ Hp). go. fold len.
    destruct (Z_lt_le_dec i (- len)) as [Hlo|Hlo];
      [|destruct (Z_lt_le_dec i len) as [Hhi|Hhi]].
    + destruct (getRealIndex_invalid i len s Hi ltac:(unfold len; lia)
                  (or_introl Hlo)) as [k Hk].
      rewrite Hk. go. eexists. split; [reflexivity|]. split; [reflexivity|].
      discriminate.
    + rewrite getRealIndex_valid by (try assumption; unfold len; lia). go.
      rewrite get_Error_eq.
      destruct (Context.Error (ctx s)) as [e|] eqn:Ee; [|contradiction].
      go. eexists. split; [reflexivity|]. split; [reflexivity|].
      rewrite Ee. discriminate.
    + destruct (getRealIndex_invalid i len s Hi ltac:(unfold len; lia)
                  (or_intror Hhi)) as [k Hk].
      rewrite Hk. go. eexists. split; [reflexivity|]. split; [reflexivity|].
      discriminate.
  - intros w c Hw Hc. unfold fails_with, ArrayGetItem. go.
    destruct (decide _) as [E|_]; [contradiction|]. reflexivity.
Qed.

Lemma ArrayGetItem_bounds_witness :
  ∃ e : ptr,
    [Some 1%positive; Some 2%positive; Some 3%positive]
      !! Z.to_nat ((-1) mod 3) = Some e
    ∧ ArrayGetItem (Some 4%positive) (-1) sample_values
      = Returned e sample_values.
Proof.
  refine (proj1 (ArrayGetItem_bounds sample_values (Some 4%positive) 1%positive
                   [Some 1%positive; Some 2%positive; Some 3%positive] (-1)
                   _ _ _ _) _ _).
  - reflexivity.
  - reflexivity.
  - vm_compute. discriminate.
  - unfold Int64.in_range, Int64.min_int, Int64.max_int. lia.
  - reflexivity.
  - simpl. lia.
Defined.

Lemma ArraySetItem_valid (s : State) (v x : ptr) (p : loc) (l : list ptr)
    (i : Z) (cx : VMValue) :
  cell s v = Some (Array_cell p) -> arrays (heap s) !! p = Some l ->
  Z.of_nat (length l) <= Int64.max_int -> Int64.in_range i ->
  Context.Error (ctx s) = None ->
  - Z.of_nat (length l) <= i < Z.of_nat (length l) ->
  cell s x = Some cx ->
  ArraySetItem v i x s
  = Returned true
      (with_heap
         (set_arrays
            (insert p (<[Z.to_nat (i mod Z.of_nat (length l))
                         := Some (next_value s)]> l)))
         (with_value cx s)).
Proof.
  unfold Array_cell. intros Hv Hp Hmax Hi Herr Hr Hx.
  destruct (index_in_list l i Hr) as [B _].
  unfold ArraySetItem. go.
  destruct (decide _) as [_|E]; [|exfalso; apply E; reflexivity].
  go. rewrite (ReadArray_cell _ _ _ Hv). go.
  rewrite (get_List_array _ _ _ Hp). go.
  rewrite getRealIndex_valid by (try assumption; lia). go.
  rewrite get_Error_eq, Herr. go.
  rewrite (Clone_eq _ _ _ Hx). go.
  rewrite (get_List_array _ _ l) by exact Hp. go.
  rewrite store_at_in_range by lia. go.
  rewrite (set_List_array _ _ l) by exact Hp. reflexivity.
Qed.

(** X14. Assigning to the element of index [i] of an array of length
    [len], with no error pending.  For [-len <= i < len] the call returns
    true and the element of index [i mod len] becomes a pointer to a new
    cell, a copy of the right-hand side: reading that index back, by [i] or
    by any index equal to it modulo [len], gives the new pointer; reading
    any other index gives the element that was there; the length and the
    context are as before.  For any other index the call returns false with
    the error IndexOutOfRange, and the array is untouched. *)
Theorem ArraySetItem_bounds (s : State) (v x : ptr) (p : loc) (l : list ptr)
    (i : Z) (cx : VMValue) :
  cell s v = Some (Array_cell p) -> arrays (heap s) !! p = Some l ->
  Z.of_nat (length l) <= Int64.max_int -> Int64.in_range i ->
  Context.Error (ctx s) = None ->
  cell s x = Some cx ->
  let len := Z.of_nat (length l) in
  (- len <= i < len ->
   ∃ (s' : State) (l' : list ptr) (new : ptr),
     ArraySetItem v i x s = Returned true s'
     ∧ elements s' v = Some l' ∧ length l' = length l
     ∧ cell s new = None ∧ cell s' new = Some cx
     ∧ ctx s' = ctx s
     ∧ ∀ j : Z,
         Int64.in_range j -> - len <= j < len ->
         ∃ e : ptr,
           ArrayGetItem v j s' = Returned e s'
           ∧ (j mod len = i mod len -> e = new)
           ∧ (j mod len ≠ i mod len -> l !! Z.to_nat (j mod len) = Some e))
  ∧ (i < - len ∨ len <= i ->
     ArraySetItem v i x s
     = Returned false (with_ctx (Context.set_Error (Some IndexOutOfRange)) s)).
Proof.
  intros Hv Hp Hmax Hi Herr Hx len. split.
  - intros Hr. destruct (index_in_list l i Hr) as [B _]. fold len in B.
    set (k := Z.to_nat (i mod len)).
    set (l' := <[k := Some (next_value s)]> l).
    set (s' := with_heap (set_arrays (insert p l')) (with_value cx s)).
    assert (Hv' : cell s' v = Some (Array_cell p))
      by (apply (cell_with_value_old s v _ cx Hv)).
    assert (Hp' : arrays (heap s') !! p = Some l') by apply lookup_insert_eq.
    assert (Hlen : length l' = length l) by apply length_insert.
    exists s', l', (Some (next_value s)).
    split; [apply (ArraySetItem_valid s v x p l i cx); assumption|].
    split; [apply (elements_eq s' v p); assumption|].
    split; [exact Hlen|].
    split; [apply next_value_fresh|].
    split; [apply (cell_with_value_new s cx)|].
    split; [reflexivity|].
    intros j Hj Hjr.
    assert (Hjr' : - Z.of_nat (length l') <= j < Z.of_nat (length l'))
      by (rewrite Hlen; exact Hjr).
    destruct (index_in_list l' j Hjr') as [Bj [e He]].
    exists e. split.
    + apply (ArrayGetItem_valid s' v e p l' j); try assumption.
      rewrite Hlen. exact Hmax.
    + rewrite Hlen in He, Bj. fold len in He, Bj. split.
      * intros E. rewrite E in He. fold k in He. unfold l' in He.
        rewrite list_lookup_insert_eq in He by (unfold k, len in *; lia).
        congruence.
      * intros E. unfold l' in He.
        rewrite list_lookup_insert_ne in He; [exact He|].
        unfold k. intros E'. apply E. apply Z2Nat.inj in E'; lia.
  - intros Hr. unfold ArraySetItem. unfold Array_cell in Hv. go.
    destruct (decide _) as [_|E]; [|exfalso; apply E; reflexivity].
    go. rewrite (ReadArray_cell _ _ _ Hv). go.
    rewrite (get_List_array _ _ _ Hp). go.
    destruct (getRealIndex_invalid i len s Hi ltac:(unfold len; lia) Hr)
      as [k Hk].
    fold len. rewrite Hk. go. reflexivity.
Qed.

Lemma ArraySetItem_bounds_witness :
  ∃ (s' : State) (l' : list ptr) (new : ptr),
    ArraySetItem (Some 4%positive) (-1) (Some 5%positive) containers
    = Returned true s'
    ∧ elements s' (Some 4%positive) = Some l' ∧ length l' = 3%nat
    ∧ cell containers new = None ∧ cell s' new = Some (Int_cell 99)
    ∧ ctx s' = ctx containers
    ∧ ∀ j : Z,
        Int64.in_range j -> - 3 <= j < 3 ->
        ∃ e : ptr,
          ArrayGetItem (Some 4%positive) j s' = Returned e s'
          ∧ (j mod 3 = (-1) mod 3 -> e = new)
          ∧ (j mod 3 ≠ (-1) mod 3 ->
             [Some 1%positive; Some 2%positive; Some 3%positive]
               !! Z.to_nat (j mod 3) = Some e).
Proof.
  refine (proj1 (ArraySetItem_bounds containers (Some 4%positive)
                   (Some 5%positive) 1%positive
                   [Some 1%positive; Some 2%positive; Some 3%positive] (-1)
                   (Int_cell 99) _ _ _ _ _ _) _).
  - reflexivity.
  - reflexivity.
  - vm_compute. discriminate.
  - unfold Int64.in_range, Int64.min_int, Int64.max_int. lia.
  - reflexivity.
  - reflexivity.
  - simpl. lia.
Defined.

(** ** Slices with optional bounds *)

Lemma grows_refl (s : State) : grows s s.
Proof. repeat split; auto. Qed.

Lemma grows_trans (s1 s2 s3 : State) : grows s1 s2 -> grows s2 s3 -> grows s1 s3.
Proof.
  intros (A1 & B1 & C1) (A2 & B2 & C2). split; [congruence|]. split.
  - intros w c H. apply B2, B1, H.
  - intros p l H. apply C2, C1, H.
Qed.

Lemma grows_with_value (s : State) (c : VMValue) : grows s (with_value c s).
Proof.
  split; [reflexivity|]. split.
  - intros w cw H. apply cell_with_value_old. exact H.
  - intros p l H. exact H.
Qed.

Lemma grows_with_array (s : State) (l : list ptr) : grows s (with_array l s).
Proof.
  split; [reflexivity|]. split.
  - intros w cw H. apply cell_with_array_old. exact H.
  - intros p l0 H. apply arrays_with_array_old. exact H.
Qed.

Lemma grows_elements (s s' : State) (v : ptr) (l : list ptr) :
  grows s s' -> elements s v = Some l -> elements s' v = Some l.
Proof.
  intros (_ & B & C) H. apply elements_inv in H as (p & Hv & Hp).
  apply (elements_eq s' v p); [apply B, Hv|apply C, Hp].
Qed.

Lemma grows_fresh (s s' : State) (r : ptr) :
  grows s s' -> cell s' r = None -> cell s r = None.
Proof.
  intros (_ & B & _) H. destruct (cell s r) as [c|] eqn:E; [|reflexivity].
  rewrite (B r c E) in H. discriminate.
Qed.

Lemma grows_sliceable (s s' : State) (v : ptr) (len : Z) :
  grows s s' -> sliceable s v len -> sliceable s' v len.
Proof.
  intros G [(l & Hl & E)|(str & Hv & E)].
  - left. exists l. split; [apply (grows_elements s s'); assumption|exact E].
  - right. exists str. split; [apply G, Hv|exact E].
Qed.

Lemma Length_sliceable (s : State) (v : ptr) (len : Z) :
  sliceable s v len -> Length v s = Returned len s.
Proof.
  intros [(l & Hl & ->)|(str & Hv & ->)].
  - apply elements_inv in Hl as (p & Hv & Hp). apply (Length_array s v p l Hv Hp).
  - apply Length_string. exact Hv.
Qed.

(** A bound is resolved to an Int: the value itself, or a new Int that
    holds the default. *)
Lemma resolve_bound (s : State) (a : ptr) (ca : VMValue) (d i : Z)
    (g : Go ptr) :
  cell s a = Some ca -> bound_of ca d = Some i ->
  g s = VMValueNewInt d s ->
  ∃ (a' : ptr) (s' : State),
    (if decide (TypeId ca = VMTypeUndefined) then g else mret a) s
    = Returned a' s'
    ∧ grows s s' ∧ cell s' a' = Some (Int_cell i).
Proof.
  intros Ha Hb Hg. unfold bound_of in Hb.
  destruct ca as [t x]; simpl in *.
  destruct (decide (t = VMTypeUndefined)) as [->|Hne].
  - injection Hb as <-. rewrite Hg.
    exists (Some (next_value s)), (with_value (Int_cell d) s).
    split; [reflexivity|]. split; [apply grows_with_value|].
    apply cell_with_value_new.
  - exists a, s. split; [reflexivity|]. split; [apply grows_refl|].
    destruct t; try discriminate; try contradiction.
    destruct x; try discriminate. injection Hb as <-. exact Ha.
Qed.

Lemma unresolved_bound (s : State) (a : ptr) (ca : VMValue) (g : Go ptr) :
  cell s a = Some ca ->
  TypeId ca ≠ VMTypeUndefined -> TypeId ca ≠ VMTypeInt ->
  (if decide (TypeId ca = VMTypeUndefined) then g else mret a) s = Returned a s
  ∧ ∀ s', grows s s' -> ReadInt a s' = Returned (0, false) s'.
Proof.
  intros Ha H1 H2. destruct (decide _) as [|_]; [contradiction|].
  split; [reflexivity|]. intros s' G.
  assert (Ha' : cell s' a = Some ca) by (apply G; exact Ha).
  unfold ReadInt. go. destruct (decide _) as [|_]; [contradiction|]. reflexivity.
Qed.

Lemma ReadInt_Int_cell (s : State) (v : ptr) (i : Z) :
  cell s v = Some (Int_cell i) -> ReadInt v s = Returned (i, true) s.
Proof. apply ReadInt_cell. Qed.

(** X15. [GetSliceEx] is [GetSlice] with optional bounds: an Undefined
    lower bound stands for 0 and an Undefined upper bound for the length,
    so that with both Undefined the result is a new array that holds the
    elements of the whole array, the same pointers.  A bound that is
    neither Undefined nor an Int is refused, the lower one first, with the
    errors FirstIndexNotInt and SecondIndexNotInt and the result [nil]. *)
Theorem GetSliceEx_defaults (s : State) (v a b : ptr) (ca cb : VMValue)
    (len : Z) :
  sliceable s v len ->
  cell s a = Some ca -> cell s b = Some cb ->
  Context.Error (ctx s) = None ->
  (∀ i j : Z,
     bound_of ca 0 = Some i -> bound_of cb len = Some j ->
     ∃ s2 : State, grows s s2 ∧ GetSliceEx v a b s = GetSlice v i j 1 s2)
  ∧ (∀ l : list ptr,
       elements s v = Some l ->
       TypeId ca = VMTypeUndefined -> TypeId cb = VMTypeUndefined ->
       ∃ (r : ptr) (s' : State),
         GetSliceEx v a b s = Returned r s'
         ∧ cell s r = None
         ∧ elements s' r = Some l ∧ elements s' v = Some l
         ∧ ctx s' = ctx s)
  ∧ (TypeId ca ≠ VMTypeUndefined -> TypeId ca ≠ VMTypeInt ->
     ∃ s' : State,
       GetSliceEx v a b s = Returned None s'
       ∧ Context.Error (ctx s') = Some FirstIndexNotInt)
  ∧ (∀ i : Z,
       bound_of ca 0 = Some i ->
       TypeId cb ≠ VMTypeUndefined -> TypeId cb ≠ VMTypeInt ->
       ∃ s' : State,
         GetSliceEx v a b s = Returned None s'
         ∧ Context.Error (ctx s') = Some SecondIndexNotInt).
Proof.
  intros Hv Ha Hb Herr.
  assert (Hmain : ∀ i j : Z,
     bound_of ca 0 = Some i -> bound_of cb len = Some j ->
     ∃ s2 : State, grows s s2 ∧ GetSliceEx v a b s = GetSlice v i j 1 s2).
  { intros i j Hi Hj.
    destruct (resolve_bound s a ca 0 i (VMValueNewInt 0) Ha Hi
                ltac:(reflexivity)) as (a1 & s1 & E1 & G1 & Ha1).
    assert (Hb1 : cell s1 b = Some cb) by (apply G1; exact Hb).
    destruct (resolve_bound s1 b cb len j (VMValueNewInt len) Hb1 Hj
                ltac:(reflexivity)) as (b2 & s2 & E2 & G2 & Hb2).
    exists s2. split; [apply (grows_trans s s1 s2); assumption|].
    unfold GetSliceEx. go. rewrite E1. go.
    rewrite (Length_sliceable s1 v len) by (apply (grows_sliceable s); assumption).
    go. rewrite get_Error_eq.
    replace (ctx s1) with (ctx s) by (symmetry; apply G1). rewrite Herr.
    go. rewrite E2. go.
    rewrite (ReadInt_Int_cell s2 a1 i) by (apply G2; exact Ha1). go.
    cbn [negb]. go.
    rewrite (ReadInt_Int_cell s2 b2 j) by exact Hb2. go. reflexivity. }
  split; [exact Hmain|]. split; [|split].
  - intros l Hl Hua Hub.
    assert (Hlen : len = Z.of_nat (length l)).
    { destruct Hv as [(l0 & Hl0 & E)|(str & Hs & _)].
      - congruence.
      - apply elements_inv in Hl as (p & Hp & _). unfold String_cell, Array_cell in *.
        congruence. }
    destruct (Hmain 0 len) as (s2 & G & E).
    { unfold bound_of. rewrite Hua. reflexivity. }
    { unfold bound_of. rewrite Hub. reflexivity. }
    pose proof (grows_elements s s2 v l G Hl) as Hl2.
    apply elements_inv in Hl2 as (p & Hv2 & Hp2).
    rewrite E, Hlen.
    rewrite (GetSlice_array_eq s2 v p l 0 (Z.of_nat (length l)) 1 Hv2 Hp2)
      by (try lia; destruct G as [-> _]; exact Herr).
    replace (elements_between l 0 (Z.of_nat (length l))) with l.
    2:{ unfold elements_between. rewrite Z.sub_0_r, Nat2Z.id.
        change (Z.to_nat 0) with 0%nat. rewrite drop_0, firstn_all. reflexivity. }
    exists (Some (next_value s2)), (with_array l s2).
    split; [reflexivity|].
    split; [apply (grows_fresh s s2 _ G), next_value_fresh|].
    split; [apply elements_with_array_new|].
    split; [apply elements_with_array_old, (elements_eq s2 v p); assumption|].
    apply G.
  - intros H1 H2.
    destruct (unresolved_bound s a ca (VMValueNewInt 0) Ha H1 H2) as [E1 Hread].
    assert (Hstep : ∃ (b2 : ptr) (s2 : State),
               (if decide (TypeId cb = VMTypeUndefined)
                then VMValueNewInt len else mret b) s = Returned b2 s2
               ∧ grows s s2).
    { destruct (decide (TypeId cb = VMTypeUndefined)).
      - eexists. eexists. split; [reflexivity|apply grows_with_value].
      - eexists. eexists. split; [reflexivity|apply grows_refl]. }
    destruct Hstep as (b2 & s2 & E2 & G2).
    exists (with_ctx (Context.set_Error (Some FirstIndexNotInt)) s2).
    split; [|reflexivity].
    unfold GetSliceEx. go. rewrite E1. go.
    rewrite (Length_sliceable s v len Hv). go.
    rewrite get_Error_eq, Herr. go. rewrite E2. go.
    rewrite (Hread s2 G2). go. reflexivity.
  - intros i Hi H1 H2.
    destruct (resolve_bound s a ca 0 i (VMValueNewInt 0) Ha Hi
                ltac:(reflexivity)) as (a1 & s1 & E1 & G1 & Ha1).
    assert (Hb1 : cell s1 b = Some cb) by (apply G1; exact Hb).
    destruct (unresolved_bound s1 b cb (VMValueNewInt len) Hb1 H1 H2)
      as [E2 Hread].
    exists (with_ctx (Context.set_Error (Some SecondIndexNotInt)) s1).
    split; [|reflexivity].
    unfold GetSliceEx. go. rewrite E1. go.
    rewrite (Length_sliceable s1 v len) by (apply (grows_sliceable s); assumption).
    go. rewrite get_Error_eq.
    replace (ctx s1) with (ctx s) by (symmetry; apply G1). rewrite Herr.
    go. rewrite E2. go.
    rewrite (ReadInt_Int_cell s1 a1 i Ha1). go. cbn [negb]. go.
    rewrite (Hread s1 (grows_refl s1)). go. reflexivity.
Qed.

Lemma GetSliceEx_defaults_witness :
  ∃ (r : ptr) (s' : State),
    GetSliceEx (Some 4%positive) (Some 5%positive) (Some 5%positive)
      array_and_bounds = Returned r s'
    ∧ cell array_and_bounds r = None
    ∧ elements s' r = Some [Some 1%positive; Some 2%positive; Some 3%positive]
    ∧ elements s' (Some 4%positive)
      = Some [Some 1%positive; Some 2%positive; Some 3%positive]
    ∧ ctx s' = ctx array_and_bounds.
Proof.
  refine (proj1 (proj2 (GetSliceEx_defaults array_and_bounds (Some 4%positive)
                          (Some 5%positive) (Some 5%positive)
                          Undefined_cell Undefined_cell 3 _ _ _ _))
            [Some 1%positive; Some 2%positive; Some 3%positive] _ _ _).
  - left. exists [Some 1%positive; Some 2%positive; Some 3%positive].
    split; reflexivity.
  - reflexivity.
  - reflexivity.
  - reflexivity.
  - reflexivity.
  - reflexivity.
  - reflexivity.
Defined.

(** ** Assigning to a slice *)

Lemma elements_between_middle (pre l2 post : list ptr) :
  elements_between (pre ++ l2 ++ post) (Z.of_nat (length pre))
    (Z.of_nat (length pre) + Z.of_nat (length l2)) = l2.
Proof.
  unfold elements_between.
  replace (Z.of_nat (length pre) + Z.of_nat (length l2) - Z.of_nat (length pre))
    with (Z.of_nat (length l2)) by lia.
  rewrite !Nat2Z.id, drop_app_length, take_app_length. reflexivity.
Qed.

Lemma elements_between_tail (pre post : list ptr) :
  elements_between (pre ++ post) (Z.of_nat (length pre))
    (Z.of_nat (length pre) + Z.of_nat (length post)) = post.
Proof.
  rewrite <- (app_nil_r post) at 1. apply elements_between_middle.
Qed.

(** X16. Assigning the array [val] to the slice of an array between the
    Int bounds [a] and [b] puts the elements of [val], the same pointers and
    no copies, in the place of the clamped range [[lo, hi)]: the target then
    holds the elements before [lo], the elements of [val], and the elements
    from [hi] on.  No cell is created, the context is untouched, and slicing
    the target afterwards gives back these three parts. *)
Theorem SetSlice_replaces (s : State) (v val : ptr) (p p2 : loc)
    (l l2 : list ptr) (a b step : Z) :
  cell s v = Some (Array_cell p) -> cell s val = Some (Array_cell p2) ->
  arrays (heap s) !! p = Some l -> arrays (heap s) !! p2 = Some l2 ->
  Int64.in_range a -> Int64.in_range b ->
  Z.of_nat (length l) <= Int64.max_int ->
  Context.Error (ctx s) = None ->
  let len := Z.of_nat (length l) in
  let lo := spec_lower len a b in
  let hi := spec_upper len b in
  let n2 := Z.of_nat (length l2) in
  ∃ s1 : State,
    SetSlice v a b step val s = Returned true s1
    ∧ elements s1 v
      = Some (take (Z.to_nat lo) l ++ l2 ++ drop (Z.to_nat hi) l)
    ∧ (p ≠ p2 -> elements s1 val = Some l2)
    ∧ ctx s1 = ctx s ∧ values (heap s1) = values (heap s)
    ∧ returns_new_array (GetSlice v 0 lo 1) s1 (take (Z.to_nat lo) l)
    ∧ returns_new_array (GetSlice v lo (lo + n2) 1) s1 l2
    ∧ returns_new_array (GetSlice v (lo + n2) (lo + n2 + (len - hi)) 1) s1
        (drop (Z.to_nat hi) l).
Proof.
  intros Hv Hval Hp Hp2 Ha Hb Hmax Herr len lo hi n2.
  destruct (spec_bounds_ordered len a b) as [Hlo Hhi]; [unfold len; lia|].
  fold lo hi in Hlo, Hhi.
  set (pre := take (Z.to_nat lo) l). set (post := drop (Z.to_nat hi) l).
  assert (Hpre : Z.of_nat (length pre) = lo)
    by (unfold pre; rewrite length_take; unfold len in *; lia).
  assert (Hpost : Z.of_nat (length post) = len - hi)
    by (unfold post; rewrite length_drop; unfold len in *; lia).
  set (s1 := with_heap (set_arrays (insert p (pre ++ l2 ++ post))) s).
  assert (Hv1 : cell s1 v = Some (Array_cell p)) by exact Hv.
  assert (Hp1 : arrays (heap s1) !! p = Some (pre ++ l2 ++ post))
    by apply lookup_insert_eq.
  assert (Herr1 : Context.Error (ctx s1) = None) by exact Herr.
  exists s1.
  split; [apply (SetSlice_spec s v val p p2 l l2 a b step); assumption|].
  split; [apply (elements_eq s1 v p); assumption|].
  split.
  { intros Hne. apply (elements_eq s1 val p2); [exact Hval|].
    simpl. rewrite lookup_insert_ne by exact Hne. exact Hp2. }
  split; [reflexivity|]. split; [reflexivity|].
  split; [|split].
  - apply returns_new_array_with.
    rewrite (GetSlice_array_eq s1 v p _ 0 lo 1 Hv1 Hp1 Herr1)
      by (rewrite ?length_app; lia).
    rewrite <- Hpre. rewrite elements_between_prefix. reflexivity.
  - apply returns_new_array_with.
    rewrite (GetSlice_array_eq s1 v p _ lo (lo + n2) 1 Hv1 Hp1 Herr1)
      by (rewrite ?length_app; unfold n2; lia).
    rewrite <- Hpre. unfold n2. rewrite elements_between_middle. reflexivity.
  - apply returns_new_array_with.
    rewrite (GetSlice_array_eq s1 v p _ (lo + n2) (lo + n2 + (len - hi)) 1
               Hv1 Hp1 Herr1)
      by (rewrite ?length_app; unfold n2; lia).
    rewrite <- Hpre, <- Hpost. unfold n2.
    rewrite app_assoc, <- Nat2Z.inj_add, <- length_app.
    rewrite elements_between_tail. reflexivity.
Qed.

Lemma SetSlice_replaces_witness :
  ∃ s1 : State,
    SetSlice (Some 4%positive) 1 (-1) 1 (Some 8%positive) array_and_bounds
    = Returned true s1
    ∧ elements s1 (Some 4%positive)
      = Some (take (Z.to_nat (spec_lower 3 1 (-1)))
                [Some 1%positive; Some 2%positive; Some 3%positive]
              ++ [Some 6%positive]
              ++ drop (Z.to_nat (spec_upper 3 (-1)))
                   [Some 1%positive; Some 2%positive; Some 3%positive])
    ∧ (1%positive ≠ 2%positive ->
       elements s1 (Some 8%positive) = Some [Some 6%positive])
    ∧ ctx s1 = ctx array_and_bounds
    ∧ values (heap s1) = values (heap array_and_bounds)
    ∧ returns_new_array (GetSlice (Some 4%positive) 0 (spec_lower 3 1 (-1)) 1) s1
        (take (Z.to_nat (spec_lower 3 1 (-1)))
           [Some 1%positive; Some 2%positive; Some 3%positive])
    ∧ returns_new_array
        (GetSlice (Some 4%positive) (spec_lower 3 1 (-1))
           (spec_lower 3 1 (-1) + 1) 1) s1 [Some 6%positive]
    ∧ returns_new_array
        (GetSlice (Some 4%positive) (spec_lower 3 1 (-1) + 1)
           (spec_lower 3 1 (-1) + 1 + (3 - spec_upper 3 (-1))) 1) s1
        (drop (Z.to_nat (spec_upper 3 (-1)))
           [Some 1%positive; Some 2%positive; Some 3%positive]).
Proof.
  apply (SetSlice_replaces array_and_bounds (Some 4%positive) (Some 8%positive)
           1%positive 2%positive
           [Some 1%positive; Some 2%positive; Some 3%positive]
           [Some 6%positive] 1 (-1) 1).
  - reflexivity.
  - reflexivity.
  - reflexivity.
  - reflexivity.
  - unfold Int64.in_range, Int64.min_int, Int64.max_int. lia.
  - unfold Int64.in_range, Int64.min_int, Int64.max_int. lia.
  - vm_compute. discriminate.
  - reflexivity.
Defined.

Lemma ReadArray_other (s : State) (v : ptr) (c : VMValue) :
  cell s v = Some c -> TypeId c ≠ VMTypeArray ->
  ReadArray v s = Returned (None, false) s.
Proof.
  intros Hv Hc. unfold ReadArray. go.
  destruct (decide _) as [|_]; [contradiction|]. reflexivity.
Qed.

(** X17. [SetSlice] checks its two operands before anything else, the
    target first: a target that is not an Array gives the error
    NotSliceAssignable, and a right-hand side that is not an Array the error
    ValueNotArray.  In both cases the call returns false and the heap is as
    it was. *)
Theorem SetSlice_rejects (s : State) (v val : ptr) (c cv : VMValue)
    (a b step : Z) :
  cell s v = Some c -> cell s val = Some cv ->
  (TypeId c ≠ VMTypeArray ->
   SetSlice v a b step val s
   = Returned false (with_ctx (Context.set_Error (Some NotSliceAssignable)) s))
  ∧ (∀ p : loc,
       c = Array_cell p -> TypeId cv ≠ VMTypeArray ->
       SetSlice v a b step val s
       = Returned false (with_ctx (Context.set_Error (Some ValueNotArray)) s)).
Proof.
  intros Hv Hval. split.
  - intros Hc. unfold SetSlice. go.
    rewrite (ReadArray_other s v c Hv Hc). go. reflexivity.
  - intros p -> Hcv. unfold SetSlice. go.
    rewrite (ReadArray_cell _ _ _ Hv). go. cbn [negb]. go.
    rewrite (ReadArray_other s val cv Hval Hcv). go. reflexivity.
Qed.

Lemma SetSlice_rejects_witness :
  SetSlice (Some 7%positive) 0 1 1 (Some 4%positive) array_and_bounds
  = Returned false
      (with_ctx (Context.set_Error (Some NotSliceAssignable)) array_and_bounds).
Proof.
  refine (proj1 (SetSlice_rejects array_and_bounds (Some 7%positive)
                   (Some 4%positive) (String_cell "x") (Array_cell 1%positive)
                   0 1 1 _ _) _).
  - reflexivity.
  - reflexivity.
  - discriminate.
Defined.

(** X18. [SetSliceEx] is [SetSlice] with optional bounds: an Undefined
    lower bound stands for 0 and an Undefined upper bound for the length of
    the target, so that with both Undefined the target ends up with the
    elements of the right-hand side and nothing else.  The target is checked
    before the bounds, and a bound that is neither Undefined nor an Int is
    refused, the lower one first. *)
Theorem SetSliceEx_defaults (s : State) (v a b val : ptr) (p : loc)
    (l : list ptr) (ca cb : VMValue) :
  cell s v = Some (Array_cell p) -> arrays (heap s) !! p = Some l ->
  cell s a = Some ca -> cell s b = Some cb ->
  let len := Z.of_nat (length l) in
  (∀ i j : Z,
     bound_of ca 0 = Some i -> bound_of cb len = Some j ->
     ∃ s2 : State, grows s s2 ∧ SetSliceEx v a b val s = SetSlice v i j 1 val s2)
  ∧ (∀ (p2 : loc) (l2 : list ptr),
       cell s val = Some (Array_cell p2) -> arrays (heap s) !! p2 = Some l2 ->
       len <= Int64.max_int ->
       TypeId ca = VMTypeUndefined -> TypeId cb = VMTypeUndefined ->
       ∃ s' : State,
         SetSliceEx v a b val s = Returned true s'
         ∧ elements s' v = Some l2 ∧ ctx s' = ctx s)
  ∧ (TypeId ca ≠ VMTypeUndefined -> TypeId ca ≠ VMTypeInt ->
     ∃ s' : State,
       SetSliceEx v a b val s = Returned false s'
       ∧ Context.Error (ctx s') = Some FirstIndexNotInt
       ∧ elements s' v = Some l)
  ∧ (∀ i : Z,
       bound_of ca 0 = Some i ->
       TypeId cb ≠ VMTypeUndefined -> TypeId cb ≠ VMTypeInt ->
       ∃ s' : State,
         SetSliceEx v a b val s = Returned false s'
         ∧ Context.Error (ctx s') = Some SecondIndexNotInt
         ∧ elements s' v = Some l)
  ∧ (∀ (w : ptr) (c : VMValue),
       cell s w = Some c -> TypeId c ≠ VMTypeArray ->
       ∃ s' : State,
         SetSliceEx w a b val s = Returned false s'
         ∧ Context.Error (ctx s') = Some NotSliceAssignable).
Proof.
  intros Hv Hp Ha Hb len.
  assert (Hel : elements s v = Some l) by (apply (elements_eq s v p); assumption).
  assert (Hdefault : ∀ s1, grows s s1 ->
            (l0 ← get_List (Some p); VMValueNewInt (Z.of_nat (length l0))) s1
            = VMValueNewInt len s1).
  { intros s1 G. rewrite bind_unfold.
    rewrite (get_List_array s1 p l) by (apply G; exact Hp). reflexivity. }
  assert (Hmain : ∀ i j : Z,
     bound_of ca 0 = Some i -> bound_of cb len = Some j ->
     ∃ s2 : State, grows s s2 ∧ SetSliceEx v a b val s = SetSlice v i j 1 val s2).
  { intros i j Hi Hj.
    destruct (resolve_bound s a ca 0 i (VMValueNewInt 0) Ha Hi eq_refl)
      as (a1 & s1 & E1 & G1 & Ha1).
    assert (Hb1 : cell s1 b = Some cb) by (apply G1; exact Hb).
    destruct (resolve_bound s1 b cb len j _ Hb1 Hj (Hdefault s1 G1))
      as (b2 & s2 & E2 & G2 & Hb2).
    exists s2. split; [apply (grows_trans s s1 s2); assumption|].
    unfold SetSliceEx. go. rewrite E1. go.
    rewrite (ReadArray_cell s1 v p) by (apply G1; exact Hv). go. cbn [negb].
    go. rewrite E2. go.
    rewrite (ReadInt_Int_cell s2 a1 i) by (apply G2; exact Ha1). go.
    cbn [negb]. go.
    rewrite (ReadInt_Int_cell s2 b2 j) by exact Hb2. go. reflexivity. }
  split; [exact Hmain|]. split; [|split; [|split]].
  - intros p2 l2 Hval Hp2 Hmax Hua Hub.
    destruct (Hmain 0 len) as (s2 & G & E).
    { unfold bound_of. rewrite Hua. reflexivity. }
    { unfold bound_of. rewrite Hub. reflexivity. }
    rewrite E.
    rewrite (SetSlice_spec s2 v val p p2 l l2 0 len 1);
      try (apply G; assumption); try exact Hmax.
    2,3: unfold Int64.in_range, Int64.min_int, Int64.max_int in *;
         unfold len in *; lia.
    eexists. split; [reflexivity|]. split.
    + apply (elements_eq _ v p); [apply G; exact Hv|].
      simpl. rewrite lookup_insert_eq. f_equal.
      fold len.
      replace (spec_lower len 0 len) with 0.
      2:{ unfold spec_lower, spec_bound. unfold len. 
          repeat match goal with
                 | |- context [?x <? ?y] => destruct (Z.ltb_spec x y)
                 end; lia. }
      replace (spec_upper len len) with len.
      2:{ unfold spec_upper, spec_bound. unfold len.
          repeat match goal with
                 | |- context [?x <? ?y] => destruct (Z.ltb_spec x y)
                 end; lia. }
      unfold len. rewrite Nat2Z.id, drop_all, app_nil_r. reflexivity.
    + apply G.
  - intros H1 H2.
    destruct (unresolved_bound s a ca (VMValueNewInt 0) Ha H1 H2) as [E1 Hread].
    assert (Hstep : ∃ (b2 : ptr) (s2 : State),
               (if decide (TypeId cb = VMTypeUndefined)
                then (l0 ← get_List (Some p);
                      VMValueNewInt (Z.of_nat (length l0)))
                else mret b) s = Returned b2 s2
               ∧ grows s s2).
    { destruct (decide (TypeId cb = VMTypeUndefined)).
      - rewrite (Hdefault s (grows_refl s)).
        eexists. eexists. split; [reflexivity|apply grows_with_value].
      - eexists. eexists. split; [reflexivity|apply grows_refl]. }
    destruct Hstep as (b2 & s2 & E2 & G2).
    exists (with_ctx (Context.set_Error (Some FirstIndexNotInt)) s2).
    split; [|split; [reflexivity|]].
    + unfold SetSliceEx. go. rewrite E1. go.
      rewrite (ReadArray_cell s v p Hv). go. cbn [negb]. go.
      rewrite E2. go. rewrite (Hread s2 G2). go. reflexivity.
    + apply (grows_elements s s2 v l G2 Hel).
  - intros i Hi H1 H2.
    destruct (resolve_bound s a ca 0 i (VMValueNewInt 0) Ha Hi eq_refl)
      as (a1 & s1 & E1 & G1 & Ha1).
    assert (Hb1 : cell s1 b = Some cb) by (apply G1; exact Hb).
    destruct (unresolved_bound s1 b cb
                (l0 ← get_List (Some p); VMValueNewInt (Z.of_nat (length l0)))
                Hb1 H1 H2) as [E2 Hread].
    exists (with_ctx (Context.set_Error (Some SecondIndexNotInt)) s1).
    split; [|split; [reflexivity|]].
    + unfold SetSliceEx. go. rewrite E1. go.
      rewrite (ReadArray_cell s1 v p) by (apply G1; exact Hv). go. cbn [negb].
      go. rewrite E2. go.
      rewrite (ReadInt_Int_cell s1 a1 i Ha1). go. cbn [negb]. go.
      rewrite (Hread s1 (grows_refl s1)). go. reflexivity.
    + apply (grows_elements s s1 v l G1 Hel).
  - intros w c Hw Hc.
    assert (Hstep : ∃ (a1 : ptr) (s1 : State),
               (if decide (TypeId ca = VMTypeUndefined)
                then VMValueNewInt 0 else mret a) s = Returned a1 s1
               ∧ grows s s1).
    { destruct (decide (TypeId ca = VMTypeUndefined)).
      - eexists. eexists. split; [reflexivity|apply grows_with_value].
      - eexists. eexists. split; [reflexivity|apply grows_refl]. }
    destruct Hstep as (a1 & s1 & E1 & G1).
    exists (with_ctx (Context.set_Error (Some NotSliceAssignable)) s1).
    split; [|reflexivity].
    unfold SetSliceEx. go. rewrite E1. go.
    rewrite (ReadArray_other s1 w c) by (try apply G1; assumption).
    go. reflexivity.
Qed.

Lemma SetSliceEx_defaults_witness :
  ∃ s' : State,
    SetSliceEx (Some 4%positive) (Some 5%positive) (Some 5%positive)
      (Some 8%positive) array_and_bounds = Returned true s'
    ∧ elements s' (Some 4%positive) = Some [Some 6%positive]
    ∧ ctx s' = ctx array_and_bounds.
Proof.
  refine (proj1 (proj2 (SetSliceEx_defaults array_and_bounds (Some 4%positive)
                          (Some 5%positive) (Some 5%positive) (Some 8%positive)
                          1%positive
                          [Some 1%positive; Some 2%positive; Some 3%positive]
                          Undefined_cell Undefined_cell _ _ _ _))
            2%positive [Some 6%positive] _ _ _ _ _).
  - reflexivity.
  - reflexivity.
  - reflexivity.
  - reflexivity.
  - reflexivity.
  - reflexivity.
  - vm_compute. discriminate.
  - reflexivity.
  - reflexivity.
Defined.

(** ** Attributes *)

(** X19. Reading an attribute that has no value gives a new Undefined
    value, never [nil]: on a computed value whose map is missing or lacks
    the name, and on a function value, where the map that is read is the
    one of the context and not one of the function.  On any other kind
    [GetAttr] returns [nil] and changes nothing, and so does [SetAttr] on
    any kind but a computed value: nothing is stored. *)
Theorem GetAttr_defaults (s : State) (v : ptr) (c : VMValue) (name : string) :
  cell s v = Some c ->
  (∀ (p : loc) (d : ComputedData.t),
     c = mkVMValue VMTypeComputedValue (IComputedData p) ->
     computeds (heap s) !! p = Some d ->
     unset (ComputedData.Attrs d) name ->
     returns_new (GetAttr v name) s Undefined_cell)
  ∧ (TypeId c = VMTypeFunction ->
     (unset (Context.attrs (ctx s)) name ->
      returns_new (GetAttr v name) s Undefined_cell)
     ∧ (∀ (m : ValueMap) (e : loc),
          Context.attrs (ctx s) = Some m ->
          fst (ValueMap_Get m name) = Some e ->
          GetAttr v name s = Returned (Some e) s))
  ∧ (TypeId c ≠ VMTypeComputedValue -> TypeId c ≠ VMTypeFunction ->
     GetAttr v name s = Returned None s)
  ∧ (TypeId c ≠ VMTypeComputedValue ->
     ∀ x : ptr, SetAttr v name x s = Returned None s).
Proof.
  intros Hv. split; [|split; [|split]].
  - intros p d -> Hp Hun.
    eapply returns_new_eq; [|apply new_value_returns].
    unfold GetAttr. go. rewrite (ReadComputed_cell _ _ _ Hv). go.
    rewrite (get_computed_eq _ _ _ Hp). go.
    unfold unset in Hun. destruct (ComputedData.Attrs d) as [m|].
    + rewrite Hun. reflexivity.
    + reflexivity.
  - intros Hc. split.
    + intros Hun. eapply returns_new_eq; [|apply new_value_returns].
      unfold GetAttr. go. rewrite Hc. go. unfold get_state.
      unfold unset in Hun. destruct (Context.attrs (ctx s)) as [m|].
      * rewrite Hun. reflexivity.
      * reflexivity.
    + intros m e Hm He. unfold GetAttr. go. rewrite Hc. go.
      unfold get_state. rewrite Hm, He. reflexivity.
  - intros H1 H2. unfold GetAttr. go.
    destruct (TypeId c); try reflexivity; contradiction.
  - intros H1 x. unfold SetAttr. go.
    destruct (TypeId c); try reflexivity; contradiction.
Qed.

Lemma GetAttr_defaults_witness :
  returns_new (GetAttr (Some 6%positive) "hp") containers Undefined_cell.
Proof.
  refine (proj1 (GetAttr_defaults containers (Some 6%positive)
                   (mkVMValue VMTypeComputedValue (IComputedData 1%positive))
                   "hp" _)
            1%positive (ComputedData.mk "x+1" None None 0) _ _ _).
  - reflexivity.
  - reflexivity.
  - reflexivity.
  - exact I.
Defined.

(** ** What a sub-evaluation hands back *)

(** X20. Executing a computed value runs a child that is entered with the
    flags and the callbacks of the parent, one level deeper, and the
    parent's count plus 200: through [Run] on the source when no bytecode
    is cached, the bytecode the child then holds being stored in the
    computed data; through [Evaluate] on the cached bytecode otherwise.
    Provided the child stops with the top of its stack inside the stack,
    the parser is called that once, and what comes back is: on an error of
    the child, [nil] and that very error in the parent, whose count is left
    alone; else a new cell that copies the top of the child's stack, or an
    Undefined value when that stack is empty, and the count of the child in
    the parent. *)
Theorem ComputedExecute_result
    (NewVM : Context.t)
    (Run : string -> Context.t -> Heap -> Context.t * Heap)
    (Evaluate : Context.t -> Heap -> Context.t * Heap)
    (s : State) (v : ptr) (p : loc) (d d1 : ComputedData.t) :
  cell s v = Some (mkVMValue VMTypeComputedValue (IComputedData p)) ->
  computeds (heap s) !! p = Some d ->
  let out := child_outcome Run Evaluate (ComputedData.Expr d)
               (ComputedData.code d) (ComputedData.codeIndex d)
               (callee_frame NewVM (ctx s) v 200) (heap s) in
  stack_in_bounds out.1 ->
  computeds out.2 !! p = Some d1 ->
  ∃ (r : ptr) (s' : State),
    ComputedExecute NewVM Run Evaluate v s = Returned r s'
    ∧ hands_back out.1 out.2 (ctx s) r s'
    ∧ calls s'
      = calls s ++ [child_call (ComputedData.Expr d) (ComputedData.code d)]
    ∧ computeds (heap s') !! p
      = Some (if ComputedData.code d is None
              then ComputedData.set_code (Context.code out.1)
                     (Context.codeIndex out.1) d1
              else d1).
Proof.
  intros Hv Hp out Hb Hd1. subst out. unfold ComputedExecute. go.
  rewrite (ReadComputed_cell _ _ _ Hv). go.
  unfold get_state at 1. go.
  rewrite (get_computed_eq _ _ _ Hp). go.
  unfold child_outcome, child_call in *.
  destruct (ComputedData.code d) as [bc|] eqn:Ebc.
  - cbn beta iota. go. unfold call_Evaluate at 1.
    match type of Hb with stack_in_bounds (?o).1 =>
      match goal with |- context [Evaluate ?vm ?h] =>
        change (Evaluate vm h) with o
      end;
      destruct o as [vm1 h1] eqn:Eout
    end.
    simpl in Hb, Hd1. go.
    match goal with |- context [finish vm1 ?s1] =>
      destruct (finish_hands_back vm1 s1 Hb) as (r & s' & E & H1 & H2 & H3 & _)
    end.
    rewrite E. exists r, s'. split; [reflexivity|]. split; [exact H1|].
    split; [rewrite H2; reflexivity|]. rewrite H3. exact Hd1.
  - cbn beta iota. go. unfold call_Run at 1.
    match type of Hb with stack_in_bounds (?o).1 =>
      match goal with |- context [Run ?e ?vm ?h] =>
        change (Run e vm h) with o
      end;
      destruct o as [vm1 h1] eqn:Eout
    end.
    simpl in Hb, Hd1. go.
    erewrite update_computed_eq by exact Hd1. go.
    match goal with |- context [finish vm1 ?s1] =>
      destruct (finish_hands_back vm1 s1 Hb) as (r & s' & E & H1 & H2 & H3 & _)
    end.
    rewrite E. exists r, s'. split; [reflexivity|]. split; [exact H1|].
    split; [rewrite H2; reflexivity|]. rewrite H3. simpl.
    apply lookup_insert_eq.
Qed.

Lemma ComputedExecute_result_witness :
  ∃ (r : ptr) (s' : State),
    ComputedExecute fresh_vm Run_literal Evaluate_literal (Some 6%positive)
      containers = Returned r s'
    ∧ hands_back
        (child_outcome Run_literal Evaluate_literal "x+1" None 0
           (callee_frame fresh_vm (ctx containers) (Some 6%positive) 200)
           (heap containers)).1
        (heap containers) (ctx containers) r s'
    ∧ calls s' = calls containers ++ [CallRun "x+1"]
    ∧ computeds (heap s') !! 1%positive
      = Some (ComputedData.mk "x+1" None (Some [mkByteCode 0 (IInt64 5)]) 1).
Proof.
  apply (ComputedExecute_result fresh_vm Run_literal Evaluate_literal containers
           (Some 6%positive) 1%positive (ComputedData.mk "x+1" None None 0)
           (ComputedData.mk "x+1" None None 0)).
  - reflexivity.
  - reflexivity.
  - intros _ _. simpl. lia.
  - reflexivity.
Defined.

Lemma ReadFunctionData_cell (s : State) (v : ptr) (p : loc) :
  cell s v = Some (mkVMValue VMTypeFunction (IFunctionData p)) ->
  ReadFunctionData v s = Returned (Some p, true) s.
Proof. intros H. unfold ReadFunctionData. go. reflexivity. Qed.

Lemma get_function_eq (s : State) (p : loc) (d : FunctionData.t) :
  functions (heap s) !! p = Some d -> get_function (Some p) s = Returned d s.
Proof. intros H. unfold get_function. rewrite H. reflexivity. Qed.

Lemma update_function_eq (s : State) (p : loc) (d : FunctionData.t)
    (f : FunctionData.t -> FunctionData.t) :
  functions (heap s) !! p = Some d ->
  update_function (Some p) f s
  = Returned tt (with_heap (set_functions (insert p (f d))) s).
Proof. intros H. unfold update_function. rewrite H. reflexivity. Qed.

(** The loop over the parameters: each name is put with its argument. *)
Lemma for_loop_bind (names : list string) (params : list ptr) (k i : nat)
    (acc : ValueMap) (s : State) :
  (i + k = length names)%nat -> length names = length params ->
  for_loop k (Z.of_nat i)
    (fun index m =>
       x ← elem_at names index;
       y ← elem_at params index;
       mret (ValueMap_Put m x y)) acc s
  = Returned
      (fold_left (fun m kp => ValueMap_Put m kp.1 kp.2)
         (zip (drop i names) (drop i params)) acc) s.
Proof.
  revert i acc. induction k as [|k IH]; intros i acc Hk Hlen.
  - simpl. rewrite !drop_ge by lia. reflexivity.
  - destruct (lookup_lt_is_Some_2 names i) as [x Hx]; [lia|].
    destruct (lookup_lt_is_Some_2 params i) as [y Hy]; [lia|].
    simpl for_loop. go.
    rewrite (elem_at_lookup names _ x) by (first [lia | rewrite Nat2Z.id; exact Hx]).
    go.
    rewrite (elem_at_lookup params _ y) by (first [lia | rewrite Nat2Z.id; exact Hy]).
    go. replace (Z.of_nat i + 1) with (Z.of_nat (S i)) by lia.
    etransitivity; [apply (IH (S i)); lia|].
    rewrite (drop_S names x i Hx), (drop_S params y i Hy). reflexivity.
Qed.

(** X21. Invoking a function checks the number of arguments first: when it
    differs from the number of parameters the call returns [nil] with the
    error ArityMismatch, and nothing else happens, the parser is not called
    and no count is charged.  Otherwise the body runs in a child whose map
    of attributes binds each parameter to the argument of its position, the
    pointer itself, and that is entered like the child of a computed value,
    with an entry tax of 100; the bytecode is compiled on the first call
    and stored in the function, and what comes back is a copy of the top of
    the child's stack, an Undefined value, or the child's error. *)
Theorem FuncInvoke_result
    (NewVM : Context.t)
    (Run : string -> Context.t -> Heap -> Context.t * Heap)
    (Evaluate : Context.t -> Heap -> Context.t * Heap)
    (s : State) (v : ptr) (p : loc) (d d1 : FunctionData.t)
    (params : list ptr) :
  cell s v = Some (mkVMValue VMTypeFunction (IFunctionData p)) ->
  functions (heap s) !! p = Some d ->
  (length (FunctionData.Params d) ≠ length params ->
   fails_with (FuncInvoke NewVM Run Evaluate v params) s ArityMismatch)
  ∧ (length (FunctionData.Params d) = length params ->
     let out := child_outcome Run Evaluate (FunctionData.Expr d)
                  (FunctionData.code d) (FunctionData.codeIndex d)
                  (callee_frame
                     (Context.set_attrs
                        (Some (bind_params (FunctionData.Params d) params))
                        NewVM)
                     (ctx s) v 100)
                  (heap s) in
     stack_in_bounds out.1 ->
     functions out.2 !! p = Some d1 ->
     ∃ (r : ptr) (s' : State),
       FuncInvoke NewVM Run Evaluate v params s = Returned r s'
       ∧ hands_back out.1 out.2 (ctx s) r s'
       ∧ calls s'
         = calls s ++ [child_call (FunctionData.Expr d) (FunctionData.code d)]
       ∧ functions (heap s') !! p
         = Some (if FunctionData.code d is None
                 then FunctionData.set_code (Context.code out.1)
                        (Context.codeIndex out.1) d1
                 else d1)).
Proof.
  intros Hv Hp. split.
  - intros Hne. unfold fails_with, FuncInvoke. go.
    rewrite (ReadFunctionData_cell _ _ _ Hv). go.
    rewrite (get_function_eq _ _ _ Hp). go.
    destruct (Z.eqb_spec (Z.of_nat (length (FunctionData.Params d)))
                (Z.of_nat (length params))) as [E|E]; [lia|].
    reflexivity.
  - intros Hlen out Hb Hd1. subst out. unfold FuncInvoke. go.
    rewrite (ReadFunctionData_cell _ _ _ Hv). go.
    rewrite (get_function_eq _ _ _ Hp). go.
    destruct (Z.eqb_spec (Z.of_nat (length (FunctionData.Params d)))
                (Z.of_nat (length params))) as [_|E]; [|lia].
    cbn [negb]. go. unfold for_range. rewrite Z.sub_0_r, Nat2Z.id.
    change 0 with (Z.of_nat 0).
    rewrite (for_loop_bind (FunctionData.Params d) params
               (length (FunctionData.Params d)) 0 [] s)
      by (try assumption; lia).
    rewrite !drop_0. fold (bind_params (FunctionData.Params d) params).
    go. unfold get_state at 1. go.
    rewrite (get_function_eq _ _ _ Hp). go.
    unfold child_outcome, child_call in *.
    destruct (FunctionData.code d) as [bc|] eqn:Ebc.
    + cbn beta iota. go. unfold call_Evaluate at 1.
      match type of Hb with stack_in_bounds (?o).1 =>
        match goal with |- context [Evaluate ?vm ?h] =>
          change (Evaluate vm h) with o
        end;
        destruct o as [vm1 h1] eqn:Eout
      end.
      simpl in Hb, Hd1. go.
      match goal with |- context [finish vm1 ?s1] =>
        destruct (finish_hands_back vm1 s1 Hb) as (r & s' & E & H1 & H2 & _ & H3)
      end.
      rewrite E. exists r, s'. split; [reflexivity|]. split; [exact H1|].
      split; [rewrite H2; reflexivity|]. rewrite H3. exact Hd1.
    + cbn beta iota. go. unfold call_Run at 1.
      match type of Hb with stack_in_bounds (?o).1 =>
        match goal with |- context [Run ?e ?vm ?h] =>
          change (Run e vm h) with o
        end;
        destruct o as [vm1 h1] eqn:Eout
      end.
      simpl in Hb, Hd1. go.
      erewrite update_function_eq by exact Hd1. go.
      match goal with |- context [finish vm1 ?s1] =>
        destruct (finish_hands_back vm1 s1 Hb) as (r & s' & E & H1 & H2 & _ & H3)
      end.
      rewrite E. exists r, s'. split; [reflexivity|]. split; [exact H1|].
      split; [rewrite H2; reflexivity|]. rewrite H3. simpl.
      apply lookup_insert_eq.
Qed.

Lemma FuncInvoke_result_witness :
  fails_with
    (FuncInvoke fresh_vm Run_literal Evaluate_literal (Some 2%positive) [])
    with_function ArityMismatch
  ∧ ∃ (r : ptr) (s' : State),
      FuncInvoke fresh_vm Run_literal Evaluate_literal (Some 2%positive)
        [Some 1%positive] with_function = Returned r s'
      ∧ hands_back
          (child_outcome Run_literal Evaluate_literal "x" None 0
             (callee_frame
                (Context.set_attrs (Some (bind_params ["x"] [Some 1%positive]))
                   fresh_vm)
                (ctx with_function) (Some 2%positive) 100)
             (heap with_function)).1
          (heap with_function) (ctx with_function) r s'
      ∧ calls s' = calls with_function ++ [CallRun "x"]
      ∧ functions (heap s') !! 1%positive
        = Some (FunctionData.mk "x" "f" ["x"]
                  (Some [mkByteCode 0 (IInt64 5)]) 1 None).
Proof.
  split.
  - refine (proj1 (FuncInvoke_result fresh_vm Run_literal Evaluate_literal
                     with_function (Some 2%positive) 1%positive
                     (FunctionData.mk "x" "f" ["x"] None 0 None)
                     (FunctionData.mk "x" "f" ["x"] None 0 None) [] _ _) _).
    + reflexivity.
    + reflexivity.
    + simpl. discriminate.
  - refine (proj2 (FuncInvoke_result fresh_vm Run_literal Evaluate_literal
                     with_function (Some 2%positive) 1%positive
                     (FunctionData.mk "x" "f" ["x"] None 0 None)
                     (FunctionData.mk "x" "f" ["x"] None 0 None)
                     [Some 1%positive] _ _) _ _ _).
    + reflexivity.
    + reflexivity.
    + reflexivity.
    + intros _ _. simpl. lia.
    + reflexivity.
Defined.

(** ** Native functions *)

Lemma ReadNativeFunctionData_cell (s : State) (v : ptr) (p : loc) :
  cell s v = Some (mkVMValue VMTypeNativeFunction (INativeFunctionData p)) ->
  ReadNativeFunctionData v s = Returned (Some p, true) s.
Proof. intros H. unfold ReadNativeFunctionData. go. reflexivity. Qed.

Lemma with_ctx_same (s : State) :
  with_ctx (fun c => Context.set_Error (Context.Error c) c) s = s.
Proof. destruct s as [c h k]. destruct c. reflexivity. Qed.

(** X22. Invoking a native function checks the number of arguments first:
    when it differs from the number of parameters the function is not
    called, and the result is [nil] with the error ArityMismatch.  Otherwise
    the function is called on the arguments, and once it has returned: with
    an error in the context the result is [nil], whatever the function
    returned; with no error the result is what the function returned, or a
    new Undefined value when that is [nil].  So the result is [nil] exactly
    when an error is pending on return.  A function value that is [nil]
    makes the call panic. *)
Theorem FuncInvokeNative_result (natives : gmap loc NativeFunctionData.t)
    (s : State) (v : ptr) (p : loc) (d : NativeFunctionData.t)
    (params : list ptr) :
  cell s v = Some (mkVMValue VMTypeNativeFunction (INativeFunctionData p)) ->
  natives !! p = Some d ->
  (length (NativeFunctionData.Params d) ≠ length params ->
   fails_with (FuncInvokeNative natives v params) s ArityMismatch)
  ∧ (length (NativeFunctionData.Params d) = length params ->
     (NativeFunctionData.NativeFunc d = None ->
      FuncInvokeNative natives v params s = Panicked NilDereference)
     ∧ ∀ (f : list ptr -> Go ptr) (ret : ptr) (s1 : State),
         NativeFunctionData.NativeFunc d = Some f ->
         f params s = Returned ret s1 ->
         FuncInvokeNative natives v params s
         = match Context.Error (ctx s1), ret with
           | Some _, _ => Returned None s1
           | None, Some _ => Returned ret s1
           | None, None =>
               Returned (Some (next_value s1)) (with_value Undefined_cell s1)
           end)
  ∧ (∀ (r : ptr) (s' : State),
       FuncInvokeNative natives v params s = Returned r s' ->
       r = None ↔ Context.Error (ctx s') ≠ None).
Proof.
  intros Hv Hp.
  assert (Hstart : FuncInvokeNative natives v params s
            = (if negb (Z.of_nat (length (NativeFunctionData.Params d))
                        =? Z.of_nat (length params))
               then set_Error ArityMismatch;; mret None
               else
                 ret ← call_native (NativeFunctionData.NativeFunc d) params;
                 err ← get_Error;
                 if err is Some _
                 then modify (with_ctx (fun c =>
                        Context.set_Error (Context.Error c) c));; mret None
                 else if ret is None then VMValueNewUndefined else mret ret) s).
  { unfold FuncInvokeNative. go.
    rewrite (ReadNativeFunctionData_cell _ _ _ Hv). go.
    unfold get_native at 1. rewrite Hp. reflexivity. }
  assert (Hcall : ∀ (f : list ptr -> Go ptr) (ret : ptr) (s1 : State),
            length (NativeFunctionData.Params d) = length params ->
            NativeFunctionData.NativeFunc d = Some f ->
            f params s = Returned ret s1 ->
            FuncInvokeNative natives v params s
            = match Context.Error (ctx s1), ret with
              | Some _, _ => Returned None s1
              | None, Some _ => Returned ret s1
              | None, None =>
                  Returned (Some (next_value s1)) (with_value Undefined_cell s1)
              end).
  { intros f ret s1 Hlen Hf Hret. rewrite Hstart.
    destruct (Z.eqb_spec (Z.of_nat (length (NativeFunctionData.Params d)))
                (Z.of_nat (length params))) as [_|E]; [|lia].
    cbn [negb]. rewrite bind_unfold, Hf. simpl call_native. rewrite Hret.
    go. rewrite get_Error_eq.
    destruct (Context.Error (ctx s1)) as [e|] eqn:Ee.
    - go. unfold modify. rewrite with_ctx_same. reflexivity.
    - destruct ret; reflexivity. }
  split; [|split].
  - intros Hne. unfold fails_with. rewrite Hstart.
    destruct (Z.eqb_spec (Z.of_nat (length (NativeFunctionData.Params d)))
                (Z.of_nat (length params))) as [E|E]; [lia|].
    reflexivity.
  - intros Hlen. split.
    + intros Hf. rewrite Hstart.
      destruct (Z.eqb_spec (Z.of_nat (length (NativeFunctionData.Params d)))
                  (Z.of_nat (length params))) as [_|E]; [|lia].
      cbn [negb]. rewrite bind_unfold, Hf. reflexivity.
    + intros f ret s1 Hf Hret. apply (Hcall f ret s1); assumption.
  - intros r s'.
    destruct (decide (length (NativeFunctionData.Params d) = length params))
      as [Hlen|Hne].
    + destruct (NativeFunctionData.NativeFunc d) as [f|].
      * destruct (f params s) as [ret s1|pn] eqn:Hret.
        -- rewrite (Hcall f ret s1 Hlen eq_refl Hret).
           destruct (Context.Error (ctx s1)) as [e|] eqn:Ee.
           ++ intros [= <- <-]. rewrite Ee. split; [discriminate|reflexivity].
           ++ destruct ret as [l|].
              ** intros [= <- <-]. rewrite Ee. split; [discriminate|].
                 intros H. contradiction.
              ** intros [= <- <-]. simpl. rewrite Ee.
                 split; [discriminate|]. intros H. contradiction.
        -- rewrite Hstart.
           destruct (Z.eqb_spec (Z.of_nat (length (NativeFunctionData.Params d)))
                       (Z.of_nat (length params))) as [_|E]; [|lia].
           cbn [negb]. rewrite bind_unfold. simpl call_native.
           rewrite Hret. discriminate.
      * rewrite Hstart.
        destruct (Z.eqb_spec (Z.of_nat (length (NativeFunctionData.Params d)))
                    (Z.of_nat (length params))) as [_|E]; [|lia].
        cbn [negb]. rewrite bind_unfold. discriminate.
    + rewrite Hstart.
      destruct (Z.eqb_spec (Z.of_nat (length (NativeFunctionData.Params d)))
                  (Z.of_nat (length params))) as [E|E]; [lia|].
      intros [= <- <-]. simpl. split; [discriminate|reflexivity].
Qed.

Lemma FuncInvokeNative_result_witness :
  fails_with (FuncInvokeNative sample_natives (Some 2%positive) []) with_native
    ArityMismatch
  ∧ FuncInvokeNative sample_natives (Some 2%positive) [Some 1%positive]
      with_native = Returned (Some 1%positive) with_native.
Proof.
  split.
  - refine (proj1 (FuncInvokeNative_result sample_natives with_native
                     (Some 2%positive) 1%positive
                     (NativeFunctionData.mk "first" ["a"]
                        (Some (fun params : list ptr =>
                                 mret (default None (params !! 0%nat)))))
                     [] _ _) _).
    + reflexivity.
    + reflexivity.
    + simpl. discriminate.
  - refine (proj2 (proj1 (proj2 (FuncInvokeNative_result sample_natives
                     with_native (Some 2%positive) 1%positive
                     (NativeFunctionData.mk "first" ["a"]
                        (Some (fun params : list ptr =>
                                 mret (default None (params !! 0%nat)))))
                     [Some 1%positive] _ _)) _)
              (fun params : list ptr => mret (default None (params !! 0%nat)))
              (Some 1%positive) with_native _ _).
    + reflexivity.
    + reflexivity.
    + reflexivity.
    + reflexivity.
    + reflexivity.
Defined.

(** ** The table of the binary operators *)

(** X23. An operator of the table that has no case for the kinds of its
    operands returns [nil] and changes nothing: no error is set and no cell
    is created.  This is so for every operator but [==] and [!=], which
    have an answer for every pair: the ten others answer on pairs of
    numbers only, the modulus on two Ints only, with the addition of two
    Strings or two Arrays and the multiplication of an Array and an Int as
    the other cases. *)
Theorem binOperator_no_case
    (math_Pow : spec_float -> spec_float -> spec_float)
    (i : nat) (op : ptr -> ptr -> Go ptr)
    (s : State) (v v2 : ptr) (c1 c2 : VMValue) :
  binOperator math_Pow !! i = Some op ->
  cell s v = Some c1 -> cell s v2 = Some c2 ->
  has_case i (TypeId c1) (TypeId c2) = false ->
  op v v2 s = Returned None s.
Proof.
  intros Hop Hv Hv2 Hcase.
  destruct c1 as [t x], c2 as [t2 x2]. simpl in Hcase.
  destruct i as [|[|[|[|[|[|[|[|[|[|[|[|i]]]]]]]]]]]];
    [..|discriminate Hop]; injection Hop as <-;
    try discriminate Hcase;
    unfold OpAdd, OpSub, OpMultiply, OpDivide, OpModulus, OpPower,
      OpCompLT, OpCompLE, OpCompGE, OpCompGT, compare_numbers;
    destruct t; try (go; reflexivity);
    destruct t2; try discriminate Hcase; go;
    try reflexivity;
    unfold ArrayRepeatTimesEx; go; reflexivity.
Qed.

Lemma binOperator_no_case_witness :
  OpCompLT (Some 5%positive) (Some 1%positive) sample_values
  = Returned None sample_values.
Proof.
  apply (binOperator_no_case (fun a _ => a) 6 OpCompLT sample_values
           (Some 5%positive) (Some 1%positive)
           (String_cell "dice") (Int_cell 10)).
  - reflexivity.
  - reflexivity.
  - reflexivity.
  - reflexivity.
Defined.

(** ** Constructors and readers *)

Lemma VMValueNewArrayRaw_eq (l : list ptr) (s : State) :
  VMValueNewArrayRaw l s = Returned (Some (next_value s)) (with_array l s).
Proof. reflexivity. Qed.

(** X24. The readers invert the constructors: a value built from an
    integer, a float, a string, a list of elements or the source of a
    computed value is read back with the flag true and what it was built
    from; an Undefined and a Null value carry no payload.  A reader applied
    to a value of another kind does not panic: it returns the flag false
    with the zero value of its type, and changes nothing. *)
Theorem readers_invert_constructors (s : State) :
  (∀ i : Z,
     ∃ s', (x ← VMValueNewInt i; ReadInt x) s = Returned (i, true) s'
           ∧ grows s s')
  ∧ (∀ f : spec_float,
       ∃ s', (x ← VMValueNewFloat f; ReadFloat x) s = Returned (f, true) s'
             ∧ grows s s')
  ∧ (∀ str : string,
       ∃ s', (x ← VMValueNewStr str; ReadString x) s = Returned (str, true) s'
             ∧ grows s s')
  ∧ (∀ l : list ptr,
       ∃ s', (x ← VMValueNewArray l;
              '(arr, ok) ← ReadArray x;
              l' ← get_List arr;
              mret (l', ok)) s = Returned (l, true) s'
             ∧ grows s s')
  ∧ (∀ l : list ptr,
       ∃ s', (x ← VMValueNewArrayRaw l;
              '(arr, ok) ← ReadArray x;
              l' ← get_List arr;
              mret (l', ok)) s = Returned (l, true) s'
             ∧ grows s s')
  ∧ (∀ expr : string,
       ∃ s', (x ← VMValueNewComputed expr;
              '(cd, ok) ← ReadComputed x;
              d ← get_computed cd;
              mret (d, ok)) s
             = Returned (ComputedData.mk expr None None 0, true) s'
             ∧ grows s s')
  ∧ (∃ s', (x ← VMValueNewUndefined; deref x) s = Returned Undefined_cell s')
  ∧ (∃ s', (x ← VMValueNewNull; deref x) s
           = Returned (mkVMValue VMTypeNull INil) s')
  ∧ (∀ (v : ptr) (c : VMValue),
       cell s v = Some c ->
       (TypeId c ≠ VMTypeInt -> ReadInt v s = Returned (0, false) s)
       ∧ (TypeId c ≠ VMTypeFloat ->
          ReadFloat v s = Returned (Float64.zero, false) s)
       ∧ (TypeId c ≠ VMTypeString -> ReadString v s = Returned ("", false) s)
       ∧ (TypeId c ≠ VMTypeArray -> ReadArray v s = Returned (None, false) s)
       ∧ (TypeId c ≠ VMTypeComputedValue ->
          ReadComputed v s = Returned (None, false) s)
       ∧ (TypeId c ≠ VMTypeFunction ->
          ReadFunctionData v s = Returned (None, false) s)
       ∧ (TypeId c ≠ VMTypeNativeFunction ->
          ReadNativeFunctionData v s = Returned (None, false) s)).
Proof.
  split; [|split; [|split; [|split; [|split; [|split; [|split; [|split]]]]]]].
  - intros i. eexists. split; [|apply (grows_with_value s (Int_cell i))].
    rewrite bind_unfold. unfold VMValueNewInt. rewrite new_value_eq.
    apply ReadInt_Int_cell, cell_with_value_new.
  - intros f. eexists.
    split; [|apply (grows_with_value s (mkVMValue VMTypeFloat (IFloat64 f)))].
    rewrite bind_unfold. unfold VMValueNewFloat. rewrite new_value_eq.
    unfold ReadFloat.
    rewrite bind_unfold, (deref_cell _ _ _ (cell_with_value_new s _)).
    reflexivity.
  - intros str. eexists. split; [|apply (grows_with_value s (String_cell str))].
    rewrite bind_unfold. unfold VMValueNewStr. rewrite new_value_eq.
    apply ReadString_cell, cell_with_value_new.
  - intros l. eexists. split; [|apply (grows_with_array s l)].
    rewrite bind_unfold, VMValueNewArray_eq.
    rewrite bind_unfold, (ReadArray_cell _ _ _ (cell_with_array_new s l)).
    cbn beta iota.
    rewrite bind_unfold, (get_List_array _ _ _ (arrays_with_array_new s l)).
    reflexivity.
  - intros l. eexists. split; [|apply (grows_with_array s l)].
    rewrite bind_unfold, VMValueNewArrayRaw_eq.
    rewrite bind_unfold, (ReadArray_cell _ _ _ (cell_with_array_new s l)).
    cbn beta iota.
    rewrite bind_unfold, (get_List_array _ _ _ (arrays_with_array_new s l)).
    reflexivity.
  - intros expr.
    set (s1 := with_heap
                 (set_computeds
                    (insert (fresh (dom (computeds (heap s))))
                       (ComputedData.mk expr None None 0))) s).
    exists (with_value
              (mkVMValue VMTypeComputedValue
                 (IComputedData (fresh (dom (computeds (heap s)))))) s1).
    split.
    + rewrite bind_unfold. unfold VMValueNewComputed.
      rewrite bind_unfold. unfold new_computed at 1. fold s1.
      rewrite new_value_eq.
      rewrite bind_unfold,
        (ReadComputed_cell _ _ _ (cell_with_value_new s1 _)).
      cbn beta iota.
      rewrite bind_unfold, (get_computed_eq _ _ (ComputedData.mk expr None None 0)).
      * reflexivity.
      * simpl. apply lookup_insert_eq.
    + split; [reflexivity|]. split.
      * intros w c H. apply (cell_with_value_old s1 w c). exact H.
      * intros p l H. exact H.
  - eexists. rewrite bind_unfold. unfold VMValueNewUndefined.
    rewrite new_value_eq. apply deref_cell, cell_with_value_new.
  - eexists. rewrite bind_unfold. unfold VMValueNewNull.
    rewrite new_value_eq. apply deref_cell, cell_with_value_new.
  - intros v c Hv.
    unfold ReadInt, ReadFloat, ReadString, ReadArray, ReadComputed,
      ReadFunctionData, ReadNativeFunctionData.
    repeat split; intros Hc; go;
      (destruct (decide _) as [|_]; [contradiction|reflexivity]).
Qed.

(** ** The text of a value *)

Section Rendering.

Variable natives : gmap loc NativeFunctionData.t.
Variable strconv_FormatFloat : spec_float -> string.

Lemma ToString_leaf (m m' : nat) (i : ptr) (s : State) (c : VMValue) :
  (1 <= m)%nat -> (1 <= m')%nat ->
  cell s i = Some c -> TypeId c ≠ VMTypeArray ->
  ToString_fuel natives strconv_FormatFloat m i s
  = ToString_fuel natives strconv_FormatFloat m' i s.
Proof.
  intros Hm Hm' Hi Hc.
  destruct m as [|k]; [lia|]. destruct m' as [|k']; [lia|].
  destruct i as [l|]; [|reflexivity].
  cbn [ToString_fuel]. go.
  destruct (TypeId c); try reflexivity. contradiction.
Qed.

Lemma range_loop_ext {A S : Type} (b1 b2 : S -> A -> Go S) (l : list A)
    (acc : S) (s : State) :
  (∀ acc x s, b1 acc x s = b2 acc x s) ->
  range_loop b1 l acc s = range_loop b2 l acc s.
Proof.
  intros Hb. revert acc s. induction l as [|x l IH]; intros acc s; simpl.
  - reflexivity.
  - rewrite !bind_unfold, Hb. destruct (b2 acc x s); [apply IH|reflexivity].
Qed.

Lemma ToString_fuel_above (m m' : nat) (v : ptr) (s : State) :
  (1 <= m)%nat -> (1 <= m')%nat ->
  ToString_fuel natives strconv_FormatFloat (S m) v s
  = ToString_fuel natives strconv_FormatFloat (S m') v s.
Proof.
  intros Hm Hm'. destruct v as [l|]; [|reflexivity].
  cbn [ToString_fuel]. rewrite !bind_unfold.
  destruct (deref (Some l) s) as [c s1|]; [|reflexivity].
  destruct (TypeId c); try reflexivity.
  rewrite !bind_unfold. destruct (ReadArray (Some l) s1) as [[arr ok] s2|];
    [|reflexivity].
  cbn beta iota. rewrite !bind_unfold.
  destruct (get_List arr s2) as [els s3|]; [|reflexivity].
  rewrite !bind_unfold.
  match goal with
  | |- match range_loop ?b1 els ?acc s3 with _ => _ end
       = match range_loop ?b2 els ?acc s3 with _ => _ end =>
      rewrite (range_loop_ext b1 b2 els acc s3); [reflexivity|]
  end.
  intros acc x t. rewrite !bind_unfold.
  destruct (deref x t) as [ci t1|] eqn:Ed; [|reflexivity].
  apply deref_inv in Ed as [-> Hx].
  destruct (decide (TypeId ci = VMTypeArray)) as [|Hne]; [reflexivity|].
  rewrite !bind_unfold. rewrite (ToString_leaf m m' x t ci Hm Hm' Hx Hne).
  reflexivity.
Qed.

Lemma ToString_enough (n : nat) (v : ptr) (s : State) :
  ToString_fuel natives strconv_FormatFloat (2 + n) v s
  = ToString natives strconv_FormatFloat v s.
Proof.
  unfold ToString. apply (ToString_fuel_above (1 + n) 1 v s); lia.
Qed.

Lemma pure_read_as_int64 (x : iface) : pure_read (as_int64 x).
Proof. destruct x; first [apply pure_read_ret | apply pure_read_throw]. Qed.

Lemma pure_read_as_float64 (x : iface) : pure_read (as_float64 x).
Proof. destruct x; first [apply pure_read_ret | apply pure_read_throw]. Qed.

Lemma pure_read_as_string (x : iface) : pure_read (as_string x).
Proof. destruct x; first [apply pure_read_ret | apply pure_read_throw]. Qed.

Lemma pure_read_ReadArray (v : ptr) : pure_read (ReadArray v).
Proof.
  unfold ReadArray. apply pure_read_bind; [apply pure_read_deref|].
  intros c. destruct (decide _); [|apply pure_read_ret].
  apply pure_read_bind; [|intros; apply pure_read_ret].
  destruct (Value c); first [apply pure_read_ret | apply pure_read_throw].
Qed.

Lemma pure_read_ReadNativeFunctionData (v : ptr) :
  pure_read (ReadNativeFunctionData v).
Proof.
  unfold ReadNativeFunctionData. apply pure_read_bind; [apply pure_read_deref|].
  intros c. destruct (decide _); [|apply pure_read_ret].
  apply pure_read_bind; [|intros; apply pure_read_ret].
  destruct (Value c); first [apply pure_read_ret | apply pure_read_throw].
Qed.

Lemma pure_read_get_List (arr : option loc) : pure_read (get_List arr).
Proof.
  intros s a s'. unfold get_List. destruct arr as [l|]; [|discriminate].
  destruct (arrays (heap s) !! l); [|discriminate].
  intros [= _ ->]. reflexivity.
Qed.

Lemma pure_read_get_native (cd : option loc) : pure_read (get_native natives cd).
Proof.
  intros s a s'. unfold get_native. destruct cd as [l|]; [|discriminate].
  destruct (natives !! l); [|discriminate].
  intros [= _ ->]. reflexivity.
Qed.

Lemma pure_read_range_loop {A S : Type} (body : S -> A -> Go S) (l : list A)
    (acc : S) :
  (∀ a x, pure_read (body a x)) -> pure_read (range_loop body l acc).
Proof.
  intros Hb. revert acc. induction l as [|x l IH]; intros acc; simpl.
  - apply pure_read_ret.
  - apply pure_read_bind; [apply Hb|]. intros a. apply IH.
Qed.

Lemma pure_read_ToString_fuel (n : nat) (v : ptr) :
  pure_read (ToString_fuel natives strconv_FormatFloat n v).
Proof.
  revert v. induction n as [|n IH]; intros v; [apply pure_read_ret|].
  cbn [ToString_fuel]. destruct v as [l|]; [|apply pure_read_ret].
  apply pure_read_bind; [apply pure_read_deref|]. intros c.
  destruct (TypeId c).
  - apply pure_read_bind; [apply pure_read_as_int64|].
    intros; apply pure_read_ret.
  - apply pure_read_bind; [apply pure_read_as_float64|].
    intros; apply pure_read_ret.
  - apply pure_read_as_string.
  - apply pure_read_ret.
  - apply pure_read_ret.
  - apply pure_read_bind; [apply pure_read_ReadComputed|]. intros [cd ok].
    apply pure_read_bind; [apply pure_read_get_computed|].
    intros; apply pure_read_ret.
  - apply pure_read_bind; [apply pure_read_ReadArray|]. intros [arr ok].
    apply pure_read_bind; [apply pure_read_get_List|]. intros els.
    apply pure_read_bind; [|intros; apply pure_read_ret].
    apply pure_read_range_loop. intros r i.
    apply pure_read_bind; [apply pure_read_deref|]. intros ci.
    apply pure_read_bind.
    + destruct (decide _); [apply pure_read_ret|].
      apply pure_read_bind; [apply IH|]. intros; apply pure_read_ret.
    + intros str. apply pure_read_bind; [apply pure_read_get_List|].
      intros; apply pure_read_ret.
  - apply pure_read_bind; [apply pure_read_ReadFunctionData|]. intros [cd ok].
    apply pure_read_bind; [apply pure_read_get_function|].
    intros; apply pure_read_ret.
  - apply pure_read_bind; [apply pure_read_ReadNativeFunctionData|].
    intros [cd ok].
    apply pure_read_bind; [apply pure_read_get_native|].
    intros; apply pure_read_ret.
Qed.

End Rendering.

Lemma string_app_assoc (a b c : string) : ((a ++ b) ++ c = a ++ (b ++ c))%string.
Proof.
  induction a as [|x a IH]; [reflexivity|].
  change (String x ((a ++ b) ++ c) = String x (a ++ (b ++ c)))%string.
  f_equal. exact IH.
Qed.

Lemma string_app_empty (t : string) : (t ++ "")%string = t.
Proof.
  induction t as [|x t IH]; [reflexivity|].
  change (String x (t ++ "") = String x t)%string. f_equal. exact IH.
Qed.

Lemma join_comma_cons (x : string) (l : list string) :
  l ≠ [] -> join_comma (x :: l) = (x ++ ", " ++ join_comma l)%string.
Proof. destruct l; [contradiction|reflexivity]. Qed.

Lemma to_int_not_nil (z : Z) :
  Z.to_int z ≠ Decimal.Pos Decimal.Nil ∧ Z.to_int z ≠ Decimal.Neg Decimal.Nil.
Proof.
  destruct z as [|p|p]; simpl; split; try discriminate;
    intros [= E]; exact (DecimalPos.Unsigned.to_uint_nonnil p E).
Qed.

Lemma strconv_FormatInt_inj (i j : Z) :
  strconv_FormatInt i = strconv_FormatInt j -> i = j.
Proof.
  unfold strconv_FormatInt. intros E.
  apply DecimalZ.to_int_inj.
  destruct (to_int_not_nil i) as [Hi1 Hi2], (to_int_not_nil j) as [Hj1 Hj2].
  pose proof (DecimalString.NilZero.isi (Z.to_int i) Hi1 Hi2) as Pi.
  pose proof (DecimalString.NilZero.isi (Z.to_int j) Hj1 Hj2) as Pj.
  rewrite E in Pi. congruence.
Qed.

Section RenderingArrays.

Variable natives : gmap loc NativeFunctionData.t.
Variable strconv_FormatFloat : spec_float -> string.

Lemma ToString_element (m : nat) (x : ptr) (s : State) (c : VMValue)
    (str : string) :
  (1 <= m)%nat ->
  cell s x = Some c -> TypeId c ≠ VMTypeArray ->
  render_element strconv_FormatFloat c = Some str ->
  ToString_fuel natives strconv_FormatFloat m x s = Returned str s.
Proof.
  intros Hm Hx Hc Hr. destruct m as [|k]; [lia|].
  destruct x as [l|]; [|discriminate Hx].
  cbn [ToString_fuel]. go. unfold render_element in Hr.
  destruct c as [t y]; simpl in *.
  destruct t; try discriminate Hr; try contradiction;
    try (injection Hr as <-; reflexivity);
    destruct y; try discriminate Hr; injection Hr as <-; reflexivity.
Qed.

Lemma render_loop (m : nat) (p : loc) (l rest : list ptr) (cs : list VMValue)
    (strs : list string) (t : string) (k : nat) (s : State) :
  (1 <= m)%nat ->
  arrays (heap s) !! p = Some l ->
  length l = (k + length rest)%nat ->
  Forall2 (fun x c => cell s x = Some c) rest cs ->
  Forall2 (fun c str => render_element strconv_FormatFloat c = Some str) cs strs ->
  range_loop
    (fun r i =>
       ci ← deref i;
       s ← (if decide (TypeId ci = VMTypeArray)
            then mret (text r ++ "[...]")%string
            else
              e ← ToString_fuel natives strconv_FormatFloat m i;
              mret (text r ++ e)%string);
       l' ← get_List (Some p);
       mret (mkRendering
               (if negb (position r =? Z.of_nat (length l') - 1)
                then (s ++ ", ")%string else s)
               (position r + 1)))
    rest (mkRendering t (Z.of_nat k)) s
  = Returned (mkRendering (t ++ join_comma strs) (Z.of_nat (length l))) s.
Proof.
  intros Hm Hp. revert cs strs t k.
  induction rest as [|x rest IH]; intros cs strs t k Hlen Hcs Hstrs.
  - apply Forall2_nil_inv_l in Hcs as ->. apply Forall2_nil_inv_l in Hstrs as ->.
    simpl. rewrite Nat.add_0_r in Hlen. rewrite Hlen.
    rewrite string_app_empty. reflexivity.
  - apply Forall2_cons_inv_l in Hcs as (c & cs' & Hx & Hcs & ->).
    apply Forall2_cons_inv_l in Hstrs as (str & strs' & Hr & Hstrs & ->).
    simpl in Hlen. cbn [range_loop]. go.
    assert (Hstep : (if decide (TypeId c = VMTypeArray)
                     then mret (t ++ "[...]")%string
                     else
                       e ← ToString_fuel natives strconv_FormatFloat m x;
                       mret (t ++ e)%string) s
                    = Returned (t ++ str)%string s).
    { destruct (decide (TypeId c = VMTypeArray)) as [E|E].
      - unfold render_element in Hr. rewrite E in Hr.
        injection Hr as <-. reflexivity.
      - rewrite bind_unfold, (ToString_element m x s c str Hm Hx E Hr).
        reflexivity. }
    cbn [text position]. rewrite Hstep. go.
    rewrite (get_List_array _ _ _ Hp). go.
    replace (Z.of_nat k + 1) with (Z.of_nat (S k)) by lia.
    destruct rest as [|y rest'].
    + apply Forall2_nil_inv_l in Hcs as ->.
      apply Forall2_nil_inv_l in Hstrs as ->.
      destruct (Z.eqb_spec (Z.of_nat k) (Z.of_nat (length l) - 1)) as [_|E];
        [|simpl in Hlen; lia].
      cbn [negb]. simpl. rewrite Hlen. simpl.
      replace (k + 1)%nat with (S k) by lia. reflexivity.
    + destruct (Z.eqb_spec (Z.of_nat k) (Z.of_nat (length l) - 1)) as [E|_];
        [simpl in Hlen; lia|].
      cbn [negb].
      etransitivity;
        [apply (IH cs' strs' ((t ++ str) ++ ", ")%string (S k));
         [simpl in *; lia|exact Hcs|exact Hstrs]|].
      rewrite join_comma_cons.
      * rewrite !string_app_assoc. reflexivity.
      * intros ->. apply Forall2_nil_inv_r in Hstrs as ->.
        apply Forall2_nil_inv_r in Hcs. discriminate Hcs.
Qed.

(** X25. The text of an array is an opening bracket, the texts of the
    elements separated by a comma and a space, and a closing bracket.  An
    Int is written in decimal, a String as it is, and an element that is
    itself an array as [[...]], whatever it holds: the text of an array
    that contains itself is finite.  Nothing is changed by the reading. *)
Theorem ToString_array_text (s : State) (v : ptr) (p : loc) (l : list ptr)
    (cs : list VMValue) (strs : list string) :
  cell s v = Some (Array_cell p) -> arrays (heap s) !! p = Some l ->
  Forall2 (fun x c => cell s x = Some c) l cs ->
  Forall2 (fun c str => render_element strconv_FormatFloat c = Some str) cs strs ->
  ToString natives strconv_FormatFloat v s
  = Returned ("[" ++ join_comma strs ++ "]")%string s.
Proof.
  unfold Array_cell. intros Hv Hp Hcs Hstrs.
  assert (H : ∀ m : nat, (1 <= m)%nat ->
            ToString_fuel natives strconv_FormatFloat (S m) v s
            = Returned ("[" ++ join_comma strs ++ "]")%string s).
  { intros m Hm. destruct v as [lv|]; [|discriminate Hv].
    cbn [ToString_fuel]. go.
    rewrite (ReadArray_cell _ _ _ Hv). go.
    rewrite (get_List_array _ _ _ Hp). go.
    change 0 with (Z.of_nat 0).
    rewrite (render_loop m p l l cs strs "[" 0 s Hm Hp eq_refl Hcs Hstrs).
    go. cbn [text]. rewrite string_app_assoc. reflexivity. }
  apply (H 1%nat). lia.
Qed.

(** X26. [ToString] calls itself one level deep and no more: with any
    bound of two calls or more on the depth, the result is the one with the
    bound two, on every value and in every state, so that the text is
    defined also for an array that contains itself.  It changes nothing in
    the state, the text of [nil] is [NIL], and two Ints have the same text
    only when they are the same integer. *)
Theorem ToString_two_levels (s : State) (v : ptr) :
  (∀ n : nat,
     ToString_fuel natives strconv_FormatFloat (2 + n) v s
     = ToString natives strconv_FormatFloat v s)
  ∧ (∀ (str : string) (s' : State),
       ToString natives strconv_FormatFloat v s = Returned str s' -> s' = s)
  ∧ ToString natives strconv_FormatFloat None s = Returned "NIL" s
  ∧ (∀ (w : ptr) (i j : Z),
       cell s v = Some (Int_cell i) -> cell s w = Some (Int_cell j) ->
       ToString natives strconv_FormatFloat v s
       = ToString natives strconv_FormatFloat w s ->
       i = j).
Proof.
  split; [|split; [|split]].
  - intros n. apply ToString_enough.
  - intros str s' H.
    apply (pure_read_ToString_fuel natives strconv_FormatFloat 2 v s str s' H).
  - reflexivity.
  - intros w i j Hv Hw E.
    unfold ToString in E.
    rewrite (ToString_element 2 v s (Int_cell i) (strconv_FormatInt i)) in E;
      [|lia|exact Hv|discriminate|reflexivity].
    rewrite (ToString_element 2 w s (Int_cell j) (strconv_FormatInt j)) in E;
      [|lia|exact Hw|discriminate|reflexivity].
    injection E as E. apply strconv_FormatInt_inj. exact E.
Qed.

End RenderingArrays.

Lemma ToString_array_text_witness :
  ToString ∅ (fun _ => "1.5") (Some 3%positive) nested_array
  = Returned "[7, ab, [...], null]" nested_array.
Proof.
  apply (ToString_array_text ∅ (fun _ => "1.5") nested_array (Some 3%positive)
           1%positive
           [Some 1%positive; Some 2%positive; Some 4%positive; Some 5%positive]
           [Int_cell 7; String_cell "ab"; Array_cell 1%positive;
            mkVMValue VMTypeNull INil]
           ["7"; "ab"; "[...]"; "null"]).
  - reflexivity.
  - reflexivity.
  - repeat constructor.
  - repeat constructor.
Defined.

(** ** Names of kinds, methods, powers *)

(** X27. [GetTypeName] reads the tag only.  The seven kinds of data have
    seven different names, so that two values with the same name have the
    same kind; the two kinds of functions have no name of their own, both
    are reported as [unknown]. *)
Theorem GetTypeName_kinds (s : State) (v w : ptr) (c cw : VMValue) :
  cell s v = Some c -> cell s w = Some cw ->
  (∃ name : string, GetTypeName v s = Returned name s)
  ∧ (function_kind (TypeId c) = true ->
     GetTypeName v s = Returned "unknown" s)
  ∧ (function_kind (TypeId c) = false ->
     GetTypeName v s = GetTypeName w s -> TypeId c = TypeId cw).
Proof.
  intros Hv Hw. unfold GetTypeName. go. split; [|split].
  - destruct (TypeId c); eexists; reflexivity.
  - destruct (TypeId c); try discriminate; reflexivity.
  - destruct (TypeId c), (TypeId cw); try discriminate; reflexivity.
Qed.

Lemma GetTypeName_kinds_witness :
  ∃ name : string,
    GetTypeName (Some 4%positive) sample_values = Returned name sample_values.
Proof.
  refine (proj1 (GetTypeName_kinds sample_values (Some 4%positive)
                   (Some 5%positive) (Array_cell 1%positive)
                   (String_cell "dice") _ _)).
  - reflexivity.
  - reflexivity.
Defined.

(** X28. A method call on a value answers with a new Undefined value,
    never [nil] and never an error, whenever the receiver is not an Array
    or the name is neither [kh] nor [kl].  The arguments of the call are
    not looked at: the result is the same with no argument. *)
Theorem CallFunc_unknown (s : State) (v : ptr) (c : VMValue) (name : string)
    (values : list ptr) :
  cell s v = Some c ->
  (TypeId c ≠ VMTypeArray ∨ (name ≠ "kh" ∧ name ≠ "kl") ->
   returns_new (CallFunc v name values) s Undefined_cell)
  ∧ CallFunc v name values s = CallFunc v name [] s.
Proof.
  intros Hv. split.
  - intros H. eapply returns_new_eq; [|apply new_value_returns].
    unfold CallFunc. go. destruct (TypeId c); try reflexivity.
    destruct H as [H|[H1 H2]]; [contradiction|].
    destruct (String.eqb_spec name "kh"); [contradiction|].
    destruct (String.eqb_spec name "kl"); [contradiction|]. reflexivity.
  - unfold CallFunc. go. reflexivity.
Qed.

Lemma CallFunc_unknown_witness :
  returns_new (CallFunc (Some 4%positive) "sum" [Some 1%positive]) sample_values
    Undefined_cell.
Proof.
  refine (proj1 (CallFunc_unknown sample_values (Some 4%positive)
                   (Array_cell 1%positive) "sum" [Some 1%positive] _) _).
  - reflexivity.
  - right. split; discriminate.
Defined.

(** X29. The power of two Ints goes through [float64]: the Ints are
    widened, [math.Pow] is applied, and the result is converted back to an
    integer.  So whenever [math.Pow] gives the float of an integer of
    magnitude up to 2^53, the result is that integer, with nothing lost;
    with a Float on either side the result is the Float that [math.Pow]
    gives. *)
Theorem OpPower_through_float
    (math_Pow : spec_float -> spec_float -> spec_float)
    (s : State) (v v2 : ptr) (a b : Z) :
  cell s v = Some (Int_cell a) -> cell s v2 = Some (Int_cell b) ->
  returns_new (OpPower math_Pow v v2) s
    (Int_cell (Float64.to_int64
                 (math_Pow (Float64.of_int64 a) (Float64.of_int64 b))))
  ∧ (∀ r : Z,
       exact_in_float64 r ->
       math_Pow (Float64.of_int64 a) (Float64.of_int64 b) = Float64.of_int64 r ->
       returns_new (OpPower math_Pow v v2) s (Int_cell r))
  ∧ (∀ (w : ptr) (f : spec_float),
       cell s w = Some (mkVMValue VMTypeFloat (IFloat64 f)) ->
       returns_new (OpPower math_Pow v w) s
         (mkVMValue VMTypeFloat (IFloat64 (math_Pow (Float64.of_int64 a) f)))
       ∧ returns_new (OpPower math_Pow w v) s
           (mkVMValue VMTypeFloat (IFloat64 (math_Pow f (Float64.of_int64 a))))).
Proof.
  unfold Int_cell. intros Hv Hv2.
  assert (H : returns_new (OpPower math_Pow v v2) s
            (mkVMValue VMTypeInt
               (IInt64 (Float64.to_int64
                          (math_Pow (Float64.of_int64 a) (Float64.of_int64 b)))))).
  { eapply returns_new_eq; [|apply new_value_returns].
    unfold OpPower, as_int64. go. reflexivity. }
  split; [exact H|]. split.
  - intros r Hr E. rewrite E, (to_of_int64 r Hr) in H. exact H.
  - intros w f Hw. split.
    + eapply returns_new_eq; [|apply new_value_returns].
      unfold OpPower, as_int64, as_float64. go. reflexivity.
    + eapply returns_new_eq; [|apply new_value_returns].
      unfold OpPower, as_int64, as_float64. go. reflexivity.
Qed.

Lemma OpPower_through_float_witness :
  returns_new (OpPower (fun x _ => x) (Some 1%positive) (Some 2%positive))
    two_Ints (Int_cell 7).
Proof.
  refine (proj1 (proj2 (OpPower_through_float (fun x _ => x) two_Ints
                          (Some 1%positive) (Some 2%positive) 7 2 _ _)) 7 _ _).
  - reflexivity.
  - reflexivity.
  - unfold exact_in_float64. lia.
  - reflexivity.
Defined.

(** ** What the slices leave aside *)

(** X30. The step of a slice is not used: [GetSlice] and [SetSlice] do the
    same for every step.  [GetSlice] gives up before it looks at the
    bounds in two cases, with the result [nil]: on a value that is neither
    an Array nor a String, with the error NotSliceable; and when an error
    is already pending in the context, which it leaves as it is. *)
Theorem GetSlice_gives_up (s : State) (v : ptr) (c : VMValue)
    (a b step step' : Z) :
  cell s v = Some c ->
  (GetSlice v a b step s = GetSlice v a b step' s
   ∧ ∀ val : ptr, SetSlice v a b step val s = SetSlice v a b step' val s)
  ∧ (TypeId c ≠ VMTypeArray -> TypeId c ≠ VMTypeString ->
     fails_with (GetSlice v a b step) s NotSliceable)
  ∧ (∀ len : Z,
       sliceable s v len -> Context.Error (ctx s) ≠ None ->
       GetSlice v a b step s = Returned None s).
Proof.
  intros Hv. split; [split; [reflexivity|intros val; reflexivity]|]. split.
  - intros H1 H2. unfold fails_with, GetSlice, Length. go.
    destruct (TypeId c); try contradiction; reflexivity.
  - intros len Hs Herr. unfold GetSlice. go.
    rewrite (Length_sliceable s v len Hs). go. rewrite get_Error_eq.
    destruct (Context.Error (ctx s)); [reflexivity|contradiction].
Qed.

Lemma GetSlice_gives_up_witness :
  fails_with (GetSlice (Some 1%positive) 0 1 2) sample_values NotSliceable.
Proof.
  refine (proj1 (proj2 (GetSlice_gives_up sample_values (Some 1%positive)
                          (Int_cell 10) 0 1 2 1 _)) _ _).
  - reflexivity.
  - discriminate.
  - discriminate.
Defined.
